(* ===== verification/_CoqProject ===== *)
-Q . S2P
Prelude.v
GoLib.v
Gotrax.v
Policy.v
Crypto.v
KeyManagement.v
Messages.v
Smp.v
Keys.v
Sexp.v
KeyFile.v
Conversation.v
Events.v
Fragmentation.v
SmpMachine.v
DataMessage.v
Ake.v
Frames.v
KeyMemory.v
Receive.v
Session.v
AkeExchange.v
EndToEnd.v
Privacy.v
Interface.v
AkeSafety.v
AkeKeys.v
Robust.v
