(* ===== verification/Prelude.v ===== *)
(** * otr3: a model of the Go implementation of Off-the-Record messaging

    The library under src/ lets two people talk privately over a network that
    carries text.  An application creates a [Conversation] per peer and passes
    what the user types through [Send] and what the network delivers through
    [Receive].  Behind these two calls are a key exchange (AKE) that agrees on
    keys and authenticates the peer, data messages that are encrypted,
    authenticated and numbered under keys that rotate, the socialist
    millionaires' protocol (SMP) that compares two secrets, fragmentation for
    networks that limit messages, and the negotiation of a version by query
    messages and whitespace tags.  This development translates that code to
    executable definitions and proves what makes it correct; where the code
    does not do what it means to, a theorem says what it does instead.

    ** The parts of the program and the files that model them

    - [Prelude] (this file): bytes, machine integers, big-endian numbers, the
      monad of the model with its rules and tactics.
    - [GoLib]: what the code uses of the Go standard library ([bytes],
      [strconv], [fmt], [encoding/base64], [math/big]); b64.go.
    - [Gotrax]: the wire primitives of vendor/github.com/coyim/gotrax.
    - [Policy]: errors.go and policy.go.
    - [Crypto]: dh.go, bn_utils.go, hash.go, the lengths and hashes of otrv2.go
      and otrv3.go, the key derivation of key_management.go and ake.go.  A method
      of the interface [otrVersion] is one definition per version
      ([otrV2_hash], [otrV3_hash]) and one that dispatches.  The group is the class [DHGroup]; AES, SHA-1, SHA-256 and DSA
      are the class [Crypto], with the documented laws the theorems need in
      [CryptoLaws] and, in [Keys], [DsaLaws].
    - [KeyManagement]: key_management.go, the table of keys, counters and MAC
      keys of a session, and random.go.
    - [Messages]: messages.go and tlv.go, the encodings.
    - [Smp], [SmpMachine]: smp.go, smp_msg1.go to smp_msg4.go (the proofs) and
      smp_state_machine.go, authenticate.go (the state machine).
    - [Keys], [Sexp], [KeyFile]: keys.go and the package sexp: DSA keys, their
      encodings, and the import and export of key files.
    - [Conversation], [Events]: the record [Conversation] of conversation.go
      with one field per field of the struct, the events (message_events.go,
      security_events.go, smp_events.go, error_codes.go), version.go and the
      message headers of otrv2.go and otrv3.go.
    - [Fragmentation]: fragmentation.go and the fragment prefixes of otrv2.go
      and otrv3.go.
    - [DataMessage]: data_message.go, resend.go, heartbeat.go, extra_key.go,
      disconnect.go, [End].
    - [Ake]: ake.go, auth_state_machine.go, what wipe.go leaves as values.
    - [KeyMemory]: wipe.go and key_management.go once more, on a heap of numbers,
      byte arrays and counters behind pointers, with the steps in which a
      conversation changes its keys.
    - [Receive]: receive.go, send.go, query.go, whitespace.go, message_type.go,
      inject_message.go, ssid.go, debug.go.

    The remaining files hold theorems about the composition: [Session] and
    [EndToEnd] about two conversations and the network between them,
    [AkeExchange] the runs of the key exchange they use, [AkeSafety], [AkeKeys],
    [Privacy] and [Interface] about one conversation against arbitrary input,
    [Robust] about every call of the interface on one conversation.  [Frames]
    holds what the actions of a conversation leave alone.

    ** How the code is translated

    A Go function that reads or changes a conversation is a definition in the
    monad [GoM Conversation] (abbreviated [M]): it takes the conversation and
    returns [Done] with its result and the conversation as it is afterwards, or
    [Panicked].  Slices out of range, nil pointers, a stack or a memory without
    end are panics, so a theorem that a call returns also says it does not
    panic.  Errors of the code are values ([result], or an optional error beside
    the result), in the code's order of checks.  Definitions keep the names of
    the code; a method of several types carries the type
    ([dataMsg_serialize]).  Integers are [Z] with the truncation of their width
    written out ([u16], [u32], [u64]); big numbers are [Z], pointers to them
    [option Z]; byte slices and strings are lists of bytes.

    What the code takes from outside is part of the state: [c_Rand] is the
    random source, a stream whose end is a read error; [env_now] is the clock;
    [env_events] records the calls of the application's handlers; [env_fresh]
    is the next address, because public keys are compared by address.

    ** What the theorems show

    - The session ([session_delivers], [ake_establishes_session],
      [otr_end_to_end]): from the query message on, two honest conversations
      agree on version, session id, keys and each other's identity, and every
      text arrives once, in order and unchanged, for every interleaving of
      sending, receiving and time, across key rotations.  The conditions (a
      version in common, keys that sign, a random source that delivers, messages
      that need no fragments) are named in each theorem.
    - Safety of the key exchange against arbitrary messages
      ([processAKE_follows_protocol], [session_keys_authenticated]): with and
      without a live session and texts waiting to be sent again, it never panics,
      it follows the protocol's automaton, and a session is installed only after
      a verified signature over both Diffie-Hellman values.
    - Every call ([calls_keep_conversation], [reached_calls_safe]): an invariant
      of the whole conversation holds from its creation on, after every sequence
      of calls with arbitrary bytes and of settings, as long as version 2 is not
      allowed and the keys can sign; a call panics only for the causes the
      theorem names: data messages that are cut off, numbers too short to
      encrypt, fragment sizes, nested fragments, a debug dump before there is
      anything to print, and authentications without a state or a key.
    - Safety of data messages ([delivered_text_is_authentic], the counter and
      key rotation theorems of [KeyManagement], [send_without_session],
      [disconnect_ends_session]).
    - SMP: honest runs are accepted and decide equality of the secrets
      ([smp_decides_equality], [smp_exchange_decides]); the state machine takes
      messages in the protocol's order, and in version 3 it panics exactly when
      a secret is provided without a state ([smp_v3_panics_only_without_state]).
    - The memory of the keys ([key_memory_refines], [retired_keys_erased],
      [dropped_secrets_stay]): for every sequence of steps the code on pointers
      implements the values of the other files without sharing memory between
      live keys; which secrets are zero afterwards, and which ones stay behind.
    - Encodings: round trips of all messages, keys, fragments, whitespace tags
      and key files.
    - Defects: a message that crashes the process, forged messages that block
      genuine ones, drop waiting texts or repeat sent ones, a simultaneous start
      that stalls, inputs on which parsing panics or does not end, secrets that
      stay in memory.  Each is a theorem with general hypotheses and a concrete
      witness.

    ** Bounds and fuel

    [receiveUnit] calls itself once a fragment completes a message; its fuel is
    the depth of that recursion, and the theorems that a call returns give it
    explicitly, [nested_fragment_overflows] shows an input no depth is enough
    for.  In [Sexp], [depth] is the stack; [Read_grammar] bounds it by twice the
    length of the text.  Loops over input run at most once per byte left, which
    the accompanying lemmas show to be enough ([parameterLoop_enough],
    [skipLoop_run]).  Theorems over machine integers state the ranges they need.

    ** Not modelled

    - Concurrency: a conversation is used by one goroutine; the lock of the
      resend queue in resend.go is never contended then and is left out.
    - The limit of the memory, but for loops that allocate without end:
      [ExtractMPIs] allocates as many pointers as a message announces, up to
      2^32 - 1, before it reads them, and the model takes that to succeed.
    - Memory other than that of the keys: the plaintexts, the secrets of SMP and
      the copies that math/big and the garbage collector make are values without
      an address.  The words of a big number are one word of the heap.
    - Opening and writing files, the printing of the debug event handlers, and
      the generation of DSA keys, which draws from crypto/rand inside
      crypto/dsa; [GenerateMissingKeys] takes its outcome as an argument.
    - compat/ and the tests: they only call the library.
    - Computational hardness: the theorems are about what is checked, not about
      what an attacker can compute. *)

From Stdlib Require Export ZArith Lia Bool.
From Stdlib Require Strings.Byte.
From Stdlib Require Export String.
From stdpp Require Export base list numbers option decidable strings sets.

#[global] Open Scope Z_scope.

Declare Scope otr_scope.
Delimit Scope otr_scope with otr.
#[global] Open Scope otr_scope.

(** ** Bytes *)

Abbreviation byte := Byte.byte.

#[global] Instance byte_eq_dec : EqDecision byte := Byte.byte_eq_dec.
#[global] Instance byte_inhabited : Inhabited byte := populate Byte.x00.

Definition b2z (b : byte) : Z := Z.of_N (Byte.to_N b).
Definition z2b (z : Z) : byte := default Byte.x00 (Byte.of_N (Z.to_N (z mod 256))).

(** A Go string literal as the bytes it denotes. *)
Definition bs (s : string) : list byte := String.list_byte_of_string s.

(** [len(s)] as a Go [int]. *)
Definition len {A} (l : list A) : Z := Z.of_nat (length l).

(** ** Unsigned machine integers *)

Definition u8 (z : Z) : Z := z mod 2 ^ 8.
Definition u16 (z : Z) : Z := z mod 2 ^ 16.
Definition u32 (z : Z) : Z := z mod 2 ^ 32.
Definition u64 (z : Z) : Z := z mod 2 ^ 64.

(** ** Run-time panics and the error values of Go *)

Inductive panic := SliceBounds | IndexOutOfRange | NilDeref | StackOverflow | OutOfMemory | Raised (value : string).

Inductive go (A : Type) := Done (a : A) | Panicked (p : panic).
Arguments Done {A} a.
Arguments Panicked {A} p.

#[global] Instance go_ret : MRet go := fun A a => Done a.
#[global] Instance go_bind : MBind go := fun A B f m =>
  match m with Done a => f a | Panicked p => Panicked p end.

(** Stateful code: [S] is the state the receiver pointer reaches. *)
Definition GoM (S A : Type) : Type := S -> go (A * S).

#[global] Instance gom_ret {S} : MRet (GoM S) := fun A a s => Done (a, s).
#[global] Instance gom_bind {S} : MBind (GoM S) := fun A B f m s =>
  match m s with Done (a, s') => f a s' | Panicked p => Panicked p end.

Definition gget {S} : GoM S S := fun s => Done (s, s).
Definition gput {S} (s : S) : GoM S unit := fun _ => Done (tt, s).
Definition gmod {S} (f : S -> S) : GoM S unit := fun s => Done (tt, f s).
Definition glift {S A} (m : go A) : GoM S A := fun s =>
  match m with Done a => Done (a, s) | Panicked p => Panicked p end.

(** The [error] interface: an [OtrError] of errors.go, or an error value of
    another package. *)
Inductive error :=
  | OtrError (msg : string) (conflict : bool)
  | ForeignError (msg : string).

#[global] Instance error_eq_dec : EqDecision error.
Proof. solve_decision. Defined.

Inductive result (A : Type) := Ok (a : A) | Err (e : error).
Arguments Ok {A} a.
Arguments Err {A} e.

(** [if err != nil { return ..., err }] *)
Definition tryb {S A B} (m : GoM S (result A)) (k : A -> GoM S (result B)) : GoM S (result B) :=
  m ≫= fun r => match r with Ok a => k a | Err e => mret (Err e) end.

Notation "x ←? y ; z" := (tryb y (fun x : _ => z))
  (at level 20, y at level 100, z at level 200, only parsing) : otr_scope.

(** [s[i:j]] *)
Definition slice {A} (l : list A) (i j : Z) : go (list A) :=
  if (0 <=? i) && (i <=? j) && (j <=? len l)
  then Done (take (Z.to_nat (j - i)) (drop (Z.to_nat i) l))
  else Panicked SliceBounds.

(** Dereferencing a possibly nil pointer. *)
Definition deref {A} (o : option A) : go A :=
  match o with Some a => Done a | None => Panicked NilDeref end.

(** ** Big-endian numbers *)

Fixpoint be_encode (n : nat) (z : Z) : list byte :=
  match n with
  | O => []
  | S n' => be_encode n' (z / 256) ++ [z2b z]
  end.

Definition be_decode (l : list byte) : Z :=
  fold_left (fun acc b => acc * 256 + b2z b) l 0.

(** ** Record update *)

(** [eta r] rebuilds a record field by field; [r <| f := v |>] replaces the
    occurrence of [f r] in it. *)
Class Eta (R : Type) := eta : R -> R.
Class Update {R T : Type} (f : R -> T) := upd : T -> R -> R.
Arguments upd {R T} f {_} v r /.

Ltac solve_update :=
  match goal with
  | |- @Update ?R ?T ?f =>
      let v := fresh "v" in let r := fresh "r" in
      intros v r;
      let e := constr:(@eta R _ r) in
      let h := match e with @eta _ ?i _ => i end in
      let e := eval cbv beta delta [eta h] in e in
      let e' := eval pattern (f r) in e in
      match e' with ?g _ => let t := eval cbv beta in (g v) in exact t end
  end.
#[export] Hint Extern 1 (Update _) => solve_update : typeclass_instances.

Notation "r <| f := v |>" := (upd f v r)
  (at level 1, f at level 9, v at level 200, left associativity,
   format "r  <| f  :=  v |>") : otr_scope.

(** ** Lemmas *)

Create HintDb otr.

Lemma b2z_range b : 0 <= b2z b < 256.
Proof. unfold b2z. pose proof (Byte.to_N_bounded b). lia. Qed.
#[export] Hint Resolve b2z_range : otr.

Lemma b2z_inj b1 b2 : b2z b1 = b2z b2 -> b1 = b2.
Proof.
  unfold b2z. intros H%N2Z.inj.
  pose proof (Byte.of_to_N b1) as H1. pose proof (Byte.of_to_N b2) as H2.
  rewrite H in H1. congruence.
Qed.

Lemma b2z_z2b z : b2z (z2b z) = z mod 256.
Proof.
  unfold b2z, z2b. pose proof (Z.mod_pos_bound z 256 ltac:(lia)).
  destruct (Byte.of_N (Z.to_N (z mod 256))) eqn:E; simpl.
  - apply Byte.to_of_N in E. rewrite E. rewrite Z2N.id; lia.
  - apply Byte.of_N_None_iff in E. lia.
Qed.

Lemma z2b_b2z b : z2b (b2z b) = b.
Proof. apply b2z_inj. rewrite b2z_z2b. apply Z.mod_small, b2z_range. Qed.

Lemma z2b_mod z : z2b (z mod 256) = z2b z.
Proof. apply b2z_inj. rewrite !b2z_z2b, Z.mod_mod; lia. Qed.

Lemma length_be_encode n z : length (be_encode n z) = n.
Proof. revert z; induction n; intros; simpl; rewrite ?length_app, ?IHn; simpl; lia. Qed.

Lemma be_decode_snoc l b : be_decode (l ++ [b]) = be_decode l * 256 + b2z b.
Proof. unfold be_decode. by rewrite fold_left_app. Qed.

Lemma be_decode_nonneg l : 0 <= be_decode l.
Proof.
  induction l as [|b l IH] using rev_ind; [done|].
  rewrite be_decode_snoc. pose proof (b2z_range b). lia.
Qed.

Lemma pow256_S n : 256 ^ Z.of_nat (S n) = 256 ^ Z.of_nat n * 256.
Proof. rewrite Nat2Z.inj_succ, Z.pow_succ_r; lia. Qed.

Lemma pow256_pos n : 0 < 256 ^ Z.of_nat n.
Proof. apply Z.pow_pos_nonneg; lia. Qed.
#[export] Hint Resolve be_decode_nonneg pow256_pos : otr.

Lemma be_decode_bound l : be_decode l < 256 ^ len l.
Proof.
  induction l as [|b l IH] using rev_ind; [done|].
  unfold len in *. rewrite be_decode_snoc, length_app, Nat.add_comm. simpl Nat.add.
  rewrite pow256_S. pose proof (b2z_range b). lia.
Qed.

(** Decoding inverts encoding up to the width of the field. *)
Lemma be_decode_encode n z : be_decode (be_encode n z) = z mod 256 ^ Z.of_nat n.
Proof.
  revert z; induction n as [|n IH]; intros z.
  - simpl. by rewrite Z.mod_1_r.
  - simpl be_encode. rewrite be_decode_snoc, IH, b2z_z2b, pow256_S.
    pose proof (pow256_pos n). rewrite (Z.mul_comm (256 ^ _)), Z.rem_mul_r by lia. lia.
Qed.

Lemma be_decode_encode_small n z :
  0 <= z < 256 ^ Z.of_nat n -> be_decode (be_encode n z) = z.
Proof. intros. rewrite be_decode_encode. by apply Z.mod_small. Qed.

(** Encoding at the width of the string inverts decoding. *)
Lemma be_encode_decode l : be_encode (length l) (be_decode l) = l.
Proof.
  induction l as [|b l IH] using rev_ind; [done|].
  rewrite length_app, Nat.add_comm. simpl Nat.add. simpl be_encode.
  rewrite be_decode_snoc. pose proof (b2z_range b).
  rewrite Z.div_add_l, (Z.div_small (b2z b)), Z.add_0_r, IH by lia.
  f_equal. f_equal. apply b2z_inj. rewrite b2z_z2b.
  rewrite Z.add_comm, Z.mod_add by lia. apply Z.mod_small. lia.
Qed.

Lemma be_encode_mod n z : be_encode n (z mod 256 ^ Z.of_nat n) = be_encode n z.
Proof.
  rewrite <- be_decode_encode.
  transitivity (be_encode (length (be_encode n z)) (be_decode (be_encode n z))).
  - by rewrite length_be_encode.
  - apply be_encode_decode.
Qed.

(** ** Lists *)

Lemma len_app {A} (l k : list A) : len (l ++ k) = len l + len k.
Proof. unfold len. rewrite length_app. lia. Qed.

Lemma len_nonneg {A} (l : list A) : 0 <= len l.
Proof. unfold len. lia. Qed.
#[export] Hint Resolve len_nonneg : otr.

Lemma len_cons {A} (x : A) l : len (x :: l) = 1 + len l.
Proof. unfold len. simpl length. lia. Qed.

Lemma len_nil {A} : len (@nil A) = 0.
Proof. done. Qed.

Lemma len_zero {A} (l : list A) : len l = 0 -> l = [].
Proof. destruct l; [done|]. rewrite len_cons. pose proof (len_nonneg l). lia. Qed.

Create Rewrite HintDb len.
#[export] Hint Rewrite @len_app @len_cons @len_nil : len.

Lemma take_app_len {A} (l k : list A) n : Z.to_nat n = length l -> take (Z.to_nat n) (l ++ k) = l.
Proof. intros ->. by rewrite take_app_length. Qed.

Lemma drop_app_len {A} (l k : list A) n : Z.to_nat n = length l -> drop (Z.to_nat n) (l ++ k) = k.
Proof. intros ->. by rewrite drop_app_length. Qed.

(** A slice expression within bounds does not panic. *)
Lemma slice_ok {A} (l : list A) i j :
  0 <= i <= j -> j <= len l -> slice l i j = Done (take (Z.to_nat (j - i)) (drop (Z.to_nat i) l)).
Proof.
  intros [] ?. unfold slice.
  repeat match goal with |- context [?a <=? ?b] => destruct (Z.leb_spec a b); [|lia] end. done.
Qed.

Lemma slice_prefix {A} (a b : list A) n : n = len a -> slice (a ++ b) 0 n = Done a.
Proof.
  intros ->. pose proof (len_nonneg a). pose proof (len_nonneg b).
  rewrite slice_ok by (rewrite ?len_app; lia). change (Z.to_nat 0) with 0%nat.
  rewrite drop_0, Z.sub_0_r, take_app_len; [done|]. unfold len. lia.
Qed.

Lemma slice_suffix {A} (a b : list A) n m : n = len a -> m = len (a ++ b) -> slice (a ++ b) n m = Done b.
Proof.
  intros -> ->. pose proof (len_nonneg a). pose proof (len_nonneg b).
  rewrite slice_ok by (rewrite ?len_app; lia). rewrite len_app, drop_app_len by (unfold len; lia).
  rewrite take_ge; [done|]. unfold len. lia.
Qed.

Lemma slice_from {A} (l : list A) i : 0 <= i <= len l -> slice l i (len l) = Done (drop (Z.to_nat i) l).
Proof.
  intros Hi. rewrite slice_ok by lia. f_equal. apply take_ge.
  rewrite length_drop. unfold len in *. lia.
Qed.

Lemma slice_panics {A} (l : list A) i j :
  i < 0 \/ j < i \/ len l < j -> slice l i j = Panicked SliceBounds.
Proof.
  intros H. unfold slice.
  repeat match goal with |- context [?a <=? ?b] => destruct (Z.leb_spec a b); simpl; try done end.
  lia.
Qed.

(** ** Monad laws *)

Lemma gom_bind_ret_l {S A B} (a : A) (f : A -> GoM S B) s : (mret a ≫= f) s = f a s.
Proof. done. Qed.

(** Running the first action of a sequence. *)
Lemma bind_panicked {S A B} (m : GoM S A) (f : A -> GoM S B) s p : m s = Panicked p -> (m ≫= f) s = Panicked p.
Proof. intros E. unfold mbind, gom_bind. by rewrite E. Qed.

Lemma bind_done {S A B} (m : GoM S A) (f : A -> GoM S B) s a s' : m s = Done (a, s') -> (m ≫= f) s = f a s'.
Proof. intros H. unfold mbind, gom_bind. by rewrite H. Qed.

Lemma tryb_ok {S A B} (m : GoM S (result A)) (f : A -> GoM S (result B)) s a s' :
  m s = Done (Ok a, s') -> tryb m f s = f a s'.
Proof. intros H. unfold tryb. by rewrite (bind_done _ _ _ _ _ H). Qed.

Lemma tryb_err {S A B} (m : GoM S (result A)) (f : A -> GoM S (result B)) s e s' :
  m s = Done (Err e, s') -> tryb m f s = Done (Err e, s').
Proof. intros H. unfold tryb. by rewrite (bind_done _ _ _ _ _ H). Qed.

Lemma bind_gget {S B} (f : S -> GoM S B) s : (gget ≫= f) s = f s s.
Proof. done. Qed.

Lemma bind_gmod {S B} (g : S -> S) (f : unit -> GoM S B) s : (gmod g ≫= f) s = f tt (g s).
Proof. done. Qed.

Lemma bind_glift {S A B} (m : go A) a (f : A -> GoM S B) s : m = Done a -> (glift m ≫= f) s = f a s.
Proof. by intros ->. Qed.

(** Total correctness: the action does not panic and its outcome satisfies
    the postcondition. *)
Definition wp {S A} (m : GoM S A) (s : S) (P : A -> S -> Prop) : Prop :=
  match m s with Done (a, s') => P a s' | Panicked _ => False end.

Lemma wp_ret {S A} (a : A) (s : S) (P : A -> S -> Prop) : P a s -> wp (mret a) s P.
Proof. done. Qed.

Lemma wp_bind {S A B} (m : GoM S A) (f : A -> GoM S B) s P :
  wp m s (fun a s' => wp (f a) s' P) -> wp (m ≫= f) s P.
Proof. unfold wp, mbind, gom_bind. by destruct (m s) as [[a s']|]. Qed.

Lemma wp_tryb {S A B} (m : GoM S (result A)) (f : A -> GoM S (result B)) s P :
  wp m s (fun r s' => match r with Ok a => wp (f a) s' P | Err e => P (Err e) s' end) -> wp (tryb m f) s P.
Proof. intros H. apply wp_bind. unfold wp in *. by destruct (m s) as [[[a|e] s']|]. Qed.

Lemma wp_mono {S A} (m : GoM S A) s (P Q : A -> S -> Prop) :
  wp m s P -> (forall a s', P a s' -> Q a s') -> wp m s Q.
Proof. unfold wp. destruct (m s) as [[a s']|]; auto. Qed.

Lemma wp_gget {S} (s : S) (P : S -> S -> Prop) : P s s -> wp gget s P.
Proof. done. Qed.

Lemma wp_gmod {S} (f : S -> S) s (P : unit -> S -> Prop) : P tt (f s) -> wp (gmod f) s P.
Proof. done. Qed.

Lemma wp_glift {S A} (m : go A) a (s : S) (P : A -> S -> Prop) : m = Done a -> P a s -> wp (glift m) s P.
Proof. by intros ->. Qed.

Lemma wp_done {S A} (m : GoM S A) s a s' (P : A -> S -> Prop) : m s = Done (a, s') -> P a s' -> wp m s P.
Proof. unfold wp. by intros ->. Qed.

Lemma wp_bind_done {S A B} (m : GoM S A) (f : A -> GoM S B) s a s' P : m s = Done (a, s') -> wp (f a) s' P -> wp (m ≫= f) s P.
Proof. intros Hm Hf. apply wp_bind. unfold wp at 1. by rewrite Hm. Qed.

Lemma wp_inv {S A} (m : GoM S A) s (P : A -> S -> Prop) : wp m s P -> exists a s', m s = Done (a, s') /\ P a s'.
Proof. unfold wp. destruct (m s) as [[a s']|]; [eauto|done]. Qed.

(** Partial correctness: an action that does not panic ends in the
    postcondition. *)
Definition wlp {S A} (m : GoM S A) (s : S) (P : A -> S -> Prop) : Prop :=
  match m s with Done (a, s') => P a s' | Panicked _ => True end.

Lemma wlp_ret {S A} (a : A) (s : S) (P : A -> S -> Prop) : P a s -> wlp (mret a) s P.
Proof. done. Qed.

Lemma wlp_bind {S A B} (m : GoM S A) (f : A -> GoM S B) s P :
  wlp m s (fun a s' => wlp (f a) s' P) -> wlp (m ≫= f) s P.
Proof. unfold wlp, mbind, gom_bind. by destruct (m s) as [[a s']|]. Qed.

Lemma wlp_tryb {S A B} (m : GoM S (result A)) (f : A -> GoM S (result B)) s P :
  wlp m s (fun r s' => match r with Ok a => wlp (f a) s' P | Err e => P (Err e) s' end) -> wlp (tryb m f) s P.
Proof. intros H. apply wlp_bind. unfold wlp in *. by destruct (m s) as [[[a|e] s']|]. Qed.

Lemma wlp_mono {S A} (m : GoM S A) s (P Q : A -> S -> Prop) :
  wlp m s P -> (forall a s', P a s' -> Q a s') -> wlp m s Q.
Proof. unfold wlp. destruct (m s) as [[a s']|]; auto. Qed.

Lemma wlp_gget {S} (s : S) (P : S -> S -> Prop) : P s s -> wlp gget s P.
Proof. done. Qed.

Lemma wlp_gmod {S} (f : S -> S) s (P : unit -> S -> Prop) : P tt (f s) -> wlp (gmod f) s P.
Proof. done. Qed.

Lemma wlp_glift {S A} (m : go A) (s : S) (P : A -> S -> Prop) : (forall a, m = Done a -> P a s) -> wlp (glift m) s P.
Proof. unfold wlp, glift. destruct m; auto. Qed.

Lemma wlp_any {S A} (m : GoM S A) s (P : A -> S -> Prop) : (forall a s', P a s') -> wlp m s P.
Proof. unfold wlp. intros. by destruct (m s) as [[a s']|]. Qed.

Lemma wlp_use {S A} (m : GoM S A) s a s' (P : A -> S -> Prop) : wlp m s P -> m s = Done (a, s') -> P a s'.
Proof. unfold wlp. by intros H E; rewrite E in H. Qed.

Lemma wlp_intro {S A} (m : GoM S A) s (P : A -> S -> Prop) :
  (forall a s', m s = Done (a, s') -> P a s') -> wlp m s P.
Proof. unfold wlp. intros H. destruct (m s) as [[a s']|]; auto. Qed.

Lemma gom_bind_assoc {S A B C} (m : GoM S A) (f : A -> GoM S B) (g : B -> GoM S C) s :
  ((m ≫= f) ≫= g) s = (m ≫= (fun a => f a ≫= g)) s.
Proof. unfold mbind, gom_bind. by destruct (m s) as [[]|]. Qed.

(** ** Tactics *)

(** Split every boolean comparison of the goal or the context into its
    arithmetic meaning. *)
Ltac split_cmp :=
  repeat match goal with
  | |- context [?a <=? ?b] => destruct (Z.leb_spec a b)
  | |- context [?a <? ?b] => destruct (Z.ltb_spec a b)
  | |- context [?a =? ?b] => destruct (Z.eqb_spec a b)
  | H : context [?a <=? ?b] |- _ => destruct (Z.leb_spec a b)
  | H : context [?a <? ?b] |- _ => destruct (Z.ltb_spec a b)
  | H : context [?a =? ?b] |- _ => destruct (Z.eqb_spec a b)
  end.

(** [lia] with quotients and remainders by constants. *)
Ltac dlia := Z.to_euclidean_division_equations; lia.

(** Run one step of a monadic definition whose first action is known. *)
Ltac go_simpl := unfold mbind, gom_bind, go_bind, mret, gom_ret, go_ret, tryb, gget, gput, gmod, glift; cbn beta iota zeta.

Tactic Notation "go_simpl" "in" hyp(H) :=
  unfold mbind, gom_bind, go_bind, mret, gom_ret, go_ret, tryb, gget, gput, gmod, glift in H; cbn beta iota zeta in H.

(** Step over the first action of a sequence, whose outcome [H] states. *)
Ltac step_done H := cbn beta iota zeta; first [rewrite (bind_done _ _ _ _ _ H) | rewrite (tryb_ok _ _ _ _ _ H) | rewrite (tryb_err _ _ _ _ _ H)]; cbn beta iota.

(** Step over the reads and updates of the state at the head of a sequence. *)
Ltac step_state := repeat first [rewrite bind_gget | rewrite bind_gmod | rewrite gom_bind_ret_l]; cbn beta iota zeta.

(** Step over a pure action whose value is [a] by computation. *)
Ltac step_lift a :=
  match goal with |- context [(glift ?m ≫= ?f) ?s] => rewrite (bind_glift m a f s eq_refl) end; cbn beta iota zeta.

(** One step of a [wp] goal. *)
Ltac wp_step :=
  cbn beta iota zeta;
  match goal with
  | |- wp (_ ≫= _) _ _ => apply wp_bind
  | |- wp (tryb _ _) _ _ => apply wp_tryb
  | |- wp (mret _) _ _ => apply wp_ret
  | |- wp gget _ _ => apply wp_gget
  | |- wp (gmod _) _ _ => apply wp_gmod
  end.

(** The action returns with an outcome that satisfies [P], or it panics with a
    cause in [E]. *)
Definition wpx {S A} (E : panic -> Prop) (m : GoM S A) (s : S) (P : A -> S -> Prop) : Prop :=
  match m s with Done (a, s') => P a s' | Panicked p => E p end.

Lemma wpx_of_wp {S A} E (m : GoM S A) s P : wp m s P -> wpx E m s P.
Proof. unfold wp, wpx. by destruct (m s) as [[a s']|p]. Qed.

Lemma wpx_ret {S A} E (a : A) (s : S) (P : A -> S -> Prop) : P a s -> wpx E (mret a) s P.
Proof. done. Qed.

Lemma wpx_bind {S A B} E (m : GoM S A) (f : A -> GoM S B) s P :
  wpx E m s (fun a s' => wpx E (f a) s' P) -> wpx E (m ≫= f) s P.
Proof. unfold wpx, mbind, gom_bind. by destruct (m s) as [[a s']|p]. Qed.

Lemma wpx_done {S A B} E (m : GoM S A) (f : A -> GoM S B) s a s' P : m s = Done (a, s') -> wpx E (f a) s' P -> wpx E (m ≫= f) s P.
Proof. unfold wpx, mbind, gom_bind. by intros ->. Qed.

Lemma wpx_mono {S A} E (m : GoM S A) s (P Q : A -> S -> Prop) :
  wpx E m s P -> (forall a s', P a s' -> Q a s') -> wpx E m s Q.
Proof. unfold wpx. destruct (m s) as [[a s']|p]; auto. Qed.

Lemma wpx_weaken {S A} (E E' : panic -> Prop) (m : GoM S A) s P : wpx E m s P -> (forall p, E p -> E' p) -> wpx E' m s P.
Proof. unfold wpx. destruct (m s) as [[a s']|p]; auto. Qed.

(** Step over a first action known to end as [H] says. *)
Ltac wp_run H := unfold tryb; eapply wp_bind_done; [exact H|]; cbn beta iota zeta.

(** Step over a first action by its specification [H]. *)
Ltac wp_spec H := unfold tryb; apply wp_bind; eapply wp_mono; [eapply H|]; cbn beta iota zeta.

Ltac wlp_step :=
  cbn beta iota zeta;
  match goal with
  | |- wlp (_ ≫= _) _ _ => apply wlp_bind
  | |- wlp (tryb _ _) _ _ => apply wlp_tryb
  | |- wlp (mret _) _ _ => apply wlp_ret
  | |- wlp gget _ _ => apply wlp_gget
  | |- wlp (gmod _) _ _ => apply wlp_gmod
  | |- wlp (glift _) _ _ => apply wlp_glift; intros
  | |- wlp (if ?b then _ else _) _ _ => destruct b eqn:?
  | |- wlp (match ?x with _ => _ end) _ _ => destruct x eqn:?
  end.

(** Read a field of an updated record, wherever one occurs. *)
Ltac rec_simpl :=
  repeat match goal with
  | |- context [?p (@upd ?R ?T ?f ?i ?v ?r)] =>
      is_const p;
      first
        [ constr_eq p f; rewrite (((fun _ _ => eq_refl) : forall a b, p (@upd R T f i a b) = a) v r)
        | rewrite (((fun _ _ => eq_refl) : forall a b, p (@upd R T f i a b) = p b) v r) ]
  end.

Ltac destruct_done H :=
  match type of H with
  | context [match ?m with Done _ => _ | Panicked _ => _ end] =>
      let E := fresh "E" in destruct m as [|] eqn:E; [|discriminate H]
  end.
