(* ===== verification/GoLib.v ===== *)
(** * The parts of the Go standard library that otr3 computes with

    Byte-string searching and splitting (package [bytes]), integer parsing and
    printing ([strconv], [fmt]), the standard base64 encoding
    ([encoding/base64], wrapped by b64.go) and the conversions of [big.Int]
    to and from big-endian bytes.  Everything is executable; the lemmas are the
    round trips the message formats rely on. *)

From S2P Require Import Prelude.

(** ** Package [bytes] *)

Definition HasPrefix (s prefix : list byte) : bool :=
  bool_decide (take (length prefix) s = prefix).

Fixpoint Index (s sep : list byte) : Z :=
  if HasPrefix s sep then 0
  else match s with
       | [] => -1
       | _ :: s' => let r := Index s' sep in if r =? -1 then -1 else r + 1
       end.

Definition IndexByte (s : list byte) (c : byte) : Z := Index s [c].

(** [bytes.Split] with a one-byte separator. *)
Fixpoint Split (s : list byte) (sep : byte) : list (list byte) :=
  match s with
  | [] => [[]]
  | c :: s' =>
      if decide (c = sep) then [] :: Split s' sep
      else match Split s' sep with
           | [] => [[c]]
           | p :: ps => (c :: p) :: ps
           end
  end.

(** [bytes.Compare]: -1, 0 or 1. *)
Fixpoint Compare (a b : list byte) : Z :=
  match a, b with
  | [], [] => 0
  | [], _ :: _ => -1
  | _ :: _, [] => 1
  | x :: a', y :: b' =>
      if b2z x <? b2z y then -1 else if b2z y <? b2z x then 1 else Compare a' b'
  end.

(** ** Numbers in text *)

Fixpoint to_base (b : Z) (fuel : nat) (n : Z) : list Z :=
  match fuel with
  | O => []
  | S f => (if n / b =? 0 then [] else to_base b f (n / b)) ++ [n mod b]
  end.

(** The digits of a non-negative number; [log2] of it bounds their count. *)
Definition digits (b n : Z) : list Z := to_base b (S (Z.to_nat (Z.log2 n))) n.

Definition of_digits (b : Z) (ds : list Z) : Z :=
  fold_left (fun a d => a * b + d) ds 0.

Definition digit_char (upper : bool) (d : Z) : byte :=
  if d <? 10 then z2b (48 + d) else z2b ((if upper then 55 else 87) + d).

Definition char_digit (c : byte) : option Z :=
  let z := b2z c in
  if (48 <=? z) && (z <=? 57) then Some (z - 48)
  else if (97 <=? z) && (z <=? 102) then Some (z - 87)
  else if (65 <=? z) && (z <=? 70) then Some (z - 55)
  else None.

Definition format_base (upper : bool) (b n : Z) : list byte :=
  map (digit_char upper) (digits b n).

(** Zero padding of the verbs [%05d] and [%08x]. *)
Definition pad0 (width : nat) (s : list byte) : list byte :=
  replicate (width - length s) (z2b 48) ++ s.

Fixpoint parse_digits (b : Z) (s : list byte) (acc : Z) : option Z :=
  match s with
  | [] => Some acc
  | c :: s' =>
      match char_digit c with
      | Some d => if d <? b then parse_digits b s' (acc * b + d) else None
      | None => None
      end
  end.

Definition strconv_error : error := ForeignError "strconv: parsing error".

(** [strconv.ParseInt(s, base, 0)] for a base of at most 16, [int] being 64
    bits wide; [strconv.Atoi] is base 10. *)
Definition ParseInt (s : list byte) (base : Z) : result Z :=
  let '(neg, s1) :=
    match s with
    | c :: s' => if b2z c =? 45 then (true, s') else if b2z c =? 43 then (false, s') else (false, s)
    | [] => (false, [])
    end in
  match s1 with
  | [] => Err strconv_error
  | _ =>
      match parse_digits base s1 0 with
      | None => Err strconv_error
      | Some v =>
          if neg then (if 2 ^ 63 <? v then Err strconv_error else Ok (- v))
          else (if 2 ^ 63 <=? v then Err strconv_error else Ok v)
      end
  end.

Definition Atoi (s : list byte) : result Z := ParseInt s 10.

(** ** [encoding/base64], [StdEncoding] *)

Definition b64_alphabet : list byte :=
  bs "ABCDEFGHIJKLMNOPQRSTUVWXYZabcdefghijklmnopqrstuvwxyz0123456789+/".

Definition b64_char (v : Z) : byte := default Byte.x00 (b64_alphabet !! Z.to_nat v).

Definition b64_value (c : byte) : option Z :=
  let z := b2z c in
  if (65 <=? z) && (z <=? 90) then Some (z - 65)
  else if (97 <=? z) && (z <=? 122) then Some (z - 71)
  else if (48 <=? z) && (z <=? 57) then Some (z + 4)
  else if z =? 43 then Some 62
  else if z =? 47 then Some 63
  else None.

Definition b64_pad : byte := z2b 61.

Fixpoint b64encode (m : list byte) : list byte :=
  match m with
  | a :: b :: c :: m' =>
      let v := b2z a * 65536 + b2z b * 256 + b2z c in
      b64_char (v / 262144) :: b64_char (v / 4096 mod 64)
        :: b64_char (v / 64 mod 64) :: b64_char (v mod 64) :: b64encode m'
  | [a; b] =>
      let v := b2z a * 65536 + b2z b * 256 in
      [b64_char (v / 262144); b64_char (v / 4096 mod 64); b64_char (v / 64 mod 64); b64_pad]
  | [a] =>
      let v := b2z a * 65536 in
      [b64_char (v / 262144); b64_char (v / 4096 mod 64); b64_pad; b64_pad]
  | [] => []
  end.

(** The decoder skips carriage returns and line feeds wherever they stand. *)
Definition b64_skipped (c : byte) : bool := (b2z c =? 10) || (b2z c =? 13).

Fixpoint b64_quanta (s : list byte) : option (list byte) :=
  match s with
  | [] => Some []
  | c0 :: c1 :: c2 :: c3 :: s' =>
      match b64_value c0, b64_value c1 with
      | Some v0, Some v1 =>
          match b64_value c2, b64_value c3 with
          | Some v2, Some v3 =>
              let v := v0 * 262144 + v1 * 4096 + v2 * 64 + v3 in
              match b64_quanta s' with
              | Some r => Some (z2b (v / 65536) :: z2b (v / 256) :: z2b v :: r)
              | None => None
              end
          | Some v2, None =>
              let v := v0 * 262144 + v1 * 4096 + v2 * 64 in
              if bool_decide (c3 = b64_pad) && bool_decide (s' = [])
              then Some [z2b (v / 65536); z2b (v / 256)] else None
          | None, _ =>
              let v := v0 * 262144 + v1 * 4096 in
              if bool_decide (c2 = b64_pad) && bool_decide (c3 = b64_pad) && bool_decide (s' = [])
              then Some [z2b (v / 65536)] else None
          end
      | _, _ => None
      end
  | _ => None
  end.

Definition b64decode (s : list byte) : option (list byte) :=
  b64_quanta (List.filter (fun c => negb (b64_skipped c)) s).

(** ** [big.Int] *)

(** [x.Bytes()]: the magnitude without leading zero bytes. *)
Definition Bytes (x : Z) : list byte :=
  let n := Z.abs x in
  be_encode (if n =? 0 then 0%nat else S (Z.to_nat (Z.log2 n / 8))) n.

(** [x.SetBytes(l)] *)
Definition SetBytes (l : list byte) : Z := be_decode l.

(** ** Lemmas: package [bytes] *)

Lemma HasPrefix_true s p : HasPrefix s p = true <-> exists r, s = p ++ r.
Proof.
  unfold HasPrefix. rewrite bool_decide_eq_true. split.
  - intros H. exists (drop (length p) s). by rewrite <- H at 1; rewrite take_drop.
  - intros [r ->]. by rewrite take_app_length.
Qed.

Lemma HasPrefix_app p r : HasPrefix (p ++ r) p = true.
Proof. apply HasPrefix_true. eauto. Qed.

Lemma HasPrefix_trans s p q : HasPrefix s (p ++ q) = true -> HasPrefix s p = true.
Proof. rewrite !HasPrefix_true. intros [r ->]. exists (q ++ r). by rewrite app_assoc. Qed.

Lemma Split_nosep s sep : sep ∉ s -> Split s sep = [s].
Proof.
  induction s as [|c s IH]; intros H; [done|]. simpl.
  apply not_elem_of_cons in H as [H1 H2]. rewrite (IH H2).
  destruct (decide (c = sep)); [congruence|done].
Qed.

Lemma Split_app a b sep : sep ∉ a -> Split (a ++ sep :: b) sep = a :: Split b sep.
Proof.
  induction a as [|c a IH]; intros H; simpl.
  - by rewrite decide_True by done.
  - apply not_elem_of_cons in H as [H1 H2]. rewrite (IH H2).
    destruct (decide (c = sep)); [congruence|done].
Qed.

(** ** Lemmas: numbers in text *)

Lemma of_digits_snoc b ds d : of_digits b (ds ++ [d]) = of_digits b ds * b + d.
Proof. unfold of_digits. by rewrite fold_left_app. Qed.

Lemma to_base_spec b fuel n :
  2 <= b -> 0 <= n -> n < 2 ^ Z.of_nat fuel -> of_digits b (to_base b fuel n) = n.
Proof.
  intros Hb. revert n; induction fuel as [|f IH]; intros n Hn Hlt.
  - change (2 ^ Z.of_nat 0) with 1 in Hlt. simpl. unfold of_digits. simpl. lia.
  - rewrite Nat2Z.inj_succ, Z.pow_succ_r in Hlt by lia.
    simpl. rewrite of_digits_snoc. destruct (Z.eqb_spec (n / b) 0) as [E|E].
    + unfold of_digits. simpl. pose proof (Z_div_mod_eq_full n b). lia.
    + rewrite IH; [|apply Z.div_pos; lia|apply Z.div_lt_upper_bound; nia].
      pose proof (Z_div_mod_eq_full n b). lia.
Qed.

Lemma to_base_range b fuel n : 0 < b -> Forall (fun d => 0 <= d < b) (to_base b fuel n).
Proof.
  intros Hb. revert n; induction fuel as [|f IH]; intros n; simpl; [done|].
  apply Forall_app; split; [destruct (_ =? _); auto|].
  constructor; [apply Z.mod_pos_bound; lia|done].
Qed.

Lemma log2_fuel n : 0 <= n -> n < 2 ^ Z.of_nat (S (Z.to_nat (Z.log2 n))).
Proof.
  intros H. rewrite Nat2Z.inj_succ, Z2Nat.id by apply Z.log2_nonneg.
  destruct (Z.eq_dec n 0) as [->|]; [done|]. apply Z.log2_spec. lia.
Qed.

Lemma of_digits_digits b n : 2 <= b -> 0 <= n -> of_digits b (digits b n) = n.
Proof. intros. apply to_base_spec; [done..|by apply log2_fuel]. Qed.

Lemma digits_range b n : 0 < b -> Forall (fun d => 0 <= d < b) (digits b n).
Proof. intros. by apply to_base_range. Qed.

Lemma to_base_length b fuel n k :
  2 <= b -> 0 <= n < b ^ Z.of_nat k -> (0 < k)%nat -> (length (to_base b fuel n) <= k)%nat.
Proof.
  intros Hb. revert n k; induction fuel as [|f IH]; intros n k Hn Hk; simpl; [lia|].
  rewrite length_app. simpl. destruct k as [|k]; [lia|].
  rewrite Nat2Z.inj_succ, Z.pow_succ_r in Hn by lia.
  destruct (Z.eqb_spec (n / b) 0) as [E|E]; simpl; [lia|].
  assert (0 <= n / b < b ^ Z.of_nat k) by (split; [apply Z.div_pos|apply Z.div_lt_upper_bound]; lia).
  assert (0 < k)%nat by (destruct k; [change (b ^ Z.of_nat 0) with 1 in *; lia|lia]).
  specialize (IH (n / b) k ltac:(done) ltac:(done)). lia.
Qed.

Lemma to_base_nonempty b fuel n : to_base b (S fuel) n <> [].
Proof. simpl. intros H%app_nil. by destruct H. Qed.

Lemma char_digit_char u d : 0 <= d < 16 -> char_digit (digit_char u d) = Some d.
Proof.
  intros H. unfold char_digit, digit_char. destruct u;
  (destruct (Z.ltb_spec d 10); rewrite b2z_z2b, Z.mod_small by lia;
   split_cmp; simpl; try lia; f_equal; lia).
Qed.

Lemma parse_digits_map b u ds acc :
  b <= 16 -> Forall (fun d => 0 <= d < b) ds ->
  parse_digits b (map (digit_char u) ds) acc = Some (fold_left (fun a d => a * b + d) ds acc).
Proof.
  intros Hb H. revert acc; induction H as [|d ds Hd _ IH]; intros acc; [done|]. simpl.
  rewrite char_digit_char by lia. destruct (Z.ltb_spec d b); [|lia]. apply IH.
Qed.

Lemma digit_char_0 u : z2b 48 = digit_char u 0.
Proof. done. Qed.

Lemma replicate_map {A B} (f : A -> B) n x : replicate n (f x) = map f (replicate n x).
Proof. induction n; simpl; congruence. Qed.

Lemma fold_zeros b n ds :
  fold_left (fun a d => a * b + d) (replicate n 0 ++ ds) 0 = fold_left (fun a d => a * b + d) ds 0.
Proof. induction n; simpl; auto. Qed.

(** Reading back a zero-padded number gives the number. *)
Lemma parse_digits_format b u w n :
  2 <= b <= 16 -> 0 <= n -> parse_digits b (pad0 w (format_base u b n)) 0 = Some n.
Proof.
  intros Hb Hn. unfold pad0, format_base.
  rewrite (digit_char_0 u), replicate_map, <- map_app, parse_digits_map; [|lia|].
  - rewrite fold_zeros. f_equal. apply of_digits_digits; lia.
  - apply Forall_app; split; [apply Forall_replicate; lia|apply digits_range; lia].
Qed.

Lemma digit_char_range u d :
  0 <= d < 16 -> 48 <= b2z (digit_char u d) <= 102.
Proof.
  intros. unfold digit_char. destruct u; split_cmp; rewrite b2z_z2b, Z.mod_small; lia.
Qed.

Lemma format_chars b u w n c :
  2 <= b <= 16 -> c ∈ pad0 w (format_base u b n) -> 48 <= b2z c <= 102.
Proof.
  intros Hb H. unfold pad0, format_base in H.
  rewrite (digit_char_0 u), replicate_map, <- map_app in H.
  apply list_elem_of_In, in_map_iff in H as (d & <- & Hd%list_elem_of_In).
  apply digit_char_range. apply elem_of_app in Hd as [Hd|Hd].
  - apply elem_of_replicate in Hd. lia.
  - pose proof (digits_range b n ltac:(lia)) as HF. rewrite Forall_forall in HF.
    apply HF in Hd. lia.
Qed.

Lemma pad0_nonempty w b u n : pad0 w (format_base u b n) <> [].
Proof.
  unfold pad0, format_base, digits. intros [_ H]%app_nil.
  apply map_eq_nil in H. by apply to_base_nonempty in H.
Qed.

Lemma ParseInt_format b u w n :
  2 <= b <= 16 -> 0 <= n < 2 ^ 63 -> ParseInt (pad0 w (format_base u b n)) b = Ok n.
Proof.
  intros Hb Hn. unfold ParseInt.
  destruct (pad0 w (format_base u b n)) as [|c s] eqn:E.
  - by apply pad0_nonempty in E.
  - assert (48 <= b2z c <= 102) by (eapply (format_chars b u w n); [lia|]; rewrite E; left).
    destruct (Z.eqb_spec (b2z c) 45); [lia|]. destruct (Z.eqb_spec (b2z c) 43); [lia|].
    rewrite <- E, parse_digits_format by lia.
    destruct (Z.leb_spec (2 ^ 63) n); [lia|done].
Qed.

Lemma length_pad0 w b u n :
  2 <= b -> 0 <= n < b ^ Z.of_nat w -> (0 < w)%nat -> length (pad0 w (format_base u b n)) = w.
Proof.
  intros. unfold pad0, format_base. rewrite length_app, length_replicate, length_map.
  pose proof (to_base_length b (S (Z.to_nat (Z.log2 n))) n w ltac:(done) ltac:(done) ltac:(done)).
  unfold digits. lia.
Qed.

(** ** Lemmas: base64 *)

Lemma b64_table :
  forallb (fun v => bool_decide (b64_value (b64_char v) = Some v)
                    && negb (b64_skipped (b64_char v)) && bool_decide (b64_char v <> z2b 44))
    (seqZ 0 64) = true.
Proof. vm_compute. reflexivity. Qed.

Lemma b64_char_spec v :
  0 <= v < 64 ->
  b64_value (b64_char v) = Some v /\ b64_skipped (b64_char v) = false /\ b64_char v <> z2b 44.
Proof.
  intros H. pose proof b64_table as T. rewrite forallb_forall in T.
  specialize (T v). rewrite <- list_elem_of_In in T.
  assert (v ∈ seqZ 0 64) as Hv by (apply elem_of_seqZ; lia). apply T in Hv.
  apply andb_true_iff in Hv as [[Hv1 Hv2]%andb_true_iff Hv3].
  apply bool_decide_eq_true in Hv1, Hv3. by apply negb_true_iff in Hv2.
Qed.

(** Induction over base64 groups of three bytes. *)
Lemma triple_ind (P : list byte -> Prop) :
  P [] -> (forall a, P [a]) -> (forall a b, P [a; b]) ->
  (forall a b c l, P l -> P (a :: b :: c :: l)) -> forall l, P l.
Proof.
  intros H0 H1 H2 H3.
  assert (forall n l, (length l <= n)%nat -> P l) as H; [|eauto].
  induction n as [|n IH]; intros [|a [|b [|c l]]] Hl; simpl in Hl; auto; try lia.
  apply H3, IH. lia.
Qed.

Ltac b64_solve :=
  repeat match goal with
  | |- context [b64_value (b64_char ?v)] =>
      let H := fresh in assert (0 <= v < 64) as H by dlia;
      rewrite (proj1 (b64_char_spec v H))
  end.

Lemma b64_quanta_encode m : b64_quanta (b64encode m) = Some m.
Proof.
  induction m as [|a|a b|a b c m IH] using triple_ind; [done|..]; cbn [b64encode b64_quanta].
  - pose proof (b2z_range a). b64_solve.
    change (b64_value b64_pad) with (@None Z).
    rewrite !bool_decide_true by done. simpl. do 2 f_equal.
    apply b2z_inj. rewrite b2z_z2b. dlia.
  - pose proof (b2z_range a). pose proof (b2z_range b). b64_solve.
    change (b64_value b64_pad) with (@None Z).
    rewrite !bool_decide_true by done. simpl.
    do 2 f_equal; [|f_equal]; apply b2z_inj; rewrite b2z_z2b; dlia.
  - pose proof (b2z_range a). pose proof (b2z_range b). pose proof (b2z_range c).
    b64_solve. rewrite IH.
    do 2 f_equal; [|f_equal; [|f_equal]]; apply b2z_inj; rewrite b2z_z2b; dlia.
Qed.

Lemma b64encode_chars m c : c ∈ b64encode m -> b64_skipped c = false /\ c <> z2b 44.
Proof.
  assert (forall v, 0 <= v < 64 -> b64_skipped (b64_char v) = false /\ b64_char v <> z2b 44)
    as Hc by (intros; by apply b64_char_spec).
  induction m as [|a|a b|a b d m IH] using triple_ind; cbn [b64encode]; intros H;
    try pose proof (b2z_range a); try pose proof (b2z_range b); try pose proof (b2z_range d);
    repeat (apply elem_of_cons in H as [->|H]; [first [apply Hc; dlia | split; done]|]);
    try (by apply elem_of_nil in H); auto.
Qed.

Lemma filter_id {A} (p : A -> bool) l : (forall x, x ∈ l -> p x = true) -> List.filter p l = l.
Proof.
  induction l as [|x l IH]; intros H; [done|]. simpl.
  rewrite H by left. f_equal. apply IH. intros. apply H. by right.
Qed.

Lemma b64decode_encode m : b64decode (b64encode m) = Some m.
Proof.
  unfold b64decode. rewrite filter_id; [apply b64_quanta_encode|].
  intros c Hc. apply b64encode_chars in Hc as [-> _]. done.
Qed.

Lemma b64encode_no_comma m : z2b 44 ∉ b64encode m.
Proof. intros H. by apply b64encode_chars in H as [_ ?]. Qed.

Lemma length_b64encode m : length (b64encode m) = (4 * ((length m + 2) / 3))%nat.
Proof.
  induction m as [|a|a b|a b c m IH] using triple_ind; try done.
  cbn [b64encode length]. rewrite IH.
  replace (S (S (S (length m))) + 2)%nat with (length m + 2 + 1 * 3)%nat by lia.
  rewrite Nat.div_add by lia. lia.
Qed.

(** ** Lemmas: big.Int *)

Lemma nbytes_bound n : 0 < n -> n < 256 ^ Z.of_nat (S (Z.to_nat (Z.log2 n / 8))).
Proof.
  intros H. pose proof (Z.log2_nonneg n). pose proof (Z.log2_spec n H) as [_ Hlt].
  rewrite Nat2Z.inj_succ, Z2Nat.id by (apply Z.div_pos; lia).
  change 256 with (2 ^ 8). rewrite <- Z.pow_mul_r by dlia.
  eapply Z.lt_le_trans; [exact Hlt|]. apply Z.pow_le_mono_r; [lia|]. dlia.
Qed.

Lemma SetBytes_Bytes x : SetBytes (Bytes x) = Z.abs x.
Proof.
  unfold SetBytes, Bytes. destruct (Z.eqb_spec (Z.abs x) 0) as [->|]; [done|].
  apply be_decode_encode_small. split; [lia|]. apply nbytes_bound. lia.
Qed.

Lemma SetBytes_nonneg l : 0 <= SetBytes l.
Proof. apply be_decode_nonneg. Qed.

Lemma length_Bytes x n : Z.abs x < 256 ^ Z.of_nat n -> (length (Bytes x) <= n)%nat.
Proof.
  intros H. unfold Bytes. rewrite length_be_encode.
  destruct (Z.eqb_spec (Z.abs x) 0) as [?|]; [lia|].
  assert (Z.log2 (Z.abs x) < 8 * Z.of_nat n) as Hl.
  { apply Z.log2_lt_pow2; [lia|]. rewrite Z.pow_mul_r by lia. done. }
  pose proof (Z.log2_nonneg (Z.abs x)).
  assert (Z.log2 (Z.abs x) / 8 < Z.of_nat n) by (apply Z.div_lt_upper_bound; lia). lia.
Qed.

#[export] Hint Resolve SetBytes_nonneg : otr.

(** The right-aligned form of a number in a field of [n] bytes. *)
Lemma be_encode_pad n z : 0 <= z < 256 ^ Z.of_nat n ->
  be_encode n z = replicate (n - length (Bytes z)) Byte.x00 ++ Bytes z.
Proof.
  intros Hz. pose proof (length_Bytes z n) as Hl.
  pose proof (be_encode_decode (replicate (n - length (Bytes z)) Byte.x00 ++ Bytes z)) as He.
  rewrite length_app, length_replicate in He.
  replace (n - length (Bytes z) + length (Bytes z))%nat with n in He by lia.
  rewrite <- He at 1. f_equal. unfold be_decode. rewrite fold_left_app.
  assert (forall k, fold_left (fun acc b => acc * 256 + b2z b) (replicate k Byte.x00) 0 = 0) as ->
    by (induction k as [|k IH]; [done|exact IH]).
  pose proof (SetBytes_Bytes z) as Hb. unfold SetBytes, be_decode in Hb. rewrite Hb. lia.
Qed.
