(* ===== verification/Gotrax.v ===== *)
(** * The wire primitives: vendor/github.com/coyim/gotrax

    [append.go], [serialize.go] and [extract.go]: big-endian integers, DATA
    (a length word and that many bytes), MPI (DATA holding a magnitude) and
    counted lists of MPIs.  An [Extract] function of the source returns the
    rest of the input, the value and [ok]; here it returns [None] when [ok] is
    false (the rest is then the nil slice in the source). *)

From S2P Require Import Prelude GoLib.

(** ** serialize.go *)

Definition SerializeShort (r : Z) : list byte := be_encode 2 r.
Definition SerializeWord (r : Z) : list byte := be_encode 4 r.
Definition SerializeLong (r : Z) : list byte := be_encode 8 r.

Definition DeserializeShort (d : list byte) : Z := be_decode (take 2 d).
Definition DeserializeWord (d : list byte) : Z := be_decode (take 4 d).
Definition DeserializeLong (d : list byte) : Z := be_decode (take 8 d).

Arguments SerializeShort : simpl never.
Arguments SerializeWord : simpl never.
Arguments SerializeLong : simpl never.

(** ** append.go *)

Definition AppendShort (l : list byte) (r : Z) : list byte := l ++ SerializeShort r.
Definition AppendWord (l : list byte) (r : Z) : list byte := l ++ SerializeWord r.
Definition AppendLong (l : list byte) (r : Z) : list byte := l ++ SerializeLong r.
Definition AppendData (l r : list byte) : list byte := AppendWord l (u32 (len r)) ++ r.
Definition AppendMPI (l : list byte) (r : Z) : list byte := AppendData l (Bytes r).
Definition AppendMPIs (l : list byte) (r : list Z) : list byte := fold_left AppendMPI r l.

(** ** extract.go *)

Definition ExtractByte (d : list byte) : option (list byte * byte) :=
  match d with b :: r => Some (r, b) | [] => None end.

Definition ExtractShort (d : list byte) : option (list byte * Z) :=
  if len d <? 2 then None else Some (drop 2 d, DeserializeShort d).

Definition ExtractWord (d : list byte) : option (list byte * Z) :=
  if len d <? 4 then None else Some (drop 4 d, DeserializeWord d).

Definition ExtractLong (d : list byte) : option (list byte * Z) :=
  if len d <? 8 then None else Some (drop 8 d, DeserializeLong d).

Definition ExtractData (d : list byte) : option (list byte * list byte) :=
  match ExtractWord d with
  | None => None
  | Some (newPoint, length) =>
      if len newPoint <? length then None
      else Some (drop (Z.to_nat length) newPoint, take (Z.to_nat length) newPoint)
  end.

Definition ExtractFixedData (d : list byte) (l : Z) : option (list byte * list byte) :=
  if len d <? l then None else Some (drop (Z.to_nat l) d, take (Z.to_nat l) d).

Definition ExtractMPI (d : list byte) : option (list byte * Z) :=
  match ExtractWord d with
  | None => None
  | Some (d, mpiLen) =>
      if len d <? mpiLen then None
      else Some (drop (Z.to_nat mpiLen) d, SetBytes (take (Z.to_nat mpiLen) d))
  end.

(** The loop of [ExtractMPIs]; every round that succeeds consumes four bytes
    or more, so the length of the input bounds the rounds. *)
Fixpoint extract_mpis_loop (fuel : nat) (count : Z) (current : list byte) : option (list byte * list Z) :=
  if count <=? 0 then Some (current, [])
  else match fuel with
       | O => None
       | S fuel' =>
           match ExtractMPI current with
           | None => None
           | Some (current', mpi) =>
               match extract_mpis_loop fuel' (count - 1) current' with
               | None => None
               | Some (rest, mpis) => Some (rest, mpi :: mpis)
               end
           end
       end.

Definition ExtractMPIs (d : list byte) : option (list byte * list Z) :=
  match ExtractWord d with
  | None => None
  | Some (current, mpiCount) => extract_mpis_loop (length current) mpiCount current
  end.

(** ** Lemmas *)

Lemma len_be_encode n z : len (be_encode n z) = Z.of_nat n.
Proof. unfold len. by rewrite length_be_encode. Qed.
#[export] Hint Rewrite len_be_encode : len.

Lemma ExtractShort_Serialize r rest :
  0 <= r < 2 ^ 16 -> ExtractShort (SerializeShort r ++ rest) = Some (rest, r).
Proof.
  intros H. unfold ExtractShort, SerializeShort, DeserializeShort.
  autorewrite with len. pose proof (len_nonneg rest). split_cmp; [lia|].
  rewrite take_app_length', drop_app_length' by (by rewrite length_be_encode).
  by rewrite be_decode_encode_small.
Qed.

Lemma ExtractWord_Serialize r rest :
  0 <= r < 2 ^ 32 -> ExtractWord (SerializeWord r ++ rest) = Some (rest, r).
Proof.
  intros H. unfold ExtractWord, SerializeWord, DeserializeWord.
  autorewrite with len. pose proof (len_nonneg rest). split_cmp; [lia|].
  rewrite take_app_length', drop_app_length' by (by rewrite length_be_encode).
  by rewrite be_decode_encode_small.
Qed.

Lemma AppendData_nil r rest : len r < 2 ^ 32 -> AppendData [] r ++ rest = SerializeWord (len r) ++ r ++ rest.
Proof.
  intros H. unfold AppendData, AppendWord, u32. pose proof (len_nonneg r).
  by rewrite app_nil_l, Z.mod_small, <- app_assoc by lia.
Qed.

Lemma AppendData_app l r : AppendData l r = l ++ AppendData [] r.
Proof. unfold AppendData, AppendWord. by rewrite app_nil_l, <- app_assoc. Qed.

Lemma AppendMPI_app l r : AppendMPI l r = l ++ AppendMPI [] r.
Proof. apply AppendData_app. Qed.

Lemma AppendMPIs_cons l r rs : AppendMPIs l (r :: rs) = AppendMPI l r ++ AppendMPIs [] rs.
Proof.
  unfold AppendMPIs. simpl. revert l r; induction rs as [|r' rs IH]; intros l r; simpl.
  - by rewrite app_nil_r.
  - rewrite (IH (AppendMPI l r)), (IH []), app_assoc. f_equal. by rewrite AppendMPI_app.
Qed.

(** DATA fields read back, leaving what follows them. *)
Lemma ExtractData_Append r rest :
  len r < 2 ^ 32 -> ExtractData (AppendData [] r ++ rest) = Some (rest, r).
Proof.
  intros H. unfold ExtractData. rewrite AppendData_nil by done.
  pose proof (len_nonneg r). rewrite ExtractWord_Serialize by lia.
  autorewrite with len. pose proof (len_nonneg rest). split_cmp; [lia|].
  unfold len. rewrite Nat2Z.id. by rewrite drop_app_length, take_app_length.
Qed.

(** The magnitudes an MPI can hold: their byte count fits the length word. *)
Definition mpi_ok (r : Z) : Prop := 0 <= r /\ len (Bytes r) < 2 ^ 32.

Lemma ExtractMPI_Append r rest :
  mpi_ok r -> ExtractMPI (AppendMPI [] r ++ rest) = Some (rest, r).
Proof.
  intros [Hr Hlen]. unfold ExtractMPI, AppendMPI.
  rewrite AppendData_nil by done. pose proof (len_nonneg (Bytes r)).
  rewrite ExtractWord_Serialize by lia.
  autorewrite with len. pose proof (len_nonneg rest). split_cmp; [lia|].
  unfold len. rewrite Nat2Z.id, drop_app_length, take_app_length, SetBytes_Bytes.
  do 2 f_equal. lia.
Qed.

Lemma ExtractMPI_shrinks d rest v : ExtractMPI d = Some (rest, v) -> (length rest < length d)%nat.
Proof.
  unfold ExtractMPI, ExtractWord. intros H. unfold len in *.
  destruct (Z.ltb_spec (Z.of_nat (length d)) 4); [done|].
  destruct (_ <? _); [done|]. simplify_eq. rewrite !length_drop. lia.
Qed.

(** More fuel than the input has bytes changes nothing, so [ExtractMPIs] is
    the loop of the source. *)
Lemma extract_mpis_loop_fuel f1 f2 count d :
  (length d <= f1)%nat -> (length d <= f2)%nat ->
  extract_mpis_loop f1 count d = extract_mpis_loop f2 count d.
Proof.
  revert f2 count d; induction f1 as [|f1 IH]; intros [|f2] count d H1 H2; simpl;
    destruct (Z.leb_spec count 0); try done.
  - destruct d; [|simpl in *; lia]. done.
  - destruct d; [|simpl in *; lia]. done.
  - destruct (ExtractMPI d) as [[d' v]|] eqn:E; [|done].
    apply ExtractMPI_shrinks in E. rewrite (IH f2); [done|lia..].
Qed.

Lemma extract_mpis_loop_Append f rs rest :
  Forall mpi_ok rs -> (length (AppendMPIs [] rs ++ rest) <= f)%nat ->
  extract_mpis_loop f (len rs) (AppendMPIs [] rs ++ rest) = Some (rest, rs).
Proof.
  intros H. revert f; induction H as [|r rs Hr _ IH]; intros f Hf.
  - rewrite len_nil. by destruct f.
  - rewrite AppendMPIs_cons, <- app_assoc in *. pose proof (len_nonneg rs).
    pose proof (ExtractMPI_Append r (AppendMPIs [] rs ++ rest) Hr) as E.
    pose proof (ExtractMPI_shrinks _ _ _ E).
    destruct f as [|f]; [lia|]. cbn [extract_mpis_loop]. rewrite len_cons.
    destruct (Z.leb_spec (1 + len rs) 0); [lia|]. rewrite E.
    replace (1 + len rs - 1) with (len rs) by lia. rewrite IH by lia. done.
Qed.

(** Counted MPI lists read back. *)
Lemma ExtractMPIs_Append rs rest :
  Forall mpi_ok rs -> len rs < 2 ^ 32 ->
  ExtractMPIs (AppendMPIs (AppendWord [] (len rs)) rs ++ rest) = Some (rest, rs).
Proof.
  intros H Hl. unfold ExtractMPIs.
  assert (AppendMPIs (AppendWord [] (len rs)) rs = SerializeWord (len rs) ++ AppendMPIs [] rs) as ->.
  { destruct rs as [|r rs]; [done|]. rewrite !AppendMPIs_cons.
    by rewrite AppendMPI_app, <- app_assoc. }
  rewrite <- app_assoc. pose proof (len_nonneg rs). rewrite ExtractWord_Serialize by lia.
  by apply extract_mpis_loop_Append.
Qed.

(** Conversely what is extracted is what was serialised: the parsers accept
    only encodings. *)
Lemma ExtractWord_inv d rest w :
  ExtractWord d = Some (rest, w) -> d = SerializeWord w ++ rest /\ 0 <= w < 2 ^ 32.
Proof.
  unfold ExtractWord, DeserializeWord, SerializeWord, len. intros H.
  destruct (Z.ltb_spec (Z.of_nat (length d)) 4); [done|]. simplify_eq.
  assert (length (take 4 d) = 4%nat) as Hl by (rewrite length_take; lia).
  split.
  - rewrite <- Hl at 1. by rewrite be_encode_decode, take_drop.
  - split; [apply be_decode_nonneg|]. pose proof (be_decode_bound (take 4 d)) as Hb.
    unfold len in Hb. rewrite Hl in Hb. exact Hb.
Qed.

Lemma ExtractData_inv d rest v :
  ExtractData d = Some (rest, v) -> d = AppendData [] v ++ rest /\ len v < 2 ^ 32.
Proof.
  unfold ExtractData. destruct (ExtractWord d) as [[p n]|] eqn:E; [|done].
  apply ExtractWord_inv in E as [-> Hn]. destruct (Z.ltb_spec (len p) n); [done|].
  intros [= <- <-].
  assert (len (take (Z.to_nat n) p) = n) as Hl by (unfold len in *; rewrite length_take; lia).
  split; [|lia]. rewrite AppendData_nil by lia. by rewrite Hl, take_drop.
Qed.
