(* ===== verification/Policy.v ===== *)
(** * Error values and policies: errors.go, policy.go

    The error values are compared with [==] by the callers, which for an
    [OtrError] means equality of message and conflict flag. *)

From S2P Require Import Prelude.

(** ** errors.go *)

Definition newOtrError (s : string) : error := OtrError s false.
Definition newOtrConflictError (s : string) : error := OtrError s true.

Definition errCantAuthenticateWithoutEncryption := newOtrError "can't authenticate a peer without a secure conversation established".
Definition errCorruptEncryptedSignature := newOtrError "corrupt encrypted signature".
Definition errInvalidOTRMessage := newOtrError "invalid OTR message".
Definition errInvalidVersion := newOtrError "no valid version agreement could be found".
Definition errNotWaitingForSMPSecret := newOtrError "not expected SMP secret to be provided now".
Definition errReceivedMessageForOtherInstance := newOtrError "received message for other OTR instance".
Definition errShortRandomRead := newOtrError "short read from random source".
Definition errUnsupportedOTRVersion := newOtrError "unsupported OTR version".
Definition errWrongProtocolVersion := newOtrError "wrong protocol version".
Definition errMessageNotInPrivate := newOtrError "message not in private".
Definition errCannotSendUnencrypted := newOtrConflictError "cannot send message in unencrypted state".

(** [OtrError.Error()] *)
Definition Error (e : error) : string :=
  match e with
  | OtrError m _ => String.append "otr: " m
  | ForeignError m => m
  end.

Fixpoint firstError (es : list (option error)) : option error :=
  match es with
  | [] => None
  | Some e :: _ => Some e
  | None :: es' => firstError es'
  end.

Definition isConflict (e : error) : bool :=
  match e with OtrError _ c => c | ForeignError _ => false end.

(** ** policy.go *)

Definition policies := Z.

Definition allowV2 : Z := 2.
Definition allowV3 : Z := 4.
Definition requireEncryption : Z := 8.
Definition sendWhitespaceTag : Z := 16.
Definition whitespaceStartAKE : Z := 32.
Definition errorStartAKE : Z := 64.

Definition has (p : policies) (c : Z) : bool := Z.land p c =? c.
Definition add (p : policies) (c : Z) : policies := Z.lor p c.

Definition AllowV2 (p : policies) : policies := add p allowV2.
Definition AllowV3 (p : policies) : policies := add p allowV3.
Definition RequireEncryption (p : policies) : policies := add p requireEncryption.
Definition SendWhitespaceTag (p : policies) : policies := add p sendWhitespaceTag.
Definition WhitespaceStartAKE (p : policies) : policies := add p whitespaceStartAKE.
Definition ErrorStartAKE (p : policies) : policies := add p errorStartAKE.

Definition isOTREnabled (p : policies) : bool := has p allowV2 || has p allowV3.

Definition all_policies : list Z :=
  [allowV2; allowV3; requireEncryption; sendWhitespaceTag; whitespaceStartAKE; errorStartAKE].

(** ** Theorems *)

(** A policy constant is one bit, so [has] reads that bit. *)
Lemma has_testbit p k : 0 <= k -> has p (2 ^ k) = Z.testbit p k.
Proof.
  intros Hk. unfold has.
  assert (Z.land p (2 ^ k) = if Z.testbit p k then 2 ^ k else 0) as ->.
  { apply Z.bits_inj'. intros n Hn. rewrite Z.land_spec, Z.pow2_bits_eqb by done.
    destruct (Z.eqb_spec k n) as [<-|Hne].
    - rewrite andb_true_r. destruct (Z.testbit p k); [by rewrite Z.pow2_bits_true|by rewrite Z.bits_0].
    - rewrite andb_false_r. destruct (Z.testbit p k); [by rewrite Z.pow2_bits_false|by rewrite Z.bits_0]. }
  assert (0 < 2 ^ k) by (apply Z.pow_pos_nonneg; lia).
  destruct (Z.testbit p k); [apply Z.eqb_refl|apply Z.eqb_neq; lia].
Qed.

Lemma add_testbit p k j : 0 <= k -> 0 <= j -> has (add p (2 ^ k)) (2 ^ j) = has p (2 ^ j) || (k =? j).
Proof.
  intros Hk Hj. rewrite !has_testbit by done. unfold add.
  rewrite Z.lor_spec, Z.pow2_bits_eqb by done. done.
Qed.

Lemma policy_bit c : c ∈ all_policies -> exists k, 0 <= k /\ c = 2 ^ k.
Proof.
  unfold all_policies. intros H.
  repeat (apply elem_of_cons in H as [->|H]).
  - by exists 1.
  - by exists 2.
  - by exists 3.
  - by exists 4.
  - by exists 5.
  - by exists 6.
  - by apply elem_of_nil in H.
Qed.

(** Enabling a policy enables that policy and changes no other. *)
Theorem policy_add_has p c d :
  c ∈ all_policies -> d ∈ all_policies -> has (add p c) d = has p d || (c =? d).
Proof.
  intros (k & Hk & ->)%policy_bit (j & Hj & ->)%policy_bit. rewrite add_testbit by done.
  f_equal. destruct (Z.eqb_spec k j) as [->|Hne]; symmetry; [apply Z.eqb_refl|].
  apply Z.eqb_neq. intros H. apply Hne. by apply (Z.pow_inj_r 2).
Qed.

Lemma policy_add_has_witness : has (add (add 0 allowV3) requireEncryption) allowV3 = true.
Proof. rewrite (policy_add_has (add 0 allowV3) requireEncryption allowV3); [reflexivity| |]; unfold all_policies; set_solver. Defined.
