(* ===== verification/Crypto.v ===== *)
(** * Cryptographic vocabulary: dh.go, bn_utils.go, hash.go, the hashing of
    data.go, the ciphers of keys.go and the key derivation of key_management.go

    The Diffie-Hellman group of dh.go is an instance of [DHGroup], and the
    definitions are parametric in the group; the block cipher, the hash
    functions and the DSA operations of the Go standard library are the fields
    of [Crypto], with what otr3 relies on in [CryptoLaws].  HMAC and the counter
    mode are defined from them. *)

From Stdlib Require Import Zpow_facts Zcong.
From S2P Require Import Prelude GoLib Gotrax Policy.

(** ** dh.go *)

Class DHGroup := { dh_p : Z; dh_q : Z; dh_g1 : Z }.

(** The constants [p], [q] and [g1] of dh.go (RFC 3526, group 5). *)
Definition rfc3526_group5 : DHGroup := {|
  dh_p := 0xFFFFFFFFFFFFFFFFC90FDAA22168C234C4C6628B80DC1CD129024E088A67CC74020BBEA63B139B22514A08798E3404DDEF9519B3CD3A431B302B0A6DF25F14374FE1356D6D51C245E485B576625E7EC6F44C42E9A637ED6B0BFF5CB6F406B7EDEE386BFB5A899FA5AE9F24117C4B1FE649286651ECE45B3DC2007CB8A163BF0598DA48361C55D39A69163FA8FD24CF5F83655D23DCA3AD961C62F356208552BB9ED529077096966D670C354E4ABC9804F1746C08CA237327FFFFFFFFFFFFFFFF;
  dh_q := 0x7FFFFFFFFFFFFFFFE487ED5110B4611A62633145C06E0E68948127044533E63A0105DF531D89CD9128A5043CC71A026EF7CA8CD9E69D218D98158536F92F8A1BA7F09AB6B6A8E122F242DABB312F3F637A262174D31BF6B585FFAE5B7A035BF6F71C35FDAD44CFD2D74F9208BE258FF324943328F6722D9EE1003E5C50B1DF82CC6D241B0E2AE9CD348B1FD47E9267AFC1B2AE91EE51D6CB0E3179AB1042A95DCF6A9483B84B4B36B3861AA7255E4C0278BA36046511B993FFFFFFFFFFFFFFFF;
  dh_g1 := 2 |}.

(** What the protocol needs of the group: [g1] has order dividing [q]. *)
Class DHGroupLaws `{DHGroup} := {
  dh_p_gt : 3 < dh_p;
  dh_q_pos : 0 < dh_q;
  dh_order : dh_g1 ^ dh_q mod dh_p = 1
}.

(** A group small enough to compute in: the squares modulo 23. *)
Definition small_group : DHGroup := {| dh_p := 23; dh_q := 11; dh_g1 := 2 |}.

Definition small_group_laws : @DHGroupLaws small_group.
Proof. constructor; reflexivity. Defined.

(** ** otrVersion *)

(** The two implementations of the interface [otrVersion]. *)
Inductive otrVersion := otrV2 | otrV3.

#[global] Instance otrVersion_eq_dec : EqDecision otrVersion.
Proof. solve_decision. Defined.

(** The methods of the two implementations, and the calls through the interface. *)
Definition otrV2_protocolVersion : Z := 2.
Definition otrV2_parameterLength : Z := 16.
Definition otrV2_hashLength : Z := 20.
Definition otrV2_hash2Length : Z := 32.
Definition otrV2_truncateLength : Z := 20.
Definition otrV2_keyLength : Z := 16.

Definition otrV3_protocolVersion : Z := 3.
Definition otrV3_parameterLength : Z := 192.
Definition otrV3_hashLength : Z := 20.
Definition otrV3_hash2Length : Z := 32.
Definition otrV3_truncateLength : Z := 20.
Definition otrV3_keyLength : Z := 16.

Definition protocolVersion (v : otrVersion) : Z := match v with otrV2 => otrV2_protocolVersion | otrV3 => otrV3_protocolVersion end.
Definition parameterLength (v : otrVersion) : Z := match v with otrV2 => otrV2_parameterLength | otrV3 => otrV3_parameterLength end.
Definition hashLength (v : otrVersion) : Z := match v with otrV2 => otrV2_hashLength | otrV3 => otrV3_hashLength end.
Definition hash2Length (v : otrVersion) : Z := match v with otrV2 => otrV2_hash2Length | otrV3 => otrV3_hash2Length end.
Definition truncateLength (v : otrVersion) : Z := match v with otrV2 => otrV2_truncateLength | otrV3 => otrV3_truncateLength end.
Definition keyLength (v : otrVersion) : Z := match v with otrV2 => otrV2_keyLength | otrV3 => otrV3_keyLength end.

Arguments otrV2_protocolVersion /.
Arguments otrV3_protocolVersion /.
Arguments otrV2_parameterLength /.
Arguments otrV3_parameterLength /.
Arguments otrV2_hashLength /.
Arguments otrV3_hashLength /.
Arguments otrV2_hash2Length /.
Arguments otrV3_hash2Length /.
Arguments otrV2_truncateLength /.
Arguments otrV3_truncateLength /.
Arguments otrV2_keyLength /.
Arguments otrV3_keyLength /.

(** ** DSA keys of the standard library *)

(** [dsa.PublicKey]; a [*big.Int] may be nil. *)
Record dsa_PublicKey := DsaPublicKey { dsa_P : option Z; dsa_Q : option Z; dsa_G : option Z; dsa_Y : option Z }.

(** [dsa.PrivateKey] *)
Record dsa_PrivateKey := DsaPrivateKey { dsa_pub : dsa_PublicKey; dsa_X : option Z }.

#[export] Instance dsa_PublicKey_eta : Eta dsa_PublicKey := fun r =>
  DsaPublicKey (dsa_P r) (dsa_Q r) (dsa_G r) (dsa_Y r).
#[export] Instance dsa_PrivateKey_eta : Eta dsa_PrivateKey := fun r => DsaPrivateKey (dsa_pub r) (dsa_X r).

#[global] Instance dsa_PublicKey_eq_dec : EqDecision dsa_PublicKey.
Proof. solve_decision. Defined.

(** ** The primitives of crypto/... *)

Class Crypto := {
  sha1 : list byte -> list byte;
  sha256 : list byte -> list byte;
  (** [aes.NewCipher(key)] then [Encrypt] of one block *)
  aes_block : list byte -> list byte -> list byte;
  (** [dsa.Sign(rand, key, hashed)], with what it leaves of the reader *)
  dsa_sign : dsa_PrivateKey -> list byte -> list byte -> result (Z * Z) * list byte;
  dsa_verify : dsa_PublicKey -> list byte -> Z -> Z -> bool
}.

Class CryptoLaws `{Crypto} := {
  sha1_length m : length (sha1 m) = 20%nat;
  sha256_length m : length (sha256 m) = 32%nat;
  aes_block_length k b : length (aes_block k b) = 16%nat
}.

(** Primitives that are cheap to evaluate and satisfy the laws, for running the
    definitions on concrete inputs; they have no cryptographic strength. *)
Definition toy_crypto : Crypto := {|
  sha1 m := be_encode 20 (be_decode m);
  sha256 m := be_encode 32 (be_decode m);
  aes_block k b := be_encode 16 (be_decode k * 7 + be_decode b * 3 + 1);
  dsa_sign k hashed rnd :=
    match rnd with
    | b :: rnd' => (Ok (b2z b, be_decode hashed mod 2 ^ 152 + b2z b), rnd')
    | [] => (Err (ForeignError "EOF"), [])
    end;
  dsa_verify k hashed r s := s =? be_decode hashed mod 2 ^ 152 + r
|}.

Definition toy_crypto_laws : @CryptoLaws toy_crypto.
Proof. constructor; intros; apply length_be_encode. Defined.

Section Definitions.
Context `{DHGroup} `{Crypto}.

Definition pMinusTwo : Z := dh_p - 2.

(** ** bn_utils.go *)

Definition modExp (g x : Z) : Z := Zpow_mod g x dh_p.
Definition modInverse (g n : Z) : option Z := if Z.gcd g n =? 1 then Some (Z.invmod g n) else None.
Definition bn_mul (l r : Z) : Z := l * r.
Definition bn_sub (l r : Z) : Z := l - r.
Definition mulMod (l r m : Z) : Z := bn_mul l r mod m.
(** [ModInverse] returns nil when there is no inverse, and [Mul] dereferences it. *)
Definition divMod (l r m : Z) : go Z := i ← deref (modInverse r m); mret (mulMod l i m).
Definition subMod (l r m : Z) : Z := bn_sub l r mod m.
Definition bn_eq (l r : Z) : bool := l =? r.
Definition bn_gt (l r : Z) : bool := r <? l.
Definition bn_gte (l r : Z) : bool := r <=? l.
Definition bn_lte (l r : Z) : bool := l <=? r.

Definition isGroupElement (n : Z) : bool := bn_gte n dh_g1 && bn_lte n pMinusTwo.

Definition otrV2_isGroupElement (n : Z) : bool := true.
Definition otrV3_isGroupElement (n : Z) : bool := isGroupElement n.

Definition version_isGroupElement (v : otrVersion) (n : Z) : bool :=
  match v with otrV2 => otrV2_isGroupElement n | otrV3 => otrV3_isGroupElement n end.

(** ** Hashing: [hash], [hash2], data.go *)

Definition otrV2_hash (val : list byte) : list byte := sha1 val.
Definition otrV3_hash (val : list byte) : list byte := sha1 val.
Definition otrV2_hash2 (val : list byte) : list byte := sha256 val.
Definition otrV3_hash2 (val : list byte) : list byte := sha256 val.

(** [hash] and [hashInstance], [hash2] and [hash2Instance]: an instance is the
    function it computes. *)
Definition hash (v : otrVersion) (val : list byte) : list byte :=
  match v with otrV2 => otrV2_hash val | otrV3 => otrV3_hash val end.
Definition hash2 (v : otrVersion) (val : list byte) : list byte :=
  match v with otrV2 => otrV2_hash2 val | otrV3 => otrV3_hash2 val end.

Definition hashMPIs (h : list byte -> list byte) (magic : Z) (mpis : list Z) : list byte :=
  h (z2b magic :: foldr (fun mpi acc => AppendMPI [] mpi ++ acc) [] mpis).

Definition hashMPIsBN (h : list byte -> list byte) (magic : Z) (mpis : list Z) : Z :=
  SetBytes (hashMPIs h magic mpis).

(** [crypto/hmac] over a hash with 64-byte blocks. *)
Definition byte_xor (a b : byte) : byte := z2b (Z.lxor (b2z a) (b2z b)).

Definition hmac (h : list byte -> list byte) (key data : list byte) : list byte :=
  let k0 := if 64 <? len key then h key else key in
  let k := k0 ++ replicate (64 - length k0) Byte.x00 in
  h (map (byte_xor (z2b 0x5c)) k ++ h (map (byte_xor (z2b 0x36)) k ++ data)).

(** [sumHMAC] of ake.go. *)
Definition sumHMAC (key data : list byte) (v : otrVersion) : list byte := hmac (hash2 v) key data.

(** ** Counter mode: [counterEncipher], [encrypt], [decrypt] of keys.go *)

Fixpoint keystream (blocks : nat) (key : list byte) (ctr : Z) : list byte :=
  match blocks with
  | O => []
  | S n => aes_block key (be_encode 16 ctr) ++ keystream n key (ctr + 1)
  end.

Definition XORKeyStream (key iv src : list byte) : list byte :=
  zip_with byte_xor src (keystream (S (length src / 16)) key (be_decode iv)).

Definition errKeySize : error := ForeignError "crypto/aes: invalid key size".

Definition counterEncipher (key iv src : list byte) : result (list byte) :=
  if (len key =? 16) || (len key =? 24) || (len key =? 32)
  then Ok (XORKeyStream key iv src) else Err errKeySize.

Definition zeroes (n : nat) : list byte := replicate n Byte.x00.

(** The all-zero initialisation vector is taken as a prefix of the
    destination, which is as long as the data. *)
Definition encrypt (key data : list byte) : go (result (list byte)) :=
  _ ← slice (zeroes (length data)) 0 16; mret (counterEncipher key (zeroes 16) data).

Definition decrypt (key src : list byte) : result (list byte) := counterEncipher key (zeroes 16) src.

(** ** Key derivation: key_management.go *)

(** [h] *)
Definition kdf (b : Z) (secbytes : list byte) (hash : list byte -> list byte) : list byte :=
  hash (z2b b :: secbytes).

Record akeKeys := AkeKeys { akeKeys_c : list byte; akeKeys_m1 : list byte; akeKeys_m2 : list byte }.

Definition calculateAKEKeys (s : Z) (v : otrVersion) : list byte * akeKeys * akeKeys :=
  let secbytes := AppendMPI [] s in
  let sha := hash2 v in
  let keys := kdf 1 secbytes sha in
  (take 8 (kdf 0 secbytes sha),
   AkeKeys (take 16 keys) (kdf 2 secbytes sha) (kdf 3 secbytes sha),
   AkeKeys (drop 16 keys) (kdf 4 secbytes sha) (kdf 5 secbytes sha)).

Record sessionKeys := SessionKeys {
  sendingAESKey : list byte; receivingAESKey : list byte;
  sendingMACKey : list byte; receivingMACKey : list byte;
  extraKey : list byte }.

Definition calculateDHSessionKeys (ourPrivKey ourPubKey theirPubKey : Z) (v : otrVersion) : sessionKeys :=
  let '(sendbyte, recvbyte) := if bn_gt ourPubKey theirPubKey then (1, 2) else (2, 1) in
  let s := modExp theirPubKey ourPrivKey in
  let secbytes := AppendMPI [] s in
  let sendingAES := take (Z.to_nat (keyLength v)) (kdf sendbyte secbytes (hash v)) in
  let receivingAES := take (Z.to_nat (keyLength v)) (kdf recvbyte secbytes (hash v)) in
  SessionKeys sendingAES receivingAES (hash v sendingAES) (hash v receivingAES)
    (kdf 0xFF secbytes (hash2 v)).

End Definitions.

#[export] Instance akeKeys_eta : Eta akeKeys := fun r =>
  AkeKeys (akeKeys_c r) (akeKeys_m1 r) (akeKeys_m2 r).

(** ** Lemmas *)

Lemma lxor_byte_bound a b : 0 <= a < 256 -> 0 <= b < 256 -> 0 <= Z.lxor a b < 256.
Proof.
  intros Ha Hb. split; [by apply Z.lxor_nonneg; lia|].
  destruct (Z.eq_dec (Z.lxor a b) 0) as [->|Hn]; [lia|].
  assert (0 <= Z.lxor a b) by (apply Z.lxor_nonneg; lia).
  change 256 with (2 ^ 8). apply Z.log2_lt_pow2; [lia|].
  eapply Z.le_lt_trans; [apply Z.log2_lxor; lia|].
  assert (forall x, 0 <= x < 256 -> Z.log2 x < 8) as Hl.
  { intros x Hx. destruct (Z.eq_dec x 0) as [->|]; [done|]. apply Z.log2_lt_pow2; lia. }
  apply Z.max_lub_lt; by apply Hl.
Qed.

Lemma byte_xor_involutive a b : byte_xor (byte_xor a b) b = a.
Proof.
  apply b2z_inj. unfold byte_xor. rewrite !b2z_z2b.
  pose proof (b2z_range a). pose proof (b2z_range b).
  rewrite (Z.mod_small (Z.lxor (b2z a) (b2z b))) by (by apply lxor_byte_bound).
  rewrite Z.lxor_assoc, Z.lxor_nilpotent, Z.lxor_0_r. by apply Z.mod_small.
Qed.

Section Laws.
Context `{DHGroup} `{CryptoLaws}.

Lemma hash_length v m : length (hash v m) = 20%nat.
Proof. destruct v; apply sha1_length. Qed.

Lemma hash2_length v m : length (hash2 v m) = 32%nat.
Proof. destruct v; apply sha256_length. Qed.

Lemma length_keystream n key ctr : length (keystream n key ctr) = (16 * n)%nat.
Proof.
  revert ctr; induction n as [|n IH]; intros ctr; [done|]. simpl keystream.
  rewrite length_app, aes_block_length, IH. lia.
Qed.

Lemma zip_xor_involutive src ks :
  (length src <= length ks)%nat -> zip_with byte_xor (zip_with byte_xor src ks) ks = src.
Proof.
  revert ks; induction src as [|x src IH]; intros [|k ks] Hl; simpl in *; try done; [lia|].
  rewrite byte_xor_involutive. f_equal. apply IH. lia.
Qed.

Lemma keystream_covers (src : list byte) key iv :
  (length src <= length (keystream (S (length src / 16)) key iv))%nat.
Proof.
  rewrite length_keystream. pose proof (Nat.div_mod_eq (length src) 16).
  pose proof (Nat.mod_upper_bound (length src) 16 ltac:(lia)). lia.
Qed.

Lemma length_XORKeyStream key iv src : length (XORKeyStream key iv src) = length src.
Proof.
  unfold XORKeyStream. rewrite length_zip_with.
  pose proof (keystream_covers src key (be_decode iv)). lia.
Qed.

(** Counter mode is its own inverse. *)
Lemma XORKeyStream_involutive key iv src : XORKeyStream key iv (XORKeyStream key iv src) = src.
Proof.
  unfold XORKeyStream at 1. rewrite length_XORKeyStream. unfold XORKeyStream.
  apply zip_xor_involutive, keystream_covers.
Qed.

Lemma decrypt_encrypt key data c :
  encrypt key data = Done (Ok c) -> decrypt key c = Ok data.
Proof.
  unfold encrypt, decrypt, counterEncipher, mbind, go_bind, mret, go_ret.
  destruct (slice _ _ _); [|done]. destruct (_ || _); [|done].
  intros [= <-]. by rewrite XORKeyStream_involutive.
Qed.

Lemma modExp_spec g x : dh_p <> 0 -> modExp g x = g ^ x mod dh_p.
Proof. intros. by apply Zpow_mod_correct. Qed.

Lemma modExp_mod g x : dh_p <> 0 -> modExp (g mod dh_p) x = modExp g x.
Proof. intros. rewrite !modExp_spec by done. apply Z.mod_pow_l. Qed.

Lemma modExp_mul g x y : dh_p <> 0 -> 0 <= x -> 0 <= y -> modExp (modExp g x) y = modExp g (x * y).
Proof.
  intros. rewrite (modExp_spec g x), modExp_mod, !modExp_spec by done. by rewrite Z.pow_mul_r.
Qed.

(** Diffie-Hellman: both ends compute the same secret. *)
Lemma modExp_comm g x y :
  dh_p <> 0 -> 0 <= x -> 0 <= y -> modExp (modExp g x) y = modExp (modExp g y) x.
Proof. intros. rewrite !modExp_mul by done. by rewrite Z.mul_comm. Qed.

End Laws.
