(* ===== verification/KeyManagement.v ===== *)
(** * Session key management: random.go, key_management.go

    The Diffie-Hellman key pairs of both ends and their identifiers, the
    message counters kept per pair of key identifiers, and the history of the
    MAC keys that have to be revealed.  A reader of randomness is the list of
    the bytes it still holds. *)

From Stdlib Require Import Sorted.
From S2P Require Import Prelude GoLib Gotrax Policy Crypto.

(** ** random.go *)

(** [io.ReadFull] into a buffer of [n] bytes: a short reader is drained. *)
Definition randomInto (r : list byte) (n : nat) : result (list byte) * list byte :=
  if (n <=? length r)%nat then (Ok (take n r), drop n r) else (Err errShortRandomRead, []).

Definition randSizedMPI (r : list byte) (size : nat) : result Z * list byte :=
  match randomInto r size with
  | (Ok b, r') => (Ok (SetBytes b), r')
  | (Err e, r') => (Err e, r')
  end.

(** ** Data *)

Record dhKeyPair := DhKeyPair { kp_pub : option Z; kp_priv : option Z }.

Definition macKey := list byte.

Record macKeyUsage := MacKeyUsage {
  mku_ourKeyID : Z; mku_theirKeyID : Z; mku_receivingKey : macKey }.

Record keyPairCounter := KeyPairCounter {
  kpc_ourKeyID : Z; kpc_theirKeyID : Z; kpc_ourCounter : Z; kpc_theirCounter : Z }.

Record keyManagementContext := KeyManagementContext {
  ourKeyID : Z; theirKeyID : Z;
  ourCurrentDHKeys : dhKeyPair; ourPreviousDHKeys : dhKeyPair;
  theirCurrentDHPubKey : option Z; theirPreviousDHPubKey : option Z;
  counterHistory : list keyPairCounter;
  macKeyHistory : list macKeyUsage;
  oldMACKeys : list macKey }.

#[export] Instance dhKeyPair_eta : Eta dhKeyPair := fun r => DhKeyPair (kp_pub r) (kp_priv r).
#[export] Instance keyPairCounter_eta : Eta keyPairCounter := fun r =>
  KeyPairCounter (kpc_ourKeyID r) (kpc_theirKeyID r) (kpc_ourCounter r) (kpc_theirCounter r).
#[export] Instance keyManagementContext_eta : Eta keyManagementContext := fun r =>
  KeyManagementContext (ourKeyID r) (theirKeyID r) (ourCurrentDHKeys r) (ourPreviousDHKeys r)
    (theirCurrentDHPubKey r) (theirPreviousDHPubKey r) (counterHistory r) (macKeyHistory r)
    (oldMACKeys r).

(** The zero values of the structs. *)
Definition no_keys : dhKeyPair := DhKeyPair None None.
Definition empty_keys : keyManagementContext :=
  KeyManagementContext 0 0 no_keys no_keys None None [] [] [].

(** ** MAC key history *)

(** One round of [deleteKeysAt]: the last item moves to the deleted index. *)
Definition deleteKeyAt {A} (items : list A) (d : nat) : go (list A) :=
  match last items with
  | Some x =>
      if (d <? length items)%nat then Done (take (length items - 1) (<[d:=x]> items))
      else Panicked IndexOutOfRange
  | None => Panicked IndexOutOfRange
  end.

(** [deleteKeysAt]: from the last index to the first. *)
Fixpoint deleteKeysAt {A} (items : list A) (del : list nat) : go (list A) :=
  match del with
  | [] => Done items
  | d :: del' => items' ← deleteKeysAt items del'; deleteKeyAt items' d
  end.

Definition addKeys (items : list macKeyUsage) (our their : Z) (key : macKey) : list macKeyUsage :=
  items ++ [MacKeyUsage our their key].

(** The indices and the keys the scanning loop of [forgetMACKeysFor...] collects;
    [key] reads the key of an item. *)
Fixpoint scanKeys {A K} (key : A -> K) (f : A -> bool) (items : list A) (i : nat) : list nat * list K :=
  match items with
  | [] => ([], [])
  | k :: items' =>
      let '(del, ret) := scanKeys key f items' (S i) in
      if f k then (i :: del, key k :: ret) else (del, ret)
  end.

Definition forgetMACKeys {A K} (key : A -> K) (f : A -> bool) (items : list A) : go (list K * list A) :=
  let '(del, ret) := scanKeys key f items 0 in
  items' ← deleteKeysAt items del; mret (ret, items').

Definition forgetMACKeysForOurKey (items : list macKeyUsage) (id : Z) :=
  forgetMACKeys mku_receivingKey (fun k => mku_ourKeyID k =? id) items.

Definition forgetMACKeysForTheirKey (items : list macKeyUsage) (id : Z) :=
  forgetMACKeys mku_receivingKey (fun k => mku_theirKeyID k =? id) items.

(** ** Counters *)

(** [findCounterFor] returns a pointer into the history: here the index. *)
Fixpoint findCounterIndex (cs : list keyPairCounter) (our their : Z) : option nat :=
  match cs with
  | [] => None
  | c :: cs' =>
      if (kpc_ourKeyID c =? our) && (kpc_theirKeyID c =? their) then Some 0%nat
      else S <$> findCounterIndex cs' our their
  end.

Definition findCounterFor (cs : list keyPairCounter) (our their : Z) : nat * list keyPairCounter :=
  match findCounterIndex cs our their with
  | Some i => (i, cs)
  | None => (length cs, cs ++ [KeyPairCounter our their 0 0])
  end.

Definition counterAt (cs : list keyPairCounter) (i : nat) : keyPairCounter :=
  default (KeyPairCounter 0 0 0 0) (cs !! i).

(** The counters kept for a pair of key identifiers, as clients observe them. *)
Definition ourCounterOf (k : keyManagementContext) (our their : Z) : Z :=
  let '(i, cs) := findCounterFor (counterHistory k) our their in kpc_ourCounter (counterAt cs i).

Definition theirCounterOf (k : keyManagementContext) (our their : Z) : Z :=
  let '(i, cs) := findCounterFor (counterHistory k) our their in kpc_theirCounter (counterAt cs i).

(** [checkMessageCounter], given the fields of the message it reads. *)
Definition checkMessageCounter (k : keyManagementContext) (recipientKeyID senderKeyID topHalfCtr : Z)
  : option error * keyManagementContext :=
  let '(i, cs) := findCounterFor (counterHistory k) recipientKeyID senderKeyID in
  let counter := counterAt cs i in
  if topHalfCtr <=? kpc_theirCounter counter
  then (Some (newOtrConflictError "counter regressed"), k <| counterHistory := cs |>)
  else (None, k <| counterHistory := <[i := counter <| kpc_theirCounter := topHalfCtr |>]> cs |>).

Definition incrementOurCounter (k : keyManagementContext) (our their : Z) : keyManagementContext :=
  let '(i, cs) := findCounterFor (counterHistory k) our their in
  let counter := counterAt cs i in
  k <| counterHistory := <[i := counter <| kpc_ourCounter := u64 (kpc_ourCounter counter + 1) |>]> cs |>.

(** The counter [genDataMsgWithFlag] puts in a message, and its increment. *)
Definition takeOurCounter (k : keyManagementContext) (our their : Z) : Z * keyManagementContext :=
  let '(i, cs) := findCounterFor (counterHistory k) our their in
  let counter := counterAt cs i in
  let ctr := if kpc_ourCounter counter =? 0 then 1 else kpc_ourCounter counter in
  (ctr, k <| counterHistory := <[i := counter <| kpc_ourCounter := u64 (ctr + 1) |>]> cs |>).

(** ** Key pairs *)

Section Keys.
Context `{DHGroup} `{Crypto}.

(** [setBigInt] copies the value of a non-nil source. *)
Definition setBigInt (src : option Z) : go (option Z) := z ← deref src; mret (Some z).

Definition setTheirCurrentDHPubKey (k : keyManagementContext) (key : option Z) : go keyManagementContext :=
  z ← setBigInt key; mret (k <| theirCurrentDHPubKey := z |>).

Definition setOurCurrentDHKeys (k : keyManagementContext) (priv pub : option Z) : go keyManagementContext :=
  priv' ← setBigInt priv; pub' ← setBigInt pub;
  mret (k <| ourCurrentDHKeys := DhKeyPair pub' priv' |>).

Definition revealMACKeys (k : keyManagementContext) : list macKey * keyManagementContext :=
  (oldMACKeys k, k <| oldMACKeys := [] |>).

Definition generateNewDHKeyPair (k : keyManagementContext) (r : list byte)
  : option error * keyManagementContext * list byte :=
  match randSizedMPI r 40 with
  | (Err e, r') => (Some e, k, r')
  | (Ok newPrivKey, r') =>
      (None,
       k <| ourPreviousDHKeys := ourCurrentDHKeys k |>
         <| ourCurrentDHKeys := DhKeyPair (Some (modExp dh_g1 newPrivKey)) (Some newPrivKey) |>
         <| ourKeyID := u32 (ourKeyID k + 1) |>,
       r')
  end.

Definition revealMACKeysForOurPreviousKeyID (k : keyManagementContext) : go keyManagementContext :=
  '(keys, items) ← forgetMACKeysForOurKey (macKeyHistory k) (u32 (ourKeyID k - 1));
  mret (k <| macKeyHistory := items |> <| oldMACKeys := oldMACKeys k ++ keys |>).

Definition revealMACKeysForTheirPreviousKeyID (k : keyManagementContext) : go keyManagementContext :=
  '(keys, items) ← forgetMACKeysForTheirKey (macKeyHistory k) (u32 (theirKeyID k - 1));
  mret (k <| macKeyHistory := items |> <| oldMACKeys := oldMACKeys k ++ keys |>).

Definition rotateOurKeys (k : keyManagementContext) (recipientKeyID : Z) (r : list byte)
  : go (option error * keyManagementContext * list byte) :=
  if recipientKeyID =? ourKeyID k
  then k' ← revealMACKeysForOurPreviousKeyID k; mret (generateNewDHKeyPair k' r)
  else mret (None, k, r).

Definition rotateTheirKey (k : keyManagementContext) (senderKeyID : Z) (pubDHKey : Z) : go keyManagementContext :=
  if senderKeyID =? theirKeyID k
  then k' ← revealMACKeysForTheirPreviousKeyID k;
       mret (k' <| theirPreviousDHPubKey := theirCurrentDHPubKey k' |>
                <| theirCurrentDHPubKey := Some pubDHKey |>
                <| theirKeyID := u32 (theirKeyID k' + 1) |>)
  else mret k.

(** [Conversation.rotateKeys], given the fields of the message it reads. *)
Definition rotateKeys (k : keyManagementContext) (recipientKeyID senderKeyID y : Z) (r : list byte)
  : go (option error * keyManagementContext * list byte) :=
  '(err, k', r') ← rotateOurKeys k recipientKeyID r;
  match err with
  | Some e => mret (Some e, k', r')
  | None => k'' ← rotateTheirKey k' senderKeyID y; mret (None, k'', r')
  end.

Definition pickOurKeys (k : keyManagementContext) (id : Z) : result (option Z * option Z) :=
  if (id =? 0) || (ourKeyID k =? 0) then Err (newOtrConflictError "invalid key id for local peer")
  else if id =? ourKeyID k then Ok (kp_priv (ourCurrentDHKeys k), kp_pub (ourCurrentDHKeys k))
  else if id =? u32 (ourKeyID k - 1) then Ok (kp_priv (ourPreviousDHKeys k), kp_pub (ourPreviousDHKeys k))
  else Err (newOtrConflictError "mismatched key id for local peer").

Definition pickTheirKey (k : keyManagementContext) (id : Z) : result (option Z) :=
  if (id =? 0) || (theirKeyID k =? 0) then Err (newOtrConflictError "invalid key id for remote peer")
  else if id =? theirKeyID k then Ok (theirCurrentDHPubKey k)
  else if id =? u32 (theirKeyID k - 1) then
    match theirPreviousDHPubKey k with
    | None => Err (newOtrConflictError "no previous key for remote peer found")
    | Some y => Ok (Some y)
    end
  else Err (newOtrConflictError "mismatched key id for remote peer").

(** The method [calculateDHSessionKeys] of [keyManagementContext]. *)
Definition sessionKeysFor (k : keyManagementContext) (our their : Z) (v : otrVersion)
  : go (result sessionKeys * keyManagementContext) :=
  match pickOurKeys k our with
  | Err e => mret (Err e, k)
  | Ok (ourPriv, ourPub) =>
      match pickTheirKey k their with
      | Err e => mret (Err e, k)
      | Ok theirPub =>
          priv ← deref ourPriv; pub ← deref ourPub; their' ← deref theirPub;
          let ret := calculateDHSessionKeys priv pub their' v in
          mret (Ok ret, k <| macKeyHistory := addKeys (macKeyHistory k) our their (receivingMACKey ret) |>)
      end
  end.

End Keys.

(** ** Lemmas: counters *)

(** The record a history holds for a pair of key identifiers. *)
Definition counterOf (cs : list keyPairCounter) (our their : Z) : keyPairCounter :=
  let '(i, cs') := findCounterFor cs our their in counterAt cs' i.

(** Writing through the pointer [findCounterFor] returned. *)
Definition setCounter (cs : list keyPairCounter) (our their : Z) (c : keyPairCounter) : list keyPairCounter :=
  let '(i, cs') := findCounterFor cs our their in <[i := c]> cs'.

Definition is_pair (our their : Z) (c : keyPairCounter) : bool :=
  (kpc_ourKeyID c =? our) && (kpc_theirKeyID c =? their).

Lemma is_pair_true our their c : is_pair our their c = true <-> kpc_ourKeyID c = our /\ kpc_theirKeyID c = their.
Proof. unfold is_pair. rewrite andb_true_iff, !Z.eqb_eq. done. Qed.

Lemma counterOf_cons c cs our their :
  counterOf (c :: cs) our their = if is_pair our their c then c else counterOf cs our their.
Proof.
  unfold counterOf, findCounterFor. simpl. unfold is_pair.
  destruct (_ && _); [done|]. by destruct (findCounterIndex cs our their).
Qed.

Lemma setCounter_cons c cs our their c' :
  setCounter (c :: cs) our their c' =
  if is_pair our their c then c' :: cs else c :: setCounter cs our their c'.
Proof.
  unfold setCounter, findCounterFor. simpl. unfold is_pair.
  destruct (_ && _); [done|]. by destruct (findCounterIndex cs our their).
Qed.

Lemma counterOf_ids cs our their :
  kpc_ourKeyID (counterOf cs our their) = our /\ kpc_theirKeyID (counterOf cs our their) = their.
Proof.
  induction cs as [|c cs IH]; [done|]. rewrite counterOf_cons.
  destruct (is_pair our their c) eqn:E; [by apply is_pair_true|done].
Qed.

(** Reading after writing: the written pair changes, every other is kept. *)
Lemma counterOf_setCounter cs our their c our' their' :
  is_pair our their c = true ->
  counterOf (setCounter cs our their c) our' their' =
  if (our' =? our) && (their' =? their) then c else counterOf cs our' their'.
Proof.
  intros Hc. apply is_pair_true in Hc as Hids.
  assert (is_pair our' their' c = (our' =? our) && (their' =? their)) as Hp.
  { unfold is_pair. destruct Hids as [-> ->]. by rewrite (Z.eqb_sym our), (Z.eqb_sym their). }
  induction cs as [|d cs IH].
  - change (setCounter [] our their c) with [c]. by rewrite counterOf_cons, Hp.
  - rewrite setCounter_cons. destruct (is_pair our their d) eqn:Ed.
    + rewrite !counterOf_cons, Hp. destruct ((our' =? our) && (their' =? their)) eqn:Ep; [done|].
      assert (is_pair our' their' d = false) as ->; [|done].
      apply is_pair_true in Ed as [Eo Et]. unfold is_pair. rewrite Eo, Et.
      by rewrite (Z.eqb_sym our), (Z.eqb_sym their).
    + rewrite !counterOf_cons, IH. destruct (is_pair our' their' d) eqn:Ed'; [|done].
      destruct ((our' =? our) && (their' =? their)) eqn:Ep; [|done].
      apply andb_true_iff in Ep as [->%Z.eqb_eq ->%Z.eqb_eq]. congruence.
Qed.

Lemma findCounterIndex_app cs our their :
  findCounterIndex cs our their = None ->
  findCounterIndex (cs ++ [KeyPairCounter our their 0 0]) our their = Some (length cs).
Proof.
  induction cs as [|c cs IH]; simpl; intros Hn.
  - by rewrite !Z.eqb_refl.
  - destruct (_ && _); [done|]. destruct (findCounterIndex cs our their); [done|]. by rewrite IH.
Qed.

Lemma counterOf_findCounterFor cs our their our' their' :
  counterOf (snd (findCounterFor cs our their)) our' their' = counterOf cs our' their'.
Proof.
  unfold findCounterFor. destruct (findCounterIndex cs our their) eqn:E; [done|]. simpl. clear E.
  induction cs as [|c cs IH]; [|by rewrite <- app_comm_cons, !counterOf_cons, IH].
  simpl app. rewrite counterOf_cons. destruct (is_pair _ _ _) eqn:E; [|done].
  apply is_pair_true in E as [<- <-]. done.
Qed.

Lemma theirCounterOf_eq k our their :
  theirCounterOf k our their = kpc_theirCounter (counterOf (counterHistory k) our their).
Proof. unfold theirCounterOf, counterOf. by destruct (findCounterFor _ _ _). Qed.

Lemma ourCounterOf_eq k our their :
  ourCounterOf k our their = kpc_ourCounter (counterOf (counterHistory k) our their).
Proof. unfold ourCounterOf, counterOf. by destruct (findCounterFor _ _ _). Qed.

(** [checkMessageCounter] on its observable state. *)
Lemma checkMessageCounter_spec k recipient sender ctr err k' :
  checkMessageCounter k recipient sender ctr = (err, k') ->
  (err = None <-> theirCounterOf k recipient sender < ctr) /\
  (forall our their, theirCounterOf k' our their =
     if (our =? recipient) && (their =? sender) && bool_decide (err = None) then ctr
     else theirCounterOf k our their) /\
  (forall our their, ourCounterOf k' our their = ourCounterOf k our their) /\
  k' = k <| counterHistory := counterHistory k' |>.
Proof.
  intros Hc. unfold checkMessageCounter in Hc.
  pose proof (counterOf_setCounter (counterHistory k) recipient sender) as Hset.
  pose proof (counterOf_findCounterFor (counterHistory k) recipient sender) as Hfind.
  pose proof (counterOf_ids (counterHistory k) recipient sender) as Hids.
  rewrite theirCounterOf_eq. unfold counterOf at 1. unfold setCounter in Hset. unfold counterOf in Hids.
  destruct (findCounterFor (counterHistory k) recipient sender) as [i cs] eqn:E.
  set (c := counterAt cs i) in *.
  destruct (Z.leb_spec ctr (kpc_theirCounter c)); simplify_eq.
  - split; [|split; [|split]]; [split; [done|lia]|..]; intros;
      rewrite ?theirCounterOf_eq, ?ourCounterOf_eq; simpl in *.
    + rewrite andb_false_r. by rewrite Hfind.
    + by rewrite Hfind.
    + done.
  - assert (is_pair recipient sender (c <| kpc_theirCounter := ctr |>) = true) as Hp
      by (apply is_pair_true; exact Hids).
    split; [|split; [|split]]; [done|..]; intros; rewrite ?theirCounterOf_eq, ?ourCounterOf_eq;
      simpl in *; [..|done]; rewrite (Hset _ _ _ Hp); rewrite ?andb_true_r;
      destruct (_ && _) eqn:Eb; try done.
    apply andb_true_iff in Eb as [->%Z.eqb_eq ->%Z.eqb_eq].
    unfold counterOf. by rewrite E.
Qed.

(** [takeOurCounter] on its observable state. *)
Lemma takeOurCounter_spec k our their ctr k' :
  takeOurCounter k our their = (ctr, k') ->
  ctr = (if ourCounterOf k our their =? 0 then 1 else ourCounterOf k our their) /\
  (forall o t, ourCounterOf k' o t =
     if (o =? our) && (t =? their) then u64 (ctr + 1) else ourCounterOf k o t) /\
  (forall o t, theirCounterOf k' o t = theirCounterOf k o t) /\
  k' = k <| counterHistory := counterHistory k' |>.
Proof.
  intros Hc. unfold takeOurCounter in Hc.
  pose proof (counterOf_setCounter (counterHistory k) our their) as Hset.
  pose proof (counterOf_ids (counterHistory k) our their) as Hids.
  rewrite ourCounterOf_eq. unfold counterOf at 1 2. unfold setCounter in Hset. unfold counterOf in Hids.
  destruct (findCounterFor (counterHistory k) our their) as [i cs] eqn:E.
  set (c := counterAt cs i) in *. simplify_eq.
  set (ctr := if kpc_ourCounter c =? 0 then 1 else kpc_ourCounter c) in *.
  assert (is_pair our their (c <| kpc_ourCounter := u64 (ctr + 1) |>) = true) as Hp
    by (apply is_pair_true; exact Hids).
  split; [|split; [|split]]; [done|..]; intros; rewrite ?theirCounterOf_eq, ?ourCounterOf_eq;
    simpl in *; [..|done]; rewrite (Hset _ _ _ Hp); destruct (_ && _) eqn:Eb; try done.
  apply andb_true_iff in Eb as [->%Z.eqb_eq ->%Z.eqb_eq].
  unfold counterOf. by rewrite E.
Qed.

(** ** Replay protection *)

(** The counters a stream of messages gets accepted with, for one pair of key
    identifiers; a message is (recipient key, sender key, counter). *)
Fixpoint acceptedCounters (k : keyManagementContext) (msgs : list (Z * Z * Z)) (our their : Z) : list Z :=
  match msgs with
  | [] => []
  | (recipient, sender, ctr) :: msgs' =>
      match checkMessageCounter k recipient sender ctr with
      | (None, k') =>
          (if (our =? recipient) && (their =? sender) then [ctr] else []) ++ acceptedCounters k' msgs' our their
      | (Some _, k') => acceptedCounters k' msgs' our their
      end
  end.

Lemma acceptedCounters_increasing k msgs our their :
  StronglySorted Z.lt (theirCounterOf k our their :: acceptedCounters k msgs our their).
Proof.
  revert k; induction msgs as [|[[recipient sender] ctr] msgs IH]; intros k; simpl.
  - repeat constructor.
  - destruct (checkMessageCounter k recipient sender ctr) as [err k'] eqn:E.
    apply checkMessageCounter_spec in E as (Hacc & Hctr & _).
    specialize (IH k'). rewrite Hctr in IH.
    destruct err as [e|].
    + by rewrite andb_false_r in IH.
    + rewrite andb_true_r in IH. destruct ((our =? recipient) && (their =? sender)) eqn:Ep; [|done].
      apply andb_true_iff in Ep as [->%Z.eqb_eq ->%Z.eqb_eq]. simpl.
      assert (theirCounterOf k recipient sender < ctr) as Hlt by (by apply Hacc).
      constructor; [done|]. apply StronglySorted_inv in IH as [_ IH].
      constructor; [done|]. eapply Forall_impl; [exact IH|]. simpl. lia.
Qed.

(** ** Nonce freshness *)

(** The counters of [n] messages sent in a row under one pair of keys. *)
Fixpoint sentCounters (n : nat) (k : keyManagementContext) (our their : Z) : list Z :=
  match n with
  | O => []
  | S n' => let '(ctr, k') := takeOurCounter k our their in ctr :: sentCounters n' k' our their
  end.

Lemma sentCounters_eq n k our their :
  0 <= ourCounterOf k our their -> Z.max 1 (ourCounterOf k our their) + Z.of_nat n <= 2 ^ 64 ->
  sentCounters n k our their = seqZ (Z.max 1 (ourCounterOf k our their)) (Z.of_nat n).
Proof.
  revert k; induction n as [|n IH]; intros k Hpos Hb; [done|]. cbn [sentCounters].
  destruct (takeOurCounter k our their) as [ctr k'] eqn:E.
  apply takeOurCounter_spec in E as (Hctr & Hour & _).
  assert (ctr = Z.max 1 (ourCounterOf k our their)) as -> by (subst ctr; split_cmp; lia).
  specialize (Hour our their). rewrite !Z.eqb_refl in Hour. simpl andb in Hour. cbn iota in Hour.
  destruct (Nat.eq_dec n 0%nat) as [->|Hn]; [done|].
  unfold u64 in Hour. rewrite Z.mod_small in Hour by lia.
  rewrite IH, Hour by (rewrite ?Hour; lia).
  rewrite (seqZ_cons _ (Z.of_nat (S n))) by lia. f_equal. f_equal; lia.
Qed.

(** ** MAC key history *)

Lemma deleteKeyAt_last {A} pre (k : A) r :
  exists r', deleteKeyAt (pre ++ k :: r) (length pre) = Done (pre ++ r') /\ r' ≡ₚ r.
Proof.
  unfold deleteKeyAt. destruct r as [|x r] using rev_ind.
  - exists []. split; [|done]. rewrite last_snoc, length_app. simpl.
    destruct (Nat.ltb_spec (length pre) (length pre + 1)); [|lia].
    replace (length pre + 1 - 1)%nat with (length pre) by lia.
    rewrite insert_app_r_alt, Nat.sub_diag by lia. simpl. by rewrite take_app_length, app_nil_r.
  - clear IHr. exists (x :: r). split; [|by rewrite Permutation_app_comm].
    rewrite app_comm_cons, app_assoc, last_snoc, <- app_assoc, length_app. simpl length.
    destruct (Nat.ltb_spec (length pre) (length pre + S (length (r ++ [x])))); [|lia].
    rewrite insert_app_r_alt, Nat.sub_diag by lia. simpl insert.
    rewrite take_app_ge by (rewrite length_app; simpl; lia).
    f_equal. f_equal. rewrite length_app. simpl.
    replace (length pre + S (length r + 1) - 1 - length pre)%nat with (S (length r)) by lia.
    simpl. by rewrite take_app_length.
Qed.

Lemma deleteKeysAt_scan {A K} (key : A -> K) f pre rest :
  exists r, deleteKeysAt (pre ++ rest) (scanKeys key f rest (length pre)).1 = Done (pre ++ r) /\
            r ≡ₚ List.filter (fun k => negb (f k)) rest.
Proof.
  revert pre; induction rest as [|k rest IH]; intros pre; simpl.
  - by exists [].
  - specialize (IH (pre ++ [k])). rewrite length_app, Nat.add_comm, <- app_assoc in IH. simpl in IH.
    destruct (scanKeys key f rest (S (length pre))) as [del ret]. simpl in *.
    destruct IH as (r & Hr & Hp). rewrite <- app_assoc in Hr. simpl in Hr.
    destruct (f k); simpl.
    + rewrite Hr. simpl. destruct (deleteKeyAt_last pre k r) as (r' & -> & Hr'). exists r'. split; [done|]. by rewrite Hr'.
    + exists (k :: r). split; [done|]. by rewrite Hp.
Qed.

Lemma scanKeys_ret {A K} (key : A -> K) f items i : (scanKeys key f items i).2 = map key (List.filter f items).
Proof.
  revert i; induction items as [|k items IH]; intros i; [done|]. simpl.
  specialize (IH (S i)). destruct (scanKeys key f items (S i)) as [del ret]. simpl in IH. subst.
  by destruct (f k).
Qed.

(** The in-place deletion implements a filter: it returns the keys of the
    matching items, keeps the others, and never indexes out of range. *)
Lemma forgetMACKeys_spec {A K} (key : A -> K) f items :
  exists items', forgetMACKeys key f items = Done (map key (List.filter f items), items') /\
                 items' ≡ₚ List.filter (fun k => negb (f k)) items.
Proof.
  unfold forgetMACKeys. pose proof (scanKeys_ret key f items 0) as Hret.
  destruct (deleteKeysAt_scan key f [] items) as (r & Hr & Hp). simpl in Hr.
  destruct (scanKeys key f items 0) as [del ret]. simpl in *. subst ret.
  rewrite Hr. exists r. done.
Qed.

(** ** Theorems: counters and nonces *)

(** C12: The counter check enforces replay protection: in whatever order and
    under whatever key identifiers messages arrive, the counters accepted for
    one pair of key identifiers are strictly increasing and all exceed the one
    stored before, so no message is accepted twice. *)
Theorem accepted_counters_strictly_increase k msgs our their :
  StronglySorted Z.lt (theirCounterOf k our their :: acceptedCounters k msgs our their).
Proof. apply acceptedCounters_increasing. Qed.

(** C13: The counters of messages sent under one pair of keys are pairwise
    distinct and never zero, as long as the 64-bit counter does not overflow:
    no counter-mode nonce is reused. *)
Theorem sent_counters_fresh n k our their :
  0 <= ourCounterOf k our their -> Z.max 1 (ourCounterOf k our their) + Z.of_nat n <= 2 ^ 64 ->
  NoDup (sentCounters n k our their) /\ Forall (fun c => 1 <= c < 2 ^ 64) (sentCounters n k our their).
Proof.
  intros Hpos Hb. rewrite sentCounters_eq by done. split; [apply NoDup_seqZ|].
  apply Forall_forall. intros c Hc%elem_of_seqZ. lia.
Qed.

Lemma sent_counters_fresh_witness :
  sentCounters 3 empty_keys 1 1 = [1; 2; 3] /\ NoDup (sentCounters 3 empty_keys 1 1).
Proof.
  split; [reflexivity|]. apply (sent_counters_fresh 3 empty_keys 1 1); vm_compute; congruence.
Defined.

(** ** Theorems: key pairs *)

Definition is_full (kp : dhKeyPair) : Prop := is_Some (kp_pub kp) /\ is_Some (kp_priv kp).

(** Key identifiers are 32-bit, and the key every identifier in use names is
    present. *)
Definition keys_inv (k : keyManagementContext) : Prop :=
  0 <= ourKeyID k < 2 ^ 32 /\ 0 <= theirKeyID k < 2 ^ 32 /\
  (1 <= ourKeyID k -> is_full (ourCurrentDHKeys k)) /\
  (2 <= ourKeyID k -> is_full (ourPreviousDHKeys k)) /\
  (1 <= theirKeyID k -> is_Some (theirCurrentDHPubKey k)).

Section KeyTheorems.
Context `{DHGroup} `{Crypto}.

Lemma keys_inv_empty : keys_inv empty_keys.
Proof. unfold keys_inv. simpl. repeat split; lia. Qed.

Lemma u32_range z : 0 <= u32 z < 2 ^ 32.
Proof. apply Z.mod_pos_bound. lia. Qed.

Lemma keys_inv_generateNewDHKeyPair k r err k' r' :
  keys_inv k -> generateNewDHKeyPair k r = (err, k', r') -> keys_inv k'.
Proof.
  intros (Ho & Ht & Hc & Hp & Hy) E. unfold generateNewDHKeyPair in E.
  destruct (randSizedMPI r 40) as [[priv|e] r1]; simplify_eq; [|by unfold keys_inv].
  unfold keys_inv. simpl. split; [apply u32_range|]. split; [done|].
  split; [intros _; split; eauto|]. split; [|done].
  intros Hn. apply Hc. destruct (Z.eq_dec (ourKeyID k) 0) as [E|]; [|lia].
  rewrite E in Hn. change (u32 (0 + 1)) with 1 in Hn. lia.
Qed.

Lemma revealOur_spec k :
  exists k', revealMACKeysForOurPreviousKeyID k = Done k' /\
    k' = k <| macKeyHistory := macKeyHistory k' |>
           <| oldMACKeys := oldMACKeys k ++ map mku_receivingKey
                (List.filter (fun u => mku_ourKeyID u =? u32 (ourKeyID k - 1)) (macKeyHistory k)) |> /\
    macKeyHistory k' ≡ₚ List.filter (fun u => negb (mku_ourKeyID u =? u32 (ourKeyID k - 1))) (macKeyHistory k).
Proof.
  unfold revealMACKeysForOurPreviousKeyID, forgetMACKeysForOurKey.
  destruct (forgetMACKeys_spec mku_receivingKey (fun u => mku_ourKeyID u =? u32 (ourKeyID k - 1)) (macKeyHistory k))
    as (items & -> & Hp). eexists. split; [reflexivity|]. done.
Qed.

Lemma revealTheir_spec k :
  exists k', revealMACKeysForTheirPreviousKeyID k = Done k' /\
    k' = k <| macKeyHistory := macKeyHistory k' |>
           <| oldMACKeys := oldMACKeys k ++ map mku_receivingKey
                (List.filter (fun u => mku_theirKeyID u =? u32 (theirKeyID k - 1)) (macKeyHistory k)) |> /\
    macKeyHistory k' ≡ₚ List.filter (fun u => negb (mku_theirKeyID u =? u32 (theirKeyID k - 1))) (macKeyHistory k).
Proof.
  unfold revealMACKeysForTheirPreviousKeyID, forgetMACKeysForTheirKey.
  destruct (forgetMACKeys_spec mku_receivingKey (fun u => mku_theirKeyID u =? u32 (theirKeyID k - 1)) (macKeyHistory k))
    as (items & -> & Hp). eexists. split; [reflexivity|]. done.
Qed.

Lemma keys_inv_rotateTheirKey k sender y :
  keys_inv k -> exists k', rotateTheirKey k sender y = Done k' /\ keys_inv k'.
Proof.
  intros Hinv. unfold rotateTheirKey. destruct (_ =? _); [|eauto].
  destruct (revealTheir_spec k) as (k' & -> & Hk' & _).
  eexists. split; [reflexivity|]. destruct Hinv as (Ho & Ht & Hc & Hp & Hy).
  rewrite Hk'. unfold keys_inv. simpl. pose proof (u32_range (theirKeyID k + 1)).
  split; [done|]. split; [done|]. split; [done|]. split; [done|]. eauto.
Qed.

Lemma keys_inv_rotateOurKeys k recipient r :
  keys_inv k -> exists err k' r', rotateOurKeys k recipient r = Done (err, k', r') /\ keys_inv k'.
Proof.
  intros Hinv. unfold rotateOurKeys. destruct (_ =? _); [|do 3 eexists; done].
  destruct (revealOur_spec k) as (k' & -> & Hk' & _). simpl.
  destruct (generateNewDHKeyPair k' r) as [[err k2] r2] eqn:E. exists err, k2, r2.
  split; [done|]. eapply keys_inv_generateNewDHKeyPair; [|exact E].
  rewrite Hk'. by unfold keys_inv in *.
Qed.

(** The MAC keys a context holds are 20 bytes each, and at most [n] of them. *)
Definition macs_ok (n : Z) (k : keyManagementContext) : Prop :=
  Forall (fun u => length (mku_receivingKey u) = 20%nat) (macKeyHistory k) /\
  Forall (fun key => length key = 20%nat) (oldMACKeys k) /\
  len (macKeyHistory k) + len (oldMACKeys k) <= n.

Lemma Forall_List_filter {A} (P : A -> Prop) f (l : list A) : Forall P l -> Forall P (List.filter f l).
Proof. rewrite !Forall_forall. intros Hl x Hx. apply Hl. apply list_elem_of_In, filter_In in Hx as [Hx _]. by apply list_elem_of_In. Qed.

Lemma len_filter_split {A} (f : A -> bool) (l : list A) :
  len (List.filter f l) + len (List.filter (fun x => negb (f x)) l) = len l.
Proof. induction l as [|x l IH]; [done|]. simpl. destruct (f x); simpl; rewrite !len_cons; lia. Qed.

(** Moving keys from the history to the queue of keys to publish. *)
Lemma macs_ok_reveal n k k' f :
  macs_ok n k ->
  oldMACKeys k' = oldMACKeys k ++ map mku_receivingKey (List.filter f (macKeyHistory k)) ->
  macKeyHistory k' ≡ₚ List.filter (fun u => negb (f u)) (macKeyHistory k) -> macs_ok n k'.
Proof.
  intros (Hh & Ho & Hn) Eo Eh. unfold macs_ok. rewrite Eo. split_and!.
  - rewrite Eh. by apply Forall_List_filter.
  - apply Forall_app. split; [done|]. apply Forall_map. by apply Forall_List_filter.
  - rewrite len_app. unfold len at 1. rewrite Eh. fold (len (List.filter (fun u => negb (f u)) (macKeyHistory k))).
    unfold len at 3. rewrite length_map. fold (len (List.filter f (macKeyHistory k))).
    pose proof (len_filter_split f (macKeyHistory k)). lia.
Qed.

(** The outcome of a rotation, key by key. *)
Lemma rotateKeys_run n k recipient sender y r x r' :
  macs_ok n k -> (recipient = ourKeyID k -> randSizedMPI r 40 = (Ok x, r')) ->
  exists k' r'', rotateKeys k recipient sender y r = Done (None, k', r'') /\ macs_ok n k' /\
    counterHistory k' = counterHistory k /\
    (if recipient =? ourKeyID k
     then ourKeyID k' = u32 (ourKeyID k + 1) /\ ourPreviousDHKeys k' = ourCurrentDHKeys k /\
          ourCurrentDHKeys k' = DhKeyPair (Some (modExp dh_g1 x)) (Some x) /\ r'' = r'
     else ourKeyID k' = ourKeyID k /\ ourPreviousDHKeys k' = ourPreviousDHKeys k /\
          ourCurrentDHKeys k' = ourCurrentDHKeys k /\ r'' = r) /\
    (if sender =? theirKeyID k
     then theirKeyID k' = u32 (theirKeyID k + 1) /\ theirPreviousDHPubKey k' = theirCurrentDHPubKey k /\
          theirCurrentDHPubKey k' = Some y
     else theirKeyID k' = theirKeyID k /\ theirPreviousDHPubKey k' = theirPreviousDHPubKey k /\
          theirCurrentDHPubKey k' = theirCurrentDHPubKey k).
Proof.
  intros Hm Hr. unfold rotateKeys, rotateOurKeys.
  assert (exists k1 r1, (if recipient =? ourKeyID k
      then k' ← revealMACKeysForOurPreviousKeyID k; mret (generateNewDHKeyPair k' r)
      else mret (None, k, r)) = Done (None, k1, r1) /\ macs_ok n k1 /\ counterHistory k1 = counterHistory k /\
      theirKeyID k1 = theirKeyID k /\ theirPreviousDHPubKey k1 = theirPreviousDHPubKey k /\
      theirCurrentDHPubKey k1 = theirCurrentDHPubKey k /\
      (if recipient =? ourKeyID k
       then ourKeyID k1 = u32 (ourKeyID k + 1) /\ ourPreviousDHKeys k1 = ourCurrentDHKeys k /\
            ourCurrentDHKeys k1 = DhKeyPair (Some (modExp dh_g1 x)) (Some x) /\ r1 = r'
       else ourKeyID k1 = ourKeyID k /\ ourPreviousDHKeys k1 = ourPreviousDHKeys k /\
            ourCurrentDHKeys k1 = ourCurrentDHKeys k /\ r1 = r)) as (k1 & r1 & -> & Hm1 & Hc1 & Ht1 & Htp1 & Htc1 & Ho1).
  { destruct (Z.eqb_spec recipient (ourKeyID k)) as [E|]; [|by exists k, r].
    destruct (revealOur_spec k) as (k1 & E1 & Hk1 & Hp1). rewrite E1. go_simpl.
    unfold generateNewDHKeyPair. rewrite (Hr E). do 2 eexists. split; [reflexivity|].
    assert (macs_ok n k1) as Hmk by (eapply macs_ok_reveal; [exact Hm|by rewrite Hk1|exact Hp1]).
    split; [exact Hmk|]. rewrite Hk1. done. }
  go_simpl. unfold rotateTheirKey. rewrite Ht1.
  destruct (Z.eqb_spec sender (theirKeyID k)) as [E|].
  - destruct (revealTheir_spec k1) as (k2 & E2 & Hk2 & Hp2). rewrite E2. go_simpl.
    assert (macs_ok n k2) as Hmk by (eapply macs_ok_reveal; [exact Hm1|by rewrite Hk2|exact Hp2]).
    do 2 eexists. split; [reflexivity|]. split; [exact Hmk|]. rewrite Hk2. simpl. rewrite Ht1, Htc1. split; [done|].
    split; [|done]. by destruct (recipient =? ourKeyID k).
  - go_simpl. exists k1, r1. split; [done|]. split; [done|]. split; [done|]. split; [|done]. by destruct (recipient =? ourKeyID k).
Qed.

(** C14: Key rotation never panics and keeps the key table well-formed: every
    identifier in use names a key pair that is present. *)
Theorem rotateKeys_preserves_keys_inv k recipient sender y r :
  keys_inv k ->
  exists err k' r', rotateKeys k recipient sender y r = Done (err, k', r') /\ keys_inv k'.
Proof.
  intros Hinv. unfold rotateKeys.
  destruct (keys_inv_rotateOurKeys k recipient r Hinv) as (err & k1 & r1 & -> & Hinv1). simpl.
  destruct err as [e|]; [do 3 eexists; done|].
  destruct (keys_inv_rotateTheirKey k1 sender y Hinv1) as (k2 & -> & Hinv2).
  do 3 eexists. done.
Qed.

(** Under the invariant the key lookup never yields a nil key. *)
Lemma pickOurKeys_full k id priv pub :
  keys_inv k -> pickOurKeys k id = Ok (priv, pub) -> is_Some priv /\ is_Some pub.
Proof.
  intros (Ho & Ht & Hc & Hp & Hy) E. unfold pickOurKeys in E.
  destruct (Z.eqb_spec id 0); [done|]. destruct (Z.eqb_spec (ourKeyID k) 0); [done|]. simpl in E.
  destruct (Z.eqb_spec id (ourKeyID k)).
  - simplify_eq. destruct Hc as []; [lia|done].
  - destruct (Z.eqb_spec id (u32 (ourKeyID k - 1))); [|done]. simplify_eq.
    destruct Hp as []; [|done]. unfold u32 in *. rewrite Z.mod_small in * by lia. lia.
Qed.

Lemma pickTheirKey_full k id pub : keys_inv k -> pickTheirKey k id = Ok pub -> is_Some pub.
Proof.
  intros (Ho & Ht & Hc & Hp & Hy) E. unfold pickTheirKey in E.
  destruct (Z.eqb_spec id 0); [done|]. destruct (Z.eqb_spec (theirKeyID k) 0); [done|]. simpl in E.
  destruct (Z.eqb_spec id (theirKeyID k)); [simplify_eq; apply Hy; lia|].
  destruct (Z.eqb_spec id (u32 (theirKeyID k - 1))); [|done].
  destruct (theirPreviousDHPubKey k); simplify_eq. eauto.
Qed.

Lemma sessionKeysFor_inv k our their v :
  keys_inv k -> exists res k', sessionKeysFor k our their v = Done (res, k') /\ keys_inv k' /\
    k' = k <| macKeyHistory := macKeyHistory k' |>.
Proof.
  intros Hinv. unfold sessionKeysFor.
  destruct (pickOurKeys k our) as [[priv pub]|e] eqn:E1; [|by exists (Err e), k; destruct k].
  destruct (pickTheirKey k their) as [y|e] eqn:E2; [|by exists (Err e), k; destruct k].
  apply (pickOurKeys_full _ _ _ _ Hinv) in E1 as [[a ->] [b ->]].
  apply (pickTheirKey_full _ _ _ Hinv) in E2 as [c ->]. do 2 eexists.
  split; [reflexivity|]. split; [exact Hinv|done].
Qed.

(** A MAC key history in which every item belongs to a known pair of keys. *)
Definition revealed_by_rotation (k k' : keyManagementContext) (key : macKey) : Prop :=
  exists older, oldMACKeys k' = oldMACKeys k ++ older /\ key ∈ older.

(** C16: Deniability: when our key rotates, every MAC key queued for
    publication belongs to one of our keys that the key lookup no longer
    accepts, so no published MAC key authenticates a message that would still
    be accepted. *)
Theorem rotateOurKeys_reveals_retired_keys k recipient r k' r' key :
  1 <= ourKeyID k < 2 ^ 32 - 1 ->
  rotateOurKeys k recipient r = Done (None, k', r') -> revealed_by_rotation k k' key ->
  exists u, u ∈ macKeyHistory k /\ mku_receivingKey u = key /\
            exists e, pickOurKeys k' (mku_ourKeyID u) = Err e.
Proof.
  intros Hid E (older & Hold & Hkey). unfold rotateOurKeys in E.
  destruct (Z.eqb_spec recipient (ourKeyID k)) as [->|]; simpl in E.
  2:{ injection E as <- <-. destruct older; [by apply elem_of_nil in Hkey|].
      apply (f_equal length) in Hold. rewrite length_app in Hold. simpl in Hold. lia. }
  destruct (revealOur_spec k) as (k1 & E1 & Hk1 & _). rewrite E1 in E. go_simpl in E.
  unfold generateNewDHKeyPair in E. destruct (randSizedMPI r 40) as [[priv|e] r1]; simplify_eq.
  rewrite Hk1 in Hold. simpl in Hold. apply app_inv_head in Hold. subst older.
  apply list_elem_of_In, in_map_iff in Hkey as (u & <- & Hu%filter_In).
  destruct Hu as [Hu Hid'%Z.eqb_eq]. exists u. split; [by apply list_elem_of_In|]. split; [done|].
  rewrite Hk1. unfold pickOurKeys. simpl. rewrite Hid'. unfold u32.
  rewrite !Z.mod_small by (rewrite ?Z.mod_small; lia).
  split_cmp; simpl; try lia; eauto.
Qed.

(** What one end sends with is what the other receives with. *)
Lemma sessionKeys_agree x y v :
  dh_p <> 0 -> 0 <= x -> 0 <= y ->
  let X := modExp dh_g1 x in
  let Y := modExp dh_g1 y in
  X <> Y ->
  let a := calculateDHSessionKeys x X Y v in
  let b := calculateDHSessionKeys y Y X v in
  sendingAESKey a = receivingAESKey b /\ receivingAESKey a = sendingAESKey b /\
  sendingMACKey a = receivingMACKey b /\ receivingMACKey a = sendingMACKey b /\
  extraKey a = extraKey b.
Proof.
  intros Hp Hx Hy X Y Hne a b. subst a b. unfold calculateDHSessionKeys.
  assert (modExp Y x = modExp X y) as -> by (by apply modExp_comm).
  unfold bn_gt. split_cmp; try lia; done.
Qed.

(** C15: Both ends of a conversation derive the same session keys: what one
    end sends with is what the other receives with, and the extra symmetric
    key is shared. *)
Theorem session_keys_agree x y v :
  dh_p <> 0 -> 0 <= x -> 0 <= y ->
  let X := modExp dh_g1 x in
  let Y := modExp dh_g1 y in
  X <> Y ->
  let a := calculateDHSessionKeys x X Y v in
  let b := calculateDHSessionKeys y Y X v in
  sendingAESKey a = receivingAESKey b /\ receivingAESKey a = sendingAESKey b /\
  sendingMACKey a = receivingMACKey b /\ receivingMACKey a = sendingMACKey b /\
  extraKey a = extraKey b.
Proof. apply sessionKeys_agree. Qed.

End KeyTheorems.

(** ** Witnesses *)

(** Three bytes of a key pair's MAC history, enough randomness for one rotation. *)
Definition sample_keys : keyManagementContext :=
  KeyManagementContext 2 1 (DhKeyPair (Some 9) (Some 5)) (DhKeyPair (Some 8) (Some 3)) (Some 4) None
    [] [MacKeyUsage 1 1 (bs "old"); MacKeyUsage 2 1 (bs "new")] [].

Lemma rotateKeys_preserves_keys_inv_witness :
  exists err k' r', @rotateKeys small_group sample_keys 2 1 6 (zeroes 40) = Done (err, k', r') /\ keys_inv k'.
Proof.
  apply (@rotateKeys_preserves_keys_inv small_group).
  unfold keys_inv, is_full, sample_keys. simpl. split_and!; try lia; intros; eauto.
Defined.

Lemma rotateOurKeys_reveals_retired_keys_witness :
  exists u, u ∈ macKeyHistory sample_keys /\ mku_receivingKey u = bs "old" /\
    exists e, pickOurKeys (match @rotateOurKeys small_group sample_keys 2 (zeroes 40) with
                           | Done (_, k', _) => k' | Panicked _ => empty_keys end) (mku_ourKeyID u) = Err e.
Proof.
  eapply (@rotateOurKeys_reveals_retired_keys small_group sample_keys 2 (zeroes 40)).
  - simpl. lia.
  - vm_compute. reflexivity.
  - exists [bs "old"]. split; [reflexivity|left].
Defined.

Lemma session_keys_agree_witness :
  sendingAESKey (@calculateDHSessionKeys small_group toy_crypto 3 8 9 otrV3)
  = receivingAESKey (@calculateDHSessionKeys small_group toy_crypto 5 9 8 otrV3).
Proof.
  apply (@session_keys_agree small_group toy_crypto 3 5 otrV3); vm_compute; congruence.
Defined.
