(* ===== verification/Messages.v ===== *)
(** * Protocol messages: tlv.go, messages.go, the message types of smp_msg1.go
    to smp_msg4.go and smp_msg_abort.go, [genSMPTLV] of smp.go

    Each message type with its serializer and parser.  A parser that reports a
    malformed message returns [Err]; one that indexes past the end of its input
    panics. *)

From S2P Require Import Prelude GoLib Gotrax Policy Crypto KeyManagement.

(** ** tlv.go *)

Definition tlvTypePadding : Z := 0.
Definition tlvTypeDisconnected : Z := 1.
Definition tlvTypeSMP1 : Z := 2.
Definition tlvTypeSMP2 : Z := 3.
Definition tlvTypeSMP3 : Z := 4.
Definition tlvTypeSMP4 : Z := 5.
Definition tlvTypeSMPAbort : Z := 6.
Definition tlvTypeSMP1WithQuestion : Z := 7.
Definition tlvTypeExtraSymmetricKey : Z := 8.

Record tlv := Tlv { tlvType : Z; tlvLength : Z; tlvValue : list byte }.

#[export] Instance tlv_eta : Eta tlv := fun r => Tlv (tlvType r) (tlvLength r) (tlvValue r).

Definition tlv_serialize (c : tlv) : list byte :=
  AppendShort (AppendShort [] (tlvType c)) (tlvLength c) ++ tlvValue c.

Arguments tlv_serialize : simpl never.

Definition tlv_deserialize (tlvsBytes : list byte) : result tlv :=
  match ExtractShort tlvsBytes with
  | None => Err (newOtrError "wrong tlv type")
  | Some (b1, typ) =>
      match ExtractShort b1 with
      | None => Err (newOtrError "wrong tlv length")
      | Some (b2, l) =>
          if len b2 <? l then Err (newOtrError "wrong tlv value")
          else Ok (Tlv typ l (take (Z.to_nat l) b2))
      end
  end.

Definition isSMPMessage (c : tlv) : bool :=
  (tlvTypeSMP1 <=? tlvType c) && (tlvType c <=? tlvTypeSMP1WithQuestion).

(** ** SMP messages *)

Record smp1Message := Smp1Message {
  m1_g2a : Z; m1_g3a : Z; m1_c2 : Z; m1_c3 : Z; m1_d2 : Z; m1_d3 : Z;
  hasQuestion : bool; question : list byte }.

Record smp2Message := Smp2Message {
  m2_g2b : Z; m2_g3b : Z; m2_c2 : Z; m2_c3 : Z; m2_d2 : Z; m2_d3 : Z;
  m2_pb : Z; m2_qb : Z; m2_cp : Z; m2_d5 : Z; m2_d6 : Z }.

Record smp3Message := Smp3Message {
  m3_pa : Z; m3_qa : Z; m3_cp : Z; m3_d5 : Z; m3_d6 : Z; m3_d7 : Z; m3_ra : Z; m3_cr : Z }.

Record smp4Message := Smp4Message { m4_cr : Z; m4_d7 : Z; m4_rb : Z }.

(** The implementations of the interface [smpMessage]. *)
Inductive smpMessage :=
  | SMP1 (m : smp1Message)
  | SMP2 (m : smp2Message)
  | SMP3 (m : smp3Message)
  | SMP4 (m : smp4Message)
  | SMPAbort.

#[export] Instance smp1Message_eta : Eta smp1Message := fun r =>
  Smp1Message (m1_g2a r) (m1_g3a r) (m1_c2 r) (m1_c3 r) (m1_d2 r) (m1_d3 r) (hasQuestion r) (question r).

Definition genSMPTLV (tp : Z) (mpis : list Z) : tlv :=
  let data := AppendMPIs (AppendWord [] (u32 (len mpis))) mpis in
  Tlv tp (u16 (len data)) data.

Definition smp1_tlv (m : smp1Message) : tlv :=
  let t := genSMPTLV tlvTypeSMP1 [m1_g2a m; m1_c2 m; m1_d2 m; m1_g3a m; m1_c3 m; m1_d3 m] in
  if hasQuestion m then
    let value := question m ++ [Byte.x00] ++ tlvValue t in
    Tlv tlvTypeSMP1WithQuestion (u16 (len value)) value
  else t.

Definition smp2_tlv (m : smp2Message) : tlv :=
  genSMPTLV tlvTypeSMP2
    [m2_g2b m; m2_c2 m; m2_d2 m; m2_g3b m; m2_c3 m; m2_d3 m; m2_pb m; m2_qb m; m2_cp m; m2_d5 m; m2_d6 m].

Definition smp3_tlv (m : smp3Message) : tlv :=
  genSMPTLV tlvTypeSMP3 [m3_pa m; m3_qa m; m3_cp m; m3_d5 m; m3_d6 m; m3_ra m; m3_cr m; m3_d7 m].

Definition smp4_tlv (m : smp4Message) : tlv := genSMPTLV tlvTypeSMP4 [m4_rb m; m4_cr m; m4_d7 m].

Definition smpAbort_tlv : tlv := genSMPTLV tlvTypeSMPAbort [].

(** The method [tlv] of the interface. *)
Definition smpMessage_tlv (m : smpMessage) : tlv :=
  match m with
  | SMP1 m => smp1_tlv m
  | SMP2 m => smp2_tlv m
  | SMP3 m => smp3_tlv m
  | SMP4 m => smp4_tlv m
  | SMPAbort => smpAbort_tlv
  end.

Definition toSmpMessage1 (t : tlv) : option smp1Message :=
  match ExtractMPIs (tlvValue t) with
  | Some (_, g2a :: c2 :: d2 :: g3a :: c3 :: d3 :: _) => Some (Smp1Message g2a g3a c2 c3 d2 d3 false [])
  | _ => None
  end.

Definition toSmpMessage1Q (t : tlv) : option smp1Message :=
  let nulPos := IndexByte (tlvValue t) Byte.x00 in
  if nulPos =? -1 then None
  else
    let q := take (Z.to_nat nulPos) (tlvValue t) in
    let t' := t <| tlvValue := drop (Z.to_nat (nulPos + 1)) (tlvValue t) |> in
    match toSmpMessage1 t' with
    | Some m => Some (m <| hasQuestion := true |> <| question := q |>)
    | None => None
    end.

Definition toSmpMessage2 (t : tlv) : option smp2Message :=
  match ExtractMPIs (tlvValue t) with
  | Some (_, g2b :: c2 :: d2 :: g3b :: c3 :: d3 :: pb :: qb :: cp :: d5 :: d6 :: _) =>
      Some (Smp2Message g2b g3b c2 c3 d2 d3 pb qb cp d5 d6)
  | _ => None
  end.

Definition toSmpMessage3 (t : tlv) : option smp3Message :=
  match ExtractMPIs (tlvValue t) with
  | Some (_, pa :: qa :: cp :: d5 :: d6 :: ra :: cr :: d7 :: _) =>
      Some (Smp3Message pa qa cp d5 d6 d7 ra cr)
  | _ => None
  end.

Definition toSmpMessage4 (t : tlv) : option smp4Message :=
  match ExtractMPIs (tlvValue t) with
  | Some (_, rb :: cr :: d7 :: _) => Some (Smp4Message cr d7 rb)
  | _ => None
  end.

(** The method [smpMessage] of a TLV. *)
Definition tlv_smpMessage (c : tlv) : option smpMessage :=
  if tlvType c =? tlvTypeSMP1 then SMP1 <$> toSmpMessage1 c
  else if tlvType c =? tlvTypeSMP1WithQuestion then SMP1 <$> toSmpMessage1Q c
  else if tlvType c =? tlvTypeSMP2 then SMP2 <$> toSmpMessage2 c
  else if tlvType c =? tlvTypeSMP3 then SMP3 <$> toSmpMessage3 c
  else if tlvType c =? tlvTypeSMP4 then SMP4 <$> toSmpMessage4 c
  else if tlvType c =? tlvTypeSMPAbort then Some SMPAbort
  else None.

(** ** messages.go: constants *)

Definition messageFlagNormal : Z := 0.
Definition messageFlagIgnoreUnreadable : Z := 1.
Definition messageHeaderPrefix : Z := 3.
Definition msgTypeDHCommit : Z := 2.
Definition msgTypeData : Z := 3.
Definition msgTypeDHKey : Z := 10.
Definition msgTypeRevealSig : Z := 17.
Definition msgTypeSig : Z := 18.

(** ** Key exchange messages *)

Record dhCommit := DhCommit { dhc_encryptedGx : list byte; dhc_yhashedGx : list byte }.

Definition dhCommit_serialize (c : dhCommit) : list byte :=
  AppendData (AppendData [] (dhc_encryptedGx c)) (dhc_yhashedGx c).

Definition dhCommit_deserialize (msg : list byte) : result dhCommit :=
  match ExtractData msg with
  | Some (msg', gx) =>
      match ExtractData msg' with
      | Some (_, h) => Ok (DhCommit gx h)
      | None => Err (newOtrError "corrupt DH commit message")
      end
  | None => Err (newOtrError "corrupt DH commit message")
  end.

Record dhKey := DhKey { dhk_gy : Z }.

Definition dhKey_serialize (c : dhKey) : list byte := AppendMPI [] (dhk_gy c).

Definition dhKey_deserialize (msg : list byte) : result dhKey :=
  match ExtractMPI msg with
  | Some (_, gy) => Ok (DhKey gy)
  | None => Err (newOtrError "corrupt DH key message")
  end.

Record revealSig := RevealSig { rs_r : list byte; rs_encryptedSig : list byte; rs_macSig : list byte }.

(** The encrypted signature is already a DATA field when it is serialized. *)
Definition revealSig_serialize (c : revealSig) (v : otrVersion) : go (list byte) :=
  mac ← slice (rs_macSig c) 0 (truncateLength v);
  mret (AppendData [] (rs_r c) ++ rs_encryptedSig c ++ mac).

(** [copy] into the 16-byte array [r]. *)
Definition copy16 (r : list byte) : list byte := take 16 (r ++ zeroes 16).

Definition revealSig_deserialize (msg : list byte) (v : otrVersion) : result revealSig :=
  match ExtractData msg with
  | Some (inp, r) =>
      match ExtractData inp with
      | Some (macSig, encryptedSig) =>
          if len macSig =? truncateLength v then Ok (RevealSig (copy16 r) encryptedSig macSig)
          else Err (newOtrError "corrupt reveal signature message")
      | None => Err (newOtrError "corrupt reveal signature message")
      end
  | None => Err (newOtrError "corrupt reveal signature message")
  end.

Record sig := Sig { sig_encryptedSig : list byte; sig_macSig : list byte }.

Definition sig_serialize (c : sig) (v : otrVersion) : go (list byte) :=
  mac ← slice (sig_macSig c) 0 (truncateLength v); mret (sig_encryptedSig c ++ mac).

Definition sig_deserialize (msg : list byte) : result sig :=
  match ExtractData msg with
  | Some (macSig, encryptedSig) =>
      if len macSig =? 20 then Ok (Sig encryptedSig macSig)
      else Err (newOtrError "corrupt signature message")
  | None => Err (newOtrError "corrupt signature message")
  end.

(** ** Data messages *)

Record dataMsg := DataMsg {
  dm_flag : byte;
  dm_senderKeyID : Z; dm_recipientKeyID : Z;
  dm_y : Z;
  dm_topHalfCtr : list byte;
  dm_encryptedMsg : list byte;
  dm_authenticator : list byte;
  dm_oldMACKeys : list macKey;
  dm_serializeUnsignedCache : option (list byte) }.

#[export] Instance dataMsg_eta : Eta dataMsg := fun r =>
  DataMsg (dm_flag r) (dm_senderKeyID r) (dm_recipientKeyID r) (dm_y r) (dm_topHalfCtr r)
    (dm_encryptedMsg r) (dm_authenticator r) (dm_oldMACKeys r) (dm_serializeUnsignedCache r).

Definition serializeUnsigned (c : dataMsg) : list byte :=
  AppendData
    (AppendMPI (AppendWord (AppendWord [dm_flag c] (dm_senderKeyID c)) (dm_recipientKeyID c)) (dm_y c)
       ++ dm_topHalfCtr c)
    (dm_encryptedMsg c).

(** The cached serialization, computed when it is nil. *)
Definition unsignedBytes (c : dataMsg) : list byte :=
  default (serializeUnsigned c) (dm_serializeUnsignedCache c).

Definition dataMsg_serialize (c : dataMsg) (v : otrVersion) : list byte :=
  AppendData (unsignedBytes c ++ dm_authenticator c) (concat (dm_oldMACKeys c)).

Definition deserializeUnsigned (msg : list byte) : result dataMsg :=
  match msg with
  | [] => Err (newOtrError "dataMsg.deserialize empty message")
  | flag :: in1 =>
      match ExtractWord in1 with
      | None => Err (newOtrError "dataMsg.deserialize corrupted senderKeyID")
      | Some (in2, sender) =>
          match ExtractWord in2 with
          | None => Err (newOtrError "dataMsg.deserialize corrupted recipientKeyID")
          | Some (in3, recipient) =>
              match ExtractMPI in3 with
              | None => Err (newOtrError "dataMsg.deserialize corrupted y")
              | Some (in4, y) =>
                  if len in4 <? 8 then Err (newOtrError "dataMsg.deserialize corrupted topHalfCtr")
                  else if be_decode (take 8 in4) =? 0
                  then Err (newOtrError "dataMsg.deserialize invalid topHalfCtr")
                  else
                    match ExtractData (drop 8 in4) with
                    | None => Err (newOtrError "dataMsg.deserialize corrupted encryptedMsg")
                    | Some (in5, encryptedMsg) =>
                        Ok (DataMsg flag sender recipient y (take 8 in4) encryptedMsg [] []
                              (Some (take (length msg - length in5) msg)))
                    end
              end
          end
      end
  end.

(** The loop over the revealed MAC keys, at most one round per byte. *)
Fixpoint splitMACKeys (fuel : nat) (revKeysBytes : list byte) (keyLen : nat) : option (list macKey) :=
  match revKeysBytes with
  | [] => Some []
  | _ =>
      match fuel with
      | O => None
      | S f =>
          if (length revKeysBytes <? keyLen)%nat then None
          else match splitMACKeys f (drop keyLen revKeysBytes) keyLen with
               | Some ks => Some (take keyLen revKeysBytes :: ks)
               | None => None
               end
      end
  end.

Definition dataMsg_deserialize (msg : list byte) (v : otrVersion) : go (result dataMsg) :=
  match deserializeUnsigned msg with
  | Err e => mret (Err e)
  | Ok c =>
      let msg1 := drop (length (unsignedBytes c)) msg in
      authenticator ← slice msg1 0 (hashLength v);
      msg2 ← slice msg1 (len authenticator) (len msg1);
      match ExtractData msg2 with
      | None => mret (Err (newOtrError "dataMsg.deserialize corrupted revealMACKeys"))
      | Some (_, revKeysBytes) =>
          match splitMACKeys (length revKeysBytes) revKeysBytes (Z.to_nat (hashLength v)) with
          | None => mret (Err (newOtrError "dataMsg.deserialize corrupted revealMACKeys"))
          | Some ks => mret (Ok (c <| dm_authenticator := authenticator |> <| dm_oldMACKeys := ks |>))
          end
      end
  end.

Section Authentication.
Context `{Crypto}.

(** [sign] *)
Definition dataMsg_sign (c : dataMsg) (key header : list byte) (v : otrVersion) : dataMsg :=
  let cache := unsignedBytes c in
  c <| dm_serializeUnsignedCache := Some cache |>
    <| dm_authenticator := hmac (hash v) key (header ++ cache) |>.

(** [checkSign]; a nil cache writes nothing into the MAC. *)
Definition checkSign (c : dataMsg) (key header : list byte) (v : otrVersion) : option error :=
  let calculated := hmac (hash v) key (header ++ default [] (dm_serializeUnsignedCache c)) in
  if bool_decide (dm_authenticator c = calculated) then None
  else Some (newOtrConflictError "bad signature MAC in encrypted signature").
End Authentication.

(** ** Plaintext of a data message *)

Record plainDataMsg := PlainDataMsg { pd_message : list byte; pd_tlvs : list tlv }.

(** The number of bytes before the first zero byte. *)
Fixpoint nulPos (msg : list byte) : nat :=
  match msg with
  | [] => 0
  | b :: msg' => if decide (b = Byte.x00) then 0 else S (nulPos msg')
  end.

(** The TLV loop, at most one round per byte; the TLVs read before an error
    are kept. *)
Fixpoint parseTLVs (fuel : nat) (tlvsBytes : list byte) : list tlv * option error :=
  match tlvsBytes with
  | [] => ([], None)
  | _ =>
      match fuel with
      | O => ([], None)
      | S f =>
          match tlv_deserialize tlvsBytes with
          | Err e => ([], Some e)
          | Ok t =>
              let '(ts, err) := parseTLVs f (drop (Z.to_nat (4 + tlvLength t)) tlvsBytes) in (t :: ts, err)
          end
      end
  end.

Definition plainDataMsg_deserialize (msg : list byte) : plainDataMsg * option error :=
  let n := nulPos msg in
  if (n <? length msg)%nat then
    let '(ts, err) := parseTLVs (length msg) (drop (n + 1) msg) in (PlainDataMsg (take n msg) ts, err)
  else (PlainDataMsg msg [], None).

Definition plainDataMsg_serialize (c : plainDataMsg) : list byte :=
  pd_message c ++ [Byte.x00] ++ concat (map tlv_serialize (pd_tlvs c)).

Definition paddingGranularity : Z := 256.
Definition tlvHeaderLen : Z := 4.
Definition nulByteLen : Z := 1.

Definition pad (c : plainDataMsg) : plainDataMsg :=
  let padding := paddingGranularity - (len (pd_message c) + tlvHeaderLen + nulByteLen) mod paddingGranularity in
  PlainDataMsg (pd_message c)
    (pd_tlvs c ++ [Tlv tlvTypePadding (u16 padding) (zeroes (Z.to_nat padding))]).

Section Encryption.
Context `{Crypto}.

(** The initialisation vector: the counter and eight zero bytes. *)
Definition ctr_iv (topHalfCtr : list byte) : list byte := take 16 (topHalfCtr ++ zeroes 16).

(** A wrong key size leaves the destination zeroed and the error ignored. *)
Definition plainDataMsg_encrypt (c : plainDataMsg) (key topHalfCtr : list byte) : list byte :=
  let data := plainDataMsg_serialize (pad c) in
  match counterEncipher key (ctr_iv topHalfCtr) data with
  | Ok dst => dst
  | Err _ => zeroes (length data)
  end.

(** [decrypt] of a [plainDataMsg]: the error of the parser is dropped. *)
Definition plainDataMsg_decrypt (key topHalfCtr src : list byte) : result plainDataMsg :=
  match counterEncipher key (ctr_iv topHalfCtr) src with
  | Ok p => Ok (fst (plainDataMsg_deserialize p))
  | Err e => Err e
  end.
End Encryption.

(** ** Lemmas: TLVs *)

(** A TLV whose header describes its value. *)
Definition tlv_ok (t : tlv) : Prop :=
  0 <= tlvType t < 2 ^ 16 /\ tlvLength t = len (tlvValue t) /\ len (tlvValue t) < 2 ^ 16.

Lemma tlv_serialize_app t : tlv_serialize t = SerializeShort (tlvType t) ++ SerializeShort (tlvLength t) ++ tlvValue t.
Proof. unfold tlv_serialize, AppendShort. by rewrite app_nil_l, <- app_assoc. Qed.

Lemma tlv_deserialize_serialize t rest : tlv_ok t -> tlv_deserialize (tlv_serialize t ++ rest) = Ok t.
Proof.
  intros (Ht & Hl & Hv). unfold tlv_deserialize. pose proof (len_nonneg (tlvValue t)).
  rewrite tlv_serialize_app, <- !app_assoc, ExtractShort_Serialize, Hl by lia.
  rewrite ExtractShort_Serialize by lia. destruct t as [typ l v]. cbn [tlvType tlvLength tlvValue] in *.
  subst l. autorewrite with len. pose proof (len_nonneg rest). split_cmp; [lia|].
  unfold len. by rewrite Nat2Z.id, take_app_length.
Qed.

Lemma length_tlv_serialize t : tlv_ok t -> length (tlv_serialize t) = Z.to_nat (4 + tlvLength t).
Proof.
  intros (_ & Hl & _). rewrite tlv_serialize_app, !length_app. unfold SerializeShort.
  rewrite !length_be_encode, Hl. unfold len. lia.
Qed.

Lemma parseTLVs_serialize ts fuel :
  Forall tlv_ok ts -> (length (concat (map tlv_serialize ts)) <= fuel)%nat ->
  parseTLVs fuel (concat (map tlv_serialize ts)) = (ts, None).
Proof.
  intros Hts. revert fuel; induction Hts as [|t ts Ht Hts IH]; intros fuel Hf; [by destruct fuel|].
  rewrite map_cons, concat_cons in *. rewrite length_app in Hf.
  pose proof (length_tlv_serialize t Ht) as Hlen.
  assert (0 <= tlvLength t) by (destruct Ht as (_ & -> & _); apply len_nonneg).
  destruct (tlv_serialize t ++ concat (map tlv_serialize ts)) as [|b l] eqn:E.
  { apply (f_equal length) in E. rewrite length_app in E. simpl in E. lia. }
  destruct fuel as [|fuel]; [lia|]. cbn [parseTLVs]. rewrite <- E.
  rewrite tlv_deserialize_serialize by done.
  rewrite drop_app_length' by done. rewrite IH by lia. done.
Qed.

Lemma nulPos_app m rest : Byte.x00 ∉ m -> nulPos (m ++ Byte.x00 :: rest) = length m.
Proof.
  induction m as [|b m IH]; intros Hn; [done|]. cbn [app nulPos length].
  apply not_elem_of_cons in Hn as [Hb Hn]. rewrite decide_False by congruence. by rewrite IH.
Qed.

(** ** Theorems: plaintexts *)

Definition plain_ok (c : plainDataMsg) : Prop := (Byte.x00 ∉ pd_message c) /\ Forall tlv_ok (pd_tlvs c).

Lemma plain_deserialize_serialize c :
  plain_ok c -> plainDataMsg_deserialize (plainDataMsg_serialize c) = (c, None).
Proof.
  destruct c as [m ts]. intros [Hm Hts]. simpl in *.
  unfold plainDataMsg_deserialize, plainDataMsg_serialize. cbn [pd_message pd_tlvs app].
  rewrite nulPos_app by done. rewrite length_app. simpl length.
  destruct (Nat.ltb_spec (length m) (length m + S (length (concat (map tlv_serialize ts))))); [|lia].
  rewrite drop_app_ge by lia. replace (length m + 1 - length m)%nat with 1%nat by lia.
  rewrite skipn_cons, drop_0, parseTLVs_serialize, take_app_length; [done..|lia].
Qed.

Lemma padding_bounds z : 1 <= 256 - z mod 256 <= 256.
Proof. pose proof (Z.mod_pos_bound z 256). lia. Qed.

Lemma pad_ok c : plain_ok c -> plain_ok (pad c).
Proof.
  intros [Hm Hts]. split; [done|]. simpl. apply Forall_app. split; [done|].
  constructor; [|done]. unfold tlv_ok. simpl. unfold paddingGranularity, u16, len.
  pose proof (padding_bounds (len (pd_message c) + tlvHeaderLen + nulByteLen)) as Hb. unfold len in Hb.
  unfold zeroes. rewrite length_replicate, Z2Nat.id, Z.mod_small by lia. unfold tlvTypePadding. lia.
Qed.

(** A data message's plaintext reads back exactly: the text before the
    first zero byte and every TLV, for a text without zero bytes and TLVs whose
    header matches their value. *)
Theorem plainDataMsg_roundtrip c :
  plain_ok c -> plainDataMsg_deserialize (plainDataMsg_serialize c) = (c, None).
Proof. apply plain_deserialize_serialize. Qed.

Definition sample_plain : plainDataMsg := PlainDataMsg (bs "hello") [Tlv 8 4 (bs "abcd"); smpAbort_tlv].

Lemma sample_plain_ok : plain_ok sample_plain.
Proof.
  split; [intros H; repeat (apply elem_of_cons in H as [H|H]; [discriminate H|]); by apply elem_of_nil in H|].
  repeat constructor; vm_compute; congruence.
Qed.

Lemma plainDataMsg_roundtrip_witness :
  plainDataMsg_deserialize (plainDataMsg_serialize sample_plain) = (sample_plain, None).
Proof. apply plainDataMsg_roundtrip, sample_plain_ok. Defined.

Lemma len_padded m :
  len (plainDataMsg_serialize (pad (PlainDataMsg m []))) = 256 * ((len m + 5) / 256 + 1).
Proof.
  unfold plainDataMsg_serialize, pad. cbn [pd_message pd_tlvs app].
  unfold paddingGranularity, tlvHeaderLen, nulByteLen.
  set (n := 256 - _). pose proof (padding_bounds (len m + 4 + 1)) as Hb. fold n in Hb.
  rewrite map_cons, concat_cons, app_nil_r, tlv_serialize_app. cbn [tlvType tlvLength tlvValue].
  unfold SerializeShort.
  autorewrite with len. replace (len (zeroes (Z.to_nat n))) with n
    by (unfold len, zeroes; rewrite length_replicate, Z2Nat.id; lia).
  unfold n. replace (len m + 4 + 1) with (len m + 5) by lia.
  pose proof (Z_div_mod_eq_full (len m + 5) 256). lia.
Qed.

(** A message sent without TLVs of its own is padded to a multiple of 256
    bytes, with at least one byte of padding, so its length reveals only a
    block count. *)
Theorem pad_block_length m :
  let data := plainDataMsg_serialize (pad (PlainDataMsg m [])) in
  (256 | len data) /\ len m + 5 < len data <= len m + 5 + 256.
Proof. cbn zeta. rewrite len_padded. split; [by exists ((len m + 5) / 256 + 1); lia|dlia]. Qed.

Section EncryptionTheorems.
Context `{CryptoLaws}.

Lemma len_plainDataMsg_encrypt m key ctr : len (plainDataMsg_encrypt (PlainDataMsg m []) key ctr) <= len m + 261.
Proof.
  pose proof (len_padded m) as Hl. unfold plainDataMsg_encrypt, counterEncipher. unfold len in *.
  destruct (_ || _); [rewrite length_XORKeyStream|unfold zeroes; rewrite length_replicate]; rewrite Hl; dlia.
Qed.

Lemma plainDataMsg_decrypts c key ctr :
  plain_ok c -> len key = 16 -> plainDataMsg_decrypt key ctr (plainDataMsg_encrypt c key ctr) = Ok (pad c).
Proof.
  intros Hc Hk. unfold plainDataMsg_decrypt, plainDataMsg_encrypt, counterEncipher.
  rewrite Hk. simpl. rewrite XORKeyStream_involutive, plain_deserialize_serialize; [done|by apply pad_ok].
Qed.

(** Decrypting an encrypted plaintext with the same key and counter gives
    back the text, its TLVs and the padding TLV. *)
Theorem plainDataMsg_decrypt_encrypt c key ctr :
  plain_ok c -> len key = 16 -> plainDataMsg_decrypt key ctr (plainDataMsg_encrypt c key ctr) = Ok (pad c).
Proof. apply plainDataMsg_decrypts. Qed.

End EncryptionTheorems.

Lemma plainDataMsg_decrypt_encrypt_witness :
  @plainDataMsg_decrypt toy_crypto (zeroes 16) (be_encode 8 1)
    (@plainDataMsg_encrypt toy_crypto sample_plain (zeroes 16) (be_encode 8 1)) = Ok (pad sample_plain).
Proof.
  apply (@plainDataMsg_decrypt_encrypt toy_crypto toy_crypto_laws); [apply sample_plain_ok|reflexivity].
Defined.

(** ** Theorems: data messages *)

Definition dataMsg_ok (c : dataMsg) : Prop :=
  0 <= dm_senderKeyID c < 2 ^ 32 /\ 0 <= dm_recipientKeyID c < 2 ^ 32 /\ mpi_ok (dm_y c) /\
  length (dm_topHalfCtr c) = 8%nat /\ be_decode (dm_topHalfCtr c) <> 0 /\
  len (dm_encryptedMsg c) < 2 ^ 32.

Lemma serializeUnsigned_app c rest :
  serializeUnsigned c ++ rest =
  dm_flag c :: SerializeWord (dm_senderKeyID c) ++ SerializeWord (dm_recipientKeyID c)
    ++ AppendMPI [] (dm_y c) ++ dm_topHalfCtr c ++ AppendData [] (dm_encryptedMsg c) ++ rest.
Proof.
  unfold serializeUnsigned, AppendWord.
  rewrite AppendData_app, AppendMPI_app, <- !app_assoc. done.
Qed.

(** The unsigned part reads back, and the bytes it spans are remembered for
    the MAC. *)
Lemma deserializeUnsigned_serialize c rest :
  dataMsg_ok c ->
  deserializeUnsigned (serializeUnsigned c ++ rest) =
  Ok (c <| dm_authenticator := [] |> <| dm_oldMACKeys := [] |>
        <| dm_serializeUnsignedCache := Some (serializeUnsigned c) |>).
Proof.
  intros (Hs & Hr & Hy & Hc8 & Hc0 & He).
  assert (forall r, take (length (serializeUnsigned c ++ r) - length r) (serializeUnsigned c ++ r)
                    = serializeUnsigned c) as Htake.
  { intros r. rewrite length_app, Nat.add_sub. apply take_app_length. }
  specialize (Htake rest). remember (serializeUnsigned c) as cache eqn:Ecache.
  rewrite Ecache at 1. rewrite serializeUnsigned_app. cbn [deserializeUnsigned].
  rewrite !ExtractWord_Serialize, ExtractMPI_Append by done. autorewrite with len.
  rewrite take_app_length' by done. rewrite drop_app_length' by done.
  replace (len (dm_topHalfCtr c)) with 8 by (unfold len; lia).
  pose proof (len_nonneg (AppendData [] (dm_encryptedMsg c))). pose proof (len_nonneg rest).
  destruct (Z.ltb_spec (8 + (len (AppendData [] (dm_encryptedMsg c)) + len rest)) 8); [lia|].
  destruct (Z.eqb_spec (be_decode (dm_topHalfCtr c)) 0); [done|].
  rewrite ExtractData_Append by done. cbn zeta. do 2 f_equal.
  rewrite <- serializeUnsigned_app, <- Ecache. by rewrite Htake.
Qed.

Lemma splitMACKeys_concat ks n fuel :
  (0 < n)%nat -> Forall (fun k => length k = n) ks -> (length (concat ks) <= fuel)%nat ->
  splitMACKeys fuel (concat ks) n = Some ks.
Proof.
  intros Hn H. revert fuel; induction H as [|k ks Hk _ IH]; intros fuel Hf; [by destruct fuel|].
  simpl concat in *. rewrite length_app in Hf.
  destruct (k ++ concat ks) as [|b l] eqn:E.
  { apply (f_equal length) in E. rewrite length_app in E. simpl in E. lia. }
  destruct fuel as [|fuel]; [lia|]. cbn [splitMACKeys]. rewrite <- E, length_app.
  destruct (Nat.ltb_spec (length k + length (concat ks)) n); [lia|].
  rewrite drop_app_length', take_app_length' by done. rewrite IH by lia. done.
Qed.

Definition mac_fields_ok (c : dataMsg) : Prop :=
  length (dm_authenticator c) = 20%nat /\
  Forall (fun k => length k = 20%nat) (dm_oldMACKeys c) /\ len (concat (dm_oldMACKeys c)) < 2 ^ 32 /\
  (dm_serializeUnsignedCache c = None \/ dm_serializeUnsignedCache c = Some (serializeUnsigned c)).

Lemma unsignedBytes_ok c : mac_fields_ok c -> unsignedBytes c = serializeUnsigned c.
Proof. intros (_ & _ & _ & [E|E]); unfold unsignedBytes; by rewrite E. Qed.

Lemma dataMsg_deserialize_serialize c v :
  dataMsg_ok c -> mac_fields_ok c ->
  dataMsg_deserialize (dataMsg_serialize c v) v =
  Done (Ok (c <| dm_serializeUnsignedCache := Some (serializeUnsigned c) |>)).
Proof.
  intros Hc Hm. unfold dataMsg_deserialize, dataMsg_serialize. rewrite (unsignedBytes_ok c Hm).
  destruct Hm as (Ha & Hk & Hkl & _).
  rewrite AppendData_app, <- app_assoc, deserializeUnsigned_serialize by done.
  cbn [unsignedBytes dm_serializeUnsignedCache default from_option upd id].
  rewrite drop_app_length.
  assert (len (dm_authenticator c) = 20) as Hal by (unfold len; lia).
  assert (hashLength v = 20) as Hhl by (by destruct v). rewrite Hhl.
  rewrite slice_prefix by done. go_simpl. rewrite slice_suffix by done.
  rewrite <- (app_nil_r (AppendData [] _)), ExtractData_Append by done.
  rewrite splitMACKeys_concat by (done || lia). by destruct c.
Qed.

(** C21: Every well-formed data message reads back exactly, together with the
    bytes its MAC covers. *)
Theorem dataMsg_roundtrip c v :
  dataMsg_ok c -> mac_fields_ok c ->
  dataMsg_deserialize (dataMsg_serialize c v) v =
  Done (Ok (c <| dm_serializeUnsignedCache := Some (serializeUnsigned c) |>)).
Proof. apply dataMsg_deserialize_serialize. Qed.

Definition sample_dataMsg : dataMsg :=
  DataMsg Byte.x00 1 2 9 (be_encode 8 7) (bs "ciphertext") (zeroes 20) [zeroes 20; zeroes 20] None.

Lemma dataMsg_roundtrip_witness :
  dataMsg_deserialize (dataMsg_serialize sample_dataMsg otrV3) otrV3 =
  Done (Ok (sample_dataMsg <| dm_serializeUnsignedCache := Some (serializeUnsigned sample_dataMsg) |>)).
Proof.
  apply dataMsg_roundtrip.
  - unfold dataMsg_ok, mpi_ok. split_and!; vm_compute; congruence.
  - unfold mac_fields_ok. split_and!; [reflexivity|repeat constructor|reflexivity|left; reflexivity].
Defined.

(** C39: A data message that ends fewer than 20 bytes after its unsigned part
    makes the parser panic instead of returning an error: the authenticator is
    sliced without a length check. *)
Theorem dataMsg_truncated_panics c tail v :
  dataMsg_ok c -> len tail < 20 ->
  dataMsg_deserialize (serializeUnsigned c ++ tail) v = Panicked SliceBounds.
Proof.
  intros Hc Ht. unfold dataMsg_deserialize. rewrite deserializeUnsigned_serialize by done.
  cbn [unsignedBytes dm_serializeUnsignedCache default from_option upd id].
  rewrite drop_app_length, slice_panics; [done|]. destruct v; simpl; lia.
Qed.

Lemma dataMsg_truncated_panics_witness :
  dataMsg_deserialize (serializeUnsigned sample_dataMsg ++ bs "short") otrV3 = Panicked SliceBounds.
Proof.
  apply dataMsg_truncated_panics; [|reflexivity].
  unfold dataMsg_ok, mpi_ok. split_and!; vm_compute; congruence.
Defined.

Section AuthenticationTheorems.
Context `{CryptoLaws}.

Lemma length_hmac_sha1 v key data : length (hmac (hash v) key data) = 20%nat.
Proof. unfold hmac. apply hash_length. Qed.

Lemma checkSign_sign c key header v : checkSign (dataMsg_sign c key header v) key header v = None.
Proof. unfold checkSign, dataMsg_sign. simpl. by rewrite bool_decide_true by done. Qed.

Lemma checkSign_sound c key header v :
  checkSign c key header v = None <->
  dm_authenticator c = hmac (hash v) key (header ++ default [] (dm_serializeUnsignedCache c)).
Proof. unfold checkSign. case_bool_decide; naive_solver. Qed.

(** What the receiver parses: the fields of the message, the authenticator
    and the bytes it covers. *)
Lemma signed_deserializes c key header v :
  dataMsg_ok c -> dm_serializeUnsignedCache c = None ->
  Forall (fun k => length k = 20%nat) (dm_oldMACKeys c) -> len (concat (dm_oldMACKeys c)) < 2 ^ 32 ->
  let s := dataMsg_sign c key header v in
  dataMsg_deserialize (dataMsg_serialize s v) v = Done (Ok s) /\ checkSign s key header v = None.
Proof.
  intros Hc Hn Hk Hl s.
  assert (unsignedBytes c = serializeUnsigned c) as Hu by (unfold unsignedBytes; by rewrite Hn).
  split; [|apply checkSign_sign]. rewrite dataMsg_deserialize_serialize.
  - unfold s, dataMsg_sign. simpl. by rewrite Hu.
  - exact Hc.
  - split_and!; [apply length_hmac_sha1|done..|]. right. simpl. by rewrite Hu.
Qed.

(** A signed data message survives the wire: the receiver parses it and,
    holding the same MAC key, accepts its authenticator. *)
Theorem signed_dataMsg_accepted c key header v :
  dataMsg_ok c -> dm_serializeUnsignedCache c = None ->
  Forall (fun k => length k = 20%nat) (dm_oldMACKeys c) -> len (concat (dm_oldMACKeys c)) < 2 ^ 32 ->
  exists c', dataMsg_deserialize (dataMsg_serialize (dataMsg_sign c key header v) v) v = Done (Ok c') /\
             dm_encryptedMsg c' = dm_encryptedMsg c /\ checkSign c' key header v = None.
Proof.
  intros Hc Hn Hk Hl. destruct (signed_deserializes c key header v Hc Hn Hk Hl) as [Hd Hs].
  eexists. split; [exact Hd|]. split; [done|exact Hs].
Qed.

End AuthenticationTheorems.

Lemma signed_dataMsg_accepted_witness :
  exists c', dataMsg_deserialize (dataMsg_serialize (@dataMsg_sign toy_crypto sample_dataMsg (bs "key") (bs "hdr") otrV3) otrV3) otrV3
             = Done (Ok c') /\ dm_encryptedMsg c' = dm_encryptedMsg sample_dataMsg /\
             @checkSign toy_crypto c' (bs "key") (bs "hdr") otrV3 = None.
Proof.
  apply (@signed_dataMsg_accepted toy_crypto toy_crypto_laws); [|reflexivity|repeat constructor|reflexivity].
  unfold dataMsg_ok, mpi_ok. split_and!; vm_compute; congruence.
Defined.

(** ** Theorems: SMP messages *)

Definition smpMessage_mpis (m : smpMessage) : list Z :=
  match m with
  | SMP1 m => [m1_g2a m; m1_c2 m; m1_d2 m; m1_g3a m; m1_c3 m; m1_d3 m]
  | SMP2 m => [m2_g2b m; m2_c2 m; m2_d2 m; m2_g3b m; m2_c3 m; m2_d3 m; m2_pb m; m2_qb m; m2_cp m; m2_d5 m; m2_d6 m]
  | SMP3 m => [m3_pa m; m3_qa m; m3_cp m; m3_d5 m; m3_d6 m; m3_ra m; m3_cr m; m3_d7 m]
  | SMP4 m => [m4_rb m; m4_cr m; m4_d7 m]
  | SMPAbort => []
  end.

(** Numbers that fit an MPI, and a question that has no zero byte. *)
Definition smpMessage_ok (m : smpMessage) : Prop :=
  Forall mpi_ok (smpMessage_mpis m) /\
  match m with
  | SMP1 m => if hasQuestion m then Byte.x00 ∉ question m else question m = []
  | _ => True
  end.

Lemma IndexByte_app m rest : (Byte.x00 ∉ m) -> IndexByte (m ++ Byte.x00 :: rest) Byte.x00 = len m.
Proof.
  unfold IndexByte. induction m as [|b m IH]; intros Hn; [done|].
  apply not_elem_of_cons in Hn as [Hb Hn]. rewrite <- app_comm_cons. cbn [Index].
  assert (HasPrefix (b :: m ++ Byte.x00 :: rest) [Byte.x00] = false) as ->.
  { unfold HasPrefix. rewrite bool_decide_false; [done|]. simpl. congruence. }
  rewrite IH by done. rewrite len_cons. pose proof (len_nonneg m). split_cmp; lia.
Qed.

Lemma ExtractMPIs_genSMPTLV tp mpis :
  Forall mpi_ok mpis -> len mpis < 2 ^ 32 -> ExtractMPIs (tlvValue (genSMPTLV tp mpis)) = Some ([], mpis).
Proof.
  intros H Hl. unfold genSMPTLV. cbn [tlvValue]. unfold u32. pose proof (len_nonneg mpis).
  rewrite Z.mod_small by lia. rewrite <- (app_nil_r (AppendMPIs _ _)). by apply ExtractMPIs_Append.
Qed.

(** C22: An SMP message is recovered from the TLV that carries it, the question of
    a first message included, if its numbers are not negative and short enough for
    a length word, its question holds no zero byte (which would end it early), and
    a message without a question has none set. *)
Theorem smpMessage_roundtrip m : smpMessage_ok m -> tlv_smpMessage (smpMessage_tlv m) = Some m.
Proof.
  intros [Hm Hq]. destruct m as [m|m|m|m|]; [| | | |done]; cbn [smpMessage_mpis smpMessage_tlv] in *;
    unfold tlv_smpMessage.
  - pose proof (ExtractMPIs_genSMPTLV tlvTypeSMP1 _ Hm) as E. destruct m as [a b c d e f hq q].
    cbn [m1_g2a m1_c2 m1_d2 m1_g3a m1_c3 m1_d3 hasQuestion question] in *.
    unfold smp1_tlv. cbn [m1_g2a m1_c2 m1_d2 m1_g3a m1_c3 m1_d3 hasQuestion question]. destruct hq.
    + cbn [tlvType]. unfold toSmpMessage1Q, toSmpMessage1. cbn [tlvValue].
      change (q ++ [Byte.x00] ++ ?l) with (q ++ Byte.x00 :: l).
      rewrite IndexByte_app by done. pose proof (len_nonneg q).
      destruct (Z.eqb_spec (len q) (-1)); [lia|]. cbn [tlvValue upd].
      rewrite take_app_len by (unfold len; lia). rewrite (cons_middle Byte.x00), app_assoc, drop_app_len.
      * rewrite E by done. done.
      * rewrite length_app. unfold len. simpl. lia.
    + unfold toSmpMessage1. rewrite E by done. simpl. by rewrite Hq.
  - unfold toSmpMessage2, smp2_tlv. rewrite ExtractMPIs_genSMPTLV by done. by destruct m.
  - unfold toSmpMessage3, smp3_tlv. rewrite ExtractMPIs_genSMPTLV by done. by destruct m.
  - unfold toSmpMessage4, smp4_tlv. rewrite ExtractMPIs_genSMPTLV by done. by destruct m.
Qed.

Lemma smpMessage_roundtrip_witness :
  let m := SMP1 (Smp1Message 2 3 4 5 6 7 true (bs "why?")) in tlv_smpMessage (smpMessage_tlv m) = Some m.
Proof.
  apply smpMessage_roundtrip. split.
  - repeat constructor; vm_compute; congruence.
  - intros H. repeat (apply elem_of_cons in H as [H|H]; [discriminate H|]). by apply elem_of_nil in H.
Defined.

(** ** Theorems: key exchange messages *)

Lemma dhCommit_roundtrip gx h : len gx < 2 ^ 32 -> len h < 2 ^ 32 ->
  dhCommit_deserialize (dhCommit_serialize (DhCommit gx h)) = Ok (DhCommit gx h).
Proof.
  intros Hgx Hh. unfold dhCommit_deserialize, dhCommit_serialize. simpl.
  rewrite AppendData_app, ExtractData_Append by done.
  by rewrite <- (app_nil_r (AppendData [] h)), ExtractData_Append by done.
Qed.

Lemma dhKey_roundtrip gy : mpi_ok gy -> dhKey_deserialize (dhKey_serialize (DhKey gy)) = Ok (DhKey gy).
Proof.
  intros Hgy. unfold dhKey_deserialize, dhKey_serialize. simpl.
  by rewrite <- (app_nil_r (AppendMPI [] gy)), ExtractMPI_Append by done.
Qed.

(** The MAC of a signature message is cut to 20 bytes. *)
Lemma truncate_mac v (mac : list byte) : 20 <= len mac ->
  slice mac 0 (truncateLength v) = Done (take 20 mac) /\ len (take 20 mac) = truncateLength v.
Proof.
  intros Hm. assert (truncateLength v = 20) as -> by (by destruct v).
  split; [by rewrite slice_ok by lia|]. unfold len in *. rewrite length_take. lia.
Qed.

Lemma revealSig_roundtrip v r esig mac : length r = 16%nat -> len esig < 2 ^ 32 -> 20 <= len mac ->
  let w := AppendData [] r ++ AppendData [] esig ++ take 20 mac in
  revealSig_serialize (RevealSig r (AppendData [] esig) mac) v = Done w /\
  revealSig_deserialize w v = Ok (RevealSig r esig (take 20 mac)).
Proof.
  intros Hr He Hm w. destruct (truncate_mac v mac Hm) as [Hs Hl].
  split; [unfold revealSig_serialize; cbn [rs_r rs_encryptedSig rs_macSig]; by rewrite Hs|].
  unfold revealSig_deserialize, w. rewrite ExtractData_Append by (unfold len; lia).
  rewrite ExtractData_Append by done. rewrite Hl, Z.eqb_refl. unfold copy16. by rewrite take_app_length'.
Qed.

Lemma sig_roundtrip v esig mac : len esig < 2 ^ 32 -> 20 <= len mac ->
  let w := AppendData [] esig ++ take 20 mac in
  sig_serialize (Sig (AppendData [] esig) mac) v = Done w /\ sig_deserialize w = Ok (Sig esig (take 20 mac)).
Proof.
  intros He Hm w. destruct (truncate_mac v mac Hm) as [Hs Hl].
  split; [unfold sig_serialize; cbn [sig_encryptedSig sig_macSig]; by rewrite Hs|].
  unfold sig_deserialize, w. rewrite ExtractData_Append by done. rewrite Hl. by destruct v.
Qed.

(** C23: The four key exchange messages read back what was written: the
    commitment, the public key, the revealed key with the encrypted signature
    and the 20-byte truncated MAC, and the signature. *)
Theorem ake_messages_roundtrip v gx h gy r esig mac :
  len gx < 2 ^ 32 -> len h < 2 ^ 32 -> mpi_ok gy -> length r = 16%nat -> len esig < 2 ^ 32 -> 20 <= len mac ->
  dhCommit_deserialize (dhCommit_serialize (DhCommit gx h)) = Ok (DhCommit gx h) /\
  dhKey_deserialize (dhKey_serialize (DhKey gy)) = Ok (DhKey gy) /\
  (w ← revealSig_serialize (RevealSig r (AppendData [] esig) mac) v; mret (revealSig_deserialize w v))
    = Done (Ok (RevealSig r esig (take 20 mac))) /\
  (w ← sig_serialize (Sig (AppendData [] esig) mac) v; mret (sig_deserialize w))
    = Done (Ok (Sig esig (take 20 mac))).
Proof.
  intros Hgx Hh Hgy Hr He Hmac.
  destruct (revealSig_roundtrip v r esig mac Hr He Hmac) as [Ers Erd].
  destruct (sig_roundtrip v esig mac He Hmac) as [Ess Esd].
  split; [by apply dhCommit_roundtrip|]. split; [by apply dhKey_roundtrip|].
  rewrite Ers, Ess. go_simpl. by rewrite Erd, Esd.
Qed.

Lemma ake_messages_roundtrip_witness :
  dhCommit_deserialize (dhCommit_serialize (DhCommit (bs "gx") (bs "hash"))) = Ok (DhCommit (bs "gx") (bs "hash")).
Proof.
  apply (ake_messages_roundtrip otrV3 (bs "gx") (bs "hash") 5 (zeroes 16) (bs "sig") (zeroes 32));
    try (vm_compute; congruence). split; vm_compute; congruence.
Defined.
