(* ===== verification/Smp.v ===== *)
(** * The socialist millionaires' protocol: smp.go, smp_msg1.go to smp_msg4.go

    The zero-knowledge proofs, the four messages and their verification.  The
    numbers of the protocol are [big.Int] values; [divMod] panics where the
    modular inverse does not exist. *)

From Stdlib Require Import Zpow_facts Zcong.
From S2P Require Import Prelude GoLib Gotrax Policy Crypto KeyManagement Messages.

(** ** Protocol state *)

Record smp1State := Smp1State { s1_a2 : Z; s1_a3 : Z; s1_r2 : Z; s1_r3 : Z; s1_msg : smp1Message }.

Record smp2State := Smp2State {
  s2_y : Z; s2_b2 : Z; s2_b3 : Z;
  s2_r2 : Z; s2_r3 : Z; s2_r4 : Z; s2_r5 : Z; s2_r6 : Z;
  s2_g3a : Z; s2_g2 : Z; s2_g3 : Z; s2_pb : Z; s2_qb : Z;
  s2_msg : smp2Message }.

Record smp3State := Smp3State {
  s3_x : Z; s3_g3b : Z; s3_r4 : Z; s3_r5 : Z; s3_r6 : Z; s3_r7 : Z;
  s3_qaqb : Z; s3_papb : Z; s3_msg : smp3Message }.

(** The secret is a pointer that the last message only carries along. *)
Record smp4State := Smp4State { s4_y : option Z; s4_r7 : Z; s4_msg : smp4Message }.

#[export] Instance smp1State_eta : Eta smp1State := fun r =>
  Smp1State (s1_a2 r) (s1_a3 r) (s1_r2 r) (s1_r3 r) (s1_msg r).
#[export] Instance smp2State_eta : Eta smp2State := fun r =>
  Smp2State (s2_y r) (s2_b2 r) (s2_b3 r) (s2_r2 r) (s2_r3 r) (s2_r4 r) (s2_r5 r) (s2_r6 r)
    (s2_g3a r) (s2_g2 r) (s2_g3 r) (s2_pb r) (s2_qb r) (s2_msg r).
#[export] Instance smp3State_eta : Eta smp3State := fun r =>
  Smp3State (s3_x r) (s3_g3b r) (s3_r4 r) (s3_r5 r) (s3_r6 r) (s3_r7 r) (s3_qaqb r) (s3_papb r) (s3_msg r).
#[export] Instance smp4State_eta : Eta smp4State := fun r => Smp4State (s4_y r) (s4_r7 r) (s4_msg r).

(** The zero values of the message structs, with the nil numbers read as 0;
    they are overwritten before they are read. *)
Definition no_smp1Message : smp1Message := Smp1Message 0 0 0 0 0 0 false [].
Definition no_smp2Message : smp2Message := Smp2Message 0 0 0 0 0 0 0 0 0 0 0.
Definition no_smp3Message : smp3Message := Smp3Message 0 0 0 0 0 0 0 0.
Definition no_smp4Message : smp4Message := Smp4Message 0 0 0.

Definition smpVersion : Z := 1.

(** [n] successive reads of [size] bytes; all are attempted. *)
Fixpoint randMPIs (n : nat) (r : list byte) (size : nat) : list (result Z) * list byte :=
  match n with
  | O => ([], r)
  | S n' =>
      let '(x, r1) := randSizedMPI r size in
      let '(xs, r2) := randMPIs n' r1 size in (x :: xs, r2)
  end.

Definition result_error {A} (x : result A) : option error :=
  match x with Ok _ => None | Err e => Some e end.

Definition result_value (x : result Z) : Z := match x with Ok z => z | Err _ => 0 end.

Section Smp.
Context `{DHGroup} `{Crypto}.

(** ** smp.go *)

Definition generateSMPSecret (initiatorFingerprint recipientFingerprint ssid secret : list byte) (v : otrVersion) : Z :=
  SetBytes (hash2 v ([z2b smpVersion] ++ initiatorFingerprint ++ recipientFingerprint ++ ssid ++ secret)).

Definition generateDZKP (r a c : Z) : Z := subMod r (bn_mul a c) dh_q.

Definition generateZKP (r a ix : Z) (v : otrVersion) : Z * Z :=
  let c := hashMPIsBN (hash2 v) ix [modExp dh_g1 r] in (c, generateDZKP r a c).

Definition verifyZKP (d gen c ix : Z) (v : otrVersion) : bool :=
  let r := modExp dh_g1 d in
  let s := modExp gen c in
  let t := hashMPIsBN (hash2 v) ix [mulMod r s dh_p] in
  bn_eq c t.

Definition verifyZKP2 (g2 g3 d5 d6 pb qb cp ix : Z) (v : otrVersion) : bool :=
  let l := mulMod (modExp g3 d5) (modExp pb cp) dh_p in
  let r := mulMod (bn_mul (modExp dh_g1 d5) (modExp g2 d6)) (modExp qb cp) dh_p in
  let t := hashMPIsBN (hash2 v) ix [l; r] in
  bn_eq cp t.

Definition verifyZKP3 (cp g2 g3 d5 d6 pa qa ix : Z) (v : otrVersion) : bool :=
  let l := mulMod (modExp g3 d5) (modExp pa cp) dh_p in
  let r := mulMod (bn_mul (modExp dh_g1 d5) (modExp g2 d6)) (modExp qa cp) dh_p in
  let t := hashMPIsBN (hash2 v) ix [l; r] in
  bn_eq cp t.

Definition verifyZKP4 (cr g3a d7 qaqb ra ix : Z) (v : otrVersion) : bool :=
  let l := mulMod (modExp dh_g1 d7) (modExp g3a cr) dh_p in
  let r := mulMod (modExp qaqb d7) (modExp ra cr) dh_p in
  let t := hashMPIsBN (hash2 v) ix [l; r] in
  bn_eq cr t.

(** ** smp_msg1.go *)

Definition generateSMP1Parameters (v : otrVersion) (r : list byte) : result smp1State * list byte :=
  let '(xs, r') := randMPIs 4 r (Z.to_nat (parameterLength v)) in
  match firstError (map result_error xs), map result_value xs with
  | None, [a2; a3; r2; r3] => (Ok (Smp1State a2 a3 r2 r3 no_smp1Message), r')
  | Some e, _ => (Err e, r')
  | None, _ => (Err errShortRandomRead, r')
  end.

Definition generateSMP1Message (s : smp1State) (v : otrVersion) : smp1Message :=
  let '(c2, d2) := generateZKP (s1_r2 s) (s1_a2 s) 1 v in
  let '(c3, d3) := generateZKP (s1_r3 s) (s1_a3 s) 2 v in
  Smp1Message (modExp dh_g1 (s1_a2 s)) (modExp dh_g1 (s1_a3 s)) c2 c3 d2 d3 false [].

Definition generateSMP1 (v : otrVersion) (r : list byte) : result smp1State * list byte :=
  match generateSMP1Parameters v r with
  | (Err e, r') => (Err e, r')
  | (Ok s, r') => (Ok (s <| s1_msg := generateSMP1Message s v |>), r')
  end.

(** The first failing check of a list of guarded errors. *)
Fixpoint firstFailure (checks : list (bool * string)) : option error :=
  match checks with
  | [] => None
  | (ok, msg) :: checks' => if ok then firstFailure checks' else Some (newOtrError msg)
  end.

Definition verifySMP1 (v : otrVersion) (msg : smp1Message) : option error :=
  firstFailure
    [(version_isGroupElement v (m1_g2a msg), "g2a is an invalid group element");
     (version_isGroupElement v (m1_g3a msg), "g3a is an invalid group element");
     (verifyZKP (m1_d2 msg) (m1_g2a msg) (m1_c2 msg) 1 v, "c2 is not a valid zero knowledge proof");
     (verifyZKP (m1_d3 msg) (m1_g3a msg) (m1_c3 msg) 2 v, "c3 is not a valid zero knowledge proof")]%string.

(** ** smp_msg2.go *)

Definition generateSMP2Parameters (v : otrVersion) (r : list byte) : result smp2State * list byte :=
  let '(xs, r') := randMPIs 7 r (Z.to_nat (parameterLength v)) in
  match firstError (map result_error xs), map result_value xs with
  | None, [b2; b3; r2; r3; r4; r5; r6] =>
      (Ok (Smp2State 0 b2 b3 r2 r3 r4 r5 r6 0 0 0 0 0 no_smp2Message), r')
  | Some e, _ => (Err e, r')
  | None, _ => (Err errShortRandomRead, r')
  end.

(** Fills in the state it is given a pointer to, and returns the message. *)
Definition generateSMP2Message (s : smp2State) (s1 : smp1Message) (v : otrVersion) : smp2State * smp2Message :=
  let g2b := modExp dh_g1 (s2_b2 s) in
  let g3b := modExp dh_g1 (s2_b3 s) in
  let '(c2, d2) := generateZKP (s2_r2 s) (s2_b2 s) 3 v in
  let '(c3, d3) := generateZKP (s2_r3 s) (s2_b3 s) 4 v in
  let g2 := modExp (m1_g2a s1) (s2_b2 s) in
  let g3 := modExp (m1_g3a s1) (s2_b3 s) in
  let pb := modExp g3 (s2_r4 s) in
  let qb := mulMod (modExp dh_g1 (s2_r4 s)) (modExp g2 (s2_y s)) dh_p in
  let cp := hashMPIsBN (hash2 v) 5
              [modExp g3 (s2_r5 s); mulMod (modExp dh_g1 (s2_r5 s)) (modExp g2 (s2_r6 s)) dh_p] in
  let d5 := subMod (s2_r5 s) (bn_mul (s2_r4 s) cp) dh_q in
  let d6 := subMod (s2_r6 s) (bn_mul (s2_y s) cp) dh_q in
  (s <| s2_g3a := m1_g3a s1 |> <| s2_g2 := g2 |> <| s2_g3 := g3 |> <| s2_pb := pb |> <| s2_qb := qb |>,
   Smp2Message g2b g3b c2 c3 d2 d3 pb qb cp d5 d6).

Definition generateSMP2 (secret : Z) (s1 : smp1Message) (v : otrVersion) (r : list byte) : result smp2State * list byte :=
  match generateSMP2Parameters v r with
  | (Err e, r') => (Err e, r')
  | (Ok s, r') =>
      let '(s', msg) := generateSMP2Message (s <| s2_y := secret |>) s1 v in
      (Ok (s' <| s2_msg := msg |>), r')
  end.

Definition verifySMP2 (v : otrVersion) (s1 : option smp1State) (msg : smp2Message) : go (option error) :=
  match firstFailure
    [(version_isGroupElement v (m2_g2b msg), "g2b is an invalid group element");
     (version_isGroupElement v (m2_g3b msg), "g3b is an invalid group element");
     (version_isGroupElement v (m2_pb msg), "Pb is an invalid group element");
     (version_isGroupElement v (m2_qb msg), "Qb is an invalid group element");
     (verifyZKP (m2_d2 msg) (m2_g2b msg) (m2_c2 msg) 3 v, "c2 is not a valid zero knowledge proof");
     (verifyZKP (m2_d3 msg) (m2_g3b msg) (m2_c3 msg) 4 v, "c3 is not a valid zero knowledge proof")]%string with
  | Some e => mret (Some e)
  | None =>
      s1 ← deref s1;
      let g2 := modExp (m2_g2b msg) (s1_a2 s1) in
      let g3 := modExp (m2_g3b msg) (s1_a3 s1) in
      mret (firstFailure
        [(verifyZKP2 g2 g3 (m2_d5 msg) (m2_d6 msg) (m2_pb msg) (m2_qb msg) (m2_cp msg) 5 v,
          "cP is not a valid zero knowledge proof")]%string)
  end.

(** ** smp_msg3.go *)

Definition generateSMP3Parameters (v : otrVersion) (r : list byte) : result smp3State * list byte :=
  let '(xs, r') := randMPIs 4 r (Z.to_nat (parameterLength v)) in
  match firstError (map result_error xs), map result_value xs with
  | None, [r4; r5; r6; r7] => (Ok (Smp3State 0 0 r4 r5 r6 r7 0 0 no_smp3Message), r')
  | Some e, _ => (Err e, r')
  | None, _ => (Err errShortRandomRead, r')
  end.

Definition generateSMP3Message (s : smp3State) (s1 : smp1State) (m2 : smp2Message) (v : otrVersion)
  : go (smp3State * smp3Message) :=
  let g2 := modExp (m2_g2b m2) (s1_a2 s1) in
  let g3 := modExp (m2_g3b m2) (s1_a3 s1) in
  let pa := modExp g3 (s3_r4 s) in
  let qa := mulMod (modExp dh_g1 (s3_r4 s)) (modExp g2 (s3_x s)) dh_p in
  qaqb ← divMod qa (m2_qb m2) dh_p;
  papb ← divMod pa (m2_pb m2) dh_p;
  let cp := hashMPIsBN (hash2 v) 6
              [modExp g3 (s3_r5 s); mulMod (modExp dh_g1 (s3_r5 s)) (modExp g2 (s3_r6 s)) dh_p] in
  let d5 := generateDZKP (s3_r5 s) (s3_r4 s) cp in
  let d6 := generateDZKP (s3_r6 s) (s3_x s) cp in
  let ra := modExp qaqb (s1_a3 s1) in
  let cr := hashMPIsBN (hash2 v) 7 [modExp dh_g1 (s3_r7 s); modExp qaqb (s3_r7 s)] in
  let d7 := subMod (s3_r7 s) (bn_mul (s1_a3 s1) cr) dh_q in
  mret (s <| s3_g3b := m2_g3b m2 |> <| s3_qaqb := qaqb |> <| s3_papb := papb |>,
        Smp3Message pa qa cp d5 d6 d7 ra cr).

Definition generateSMP3 (secret : option Z) (s1 : smp1State) (m2 : smp2Message) (v : otrVersion) (r : list byte)
  : go (result smp3State * list byte) :=
  match generateSMP3Parameters v r with
  | (Err e, r') => mret (Err e, r')
  | (Ok s, r') =>
      x ← deref secret;
      '(s', msg) ← generateSMP3Message (s <| s3_x := x |>) s1 m2 v;
      mret (Ok (s' <| s3_msg := msg |>), r')
  end.

Definition verifySMP3 (v : otrVersion) (s2 : option smp2State) (msg : smp3Message) : go (option error) :=
  match firstFailure
    [(version_isGroupElement v (m3_pa msg), "Pa is an invalid group element");
     (version_isGroupElement v (m3_qa msg), "Qa is an invalid group element");
     (version_isGroupElement v (m3_ra msg), "Ra is an invalid group element")]%string with
  | Some e => mret (Some e)
  | None =>
      s2 ← deref s2;
      if negb (verifyZKP3 (m3_cp msg) (s2_g2 s2) (s2_g3 s2) (m3_d5 msg) (m3_d6 msg) (m3_pa msg) (m3_qa msg) 6 v)
      then mret (Some (newOtrError "cP is not a valid zero knowledge proof"))
      else
        qaqb ← divMod (m3_qa msg) (s2_qb s2) dh_p;
        mret (firstFailure
          [(verifyZKP4 (m3_cr msg) (s2_g3a s2) (m3_d7 msg) qaqb (m3_ra msg) 7 v,
            "cR is not a valid zero knowledge proof")]%string)
  end.

Definition verifySMP3ProtocolSuccess (s2 : option smp2State) (msg : smp3Message) : go (option error) :=
  s2 ← deref s2;
  papb ← divMod (m3_pa msg) (s2_pb s2) dh_p;
  let rab := modExp (m3_ra msg) (s2_b3 s2) in
  mret (firstFailure [(bn_eq rab papb, "protocol failed: x != y")]%string).

(** ** smp_msg4.go *)

Definition generateSMP4Parameters (v : otrVersion) (r : list byte) : result smp4State * list byte :=
  match randSizedMPI r (Z.to_nat (parameterLength v)) with
  | (Ok r7, r') => (Ok (Smp4State None r7 no_smp4Message), r')
  | (Err e, r') => (Err e, r')
  end.

Definition generateSMP4Message (s : smp4State) (s2 : smp2State) (msg3 : smp3Message) (v : otrVersion) : go smp4Message :=
  qaqb ← divMod (m3_qa msg3) (s2_qb s2) dh_p;
  let rb := modExp qaqb (s2_b3 s2) in
  let cr := hashMPIsBN (hash2 v) 8 [modExp dh_g1 (s4_r7 s); modExp qaqb (s4_r7 s)] in
  let d7 := subMod (s4_r7 s) (bn_mul (s2_b3 s2) cr) dh_q in
  mret (Smp4Message cr d7 rb).

Definition generateSMP4 (secret : option Z) (s2 : smp2State) (msg3 : smp3Message) (v : otrVersion) (r : list byte)
  : go (result smp4State * list byte) :=
  match generateSMP4Parameters v r with
  | (Err e, r') => mret (Err e, r')
  | (Ok s, r') =>
      let s := s <| s4_y := secret |> in
      msg ← generateSMP4Message s s2 msg3 v;
      mret (Ok (s <| s4_msg := msg |>), r')
  end.

Definition verifySMP4 (v : otrVersion) (s3 : option smp3State) (msg : smp4Message) : go (option error) :=
  if negb (version_isGroupElement v (m4_rb msg)) then mret (Some (newOtrError "Rb is an invalid group element"))
  else
    s3 ← deref s3;
    mret (firstFailure
      [(verifyZKP4 (m4_cr msg) (s3_g3b s3) (m4_d7 msg) (s3_qaqb s3) (m4_rb msg) 8 v,
        "cR is not a valid zero knowledge proof")]%string).

Definition verifySMP4ProtocolSuccess (s1 : option smp1State) (s3 : option smp3State) (msg : smp4Message)
  : go (option error) :=
  s1 ← deref s1;
  let rab := modExp (m4_rb msg) (s1_a3 s1) in
  s3 ← deref s3;
  mret (firstFailure [(bn_eq rab (s3_papb s3), "protocol failed: x != y")]%string).

End Smp.

(** ** The honest run *)

(** The messages two honest parties exchange, from the random parameters in
    [s1] and [s3] (the initiator's) and [s2] and [s4] (the responder's). *)
Record smpTranscript := SmpTranscript {
  tr_m1 : smp1Message; tr_s2 : smp2State; tr_m2 : smp2Message;
  tr_s3 : smp3State; tr_m3 : smp3Message; tr_m4 : smp4Message }.

Definition honest_smp `{DHGroup} `{Crypto} (v : otrVersion)
    (s1 : smp1State) (s2 : smp2State) (s3 : smp3State) (s4 : smp4State) : go smpTranscript :=
  let m1 := generateSMP1Message s1 v in
  let '(s2', m2) := generateSMP2Message s2 m1 v in
  '(s3', m3) ← generateSMP3Message s3 s1 m2 v;
  m4 ← generateSMP4Message s4 s2' m3 v;
  mret (SmpTranscript m1 s2' m2 s3' m3 m4).

(** The random exponents and the secrets are read from byte strings. *)
Definition smp_params_ok (s1 : smp1State) (s2 : smp2State) (s3 : smp3State) (s4 : smp4State) : Prop :=
  Forall (Z.le 0)
    [s1_a2 s1; s1_a3 s1; s1_r2 s1; s1_r3 s1;
     s2_y s2; s2_b2 s2; s2_b3 s2; s2_r2 s2; s2_r3 s2; s2_r4 s2; s2_r5 s2; s2_r6 s2;
     s3_x s3; s3_r4 s3; s3_r5 s3; s3_r6 s3; s3_r7 s3; s4_r7 s4].

(** The numbers of a transcript that the receivers check to be group elements. *)
Definition transcript_elements (t : smpTranscript) : list Z :=
  [m1_g2a (tr_m1 t); m1_g3a (tr_m1 t);
   m2_g2b (tr_m2 t); m2_g3b (tr_m2 t); m2_pb (tr_m2 t); m2_qb (tr_m2 t);
   m3_pa (tr_m3 t); m3_qa (tr_m3 t); m3_ra (tr_m3 t); m4_rb (tr_m4 t)].

(** ** Powers of the generator *)

Section Exponents.
Context `{DHGroup} `{Crypto} `{!DHGroupLaws}.

(** The power of [g1] with exponent [e], for any integer [e]. *)
Definition gpow (e : Z) : Z := modExp dh_g1 (e mod dh_q).

Lemma dh_p_nz : dh_p <> 0.
Proof. pose proof dh_p_gt. lia. Qed.

Lemma dh_p_ge2 : 2 <= dh_p.
Proof. pose proof dh_p_gt. lia. Qed.

Lemma dh_q_nz : dh_q <> 0.
Proof. pose proof dh_q_pos. lia. Qed.
Hint Resolve dh_p_nz dh_q_nz : core.

Lemma gpow_mod x : 0 <= x -> modExp dh_g1 (x mod dh_q) = modExp dh_g1 x.
Proof.
  intros Hx. pose proof dh_q_pos. rewrite !modExp_spec by done.
  assert (0 <= x / dh_q) by (apply Z.div_pos; lia).
  pose proof (Z.mod_pos_bound x dh_q dh_q_pos).
  rewrite (Z.div_mod x dh_q) at 2 by done.
  rewrite Z.pow_add_r, Z.pow_mul_r, <- Z.mul_mod_idemp_l by (done || nia).
  rewrite <- (Z.mod_pow_l (dh_g1 ^ dh_q)), dh_order, Z.pow_1_l by done.
  pose proof dh_p_gt. rewrite Z.mod_1_l by lia. by rewrite Z.mul_1_l.
Qed.

Lemma gpow_of x : 0 <= x -> modExp dh_g1 x = gpow x.
Proof. intros. unfold gpow. by rewrite gpow_mod. Qed.

(** Exponents count modulo [q]. *)
Lemma gpow_eq k a b : a = b + dh_q * k -> gpow a = gpow b.
Proof. intros ->. unfold gpow. by rewrite Z.mul_comm, Z.mod_add. Qed.

Lemma gpow_cong a b : a mod dh_q = b mod dh_q -> gpow a = gpow b.
Proof. unfold gpow. by intros ->. Qed.

Lemma gpow_add a b : mulMod (gpow a) (gpow b) dh_p = gpow (a + b).
Proof.
  pose proof dh_q_pos. pose proof (Z.mod_pos_bound a dh_q dh_q_pos).
  pose proof (Z.mod_pos_bound b dh_q dh_q_pos).
  unfold mulMod, bn_mul, gpow. rewrite (Z.add_mod a b), (gpow_mod (a mod dh_q + b mod dh_q)) by (done || lia).
  rewrite !modExp_spec by done. rewrite <- Z.mul_mod by done. by rewrite <- Z.pow_add_r by lia.
Qed.

Lemma gpow_mod_p a : gpow a mod dh_p = gpow a.
Proof. unfold gpow. rewrite modExp_spec by done. by apply Z.mod_mod. Qed.

Lemma gpow_range a : 0 <= gpow a < dh_p.
Proof. unfold gpow. rewrite modExp_spec by done. pose proof dh_p_gt. apply Z.mod_pos_bound. lia. Qed.

Lemma gpow_0 : gpow 0 = 1.
Proof.
  unfold gpow. rewrite Z.mod_0_l by done. rewrite modExp_spec by done.
  pose proof dh_p_gt. simpl. apply Z.mod_1_l. lia.
Qed.

Lemma gpow_exp a n : 0 <= n -> modExp (gpow a) n = gpow (a * n).
Proof.
  intros Hn. pose proof dh_q_pos. pose proof (Z.mod_pos_bound a dh_q dh_q_pos).
  unfold gpow at 1. rewrite modExp_mul, gpow_of by (done || lia).
  apply gpow_cong. by rewrite Z.mul_mod_idemp_l.
Qed.

Lemma gpow_inverse b : mulMod (gpow b) (gpow (- b)) dh_p = 1.
Proof. rewrite gpow_add, Z.add_opp_diag_r. apply gpow_0. Qed.

Lemma gpow_coprime b : Z.gcd (gpow b) dh_p = 1.
Proof.
  pose proof (gpow_inverse b) as Hi. unfold mulMod, bn_mul in Hi.
  apply Z.coprime_Bezout.
  pose proof (Z.div_mod (gpow b * gpow (- b)) dh_p dh_p_nz) as Hd. rewrite Hi in Hd.
  exists (gpow (- b)), (- (gpow b * gpow (- b) / dh_p)). lia.
Qed.

(** Division never fails on powers of [g1]. *)
Lemma gpow_div a b : divMod (gpow a) (gpow b) dh_p = Done (gpow (a - b)).
Proof.
  unfold divMod, modInverse. rewrite gpow_coprime. cbn [Z.eqb Pos.eqb deref mbind go_bind mret go_ret].
  f_equal. pose proof dh_p_gt.
  pose proof (Z.invmod_coprime (gpow b) dh_p dh_p_ge2 (gpow_coprime b)) as Hi.
  replace a with (a - b + b) at 1 by lia. rewrite <- gpow_add. unfold mulMod, bn_mul.
  rewrite Z.mul_mod_idemp_l by done.
  replace (gpow (a - b) * gpow b * Z.invmod (gpow b) dh_p)
    with (gpow (a - b) * (Z.invmod (gpow b) dh_p * gpow b)) by ring.
  rewrite <- Z.mul_mod_idemp_r, Hi, Z.mul_1_r by done. apply gpow_mod_p.
Qed.

(** The order of [g1] is exactly [q] when [q] is prime and [g1] is not 1. *)
Lemma gpow_eq_1 d : Z.prime dh_q -> gpow 1 <> 1 -> gpow d = 1 -> d mod dh_q = 0.
Proof.
  intros Hq Hg Hd. destruct (Z.eq_dec (d mod dh_q) 0) as [|Hn]; [done|]. exfalso. apply Hg.
  assert (Z.coprime dh_q d) as Hr.
  { apply Z.coprime_prime_l; [done|]. intros Hdiv. by apply Hn, Z.mod0_divide. }
  destruct (Z.Bezout_coprime _ _ Hr) as (w & u & Huw).
  transitivity (gpow (d * (u mod dh_q))).
  - symmetry. apply (gpow_eq (- w - d * (u / dh_q))).
    rewrite Z.mod_eq by done. lia.
  - pose proof dh_q_pos. pose proof (Z.mod_pos_bound u dh_q dh_q_pos).
    rewrite <- gpow_exp, Hd, modExp_spec, Z.pow_1_l by (done || lia).
    pose proof dh_p_gt. apply Z.mod_1_l. lia.
Qed.

Lemma gpow_inj a b : Z.prime dh_q -> gpow 1 <> 1 -> gpow a = gpow b <-> (a - b) mod dh_q = 0.
Proof.
  intros Hq Hg. split.
  - intros Hab. apply gpow_eq_1; [done..|].
    replace (a - b) with (a + - b) by lia. by rewrite <- gpow_add, Hab, gpow_inverse.
  - intros Hm. apply gpow_eq with (k := (a - b) / dh_q).
    pose proof (Z.div_mod (a - b) dh_q dh_q_nz). lia.
Qed.

Lemma subMod_eq r e : exists k, subMod r e dh_q = r - e + dh_q * k /\ 0 <= subMod r e dh_q.
Proof.
  exists (- ((r - e) / dh_q)). unfold subMod, bn_sub. pose proof dh_q_pos. split.
  - rewrite Z.mod_eq by done. lia.
  - apply Z.mod_pos_bound. lia.
Qed.

Lemma hashMPIsBN_nonneg h ix l : 0 <= hashMPIsBN h ix l.
Proof. apply be_decode_nonneg. Qed.

Lemma hashMPIsBN_eq h ix a b a' b' : a = a' -> b = b' -> hashMPIsBN h ix [a; b] = hashMPIsBN h ix [a'; b'].
Proof. by intros -> ->. Qed.

(** ** Completeness of the zero-knowledge proofs *)

(** The response of every proof: the challenge [c] and [d = r - a c mod q] open
    the commitment to [r], over any base in the group. *)
Lemma zkp_opening e r a c :
  0 <= c -> exists k, 0 <= subMod r (bn_mul a c) dh_q /\
  gpow (e * subMod r (bn_mul a c) dh_q + e * a * c) = gpow (e * r) /\
  subMod r (bn_mul a c) dh_q = r - a * c + dh_q * k.
Proof.
  intros Hc. destruct (subMod_eq r (bn_mul a c)) as (k & Hk & Hpos). exists k.
  split; [done|]. unfold bn_mul in *. split; [|lia].
  rewrite Hk. apply gpow_eq with (k := e * k). lia.
Qed.

Lemma verifyZKP_complete r a ix v : 0 <= r -> 0 <= a ->
  let '(c, d) := generateZKP r a ix v in verifyZKP d (modExp dh_g1 a) c ix v = true.
Proof.
  intros Hr Ha. unfold generateZKP, verifyZKP, generateDZKP.
  set (c := hashMPIsBN _ _ _). assert (0 <= c) as Hc by apply hashMPIsBN_nonneg.
  destruct (zkp_opening 1 r a c Hc) as (k & Hd & He & _).
  rewrite !gpow_of, gpow_exp, gpow_add by done. rewrite !Z.mul_1_l in He. rewrite He.
  apply Z.eqb_eq. unfold c. by rewrite gpow_of.
Qed.

Lemma verifyZKP2_complete e2 e3 r4 r5 r6 y ix v :
  0 <= r4 -> 0 <= r5 -> 0 <= r6 -> 0 <= y ->
  let g2 := gpow e2 in let g3 := gpow e3 in
  let cp := hashMPIsBN (hash2 v) ix [modExp g3 r5; mulMod (modExp dh_g1 r5) (modExp g2 r6) dh_p] in
  verifyZKP2 g2 g3 (subMod r5 (bn_mul r4 cp) dh_q) (subMod r6 (bn_mul y cp) dh_q)
    (modExp g3 r4) (mulMod (modExp dh_g1 r4) (modExp g2 y) dh_p) cp ix v = true.
Proof.
  intros H4 H5 H6 Hy g2 g3 cp. unfold verifyZKP2.
  assert (0 <= cp) as Hc by apply hashMPIsBN_nonneg.
  destruct (zkp_opening e3 r5 r4 cp Hc) as (k5 & Hd5 & He5 & Hk5).
  destruct (zkp_opening e2 r6 y cp Hc) as (k6 & Hd6 & _ & Hk6).
  subst g2 g3. apply Z.eqb_eq. unfold cp at 1. apply hashMPIsBN_eq.
  - rewrite !gpow_exp, gpow_add, He5 by done. done.
  - assert (forall a b c, mulMod (bn_mul a b) c dh_p = mulMod (mulMod a b dh_p) c dh_p) as Hm.
    { intros. unfold mulMod, bn_mul. by rewrite Z.mul_mod_idemp_l. }
    rewrite Hm, !(gpow_of r5), !(gpow_of r4), !(gpow_of (subMod _ _ _)), !gpow_exp by done.
    rewrite !gpow_add, gpow_exp, gpow_add by done.
    apply gpow_eq with (k := - (k5 + e2 * k6)). rewrite Hk5, Hk6. ring.
Qed.

Lemma verifyZKP4_complete e a r7 ix v : 0 <= a -> 0 <= r7 ->
  let qaqb := gpow e in
  let cr := hashMPIsBN (hash2 v) ix [modExp dh_g1 r7; modExp qaqb r7] in
  verifyZKP4 cr (modExp dh_g1 a) (subMod r7 (bn_mul a cr) dh_q) qaqb (modExp qaqb a) ix v = true.
Proof.
  intros Ha Hr qaqb cr. unfold verifyZKP4. assert (0 <= cr) as Hc by apply hashMPIsBN_nonneg.
  destruct (zkp_opening e r7 a cr Hc) as (k & Hd & He & _).
  destruct (zkp_opening 1 r7 a cr Hc) as (k' & _ & He' & _).
  subst qaqb. apply Z.eqb_eq. unfold cr at 1. apply hashMPIsBN_eq.
  - rewrite !gpow_of, gpow_exp, gpow_add by done. rewrite !Z.mul_1_l in He'. by rewrite He'.
  - rewrite !gpow_exp, gpow_add by done. by rewrite He.
Qed.

End Exponents.

(** ** Theorems *)

Section Protocol.
Context `{DHGroup} `{Crypto} `{!DHGroupLaws}.

Variables (v : otrVersion) (s1 : smp1State) (s2 : smp2State) (s3 : smp3State) (s4 : smp4State).
Hypothesis params_ok : smp_params_ok s1 s2 s3 s4.

Let m1 := generateSMP1Message s1 v.
Let s2' := (generateSMP2Message s2 m1 v).1.
Let m2 := (generateSMP2Message s2 m1 v).2.

(** The discrete logarithms of [g2], [g3] and [Qa/Qb]. *)
Let e2 := s1_a2 s1 * s2_b2 s2.
Let e3 := s1_a3 s1 * s2_b3 s2.
Let eqaqb := s3_r4 s3 + e2 * s3_x s3 - (s2_r4 s2 + e2 * s2_y s2).

Ltac params :=
  let P := fresh in pose proof params_ok as P; unfold smp_params_ok in P;
  repeat (apply Forall_cons in P as [? P]).

Ltac gnorm Hz := cbv zeta in Hz; rewrite ?gpow_of, ?gpow_exp, ?gpow_add in Hz by done.

Lemma honest_responder :
  s2_g2 s2' = gpow e2 /\ s2_g3 s2' = gpow e3 /\ s2_g3a s2' = gpow (s1_a3 s1) /\
  s2_pb s2' = gpow (e3 * s2_r4 s2) /\ s2_qb s2' = gpow (s2_r4 s2 + e2 * s2_y s2) /\
  s2_b3 s2' = s2_b3 s2 /\ m2_pb m2 = s2_pb s2' /\ m2_qb m2 = s2_qb s2' /\
  m2_g2b m2 = gpow (s2_b2 s2) /\ m2_g3b m2 = gpow (s2_b3 s2).
Proof.
  params. unfold s2', m2, m1. cbn -[modExp mulMod hashMPIsBN subMod].
  rewrite !gpow_of, !gpow_exp, !gpow_add by done. by subst e2 e3.
Qed.

Lemma honest_initiator_bases :
  modExp (m2_g2b m2) (s1_a2 s1) = gpow e2 /\ modExp (m2_g3b m2) (s1_a3 s1) = gpow e3.
Proof.
  params. destruct honest_responder as (_ & _ & _ & _ & _ & _ & _ & _ & -> & ->).
  rewrite !gpow_exp by done. by rewrite (Z.mul_comm (s2_b2 s2)), (Z.mul_comm (s2_b3 s2)).
Qed.

Lemma honest_initiator :
  exists s3' m3, generateSMP3Message s3 s1 m2 v = Done (s3', m3) /\
    s3_g3b s3' = gpow (s2_b3 s2) /\ s3_qaqb s3' = gpow eqaqb /\
    s3_papb s3' = gpow (e3 * (s3_r4 s3 - s2_r4 s2)) /\
    m3_pa m3 = gpow (e3 * s3_r4 s3) /\ m3_qa m3 = gpow (s3_r4 s3 + e2 * s3_x s3) /\
    m3_ra m3 = gpow (eqaqb * s1_a3 s1) /\
    verifyZKP3 (m3_cp m3) (gpow e2) (gpow e3) (m3_d5 m3) (m3_d6 m3) (m3_pa m3) (m3_qa m3) 6 v = true /\
    verifyZKP4 (m3_cr m3) (gpow (s1_a3 s1)) (m3_d7 m3) (gpow eqaqb) (m3_ra m3) 7 v = true.
Proof.
  params. destruct honest_initiator_bases as [Hg2 Hg3].
  destruct honest_responder as (_ & _ & _ & Hpb & Hqb & _ & Hmp & Hmq & _ & Hg3b).
  unfold generateSMP3Message. rewrite Hg2, Hg3, Hmp, Hmq, Hpb, Hqb.
  rewrite !gpow_of, !gpow_exp, !gpow_add, !gpow_div by done.
  fold eqaqb. go_simpl. eexists _, _. split; [reflexivity|].
  cbn [upd s3_g3b s3_qaqb s3_papb m3_pa m3_qa m3_ra m3_cp m3_cr m3_d5 m3_d6 m3_d7].
  split; [done|]. split; [done|]. split; [f_equal; ring|].
  split; [done|]. split; [done|]. split; [by rewrite gpow_exp|]. split.
  - pose proof (verifyZKP2_complete e2 e3 (s3_r4 s3) (s3_r5 s3) (s3_r6 s3) (s3_x s3) 6 v) as Hz. gnorm Hz.
    by apply Hz.
  - pose proof (verifyZKP4_complete eqaqb (s1_a3 s1) (s3_r7 s3) 7 v) as Hz. gnorm Hz. rewrite !gpow_exp by done. by apply Hz.
Qed.

Lemma honest_final s3' m3 :
  generateSMP3Message s3 s1 m2 v = Done (s3', m3) ->
  exists m4, generateSMP4Message s4 s2' m3 v = Done m4 /\
    m4_rb m4 = gpow (eqaqb * s2_b3 s2) /\
    verifyZKP4 (m4_cr m4) (gpow (s2_b3 s2)) (m4_d7 m4) (gpow eqaqb) (m4_rb m4) 8 v = true.
Proof.
  intros Hgen. params.
  destruct honest_initiator as (? & ? & Hgen' & _ & _ & _ & _ & Hqa & _).
  rewrite Hgen in Hgen'. simplify_eq.
  destruct honest_responder as (_ & _ & _ & _ & Hqb & Hb3 & _).
  unfold generateSMP4Message. rewrite Hqa, Hqb, gpow_div, Hb3. go_simpl.
  eexists. split; [reflexivity|]. cbn [m4_rb m4_cr m4_d7]. fold eqaqb.
  split; [by rewrite gpow_exp|].
  pose proof (verifyZKP4_complete eqaqb (s2_b3 s2) (s4_r7 s4) 8 v) as Hz. gnorm Hz.
  rewrite !gpow_of, !gpow_exp by done. by apply Hz.
Qed.

(** The run as the definition composes it. *)
Lemma honest_smp_inv t :
  honest_smp v s1 s2 s3 s4 = Done t ->
  tr_m1 t = m1 /\ tr_s2 t = s2' /\ tr_m2 t = m2 /\
  generateSMP3Message s3 s1 m2 v = Done (tr_s3 t, tr_m3 t) /\
  generateSMP4Message s4 s2' (tr_m3 t) v = Done (tr_m4 t).
Proof.
  unfold honest_smp. fold m1. rewrite (surjective_pairing (generateSMP2Message s2 m1 v)).
  fold s2' m2. go_simpl. intros Ht.
  destruct (generateSMP3Message _ _ _ _) as [[s3' m3]|] eqn:E3; [|done].
  destruct (generateSMP4Message _ _ _ _) as [m4|] eqn:E4; [|done].
  by injection Ht as <-.
Qed.

Lemma firstFailure_pass checks : Forall (fun c => c.1 = true) checks -> firstFailure checks = None.
Proof. induction 1 as [|[ok msg] checks Hok _ IH]; simpl in *; [done|]. by rewrite Hok. Qed.

Lemma verify_honest_1_2 :
  Forall (fun n => version_isGroupElement v n = true)
    [m1_g2a m1; m1_g3a m1; m2_g2b m2; m2_g3b m2; m2_pb m2; m2_qb m2] ->
  verifySMP1 v m1 = None /\ verifySMP2 v (Some s1) m2 = Done None.
Proof.
  intros He. repeat (apply Forall_cons in He as [? He]). params.
  destruct honest_initiator_bases as [Hg2 Hg3]. split.
  - apply firstFailure_pass. repeat constructor; cbn [fst]; try done.
    + apply (verifyZKP_complete (s1_r2 s1) (s1_a2 s1) 1 v); done.
    + apply (verifyZKP_complete (s1_r3 s1) (s1_a3 s1) 2 v); done.
  - unfold verifySMP2. rewrite firstFailure_pass.
    2:{ repeat constructor; cbn [fst]; try done.
        - apply (verifyZKP_complete (s2_r2 s2) (s2_b2 s2) 3 v); done.
        - apply (verifyZKP_complete (s2_r3 s2) (s2_b3 s2) 4 v); done. }
    go_simpl. cbn [deref]. rewrite Hg2, Hg3. rewrite firstFailure_pass; [done|]. repeat constructor. cbn [fst].
    + destruct honest_responder as (Hb2 & Hb3 & _). rewrite <- Hb2, <- Hb3.
      unfold m2, s2'. cbn -[modExp mulMod hashMPIsBN verifyZKP2 subMod].
      params. rewrite !(gpow_of (s1_a2 s1)), !(gpow_of (s1_a3 s1)), !(gpow_exp _ (s2_b2 s2)), !(gpow_exp _ (s2_b3 s2)) by done.
      by apply verifyZKP2_complete.
Qed.

End Protocol.

Section Claims.
Context `{DHGroup} `{Crypto} `{!DHGroupLaws}.

(** Both ends compare [g3^(r4a - r4b)] with [(Qa/Qb)^(a3 b3)]. *)
Lemma honest_comparisons v s1 s2 s3 s4 t (Hok : smp_params_ok s1 s2 s3 s4) :
  honest_smp v s1 s2 s3 s4 = Done t ->
  let e3 := s1_a3 s1 * s2_b3 s2 in
  let rab := gpow (e3 * (s3_r4 s3 - s2_r4 s2) + e3 * (s1_a2 s1 * s2_b2 s2) * (s3_x s3 - s2_y s2)) in
  let papb := gpow (e3 * (s3_r4 s3 - s2_r4 s2)) in
  verifySMP3ProtocolSuccess (Some (tr_s2 t)) (tr_m3 t) =
    Done (firstFailure [(bn_eq rab papb, "protocol failed: x != y")]%string) /\
  verifySMP4ProtocolSuccess (Some s1) (Some (tr_s3 t)) (tr_m4 t) =
    Done (firstFailure [(bn_eq rab papb, "protocol failed: x != y")]%string).
Proof.
  intros (_ & Hs2 & Hm2 & H3 & H4)%honest_smp_inv e3 rab papb.
  pose proof Hok as P. unfold smp_params_ok in P. repeat (apply Forall_cons in P as [? P]).
  destruct (honest_responder v _ _ _ _ Hok) as (_ & _ & _ & Hpb & _ & Hb3 & _).
  destruct (honest_initiator v _ _ _ _ Hok) as (? & ? & H3' & _ & _ & Hpapb & Hpa & _ & Hra & _).
  rewrite H3 in H3'. simplify_eq.
  destruct (honest_final v _ _ _ _ Hok _ _ H3) as (? & H4' & Hrb & _).
  rewrite H4 in H4'. simplify_eq.
  unfold verifySMP3ProtocolSuccess, verifySMP4ProtocolSuccess. go_simpl. cbn [deref].
  rewrite Hs2, Hpa, Hpb, Hb3, Hpapb, Hra, Hrb, gpow_div, !gpow_exp by done. go_simpl.
  unfold rab, papb, e3. split; repeat f_equal; ring.
Qed.

Lemma comparison_succeeds a b msg : Z.prime dh_q -> gpow 1 <> 1 ->
  firstFailure [(bn_eq (gpow a) (gpow b), msg)] = None <-> (a - b) mod dh_q = 0.
Proof.
  intros Hq Hg. rewrite <- (gpow_inj a b) by done. simpl. unfold bn_eq.
  destruct (Z.eqb_spec (gpow a) (gpow b)); split; done.
Qed.

Lemma nonzero_product_mod a b : Z.prime dh_q -> a mod dh_q <> 0 -> (a * b) mod dh_q = 0 <-> b mod dh_q = 0.
Proof.
  intros Hq Ha. pose proof dh_q_nz. rewrite !Z.mod_divide by done. rewrite Z.divide_prime_mul by done. split; [|by right].
  intros [Hd|Hd]; [|done]. by apply Z.mod_divide in Hd.
Qed.

Lemma residues_equal x y : 0 <= x < dh_q -> 0 <= y < dh_q -> (x - y) mod dh_q = 0 <-> x = y.
Proof.
  intros Hx Hy. pose proof dh_q_nz. split.
  - intros (k & Hk)%Z.mod_divide; [|done]. assert (k = 0) by nia. lia.
  - intros ->. by rewrite Z.sub_diag, Z.mod_0_l.
Qed.

(** An honest run never panics. *)
Lemma honest_smp_total v s1 s2 s3 s4 :
  smp_params_ok s1 s2 s3 s4 -> exists t, honest_smp v s1 s2 s3 s4 = Done t.
Proof.
  intros Hok. destruct (honest_initiator v _ _ _ _ Hok) as (s3' & m3 & H3 & _).
  destruct (honest_final v _ _ _ _ Hok _ _ H3) as (m4 & H4 & _).
  unfold honest_smp. rewrite (surjective_pairing (generateSMP2Message _ _ _)), H3. go_simpl.
  rewrite H4. eauto.
Qed.

(** Its messages pass the verification of the other side. *)
Lemma honest_smp_verified v s1 s2 s3 s4 t :
  smp_params_ok s1 s2 s3 s4 -> honest_smp v s1 s2 s3 s4 = Done t ->
  Forall (fun n => version_isGroupElement v n = true) (transcript_elements t) ->
  verifySMP1 v (tr_m1 t) = None /\ verifySMP2 v (Some s1) (tr_m2 t) = Done None /\
  verifySMP3 v (Some (tr_s2 t)) (tr_m3 t) = Done None /\ verifySMP4 v (Some (tr_s3 t)) (tr_m4 t) = Done None.
Proof.
  intros Hok Ht. destruct (honest_responder v _ _ _ _ Hok) as (Hg2 & Hg3 & Hg3a & _ & Hqb & _).
  destruct (honest_initiator v _ _ _ _ Hok) as (s3' & m3 & H3 & Hb & Hqaqb & _ & _ & Hqa & _ & Hz3 & Hz4).
  destruct (honest_final v _ _ _ _ Hok _ _ H3) as (m4 & H4 & _ & Hz).
  apply honest_smp_inv in Ht as (Hm1 & Hs2 & Hm2 & H3' & H4').
  rewrite H3 in H3'. injection H3' as -> ->. rewrite H4 in H4'. injection H4' as ->.
  unfold transcript_elements. rewrite Hm1, Hs2, Hm2. intros He.
  destruct (verify_honest_1_2 v _ _ _ _ Hok) as [Hv1 Hv2]; [repeat (apply Forall_cons in He as [? He]); by repeat constructor|].
  do 6 apply Forall_cons in He as [_ He]. repeat (apply Forall_cons in He as [? He]).
  split; [done|]. split; [done|]. split.
  - unfold verifySMP3. rewrite firstFailure_pass by by repeat constructor.
    go_simpl. cbn [deref]. rewrite Hg2, Hg3, Hz3, Hg3a, Hqb, Hqa, gpow_div. cbn [negb].
    by rewrite firstFailure_pass by by repeat constructor.
  - unfold verifySMP4. rewrite (proj2 (negb_false_iff _)) by done. go_simpl. cbn [deref].
    rewrite Hb, Hqaqb, firstFailure_pass by by repeat constructor. done.
Qed.

(** The secret exponents of the two sides are not multiples of the order. *)
Definition smp_exponents_ok (s1 : smp1State) (s2 : smp2State) : Prop :=
  Forall (fun e => e mod dh_q <> 0) [s1_a2 s1; s1_a3 s1; s2_b2 s2; s2_b3 s2].

(** Both sides come to the same verdict, which is equality of the secrets. *)
Lemma honest_smp_verdict v s1 s2 s3 s4 t :
  Z.prime dh_q -> gpow 1 <> 1 -> smp_params_ok s1 s2 s3 s4 -> smp_exponents_ok s1 s2 ->
  s3_x s3 < dh_q -> s2_y s2 < dh_q -> honest_smp v s1 s2 s3 s4 = Done t ->
  exists verdict,
    verifySMP3ProtocolSuccess (Some (tr_s2 t)) (tr_m3 t) = Done verdict /\
    verifySMP4ProtocolSuccess (Some s1) (Some (tr_s3 t)) (tr_m4 t) = Done verdict /\
    (verdict = None <-> s3_x s3 = s2_y s2).
Proof.
  intros Hq Hg Hok Hnz Hx Hy Ht.
  assert (forall a b, a mod dh_q <> 0 -> b mod dh_q <> 0 -> (a * b) mod dh_q <> 0) as Hprod.
  { intros a b Ha Hb. by rewrite nonzero_product_mod. }
  destruct (honest_comparisons v _ _ _ _ _ Hok Ht) as [-> ->]. eexists. split; [done|]. split; [done|].
  unfold smp_exponents_ok in Hnz. repeat (apply Forall_cons in Hnz as [? Hnz]).
  unfold smp_params_ok in Hok. repeat (apply Forall_cons in Hok as [? Hok]).
  rewrite comparison_succeeds, Z.add_simpl_l, nonzero_product_mod, residues_equal by auto. done.
Qed.

(** an honest run of the socialist millionaires' protocol produces all
    four messages without panicking, and every zero-knowledge proof in them is
    accepted by the other side, whatever the two secrets are; version 3 also
    requires that the transmitted numbers pass its group check. *)
Theorem smp_honest_run_accepted v s1 s2 s3 s4 :
  smp_params_ok s1 s2 s3 s4 ->
  exists t, honest_smp v s1 s2 s3 s4 = Done t /\
    (Forall (fun n => version_isGroupElement v n = true) (transcript_elements t) ->
     verifySMP1 v (tr_m1 t) = None /\ verifySMP2 v (Some s1) (tr_m2 t) = Done None /\
     verifySMP3 v (Some (tr_s2 t)) (tr_m3 t) = Done None /\ verifySMP4 v (Some (tr_s3 t)) (tr_m4 t) = Done None).
Proof.
  intros Hok. destruct (honest_smp_total v _ _ _ _ Hok) as [t Ht]. exists t. split; [done|].
  by apply (honest_smp_verified v _ _ _ _ _ Hok Ht).
Qed.

(** C19: in an honest run over a group of prime order, with secret exponents
    that are not multiples of the order, each side reports success exactly when
    the two secrets are equal. *)
Theorem smp_decides_equality v s1 s2 s3 s4 t :
  Z.prime dh_q -> gpow 1 <> 1 ->
  smp_params_ok s1 s2 s3 s4 -> smp_exponents_ok s1 s2 ->
  s3_x s3 < dh_q -> s2_y s2 < dh_q ->
  honest_smp v s1 s2 s3 s4 = Done t ->
  (verifySMP3ProtocolSuccess (Some (tr_s2 t)) (tr_m3 t) = Done None <-> s3_x s3 = s2_y s2) /\
  (verifySMP4ProtocolSuccess (Some s1) (Some (tr_s3 t)) (tr_m4 t) = Done None <-> s3_x s3 = s2_y s2).
Proof.
  intros Hq Hg Hok Hnz Hx Hy Ht.
  destruct (honest_smp_verdict v _ _ _ _ _ Hq Hg Hok Hnz Hx Hy Ht) as (verdict & -> & -> & <-).
  split; split; congruence.
Qed.

Lemma firstFailure_cons_None ok msg checks :
  firstFailure ((ok, msg) :: checks) = None -> ok = true /\ firstFailure checks = None.
Proof. simpl. by destruct ok. Qed.

Lemma divMod_coprime l r m : Z.gcd r m = 1 -> exists z, divMod l r m = Done z.
Proof. intros Hg. unfold divMod, modInverse. rewrite Hg. go_simpl. eexists. reflexivity. Qed.

Lemma isGroupElement_coprime n : Z.prime dh_p -> 1 <= dh_g1 -> isGroupElement n = true -> Z.gcd n dh_p = 1.
Proof.
  intros Hp Hg Hn. unfold isGroupElement, bn_gte, bn_lte, pMinusTwo in Hn.
  apply andb_true_iff in Hn as [?%Z.leb_le ?%Z.leb_le].
  rewrite Z.gcd_comm. apply Z.coprime_prime_small; [done|lia].
Qed.

Lemma generateSMP3Message_total s3 s1 msg v :
  Z.gcd (m2_qb msg) dh_p = 1 -> Z.gcd (m2_pb msg) dh_p = 1 ->
  exists s3' m3, generateSMP3Message s3 s1 msg v = Done (s3', m3).
Proof.
  intros Hq Hp. unfold generateSMP3Message.
  destruct (divMod_coprime (mulMod (modExp dh_g1 (s3_r4 s3)) (modExp (modExp (m2_g2b msg) (s1_a2 s1)) (s3_x s3)) dh_p)
              (m2_qb msg) dh_p Hq) as [qaqb ->].
  destruct (divMod_coprime (modExp (modExp (m2_g3b msg) (s1_a3 s1)) (s3_r4 s3)) (m2_pb msg) dh_p Hp) as [papb ->].
  go_simpl. eexists _, _. reflexivity.
Qed.

(** In version 3 a second SMP message that passes verification never makes
    the initiator panic: the group checks exclude the numbers without inverse. *)
Theorem smp2_verified_no_panic_v3 s1 s3 msg :
  Z.prime dh_p -> 1 <= dh_g1 ->
  verifySMP2 otrV3 (Some s1) msg = Done None ->
  exists s3' m3, generateSMP3Message s3 s1 msg otrV3 = Done (s3', m3).
Proof.
  intros Hp Hg Hv. unfold verifySMP2 in Hv. cbn [version_isGroupElement] in Hv.
  destruct (firstFailure _) eqn:Hf in Hv; [done|]. clear Hv.
  do 4 apply firstFailure_cons_None in Hf as [? Hf].
  apply generateSMP3Message_total; by apply isGroupElement_coprime.
Qed.

(** The second message with [Pb = Qb = 0] and the challenge for the
    commitments 0 and 0; the proofs for [g2b] and [g3b] are honest. *)
Definition zero_smp2Message (b2 b3 r2 r3 : Z) (v : otrVersion) : smp2Message :=
  let '(c2, d2) := generateZKP r2 b2 3 v in
  let '(c3, d3) := generateZKP r3 b3 4 v in
  Smp2Message (modExp dh_g1 b2) (modExp dh_g1 b3) c2 c3 d2 d3 0 0 (hashMPIsBN (hash2 v) 5 [0; 0]) 0 0.

Lemma modExp_zero n : 0 < n -> modExp 0 n = 0.
Proof. intros. rewrite modExp_spec by apply dh_p_nz. rewrite Z.pow_0_l by done. apply Z.mod_0_l, dh_p_nz. Qed.

Lemma divMod_zero l : divMod l 0 dh_p = Panicked NilDeref.
Proof.
  pose proof dh_p_gt. unfold divMod, modInverse. rewrite Z.gcd_0_l, Z.abs_eq by lia.
  destruct (Z.eqb_spec dh_p 1); [lia|]. done.
Qed.

(** in version 2, which has no group check, a peer can send a second SMP
    message that passes every verification and makes the initiator panic on the
    division by [Qb]. *)
Theorem smp2_zero_panics_v2 s1 s3 b2 b3 r2 r3 :
  0 <= b2 -> 0 <= b3 -> 0 <= r2 -> 0 <= r3 -> 0 < hashMPIsBN (hash2 otrV2) 5 [0; 0] ->
  let msg := zero_smp2Message b2 b3 r2 r3 otrV2 in
  verifySMP2 otrV2 (Some s1) msg = Done None /\ generateSMP3Message s3 s1 msg otrV2 = Panicked NilDeref.
Proof.
  intros Hb2 Hb3 Hr2 Hr3 Hc msg. split.
  - unfold verifySMP2. rewrite firstFailure_pass.
    2:{ repeat constructor; cbn [fst].
        - apply (verifyZKP_complete r2 b2 3 otrV2 Hr2 Hb2).
        - apply (verifyZKP_complete r3 b3 4 otrV2 Hr3 Hb3). }
    go_simpl. cbn [deref]. rewrite firstFailure_pass; [done|]. repeat constructor. cbn [fst].
    + unfold verifyZKP2, mulMod, bn_mul. cbn [msg zero_smp2Message generateZKP m2_pb m2_qb m2_cp].
      rewrite !modExp_zero, !Z.mul_0_r, Z.mod_0_l by (done || apply dh_p_nz). apply Z.eqb_refl.
  - unfold generateSMP3Message. cbn [msg zero_smp2Message generateZKP m2_qb m2_pb].
    by rewrite (divMod_zero (mulMod _ _ _)).
Qed.

End Claims.

(** ** Witnesses *)

Definition example_s1 : smp1State := Smp1State 3 4 5 6 no_smp1Message.
Definition example_s2 (y : Z) : smp2State := Smp2State y 2 5 3 4 5 6 7 0 0 0 0 0 no_smp2Message.
Definition example_s3 (x : Z) : smp3State := Smp3State x 0 1 4 5 6 0 0 no_smp3Message.
Definition example_s4 (y : Z) : smp4State := Smp4State (Some y) 8 no_smp4Message.

Definition example_run := @honest_smp small_group toy_crypto otrV3 example_s1 (example_s2 7) (example_s3 7) (example_s4 7).

Lemma prime_11 : Z.prime 11.
Proof.
  split; [lia|]. intros n Hn [k Hk].
  assert (n = 2 \/ n = 3 \/ n = 4 \/ n = 5 \/ n = 6 \/ n = 7 \/ n = 8 \/ n = 9 \/ n = 10) by lia. lia.
Qed.

Lemma prime_23 : Z.prime 23.
Proof.
  split; [lia|]. intros n Hn [k Hk].
  assert (k < 12) by nia. assert (0 < k) by nia.
  assert (k = 1 \/ k = 2 \/ k = 3 \/ k = 4 \/ k = 5 \/ k = 6 \/ k = 7 \/ k = 8 \/ k = 9 \/ k = 10 \/ k = 11) by lia. lia.
Qed.

Lemma smp_honest_run_accepted_witness : exists t, example_run = Done t /\
  @verifySMP3 small_group toy_crypto otrV3 (Some (tr_s2 t)) (tr_m3 t) = Done None.
Proof.
  destruct (@smp_honest_run_accepted small_group toy_crypto small_group_laws otrV3
    example_s1 (example_s2 7) (example_s3 7) (example_s4 7)) as (t & Ht & Hv).
  - repeat constructor; vm_compute; discriminate.
  - exists t. split; [exact Ht|]. apply Hv. vm_compute in Ht. injection Ht as <-.
    repeat constructor.
Defined.

Lemma smp_decides_equality_witness :
  exists t, example_run = Done t /\ @verifySMP4ProtocolSuccess small_group (Some example_s1) (Some (tr_s3 t)) (tr_m4 t) = Done None.
Proof.
  eexists. split; [vm_compute; reflexivity|].
  apply (@smp_decides_equality small_group toy_crypto small_group_laws otrV3
    example_s1 (example_s2 7) (example_s3 7) (example_s4 7)).
  - exact prime_11.
  - vm_compute. discriminate.
  - repeat constructor; vm_compute; discriminate.
  - repeat constructor; vm_compute; discriminate.
  - reflexivity.
  - reflexivity.
  - vm_compute. reflexivity.
  - reflexivity.
Defined.

Lemma smp2_verified_no_panic_v3_witness :
  exists t s3' m3, example_run = Done t /\
  @generateSMP3Message small_group toy_crypto (example_s3 8) example_s1 (tr_m2 t) otrV3 = Done (s3', m3).
Proof.
  eexists. enough (exists s3' m3, @generateSMP3Message small_group toy_crypto (example_s3 8) example_s1 _ otrV3 = Done (s3', m3))
    as (s3' & m3 & E) by (exists s3', m3; split; [vm_compute; reflexivity|exact E]).
  apply (@smp2_verified_no_panic_v3 small_group toy_crypto example_s1 (example_s3 8)).
  - exact prime_23.
  - vm_compute. discriminate.
  - vm_compute. reflexivity.
Defined.

Lemma smp2_zero_panics_v2_witness :
  @generateSMP3Message small_group toy_crypto (example_s3 7) example_s1
    (@zero_smp2Message small_group toy_crypto 2 3 4 5 otrV2) otrV2 = Panicked NilDeref.
Proof.
  apply (@smp2_zero_panics_v2 small_group toy_crypto small_group_laws example_s1 (example_s3 7) 2 3 4 5);
    try lia. reflexivity.
Defined.
