(* ===== verification/Keys.v ===== *)
(** * DSA keys: keys.go, hash.go

    A public key is a pointer to a [DSAPublicKey]; the pointer is kept beside
    the value because [IsSame] compares pointers.  The numbers of a key are
    [*big.Int] and may be nil. *)

From S2P Require Import Prelude GoLib Gotrax Policy Crypto KeyManagement.

(** [*DSAPublicKey]: the address and the key there. *)
Record PublicKey := PublicKeyAt { pk_addr : Z; pk_key : dsa_PublicKey }.

(** [*DSAPrivateKey]: the address of its embedded [DSAPublicKey], that key, and
    the embedded [dsa.PrivateKey]. *)
Record PrivateKey := PrivateKeyAt {
  sk_addr : Z; sk_DSAPublicKey : dsa_PublicKey; sk_PrivateKey : dsa_PrivateKey }.

#[export] Instance PublicKey_eta : Eta PublicKey := fun r => PublicKeyAt (pk_addr r) (pk_key r).
#[export] Instance PrivateKey_eta : Eta PrivateKey := fun r =>
  PrivateKeyAt (sk_addr r) (sk_DSAPublicKey r) (sk_PrivateKey r).

(** The method [PublicKey] of a private key: a pointer into it. *)
Definition PublicKey_of (priv : PrivateKey) : PublicKey := PublicKeyAt (sk_addr priv) (sk_DSAPublicKey priv).

Definition dsaKeyType : list byte := [Byte.x00; Byte.x00].
Definition dsaKeyTypeValue : Z := 0.

Definition IsAvailableForVersion (v : Z) : bool := (v =? 2) || (v =? 3).

(** [IsSame] compares the pointers. *)
Definition IsSame (pub other : PublicKey) : bool := pk_addr pub =? pk_addr other.

(** ** Parsing *)

Definition new_dsa_PublicKey : dsa_PublicKey := DsaPublicKey None None None None.

(** [if index, pub.F, ok = gotrax.ExtractMPI(index); !ok]: the field is set
    either way, to nil when the number is truncated. *)
Definition parseField (index : list byte) (set : option Z -> dsa_PublicKey -> dsa_PublicKey) (pub : dsa_PublicKey)
  : option (list byte) * dsa_PublicKey :=
  match ExtractMPI index with
  | Some (index', z) => (Some index', set (Some z) pub)
  | None => (None, set None pub)
  end.

(** [DSAPublicKey.Parse]: the rest of the input, success, and the receiver. *)
Definition DSAPublicKey_Parse (pub : dsa_PublicKey) (inp : list byte) : list byte * bool * dsa_PublicKey :=
  match ExtractShort inp with
  | Some (index, typeTag) =>
      if negb (typeTag =? dsaKeyTypeValue) then (inp, false, pub) else
      match parseField index (fun z k => k <| dsa_P := z |>) pub with
      | (None, pub) => (inp, false, pub)
      | (Some index, pub) =>
          match parseField index (fun z k => k <| dsa_Q := z |>) pub with
          | (None, pub) => (inp, false, pub)
          | (Some index, pub) =>
              match parseField index (fun z k => k <| dsa_G := z |>) pub with
              | (None, pub) => (inp, false, pub)
              | (Some index, pub) =>
                  match parseField index (fun z k => k <| dsa_Y := z |>) pub with
                  | (None, pub) => (inp, false, pub)
                  | (Some index, pub) => (index, true, pub)
                  end
              end
          end
      end
  | None => (inp, false, pub)
  end.

(** [DSAPrivateKey.Parse] *)
Definition DSAPrivateKey_Parse (priv : PrivateKey) (inp : list byte) : list byte * bool * PrivateKey :=
  match DSAPublicKey_Parse (sk_DSAPublicKey priv) inp with
  | (_, false, pub) => ([], false, priv <| sk_DSAPublicKey := pub |>)
  | (inp', true, pub) =>
      match ExtractMPI inp' with
      | Some (index, x) => (index, true, PrivateKeyAt (sk_addr priv) pub (DsaPrivateKey pub (Some x)))
      | None => ([], false, PrivateKeyAt (sk_addr priv) pub (DsaPrivateKey pub None))
      end
  end.

(** [ParsePublicKey] and [ParsePrivateKey]; the key is allocated at [addr]. *)
Definition ParsePublicKey (addr : Z) (inp : list byte) : list byte * bool * option PublicKey :=
  match ExtractShort inp with
  | None => (inp, false, None)
  | Some (_, typeTag) =>
      if typeTag =? dsaKeyTypeValue then
        let '(index, ok, pub) := DSAPublicKey_Parse new_dsa_PublicKey inp in
        (index, ok, Some (PublicKeyAt addr pub))
      else (inp, false, None)
  end.

Definition ParsePrivateKey (addr : Z) (inp : list byte) : list byte * bool * option PrivateKey :=
  match ExtractShort inp with
  | None => (inp, false, None)
  | Some (_, typeTag) =>
      if typeTag =? dsaKeyTypeValue then
        let '(index, ok, priv) :=
          DSAPrivateKey_Parse (PrivateKeyAt addr new_dsa_PublicKey (DsaPrivateKey new_dsa_PublicKey None)) inp in
        (index, ok, Some priv)
      else (inp, false, None)
  end.

(** ** Serialization *)

Definition DSAPublicKey_serialize (pub : dsa_PublicKey) : list byte :=
  match pub with
  | DsaPublicKey (Some p) (Some q) (Some g) (Some y) =>
      AppendMPI (AppendMPI (AppendMPI (AppendMPI dsaKeyType p) q) g) y
  | _ => []
  end.

Definition PublicKey_serialize (pub : PublicKey) : list byte := DSAPublicKey_serialize (pk_key pub).

(** [DSAPrivateKey.Serialize]; a nil [X] is dereferenced. *)
Definition DSAPrivateKey_serialize (priv : PrivateKey) : go (list byte) :=
  x ← deref (dsa_X (sk_PrivateKey priv));
  mret (AppendMPI (DSAPublicKey_serialize (sk_DSAPublicKey priv)) x).

Section Operations.
Context `{Crypto}.

(** [Fingerprint]: the hash skips the key type. *)
Definition DSAPublicKey_Fingerprint (pub : dsa_PublicKey) : list byte :=
  match DSAPublicKey_serialize pub with
  | [] => []
  | b => sha1 (drop 2 b)
  end.

Definition Fingerprint (pub : PublicKey) : list byte := DSAPublicKey_Fingerprint (pk_key pub).

(** [copy(out[i:], src)] *)
Definition copyAt (out : list byte) (i : Z) (src : list byte) : go (list byte) :=
  tail ← slice out i (len out);
  mret (take (Z.to_nat i) out ++ take (length tail) src ++ drop (length src) tail).

(** [Sign]: [r] and [s] right-aligned in two fields of 20 bytes. *)
Definition Sign (priv : PrivateKey) (rand hashed : list byte) : go (result (list byte) * list byte) :=
  match dsa_sign (sk_PrivateKey priv) hashed rand with
  | (Err e, rand') => mret (Err e, rand')
  | (Ok (r, s), rand') =>
      let rBytes := Bytes r in
      let sBytes := Bytes s in
      out ← copyAt (zeroes 40) (20 - len rBytes) rBytes;
      out ← copyAt out (len out - len sBytes) sBytes;
      mret (Ok out, rand')
  end.

(** [Verify]: the bytes after the signature, and whether it verifies. *)
Definition Verify (pub : PublicKey) (hashed sig : list byte) : list byte * bool :=
  if len sig <? 2 * 20 then ([], false)
  else
    let r := SetBytes (take 20 sig) in
    let s := SetBytes (take 20 (drop 20 sig)) in
    (drop 40 sig, dsa_verify (pk_key pub) hashed r s).

End Operations.

(** ** Laws of the signature scheme *)

(** crypto/dsa on the keys [valid] describes: the two numbers of a signature
    are below the 160-bit order, and the signature verifies. *)
Class DsaLaws `{Crypto} (valid : dsa_PrivateKey -> Prop) := {
  dsa_sign_range k hashed rnd r s rnd' : valid k ->
    dsa_sign k hashed rnd = (Ok (r, s), rnd') -> 0 <= r < 2 ^ 160 /\ 0 <= s < 2 ^ 160;
  dsa_sign_verifies k hashed rnd r s rnd' : valid k ->
    dsa_sign k hashed rnd = (Ok (r, s), rnd') -> dsa_verify (dsa_pub k) hashed r s = true
}.

Definition toy_dsa_laws : @DsaLaws toy_crypto (fun _ => True).
Proof.
  constructor; intros k hashed [|b rnd] r s rnd' _; cbn; intros Hs; [done| |done|]; injection Hs as <- <- _.
  - pose proof (b2z_range b). pose proof (Z.mod_pos_bound (be_decode hashed) (2 ^ 152) ltac:(lia)). lia.
  - apply Z.eqb_refl.
Defined.

(** ** Lemmas *)

(** A key with all its numbers, each fit for the wire format. *)
Definition public_ok (pub : dsa_PublicKey) : Prop :=
  exists p q g y, pub = DsaPublicKey (Some p) (Some q) (Some g) (Some y) /\
    mpi_ok p /\ mpi_ok q /\ mpi_ok g /\ mpi_ok y.

Definition private_ok (priv : PrivateKey) : Prop :=
  public_ok (sk_DSAPublicKey priv) /\ dsa_pub (sk_PrivateKey priv) = sk_DSAPublicKey priv /\
  exists x, dsa_X (sk_PrivateKey priv) = Some x /\ mpi_ok x.

Lemma ExtractShort_dsaKeyType rest : ExtractShort (dsaKeyType ++ rest) = Some (rest, 0).
Proof. change dsaKeyType with (SerializeShort 0). by rewrite ExtractShort_Serialize. Qed.

Lemma DSAPublicKey_serialize_app p q g y rest :
  DSAPublicKey_serialize (DsaPublicKey (Some p) (Some q) (Some g) (Some y)) ++ rest =
  dsaKeyType ++ AppendMPI [] p ++ AppendMPI [] q ++ AppendMPI [] g ++ AppendMPI [] y ++ rest.
Proof.
  cbn [DSAPublicKey_serialize].
  rewrite (AppendMPI_app _ y), (AppendMPI_app _ g), (AppendMPI_app _ q), (AppendMPI_app _ p).
  by rewrite <- !app_assoc.
Qed.

Lemma DSAPublicKey_Parse_serialize pub0 pub rest :
  public_ok pub -> DSAPublicKey_Parse pub0 (DSAPublicKey_serialize pub ++ rest) = (rest, true, pub).
Proof.
  intros (p & q & g & y & -> & Hp & Hq & Hg & Hy). rewrite DSAPublicKey_serialize_app.
  unfold DSAPublicKey_Parse, parseField. rewrite ExtractShort_dsaKeyType. cbn [negb Z.eqb dsaKeyTypeValue].
  by rewrite !ExtractMPI_Append by done.
Qed.

Lemma serialize_type pub rest : public_ok pub ->
  exists r, ExtractShort (DSAPublicKey_serialize pub ++ rest) = Some (r, dsaKeyTypeValue).
Proof.
  intros (p & q & g & y & -> & _). rewrite DSAPublicKey_serialize_app, ExtractShort_dsaKeyType. eauto.
Qed.

Lemma ParsePublicKey_serialize addr pub rest : public_ok pub ->
  ParsePublicKey addr (DSAPublicKey_serialize pub ++ rest) = (rest, true, Some (PublicKeyAt addr pub)).
Proof.
  intros Hok. unfold ParsePublicKey. destruct (serialize_type pub rest Hok) as [r ->].
  by rewrite Z.eqb_refl, DSAPublicKey_Parse_serialize.
Qed.

Lemma copyAt_right n out src : len src <= n <= len out ->
  copyAt out (n - len src) src = Done (take (Z.to_nat (n - len src)) out ++ src ++ drop (Z.to_nat n) out).
Proof.
  intros Hn. unfold copyAt. pose proof (len_nonneg src).
  rewrite slice_from by lia. go_simpl. f_equal. f_equal. f_equal.
  - apply take_ge. rewrite length_drop. unfold len in *. lia.
  - rewrite drop_drop. f_equal. unfold len in *. lia.
Qed.

Lemma zeroes_app a b : zeroes (a + b) = zeroes a ++ zeroes b.
Proof. apply replicate_add. Qed.

Lemma len_zeroes n : len (zeroes n) = Z.of_nat n.
Proof. unfold len, zeroes. by rewrite length_replicate. Qed.

Lemma Sign_layout `{Crypto} priv rnd hashed r s rnd' :
  dsa_sign (sk_PrivateKey priv) hashed rnd = (Ok (r, s), rnd') ->
  0 <= r < 2 ^ 160 -> 0 <= s < 2 ^ 160 ->
  Sign priv rnd hashed = Done (Ok (be_encode 20 r ++ be_encode 20 s), rnd').
Proof.
  change (2 ^ 160) with (256 ^ Z.of_nat 20). intros Hs Hr Hss. unfold Sign. rewrite Hs.
  pose proof (length_Bytes r 20 ltac:(lia)) as Hlr. pose proof (length_Bytes s 20 ltac:(lia)) as Hls.
  assert (len (zeroes 40) = 40) by apply len_zeroes.
  rewrite (copyAt_right 20) by (unfold len in *; lia). go_simpl.
  replace (take _ (zeroes 40)) with (zeroes (20 - length (Bytes r))).
  2:{ unfold zeroes, len. rewrite take_replicate. f_equal. lia. }
  rewrite app_assoc. change (zeroes (20 - length (Bytes r))) with (replicate (20 - length (Bytes r)) Byte.x00).
  rewrite <- (be_encode_pad 20 r) by done.
  change (drop (Z.to_nat 20) (zeroes 40)) with (zeroes 20).
  assert (len (be_encode 20 r ++ zeroes 20) = 40) as Ho by (autorewrite with len; by rewrite len_zeroes).
  rewrite Ho, copyAt_right by (unfold len in *; lia). go_simpl. do 3 f_equal.
  rewrite (drop_ge (_ ++ _)) by (unfold len in *; lia). rewrite app_nil_r.
  rewrite (be_encode_pad 20 s) by done. rewrite take_app, length_be_encode, app_assoc.
  f_equal. f_equal; [apply take_ge; rewrite length_be_encode; unfold len; lia|].
  unfold zeroes. rewrite take_replicate. f_equal. unfold len. lia.
Qed.

Lemma Sign_verifies `{Crypto} valid `{!DsaLaws valid} priv pub rnd hashed sig rnd' rest :
  valid (sk_PrivateKey priv) -> pk_key pub = dsa_pub (sk_PrivateKey priv) ->
  Sign priv rnd hashed = Done (Ok sig, rnd') ->
  len sig = 40 /\ Verify pub hashed (sig ++ rest) = (rest, true).
Proof.
  intros Hv Hpub HS.
  destruct (dsa_sign (sk_PrivateKey priv) hashed rnd) as [[[r s]|e] rnd''] eqn:Hs.
  2:{ unfold Sign in HS. by rewrite Hs in HS. }
  destruct (dsa_sign_range _ _ _ _ _ _ Hv Hs) as [Hr Hss].
  rewrite (Sign_layout _ _ _ _ _ _ Hs Hr Hss) in HS.
  assert (sig = be_encode 20 r ++ be_encode 20 s) as -> by congruence.
  assert (len (be_encode 20 r ++ be_encode 20 s) = 40) as Hl by (by autorewrite with len).
  split; [done|]. unfold Verify. rewrite (len_app (_ ++ _)), Hl. pose proof (len_nonneg rest). split_cmp; [lia|].
  rewrite <- !app_assoc. change (2 ^ 160) with (256 ^ Z.of_nat 20) in *.
  assert (forall z t, take 20 (be_encode 20 z ++ t) = be_encode 20 z) as Ht
    by (intros; rewrite take_app_length'; [done|by rewrite length_be_encode]).
  assert (forall z t, drop 20 (be_encode 20 z ++ t) = t) as Hd
    by (intros; rewrite drop_app_length'; [done|by rewrite length_be_encode]).
  change 40%nat with (20 + 20)%nat. rewrite <- drop_drop, !Hd, !Ht.
  unfold SetBytes. rewrite !be_decode_encode_small by done.
  f_equal. rewrite Hpub. by apply (dsa_sign_verifies _ _ _ _ _ _ Hv Hs).
Qed.

(** ** Theorems *)

(** C24: a serialized private key parses back to the same key, and a public key
    is the prefix of it that parses on its own. *)
Theorem keys_roundtrip addr priv ser rest :
  private_ok priv -> DSAPrivateKey_serialize priv = Done ser ->
  ParsePrivateKey addr (ser ++ rest) = (rest, true, Some (priv <| sk_addr := addr |>)) /\
  (exists tail, ParsePublicKey addr ser = (tail, true, Some (PublicKeyAt addr (pk_key (PublicKey_of priv))))).
Proof.
  intros (Hpub & Heq & x & Hx & Hmx). unfold DSAPrivateKey_serialize. rewrite Hx. go_simpl.
  intros [= <-]. rewrite AppendMPI_app. split.
  - unfold ParsePrivateKey, DSAPrivateKey_Parse. rewrite <- app_assoc.
    destruct (serialize_type _ (AppendMPI [] x ++ rest) Hpub) as [r ->]. rewrite Z.eqb_refl.
    cbn [sk_DSAPublicKey]. rewrite DSAPublicKey_Parse_serialize, ExtractMPI_Append by done.
    destruct priv as [a pub [pub' x']]. cbn in *. subst. done.
  - rewrite ParsePublicKey_serialize by done. eauto.
Qed.

Definition example_pub : dsa_PublicKey := DsaPublicKey (Some 23) (Some 11) (Some 2) (Some 8).
Definition example_priv : PrivateKey := PrivateKeyAt 1 example_pub (DsaPrivateKey example_pub (Some 3)).

Lemma example_priv_ok : private_ok example_priv.
Proof.
  split; [|split; [done|]].
  - exists 23, 11, 2, 8. repeat split; done.
  - exists 3. repeat split; done.
Qed.

Lemma keys_roundtrip_witness : exists ser, DSAPrivateKey_serialize example_priv = Done ser /\
  ParsePrivateKey 7 (ser ++ [Byte.x01]) = ([Byte.x01], true, Some (example_priv <| sk_addr := 7 |>)).
Proof.
  eexists. split; [reflexivity|]. apply (keys_roundtrip 7 example_priv); [exact example_priv_ok|reflexivity].
Defined.

(** A signature made with a private key verifies under its public key,
    wherever that key was parsed, and [Verify] returns what follows the 40
    bytes. *)
Theorem Verify_Sign `{Crypto} valid `{!DsaLaws valid} priv pub rnd hashed sig rnd' rest :
  valid (sk_PrivateKey priv) -> pk_key pub = dsa_pub (sk_PrivateKey priv) ->
  Sign priv rnd hashed = Done (Ok sig, rnd') ->
  len sig = 40 /\ Verify pub hashed (sig ++ rest) = (rest, true).
Proof. intros. by eapply Sign_verifies. Qed.

Lemma Verify_Sign_witness : exists sig rnd',
  @Sign toy_crypto example_priv [Byte.x07; Byte.x08] (bs "hashed") = Done (Ok sig, rnd') /\
  @Verify toy_crypto (PublicKeyAt 9 example_pub) (bs "hashed") (sig ++ bs "rest") = (bs "rest", true).
Proof.
  eexists _, _. split; [vm_compute; reflexivity|].
  apply (@Verify_Sign toy_crypto (fun _ => True) toy_dsa_laws example_priv (PublicKeyAt 9 example_pub)
           [Byte.x07; Byte.x08] (bs "hashed") _ [Byte.x08]); [exact I|reflexivity|vm_compute; reflexivity].
Defined.
