(* ===== verification/Sexp.v ===== *)
(** * The S-expressions of key files: package sexp

    The reader behind a key file is a [bufio.Reader].  Its state is what is left
    to read and the last byte it returned, which [UnreadByte] puts back; reading
    at the end of the input leaves the state alone.  The recursion over lists is
    bounded by [depth], the frames the stack has room for. *)

From S2P Require Import Prelude GoLib.

(** ** [bufio.Reader] over a source that ends with [io.EOF] *)

Record Reader := ReaderAt { unread : list byte; lastByte : option byte }.

(** [None] is [io.EOF]. *)
Definition ReadByte : GoM Reader (option byte) := fun r =>
  match unread r with
  | c :: rest => Done (Some c, ReaderAt rest (Some c))
  | [] => Done (None, r)
  end.

(** The error of a second [UnreadByte] is dropped by every caller. *)
Definition UnreadByte : GoM Reader unit := fun r =>
  match lastByte r with
  | Some c => Done (tt, ReaderAt (c :: unread r) None)
  | None => Done (tt, r)
  end.

(** ** Values *)

(** The interface [Value]; [None] is nil, also inside a cell. *)
#[warnings="-register-all"]
Inductive Value :=
  | Cons (first second : option Value)
  | Snil
  | Sstring (s : list byte)
  | Symbol (s : list byte)
  | BigNum (val : option Z).

Definition First (v : Value) : go (option Value) :=
  match v with
  | Cons first _ => mret first
  | Snil => mret (Some Snil)
  | Sstring _ => Panicked (Raised "not valid to call First on an SString")
  | Symbol _ => Panicked (Raised "not valid to call First on a Symbol")
  | BigNum _ => Panicked (Raised "not valid to call First on a BigNum")
  end.

Definition Second (v : Value) : go (option Value) :=
  match v with
  | Cons _ second => mret second
  | Snil => mret (Some Snil)
  | Sstring _ => Panicked (Raised "not valid to call Second on an SString")
  | Symbol _ => Panicked (Raised "not valid to call Second on a Symbol")
  | BigNum _ => Panicked (Raised "not valid to call Second on a BigNum")
  end.

(** The verb [%X] on a [*big.Int]. *)
Definition formatX (val : option Z) : list byte :=
  match val with
  | None => bs "<nil>"
  | Some z => if z <? 0 then bs "-" ++ format_base true 16 (- z) else format_base true 16 z
  end.

(** [String]; a nil cell is dereferenced. *)
Fixpoint Value_String (v : Value) : go (list byte) :=
  match v with
  | Cons (Some a) (Some b) =>
      sa ← Value_String a; sb ← Value_String b; mret (bs "(" ++ sa ++ bs " . " ++ sb ++ bs ")")
  | Cons (Some a) None => _ ← Value_String a; Panicked NilDeref
  | Cons None _ => Panicked NilDeref
  | Snil => mret (bs "()")
  | Sstring s => mret ([z2b 34] ++ s ++ [z2b 34])
  | Symbol s => mret s
  | BigNum val => mret (bs "#" ++ formatX val ++ bs "#")
  end.

Definition SList (values : list (option Value)) : Value :=
  fold_right (fun v result => Cons v (Some result)) Snil values.

(** [big.Int.SetString(s, 16)] *)
Definition SetString16 (s : list byte) : option Z :=
  let '(neg, digits) :=
    match s with
    | c :: s' => if b2z c =? 45 then (true, s') else if b2z c =? 43 then (false, s') else (false, s)
    | [] => (false, [])
    end in
  match digits with
  | [] => None
  | _ => z ← parse_digits 16 digits 0; Some (if neg : bool then - z else z)
  end.

Definition NewBigNum (s : list byte) : Value := BigNum (SetString16 s).

(** ** Reading bytes *)

Definition peek : GoM Reader (option byte) :=
  c ← ReadByte;
  _ ← (match c with Some _ => UnreadByte | None => mret tt end);
  mret c.

Definition isWhitespace (c : byte) : bool :=
  (b2z c =? 32) || (b2z c =? 9) || (b2z c =? 10) || (b2z c =? 13).

Definition isNotSymbolCharacter (c : byte) : bool :=
  isWhitespace c || (b2z c =? 40) || (b2z c =? 41).

(** Each round of the loop consumes a byte: [n] is what is left to read. *)
Fixpoint skipLoop (n : nat) : GoM Reader unit :=
  c ← peek;
  match c, n with
  | Some c, S n' => if isWhitespace c then _ ← ReadByte; skipLoop n' else mret tt
  | _, _ => mret tt
  end.

Definition ReadWhitespace : GoM Reader unit := fun r => skipLoop (length (unread r)) r.

Fixpoint dataLoop (n : nat) (until : byte -> bool) (result : list byte) : GoM Reader (list byte) :=
  c ← peek;
  match c, n with
  | Some c, S n' => if until c then mret result else _ ← ReadByte; dataLoop n' until (result ++ [c])
  | _, _ => mret result
  end.

Definition ReadDataUntil (until : byte -> bool) : GoM Reader (list byte) := fun r =>
  dataLoop (length (unread r)) until [] r.

Definition untilFixed (b : byte) (until : byte) : bool := bool_decide (until = b).

(** At the end of the input the byte read is 0, and the byte before it is put back. *)
Definition expect (c : byte) : GoM Reader bool :=
  _ ← ReadWhitespace;
  res ← ReadByte;
  _ ← (if bool_decide (default Byte.x00 res <> c) then UnreadByte else mret tt);
  mret (bool_decide (res = Some c)).

Definition ReadListStart : GoM Reader bool := expect (z2b 40).
Definition ReadListEnd : GoM Reader bool := expect (z2b 41).
Definition ReadStringStart : GoM Reader bool := expect (z2b 34).
Definition ReadStringEnd : GoM Reader bool := expect (z2b 34).
Definition ReadBigNumStart : GoM Reader bool := expect (z2b 35).
Definition ReadBigNumEnd : GoM Reader bool := expect (z2b 35).

(** ** Reading values *)

Definition ReadString : GoM Reader (option Value) :=
  _ ← ReadWhitespace;
  start ← ReadStringStart;
  if negb start then mret None else
  result ← ReadDataUntil (untilFixed (z2b 34));
  fin ← ReadStringEnd;
  mret (if negb fin then None else Some (Sstring result)).

Definition ReadBigNum : GoM Reader (option Value) :=
  _ ← ReadWhitespace;
  start ← ReadBigNumStart;
  if negb start then mret None else
  result ← ReadDataUntil (untilFixed (z2b 35));
  fin ← ReadBigNumEnd;
  mret (if negb fin then None else Some (NewBigNum result)).

Definition ReadSymbol : GoM Reader (option Value) :=
  _ ← ReadWhitespace;
  result ← ReadDataUntil isNotSymbolCharacter;
  mret (Some (Symbol result)).

(** The value, and whether there was none. *)
Fixpoint ReadValue (depth : nat) : GoM Reader (option Value * bool) :=
  match depth with
  | O => glift (Panicked StackOverflow)
  | S depth' =>
      _ ← ReadWhitespace;
      c ← peek;
      match c with
      | None => mret (None, true)
      | Some c =>
          if b2z c =? 40 then v ← ReadList depth'; mret (v, false)
          else if b2z c =? 41 then mret (None, true)
          else if b2z c =? 34 then v ← ReadString; mret (v, false)
          else if b2z c =? 35 then v ← ReadBigNum; mret (v, false)
          else v ← ReadSymbol; mret (v, false)
      end
  end
with ReadList (depth : nat) : GoM Reader (option Value) :=
  match depth with
  | O => glift (Panicked StackOverflow)
  | S depth' =>
      _ ← ReadWhitespace;
      start ← ReadListStart;
      if negb start then mret None else
      result ← ReadListItem depth';
      fin ← ReadListEnd;
      mret (if negb fin then None else Some result)
  end
with ReadListItem (depth : nat) : GoM Reader Value :=
  match depth with
  | O => glift (Panicked StackOverflow)
  | S depth' =>
      _ ← ReadWhitespace;
      val ← ReadValue depth';
      if snd val : bool then mret Snil
      else next ← ReadListItem depth'; mret (Cons (fst val) (Some next))
  end.

Definition Read (depth : nat) : GoM Reader (option Value) := res ← ReadValue depth; mret (fst res).

(** ** How the readers run *)

(** On [text ++ rest], whatever was read before, the reader [m] returns [a] and
    leaves [rest]. *)
Definition parses {A} (m : GoM Reader A) (text : list byte) (a : A) (rest : list byte) : Prop :=
  forall l, exists l', m (ReaderAt (text ++ rest) l) = Done (a, ReaderAt rest l').

Lemma parses_ret {A} (a : A) rest : parses (mret a) [] a rest.
Proof. intros l. by exists l. Qed.

Lemma parses_bind {A B} (m : GoM Reader A) (k : A -> GoM Reader B) t1 a t2 b rest :
  parses m t1 a (t2 ++ rest) -> parses (k a) t2 b rest -> parses (m ≫= k) (t1 ++ t2) b rest.
Proof.
  intros Hm Hk l. destruct (Hm l) as [l1 H1]. destruct (Hk l1) as [l2 H2]. exists l2. rewrite <- app_assoc. by step_done H1.
Qed.

(** The last action of a sequence reads nothing. *)
Lemma parses_bind_ret {A B} (m : GoM Reader A) (k : A -> B) t a rest :
  parses m t a rest -> parses (x ← m; mret (k x)) t (k a) rest.
Proof. intros Hm. rewrite <- (app_nil_r t). eapply parses_bind; [done|apply parses_ret]. Qed.

Definition all_white (ws : list byte) : Prop := Forall (fun c => isWhitespace c = true) ws.

Lemma peek_cons c rest l : peek (ReaderAt (c :: rest) l) = Done (Some c, ReaderAt (c :: rest) None).
Proof. done. Qed.

Lemma skipLoop_run ws c rest n l : all_white ws -> isWhitespace c = false -> (length ws < n)%nat ->
  skipLoop n (ReaderAt (ws ++ c :: rest) l) = Done (tt, ReaderAt (c :: rest) None).
Proof.
  intros Hws Hc. revert n l. induction Hws as [|w ws Hw _ IH]; intros n l Hn; (destruct n as [|n]; [simpl in Hn; lia|]);
    cbn [app skipLoop]; rewrite (bind_done _ _ _ _ _ (peek_cons _ _ l)); cbn beta iota.
  - by rewrite Hc.
  - rewrite Hw. cbn [length] in Hn. apply (IH n (Some w)). lia.
Qed.

Lemma ReadWhitespace_run ws c rest l : all_white ws -> isWhitespace c = false ->
  ReadWhitespace (ReaderAt (ws ++ c :: rest) l) = Done (tt, ReaderAt (c :: rest) None).
Proof. intros. apply skipLoop_run; [done|done|]. cbn [unread]. rewrite length_app. cbn [length]. lia. Qed.

Lemma dataLoop_run until s c rest n acc l :
  Forall (fun x => until x = false) s -> until c = true -> (length s < n)%nat ->
  dataLoop n until acc (ReaderAt (s ++ c :: rest) l) = Done (acc ++ s, ReaderAt (c :: rest) None).
Proof.
  intros Hs Hc. revert n acc l. induction Hs as [|x s Hx _ IH]; intros n acc l Hn; (destruct n as [|n]; [simpl in Hn; lia|]);
    cbn [app dataLoop]; rewrite (bind_done _ _ _ _ _ (peek_cons _ _ l)); cbn beta iota.
  - rewrite Hc. by rewrite app_nil_r.
  - rewrite Hx. cbn [length] in Hn. rewrite (cons_middle x acc s), app_assoc. apply (IH n (acc ++ [x]) (Some x)). lia.
Qed.

Lemma ReadDataUntil_run until s c rest l : Forall (fun x => until x = false) s -> until c = true ->
  ReadDataUntil until (ReaderAt (s ++ c :: rest) l) = Done (s, ReaderAt (c :: rest) None).
Proof. intros. apply (dataLoop_run until s c rest _ []); [done|done|]. cbn [unread]. rewrite length_app. cbn [length]. lia. Qed.

Lemma expect_run c ws rest l : all_white ws -> isWhitespace c = false ->
  expect c (ReaderAt (ws ++ c :: rest) l) = Done (true, ReaderAt rest (Some c)).
Proof.
  intros Hws Hc. unfold expect. step_done (ReadWhitespace_run ws c rest l Hws Hc).
  assert (ReadByte (ReaderAt (c :: rest) None) = Done (Some c, ReaderAt rest (Some c))) as Hr by done.
  step_done Hr. rewrite (bool_decide_false (default Byte.x00 (Some c) <> c)) by (intros Hn; by apply Hn). step_state. by rewrite bool_decide_true.
Qed.

Lemma expect_yes c ws rest : all_white ws -> isWhitespace c = false -> parses (expect c) (ws ++ [c]) true rest.
Proof. intros Hws Hc l. exists (Some c). rewrite <- app_assoc. by apply expect_run. Qed.

Lemma expect_here c rest : isWhitespace c = false -> parses (expect c) [c] true rest.
Proof. intros Hc. apply (expect_yes c []); [constructor|done]. Qed.

Lemma expect_no c c' ws rest : all_white ws -> isWhitespace c' = false -> c' <> c -> parses (expect c) ws false (c' :: rest).
Proof.
  intros Hws Hc Hne l. exists None. unfold expect. step_done (ReadWhitespace_run ws c' rest l Hws Hc).
  assert (ReadByte (ReaderAt (c' :: rest) None) = Done (Some c', ReaderAt rest (Some c'))) as Hr by done.
  step_done Hr. rewrite (bool_decide_true (default Byte.x00 (Some c') <> c)) by done.
  rewrite (bool_decide_false (Some c' = Some c)) by (by intros [=]). done.
Qed.

(** ** The grammar *)

(** A symbol is not empty, has no delimiter and does not look like a string or a number. *)
Definition symbol_text (s : list byte) : bool :=
  match s with
  | [] => false
  | c :: _ => negb (b2z c =? 34) && negb (b2z c =? 35) && forallb (fun x => negb (isNotSymbolCharacter x)) s
  end.

(** What must follow a symbol. *)
Definition delimited (rest : list byte) : bool :=
  match rest with c :: _ => isNotSymbolCharacter c | [] => false end.

Definition is_symbol (v : Value) : bool := match v with Symbol _ => true | _ => false end.

(** The text of a value, and of the items of a list before its closing
    parenthesis; white space is free except after a symbol. *)
Inductive writes : list byte -> Value -> Prop :=
  | writes_symbol s : symbol_text s = true -> writes s (Symbol s)
  | writes_string s : z2b 34 ∉ s -> writes ([z2b 34] ++ s ++ [z2b 34]) (Sstring s)
  | writes_bignum s : z2b 35 ∉ s -> writes ([z2b 35] ++ s ++ [z2b 35]) (NewBigNum s)
  | writes_list t v : writes_items t v -> writes ([z2b 40] ++ t ++ [z2b 41]) v
with writes_items : list byte -> Value -> Prop :=
  | items_nil ws : all_white ws -> writes_items ws Snil
  | items_cons ws t v t' vs : all_white ws -> writes t v -> (is_symbol v = true -> delimited (t' ++ [z2b 41]) = true) ->
      writes_items t' vs -> writes_items (ws ++ t ++ t') (Cons (Some v) (Some vs)).

Scheme writes_mut := Induction for writes Sort Prop
  with items_mut := Induction for writes_items Sort Prop.

(** ** Reading the grammar *)

(** What [ReadValue] does after it saw the byte [c]. *)
Definition dispatch (depth : nat) (c : byte) : GoM Reader (option Value * bool) :=
  if b2z c =? 40 then v ← ReadList depth; mret (v, false)
  else if b2z c =? 41 then mret (None, true)
  else if b2z c =? 34 then v ← ReadString; mret (v, false)
  else if b2z c =? 35 then v ← ReadBigNum; mret (v, false)
  else v ← ReadSymbol; mret (v, false).

Lemma ReadValue_dispatch depth ws c t a rest : all_white ws -> isWhitespace c = false ->
  parses (dispatch depth c) (c :: t) a rest -> parses (ReadValue (S depth)) (ws ++ c :: t) a rest.
Proof.
  intros Hws Hc Hd l. destruct (Hd None) as [l' Hd']. exists l'. rewrite <- app_assoc. cbn [app ReadValue].
  step_done (ReadWhitespace_run ws c (t ++ rest) l Hws Hc). by step_done (peek_cons c (t ++ rest) None).
Qed.

Lemma white_none c rest : isWhitespace c = false -> parses ReadWhitespace [] tt (c :: rest).
Proof. intros Hc l. exists None. by apply (ReadWhitespace_run []); [constructor|]. Qed.

Lemma until_parses until s c rest : Forall (fun x => until x = false) s -> until c = true ->
  parses (ReadDataUntil until) s s (c :: rest).
Proof. intros Hs Hc l. exists None. by apply ReadDataUntil_run. Qed.

Lemma untilFixed_other b s : b ∉ s -> Forall (fun x => untilFixed b x = false) s.
Proof. intros Hb. apply Forall_forall. intros x Hx. unfold untilFixed. apply bool_decide_false. by intros ->. Qed.

Lemma untilFixed_same b : untilFixed b b = true.
Proof. by apply bool_decide_true. Qed.

Lemma ReadString_parses s rest : z2b 34 ∉ s -> parses ReadString ([z2b 34] ++ s ++ [z2b 34]) (Some (Sstring s)) rest.
Proof.
  intros Hs. apply (parses_bind _ _ [] tt ([z2b 34] ++ s ++ [z2b 34])); [by apply white_none|].
  eapply parses_bind; [by apply expect_here|]. cbv iota beta. cbn [negb].
  eapply parses_bind; [apply until_parses; [by apply untilFixed_other|apply untilFixed_same]|].
  by apply (parses_bind_ret _ (fun fin => if negb fin then None else Some (Sstring s)) _ true), expect_here.
Qed.

Lemma ReadBigNum_parses s rest : z2b 35 ∉ s -> parses ReadBigNum ([z2b 35] ++ s ++ [z2b 35]) (Some (NewBigNum s)) rest.
Proof.
  intros Hs. apply (parses_bind _ _ [] tt ([z2b 35] ++ s ++ [z2b 35])); [by apply white_none|].
  eapply parses_bind; [by apply expect_here|]. cbv iota beta. cbn [negb].
  eapply parses_bind; [apply until_parses; [by apply untilFixed_other|apply untilFixed_same]|].
  by apply (parses_bind_ret _ (fun fin => if negb fin then None else Some (NewBigNum s)) _ true), expect_here.
Qed.

Lemma symbol_text_inv s : symbol_text s = true -> exists c s', s = c :: s' /\ isNotSymbolCharacter c = false /\
  b2z c <> 34 /\ b2z c <> 35 /\ Forall (fun x => isNotSymbolCharacter x = false) s.
Proof.
  destruct s as [|c s]; [done|]. unfold symbol_text. rewrite !andb_true_iff, !negb_true_iff, !Z.eqb_neq, forallb_forall.
  intros [[H34 H35] Hall]. exists c, s. assert (Forall (fun x => isNotSymbolCharacter x = false) (c :: s)) as Hf.
  { apply Forall_forall. intros x Hx%list_elem_of_In. by apply negb_true_iff, Hall. }
  split; [done|]. by inversion Hf.
Qed.

Lemma symbol_char_white c : isNotSymbolCharacter c = false -> isWhitespace c = false /\ b2z c <> 40 /\ b2z c <> 41.
Proof. unfold isNotSymbolCharacter. rewrite !orb_false_iff, !Z.eqb_neq. tauto. Qed.

Lemma ReadSymbol_parses s rest : symbol_text s = true -> delimited rest = true -> parses ReadSymbol s (Some (Symbol s)) rest.
Proof.
  intros Hs Hd. destruct (symbol_text_inv s Hs) as (c & s' & -> & Hc & _ & _ & Hall). destruct rest as [|d rest]; [done|].
  apply (parses_bind _ _ [] tt (c :: s')); [by apply white_none, symbol_char_white|].
  by apply (parses_bind_ret _ (fun s => Some (Symbol s))), until_parses.
Qed.

(** The text of a value starts with a byte that is not white space. *)
Lemma writes_head t v : writes t v -> exists c t', t = c :: t' /\ isWhitespace c = false.
Proof.
  intros [s Hs| | |]; try by (eexists _, _; split; [reflexivity|reflexivity]).
  destruct (symbol_text_inv s Hs) as (c & s' & -> & Hc & _). exists c, s'. split; [done|]. by apply symbol_char_white.
Qed.

(** The atoms. *)
Lemma ReadValue_symbol depth ws s rest : all_white ws -> symbol_text s = true -> delimited rest = true ->
  parses (ReadValue (S depth)) (ws ++ s) (Some (Symbol s), false) rest.
Proof.
  intros Hws Hs Hd. destruct (symbol_text_inv s Hs) as (c & s' & Es & Hc & H34 & H35 & _).
  destruct (symbol_char_white c Hc) as (Hw & H40 & H41). subst s. apply ReadValue_dispatch; [done|done|]. unfold dispatch.
  apply Z.eqb_neq in H34, H35, H40, H41. rewrite H40, H41, H34, H35.
  by apply (parses_bind_ret _ (fun v => (v, false))), ReadSymbol_parses.
Qed.

Lemma ReadValue_string depth ws s rest : all_white ws -> z2b 34 ∉ s ->
  parses (ReadValue (S depth)) (ws ++ [z2b 34] ++ s ++ [z2b 34]) (Some (Sstring s), false) rest.
Proof.
  intros Hws Hs. apply ReadValue_dispatch; [done|done|].
  by apply (parses_bind_ret _ (fun v => (v, false))), ReadString_parses.
Qed.

Lemma ReadValue_bignum depth ws s rest : all_white ws -> z2b 35 ∉ s ->
  parses (ReadValue (S depth)) (ws ++ [z2b 35] ++ s ++ [z2b 35]) (Some (NewBigNum s), false) rest.
Proof.
  intros Hws Hs. apply ReadValue_dispatch; [done|done|].
  by apply (parses_bind_ret _ (fun v => (v, false))), ReadBigNum_parses.
Qed.

Lemma ReadWhitespace_parses ws c rest : all_white ws -> isWhitespace c = false -> parses ReadWhitespace ws tt (c :: rest).
Proof. intros Hws Hc l. exists None. by apply ReadWhitespace_run. Qed.

Lemma ReadValue_end depth rest : parses (ReadValue (S depth)) [] (None, true) (z2b 41 :: rest).
Proof. intros l. exists None. done. Qed.

Lemma ReadValue_list depth ws t v rest : all_white ws -> parses (ReadListItem depth) t v (z2b 41 :: rest) ->
  parses (ReadValue (S (S depth))) (ws ++ [z2b 40] ++ t ++ [z2b 41]) (Some v, false) rest.
Proof.
  intros Hws Ht. apply ReadValue_dispatch; [done|done|]. apply (parses_bind_ret _ (fun v => (v, false))). cbn [ReadList].
  apply (parses_bind _ _ [] tt ([z2b 40] ++ t ++ [z2b 41])); [by apply white_none|].
  eapply parses_bind; [by apply expect_here|]. cbv iota beta. cbn [negb]. eapply parses_bind; [exact Ht|].
  by apply (parses_bind_ret _ (fun fin => if negb fin then None else Some v) _ true), expect_here.
Qed.

Lemma ReadListItem_cons depth ws c t v t' vs rest : all_white ws -> isWhitespace c = false ->
  parses (ReadValue depth) (c :: t) (Some v, false) (t' ++ z2b 41 :: rest) -> parses (ReadListItem depth) t' vs (z2b 41 :: rest) ->
  parses (ReadListItem (S depth)) (ws ++ (c :: t) ++ t') (Cons (Some v) (Some vs)) (z2b 41 :: rest).
Proof.
  intros Hws Hc Hv Ht. cbn [ReadListItem]. eapply parses_bind; [by apply ReadWhitespace_parses|].
  eapply parses_bind; [exact Hv|]. cbn [snd fst]. by apply (parses_bind_ret _ (fun next => Cons (Some v) (Some next))).
Qed.

Lemma ReadValue_writes t v : writes t v -> forall depth ws rest, (2 * length t < depth)%nat -> all_white ws ->
  (is_symbol v = true -> delimited rest = true) -> parses (ReadValue depth) (ws ++ t) (Some v, false) rest.
Proof.
  intros Hw. induction Hw using writes_mut with
    (P0 := fun t v _ => forall depth rest, (2 * length t + 1 < depth)%nat -> parses (ReadListItem depth) t v (z2b 41 :: rest)).
  - intros depth ws rest Hd Hws Hr. destruct depth as [|depth]; [lia|]. by apply ReadValue_symbol; [| |apply Hr].
  - intros depth ws rest Hd Hws _. destruct depth as [|depth]; [lia|]. by apply ReadValue_string.
  - intros depth ws rest Hd Hws _. destruct depth as [|depth]; [lia|]. by apply ReadValue_bignum.
  - intros depth ws rest Hd Hws _. rewrite !length_app in Hd. cbn [length] in Hd. do 2 (destruct depth as [|depth]; [lia|]).
    apply ReadValue_list; [done|]. apply IHHw. lia.
  - intros depth rest Hd. do 2 (destruct depth as [|depth]; [lia|]). cbn [ReadListItem]. rewrite <- (app_nil_r ws).
    eapply parses_bind; [by apply ReadWhitespace_parses|]. apply (parses_bind _ _ [] (None, true) []); [apply ReadValue_end|].
    apply parses_ret.
  - intros depth rest Hd. destruct (writes_head t v Hw) as (c & t1 & -> & Hc). rewrite !length_app in Hd. cbn [length] in Hd.
    destruct depth as [|depth]; [lia|]. apply ReadListItem_cons; [done|done| |apply IHHw0; lia].
    apply (IHHw _ []); [cbn [length]; lia|constructor|]. intros Hs. specialize (e Hs). by destruct t'.
Qed.

(** ** The depth of the stack *)

(** [m] behaves as [m'] until its stack runs out. *)
Definition cut {A} (m m' : GoM Reader A) : Prop := forall r, m r = Panicked StackOverflow \/ m r = m' r.

Lemma cut_refl {A} (m : GoM Reader A) : cut m m.
Proof. by right. Qed.

Lemma cut_trans {A} (m1 m2 m3 : GoM Reader A) : cut m1 m2 -> cut m2 m3 -> cut m1 m3.
Proof. intros H1 H2 r. destruct (H1 r) as [E|E]; [by left|]. rewrite E. apply H2. Qed.

Lemma cut_bind {A B} (m m' : GoM Reader A) (k k' : A -> GoM Reader B) :
  cut m m' -> (forall a, cut (k a) (k' a)) -> cut (m ≫= k) (m' ≫= k').
Proof.
  intros Hm Hk r. unfold mbind, gom_bind. destruct (Hm r) as [E|E]; rewrite E; [by left|].
  destruct (m' r) as [[a r']|p]; [apply Hk|by right].
Qed.

Lemma cut_none {A} (m : GoM Reader A) : cut (glift (Panicked StackOverflow)) m.
Proof. by left. Qed.

Create HintDb cut.
#[export] Hint Resolve cut_refl cut_bind cut_none : cut.

Lemma depth_step d : cut (ReadValue d) (ReadValue (S d)) /\ cut (ReadList d) (ReadList (S d)) /\ cut (ReadListItem d) (ReadListItem (S d)).
Proof.
  induction d as [|d (IHv & IHl & IHi)]; [split_and!; apply cut_none|].
  split_and!; cbn [ReadValue ReadList ReadListItem] in *; repeat (apply cut_bind; [by auto with cut|intros]);
    repeat case_match; auto with cut.
Qed.

Lemma depth_more d n : cut (ReadValue d) (ReadValue (n + d)) /\ cut (ReadListItem d) (ReadListItem (n + d)).
Proof.
  induction n as [|n [IHv IHi]]; [split; apply cut_refl|]. destruct (depth_step (n + d)) as (Hv & _ & Hi).
  split; eapply cut_trans; done.
Qed.

Lemma ReadValue_writes_cut t v depth ws rest l : writes t v -> all_white ws -> (is_symbol v = true -> delimited rest = true) ->
  ReadValue depth (ReaderAt ((ws ++ t) ++ rest) l) = Panicked StackOverflow \/
  exists l', ReadValue depth (ReaderAt ((ws ++ t) ++ rest) l) = Done ((Some v, false), ReaderAt rest l').
Proof.
  intros Hw Hws Hr. destruct (ReadValue_writes t v Hw (S (2 * length t) + depth) ws rest ltac:(lia) Hws Hr l) as [l' Hl].
  destruct (proj1 (depth_more depth (S (2 * length t))) (ReaderAt ((ws ++ t) ++ rest) l)) as [E|E]; [by left|right].
  exists l'. by rewrite E.
Qed.

(** ** Progress *)

(** The bytes a reader can still return, the one it may put back included. *)
Definition available (r : Reader) : nat :=
  (length (unread r) + match lastByte r with Some _ => 1 | None => 0 end)%nat.

Lemma available_bounds r : (length (unread r) <= available r <= S (length (unread r)))%nat.
Proof. unfold available. destruct (lastByte r); lia. Qed.

Definition shrinks {A} (m : GoM Reader A) : Prop := forall r, wlp m r (fun _ r' => (available r' <= available r)%nat).

Lemma shrinks_bind {A B} (m : GoM Reader A) (k : A -> GoM Reader B) : shrinks m -> (forall a, shrinks (k a)) -> shrinks (m ≫= k).
Proof.
  intros Hm Hk r. apply wlp_bind. eapply wlp_mono; [apply Hm|]. intros a r' Hr. eapply wlp_mono; [apply Hk|]. intros b r2 H2. cbn beta in *. lia.
Qed.

Lemma shrinks_ret {A} (a : A) : shrinks (mret a).
Proof. intros r. unfold wlp. cbn. lia. Qed.

Lemma shrinks_ReadByte : shrinks ReadByte.
Proof. intros [[|c u] l]; unfold wlp, ReadByte, available; cbn; [lia|]. destruct l; lia. Qed.

Lemma shrinks_UnreadByte : shrinks UnreadByte.
Proof. intros [u [c|]]; unfold wlp, UnreadByte, available; cbn; lia. Qed.

Lemma shrinks_overflow {A} p : shrinks (glift (Panicked p) : GoM Reader A).
Proof. by intros r. Qed.

Create HintDb shrinks.
#[export] Hint Resolve shrinks_bind shrinks_ret shrinks_ReadByte shrinks_UnreadByte shrinks_overflow : shrinks.

Ltac solve_shrinks := repeat (apply shrinks_bind; [by auto with shrinks|intros]); repeat case_match; auto with shrinks.

Lemma shrinks_peek : shrinks peek.
Proof. unfold peek. apply shrinks_bind; [apply shrinks_ReadByte|]. intros [c|]; solve_shrinks. Qed.
#[export] Hint Resolve shrinks_peek : shrinks.

Lemma shrinks_ReadWhitespace : shrinks ReadWhitespace.
Proof.
  assert (forall n, shrinks (skipLoop n)) as Hl by (induction n; cbn [skipLoop]; solve_shrinks).
  intros r. apply Hl.
Qed.

Lemma shrinks_ReadDataUntil until : shrinks (ReadDataUntil until).
Proof.
  assert (forall n acc, shrinks (dataLoop n until acc)) as Hl by (induction n; intros acc; cbn [dataLoop]; solve_shrinks).
  intros r. apply Hl.
Qed.
#[export] Hint Resolve shrinks_ReadWhitespace shrinks_ReadDataUntil : shrinks.

Lemma shrinks_expect c : shrinks (expect c).
Proof. unfold expect. do 2 (apply shrinks_bind; [by auto with shrinks|intros]). case_bool_decide; solve_shrinks. Qed.
#[export] Hint Resolve shrinks_expect : shrinks.

Lemma shrinks_ReadString : shrinks ReadString.
Proof. unfold ReadString, ReadStringStart, ReadStringEnd. solve_shrinks. Qed.

Lemma shrinks_ReadBigNum : shrinks ReadBigNum.
Proof. unfold ReadBigNum, ReadBigNumStart, ReadBigNumEnd. solve_shrinks. Qed.

Lemma shrinks_ReadSymbol : shrinks ReadSymbol.
Proof. unfold ReadSymbol. solve_shrinks. Qed.
#[export] Hint Resolve shrinks_ReadString shrinks_ReadBigNum shrinks_ReadSymbol : shrinks.

Lemma shrinks_values d : shrinks (ReadValue d) /\ shrinks (ReadList d) /\ shrinks (ReadListItem d).
Proof.
  induction d as [|d (IHv & IHl & IHi)]; [split_and!; apply shrinks_overflow|].
  split_and!; cbn [ReadValue ReadList ReadListItem]; unfold ReadListStart, ReadListEnd; solve_shrinks.
Qed.

Lemma peek_unread r : wp peek r (fun _ r' => unread r' = unread r).
Proof. by destruct r as [[|c u] l]. Qed.

Lemma ReadWhitespace_unread r : wlp ReadWhitespace r (fun _ r' => (length (unread r') <= length (unread r))%nat).
Proof.
  enough (forall n r, wlp (skipLoop n) r (fun _ r' => (length (unread r') <= length (unread r))%nat)) as H by apply H.
  clear r. induction n as [|n IH]; intros r; cbn [skipLoop]; destruct (wp_inv _ _ _ (peek_unread r)) as (c & r1 & Hp & E);
    unfold wlp; step_done Hp; rewrite <- E; (destruct c as [c|]; [|cbn; lia]); [cbn; lia|].
  destruct (isWhitespace c); [|cbn; lia]. destruct r1 as [[|x u] l1]; [apply IH|]. eapply wlp_mono; [apply (IH (ReaderAt u (Some x)))|].
  cbn. lia.
Qed.

(** What [expect] finds is consumed. *)
Lemma expect_consumes c r : wlp (expect c) r (fun found r' => found = true -> (length (unread r') < length (unread r))%nat).
Proof.
  unfold expect. apply wlp_bind. eapply wlp_mono; [apply ReadWhitespace_unread|]. intros _ [[|x u] l] Hr; cbn [unread length] in Hr.
  - assert (ReadByte (ReaderAt [] l) = Done (None, ReaderAt [] l)) as Hb by done. unfold wlp. step_done Hb.
    rewrite (bool_decide_false (None = Some c)) by done. by destruct (bool_decide _); [destruct l|].
  - assert (ReadByte (ReaderAt (x :: u) l) = Done (Some x, ReaderAt u (Some x))) as Hb by done. unfold wlp. step_done Hb.
    destruct (decide (x = c)) as [->|Hne].
    + rewrite (bool_decide_false (default Byte.x00 (Some c) <> c)) by (intros Hn; by apply Hn). cbn. intros _. cbn [unread]. lia.
    + rewrite (bool_decide_true (default Byte.x00 (Some x) <> c)), (bool_decide_false (Some x = Some c)) by (congruence || done). done.
Qed.

(** ** Lists cut short *)

(** The bytes that open something. *)
Definition opening (c : byte) : bool := (b2z c =? 40) || (b2z c =? 34) || (b2z c =? 35).

Lemma opening_cases c : opening c = true -> c = z2b 40 \/ c = z2b 34 \/ c = z2b 35.
Proof.
  unfold opening. rewrite !orb_true_iff, !Z.eqb_eq. intros [[E|E]|E]; [left|right; left|right; right]; rewrite <- E; by rewrite z2b_b2z.
Qed.

(** The closing byte is missing, so [expect] puts the opening byte back, and it
    is read again. *)
Lemma ReadValue_opening c depth l : opening c = true ->
  ReadValue depth (ReaderAt [c] l) = Panicked StackOverflow \/
  ReadValue depth (ReaderAt [c] l) = Done ((None, false), ReaderAt [c] None).
Proof.
  intros [->|[->| ->]]%opening_cases; do 4 (destruct depth as [|depth]; [auto|]); auto.
Qed.

Lemma ReadListItem_opening c ws depth l : opening c = true -> all_white ws ->
  ReadListItem depth (ReaderAt (ws ++ [c]) l) = Panicked StackOverflow.
Proof.
  intros Hc Hws. assert (isWhitespace c = false) as Hw by (by destruct (opening_cases c Hc) as [->|[->| ->]]).
  revert ws l Hws. induction depth as [|depth IH]; intros ws l Hws; [done|]. cbn [ReadListItem].
  step_done (ReadWhitespace_run ws c [] l Hws Hw). destruct (ReadValue_opening c depth None Hc) as [E|E].
  - by rewrite (bind_panicked _ _ _ _ E).
  - step_done E. cbn [snd fst]. by rewrite (bind_panicked _ _ _ _ (IH [] None (Forall_nil_2 _))).
Qed.

Lemma unclosed_items t v : writes_items t v -> forall c depth l, opening c = true ->
  ReadListItem depth (ReaderAt (t ++ [z2b 32; c]) l) = Panicked StackOverflow.
Proof.
  induction 1 as [ws Hws|ws t v t' vs Hws Hw Hd Hi IH]; intros c depth l Hc.
  - rewrite (cons_middle (z2b 32) ws [c]), app_assoc. apply ReadListItem_opening; [done|]. apply Forall_app. split; [done|by repeat constructor].
  - destruct depth as [|depth]; [done|]. destruct (writes_head t v Hw) as (x & t1 & Et & Hx). cbn [ReadListItem].
    assert ((ws ++ t ++ t') ++ [z2b 32; c] = ws ++ x :: (t1 ++ t' ++ [z2b 32; c])) as -> by (rewrite Et; simplify_list_eq; done).
    step_done (ReadWhitespace_run ws x (t1 ++ t' ++ [z2b 32; c]) l Hws Hx).
    assert (x :: t1 ++ t' ++ [z2b 32; c] = ([] ++ t) ++ t' ++ [z2b 32; c]) as -> by (rewrite Et; simplify_list_eq; done).
    destruct (ReadValue_writes_cut t v depth [] (t' ++ [z2b 32; c]) None Hw) as [E|[l' E]]; [constructor| |by rewrite (bind_panicked _ _ _ _ E)|].
    + intros Hs. specialize (Hd Hs). by destruct t'.
    + step_done E. cbn [snd fst]. by rewrite (bind_panicked _ _ _ _ (IH c depth l' Hc)).
Qed.

(** ** The properties *)

(** C26: every text of the grammar is read as the value it denotes and nothing
    after it is consumed, with a stack linear in the length of the text: lists,
    strings, numbers and symbols, with any white space between them. *)
Theorem Read_grammar t v depth ws rest l : writes t v -> (2 * length t < depth)%nat -> all_white ws ->
  (is_symbol v = true -> delimited rest = true) ->
  exists l', Read depth (ReaderAt ((ws ++ t) ++ rest) l) = Done (Some v, ReaderAt rest l').
Proof.
  intros Hw Hd Hws Hr. destruct (ReadValue_writes t v Hw depth ws rest Hd Hws Hr l) as [l' E]. exists l'. unfold Read. by step_done E.
Qed.

(** A list that is cut off after a parenthesis, a quote or a number sign
    overflows the stack, however large it is: the byte is put back when its
    closing counterpart is missing and is read again for the next item. *)
Theorem Read_unclosed_overflows t v c depth l : writes_items t v -> opening c = true ->
  Read depth (ReaderAt ([z2b 40] ++ t ++ [z2b 32; c]) l) = Panicked StackOverflow.
Proof.
  intros Hi Hc. unfold Read. apply bind_panicked. do 2 (destruct depth as [|depth]; [done|]). cbn [ReadValue app].
  assert (ReadWhitespace (ReaderAt (z2b 40 :: t ++ [z2b 32; c]) l) = Done (tt, ReaderAt (z2b 40 :: t ++ [z2b 32; c]) None)) as Hws
    by (by apply (ReadWhitespace_run []); [constructor|]).
  step_done Hws. step_done (peek_cons (z2b 40) (t ++ [z2b 32; c]) None). change (b2z (z2b 40) =? 40) with true. cbv iota.
  apply bind_panicked. cbn [ReadList].
  assert (ReadWhitespace (ReaderAt (z2b 40 :: t ++ [z2b 32; c]) None) = Done (tt, ReaderAt (z2b 40 :: t ++ [z2b 32; c]) None)) as Hws'
    by (by apply (ReadWhitespace_run []); [constructor|]).
  step_done Hws'. destruct (expect_here (z2b 40) (t ++ [z2b 32; c]) eq_refl None) as [l' Hs]. cbn [app] in Hs. unfold ReadListStart.
  step_done Hs. cbn [negb]. apply bind_panicked. by eapply unclosed_items.
Qed.

(** The text [(a ( #1F# Z ) )] and its value. *)
Definition example_text : list byte := bs "(a (#1F# Z) )".

Definition example_value : Value :=
  SList [Some (Symbol (bs "a")); Some (SList [Some (BigNum (Some 31)); Some (Symbol (bs "Z"))])].

Lemma example_writes : writes example_text example_value.
Proof.
  apply (writes_list (bs "a (#1F# Z) ")).
  apply (items_cons [] (bs "a") _ (bs " (#1F# Z) ")); [constructor|by apply writes_symbol|done|].
  apply (items_cons (bs " ") (bs "(#1F# Z)") _ (bs " ")); [by repeat constructor| |done|apply items_nil; by repeat constructor].
  apply (writes_list (bs "#1F# Z")).
  apply (items_cons [] (bs "#1F#") (BigNum (Some 31)) (bs " Z")); [constructor| |done|].
  - apply (writes_bignum (bs "1F")), (bool_decide_unpack _). vm_compute. done.
  - apply (items_cons (bs " ") (bs "Z") _ []); [by repeat constructor|by apply writes_symbol|done|apply items_nil; constructor].
Qed.

Lemma Read_grammar_witness : exists l', Read 40 (ReaderAt (([] ++ example_text) ++ bs "(rest") None) = Done (Some example_value, ReaderAt (bs "(rest") l').
Proof.
  apply Read_grammar; [exact example_writes|vm_compute; lia|constructor|discriminate].
Defined.

Lemma Read_unclosed_overflows_witness : Read 1000 (ReaderAt ([z2b 40] ++ bs "a" ++ [z2b 32; z2b 35]) None) = Panicked StackOverflow.
Proof.
  apply (Read_unclosed_overflows (bs "a") (SList [Some (Symbol (bs "a"))])); [|reflexivity].
  apply (items_cons [] (bs "a") _ []); [constructor|by apply writes_symbol|done|apply items_nil; constructor].
Defined.
