(* ===== verification/KeyFile.v ===== *)
(** * Key files: the import and export of keys.go

    The accounts of a libotr key file as S-expressions, read with [Sexp] and
    written as text; [DSAPrivateKey.Import], which scans for the numbers of a
    key without reading the expression; and [GenerateMissingKeys].  The loop
    over the accounts of a file runs at most [memory] times, the accounts there
    is room for; a key read from a file is allocated at the next unused address. *)

From Stdlib Require Import Zpow_facts.
From S2P Require Import Prelude GoLib Gotrax Policy Crypto KeyManagement Keys Sexp.

(** The account of a key. *)
Record Account := AccountOf { Name : list byte; Protocol : list byte; Key : PrivateKey }.

(** ** Export: what is written *)

Definition exportName (n : list byte) : list byte :=
  bs "    " ++ (bs "(name " ++ [z2b 34]) ++ n ++ ([z2b 34] ++ bs ")" ++ [z2b 10]).

Definition exportProtocol (n : list byte) : list byte :=
  bs "    " ++ bs "(protocol " ++ n ++ (bs ")" ++ [z2b 10]).

Definition exportParameter (name : list byte) (val : option Z) : list byte :=
  bs "        " ++ (bs "(" ++ name ++ bs " #" ++ formatX val ++ bs "#)" ++ [z2b 10]).

Definition exportDSAPrivateKey (key : PrivateKey) : list byte :=
  let k := sk_PrivateKey key in
  bs "      " ++ (bs "(dsa" ++ [z2b 10]) ++
  exportParameter (bs "p") (dsa_P (dsa_pub k)) ++ exportParameter (bs "q") (dsa_Q (dsa_pub k)) ++
  exportParameter (bs "g") (dsa_G (dsa_pub k)) ++ exportParameter (bs "y") (dsa_Y (dsa_pub k)) ++
  exportParameter (bs "x") (dsa_X k) ++
  bs "      " ++ (bs ")" ++ [z2b 10]).

Definition exportPrivateKey (key : PrivateKey) : list byte :=
  bs "    " ++ (bs "(private-key" ++ [z2b 10]) ++ exportDSAPrivateKey key ++ bs "    " ++ (bs ")" ++ [z2b 10]).

Definition exportAccount (a : Account) : list byte :=
  bs "  " ++ (bs "(account" ++ [z2b 10]) ++ exportName (Name a) ++ exportProtocol (Protocol a) ++
  exportPrivateKey (Key a) ++ bs "  " ++ (bs ")" ++ [z2b 10]).

Definition exportAccounts (acs : list Account) : list byte :=
  (bs "(privkeys" ++ [z2b 10]) ++ concat (map exportAccount acs) ++ (bs ")" ++ [z2b 10]).

(** ** Import *)

Section Reading.
Variable depth : nat.

Definition readPotentialSymbol : GoM Reader (list byte * bool) :=
  res ← ReadValue depth;
  mret (match fst res with Some (Symbol s) => (s, true) | _ => ([], false) end).

Definition readSymbolAndExpect (s : list byte) : GoM Reader bool :=
  res ← readPotentialSymbol;
  mret (snd res && bool_decide (fst res = s)).

Definition readPotentialBigNum : GoM Reader (option Z * bool) :=
  res ← ReadValue depth;
  mret (match fst res with Some (BigNum val) => (val, true) | _ => (None, false) end).

Definition readPotentialString : GoM Reader (list byte * bool) :=
  res ← ReadValue depth;
  mret (match fst res with Some (Sstring s) => (s, true) | _ => ([], false) end).

Definition readPotentialStringOrSymbol : GoM Reader (list byte * bool) :=
  res ← ReadValue depth;
  mret (match fst res with Some (Sstring s) | Some (Symbol s) => (s, true) | _ => ([], false) end).

Definition new_dsa_PrivateKey : dsa_PrivateKey := DsaPrivateKey new_dsa_PublicKey None.

Definition assignParameter (k : dsa_PrivateKey) (s : list byte) (v : option Z) : option dsa_PrivateKey :=
  if bool_decide (s = bs "g") then Some (k <| dsa_pub := (dsa_pub k) <| dsa_G := v |> |>)
  else if bool_decide (s = bs "p") then Some (k <| dsa_pub := (dsa_pub k) <| dsa_P := v |> |>)
  else if bool_decide (s = bs "q") then Some (k <| dsa_pub := (dsa_pub k) <| dsa_Q := v |> |>)
  else if bool_decide (s = bs "x") then Some (k <| dsa_X := v |>)
  else if bool_decide (s = bs "y") then Some (k <| dsa_pub := (dsa_pub k) <| dsa_Y := v |> |>)
  else None.

(** The tag, the value, whether there was no parameter, and success: without a
    closing parenthesis the parameter counts as the end, with success. *)
Definition readParameter : GoM Reader (list byte * option Z * bool * bool) :=
  start ← ReadListStart;
  if negb start then mret ([], None, true, true) else
  tag ← readPotentialSymbol;
  value ← readPotentialBigNum;
  fin ← ReadListEnd;
  if negb fin then mret ([], None, true, true)
  else mret (fst tag, fst value, false, snd tag && snd value).

(** Each round reads at least the two parentheses of a parameter: [n] is what
    is left to read. *)
Fixpoint parameterLoop (n : nat) (k : dsa_PrivateKey) : GoM Reader (option dsa_PrivateKey) :=
  p ← readParameter;
  let '(tag, value, fin, ok) := p : list byte * option Z * bool * bool in
  if negb ok then mret None
  else if fin then mret (Some k)
  else match assignParameter k tag value, n with
       | Some k', S n' => parameterLoop n' k'
       | _, _ => mret None
       end.

Definition readDSAPrivateKey : GoM Reader (option dsa_PrivateKey * bool) :=
  _ ← ReadListStart;
  ok1 ← readSymbolAndExpect (bs "dsa");
  r ← gget;
  k ← parameterLoop (length (unread r)) new_dsa_PrivateKey;
  match k with
  | None => mret (None, false)
  | Some k => ok2 ← ReadListEnd; mret (Some k, ok1 && ok2)
  end.

Definition readPrivateKey (addr : Z) : GoM Reader (PrivateKey * bool) :=
  _ ← ReadListStart;
  ok1 ← readSymbolAndExpect (bs "private-key");
  res ← readDSAPrivateKey;
  let k := match res with
           | (Some key, true) => PrivateKeyAt addr (dsa_pub key) key
           | _ => PrivateKeyAt addr new_dsa_PublicKey new_dsa_PrivateKey
           end in
  ok3 ← ReadListEnd;
  mret (k, ok1 && snd res && ok3).

Definition readAccountName : GoM Reader (list byte * bool) :=
  _ ← ReadListStart;
  ok1 ← readSymbolAndExpect (bs "name");
  nm ← readPotentialStringOrSymbol;
  ok3 ← ReadListEnd;
  mret (fst nm, ok1 && snd nm && ok3).

Definition readAccountProtocol : GoM Reader (list byte * bool) :=
  _ ← ReadListStart;
  ok1 ← readSymbolAndExpect (bs "protocol");
  nm ← readPotentialSymbol;
  ok3 ← ReadListEnd;
  mret (fst nm, ok1 && snd nm && ok3).

(** The account, success, and whether there was none. *)
Definition readAccount (addr : Z) : GoM Reader (option Account * bool * bool) :=
  start ← ReadListStart;
  if negb start then mret (None, true, true) else
  ok1 ← readSymbolAndExpect (bs "account");
  name ← readAccountName;
  protocol ← readAccountProtocol;
  key ← readPrivateKey addr;
  ok5 ← ReadListEnd;
  mret (Some (AccountOf (fst name) (fst protocol) (fst key)), ok1 && snd name && snd protocol && snd key && ok5, false).

Fixpoint accountLoop (memory : nat) (addr : Z) (ok2 : bool) (acs : list Account) : GoM Reader (list Account * bool) :=
  a ← readAccount addr;
  let '(a, ok, atEnd) := a : option Account * bool * bool in
  match a, atEnd with
  | Some a, false =>
      match memory with
      | O => glift (Panicked OutOfMemory)
      | S memory' => accountLoop memory' (addr + 1) (ok2 && ok) (acs ++ [a])
      end
  | _, _ => mret (acs, ok2 && ok)
  end.

Definition readAccounts (memory : nat) (addr : Z) : GoM Reader (list Account * bool) :=
  _ ← ReadListStart;
  ok1 ← readSymbolAndExpect (bs "privkeys");
  acs ← accountLoop memory addr true [];
  ok3 ← ReadListEnd;
  mret (fst acs, ok1 && snd acs && ok3).

Definition ImportKeys (memory : nat) (addr : Z) (inp : list byte) : go (result (list Account)) :=
  res ← readAccounts memory addr (ReaderAt inp None);
  let '(acs, ok) := fst res : list Account * bool in
  mret (if negb ok then Err (newOtrError "couldn't import data into private key") else Ok acs).

End Reading.

(** ** [DSAPrivateKey.Import] *)

Definition notHex (r : byte) : bool :=
  let z := b2z r in
  negb ((48 <=? z) && (z <=? 57) || (97 <=? z) && (z <=? 102) || (65 <=? z) && (z <=? 70)).

(** [bytes.IndexFunc] for a predicate that holds of every byte from 128 on: the
    bytes of a longer character are no hexadecimal digits either. *)
Fixpoint IndexFunc (s : list byte) (f : byte -> bool) : Z :=
  match s with
  | [] => -1
  | c :: s' => if f c then 0 else let r := IndexFunc s' f in if r =? -1 then -1 else r + 1
  end.

(** [hex.Decode] of an even number of digits. *)
Fixpoint hexDecode (s : list byte) : option (list byte) :=
  match s with
  | a :: b :: s' => x ← char_digit a; y ← char_digit b; r ← hexDecode s'; Some (z2b (16 * x + y) :: r)
  | [] => Some []
  | [_] => None
  end.

(** One round of the loop: the number after the next mark, and the rest. *)
Definition importMPI (inp : list byte) : option (Z * list byte) :=
  let mpiStart := bs " #" in
  let start := Index inp mpiStart in
  if start =? -1 then None else
  let inp := drop (Z.to_nat (start + len mpiStart)) inp in
  let fin := IndexFunc inp notHex in
  if fin =? -1 then None else
  let hexBytes := take (Z.to_nat fin) inp in
  let inp := drop (Z.to_nat fin) inp in
  if negb (Z.land (len hexBytes) 1 =? 0) then None else
  mpiBytes ← hexDecode hexBytes; Some (SetBytes mpiBytes, inp).

(** [big.Int.Exp] for a non-negative exponent. *)
Definition Exp (x y m : Z) : Z := if m =? 0 then x ^ y else Zpow_mod x y m.

(** [Import]: the key as it is afterwards, and success. *)
Definition DSAPrivateKey_Import (priv : PrivateKey) (inp : list byte) : PrivateKey * bool :=
  match
    pi ← importMPI inp; qi ← importMPI (snd pi); gi ← importMPI (snd qi); yi ← importMPI (snd gi); xi ← importMPI (snd yi);
    Some (fst pi, fst qi, fst gi, fst yi, fst xi)
  with
  | None => (priv, false)
  | Some (p, q, g, y, x) =>
      let pub := DsaPublicKey (Some p) (Some q) (Some g) (Some y) in
      (PrivateKeyAt (sk_addr priv) pub (DsaPrivateKey pub (Some x)), Exp g x p =? y)
  end.

(** ** [GenerateMissingKeys] *)

(** The generation of a DSA key draws from [crypto/rand]: [generated] is its outcome. *)
Definition GenerateMissingKeys (generated : result PrivateKey) (existing : list (list byte)) : result (list PrivateKey) :=
  let hasDSA := existsb (fun x => match ExtractShort x with Some (_, typeTag) => typeTag =? dsaKeyTypeValue | None => false end) existing in
  if negb hasDSA then
    match generated with Err e => Err e | Ok priv => Ok [priv] end
  else Ok [].

(** ** Numbers *)

Lemma hex_chars n c : c ∈ format_base true 16 n -> 48 <= b2z c <= 102.
Proof. intros Hc. by apply (format_chars 16 true 0 n). Qed.

Lemma hex_parse n : 0 <= n -> parse_digits 16 (format_base true 16 n) 0 = Some n.
Proof. intros. by apply (parse_digits_format 16 true 0). Qed.

Lemma hex_head n : exists c s, format_base true 16 n = c :: s /\ b2z c <> 45 /\ b2z c <> 43.
Proof.
  destruct (format_base true 16 n) as [|c s] eqn:E; [by apply (pad0_nonempty 0 16 true n) in E|].
  assert (48 <= b2z c <= 102) by (apply (hex_chars n); rewrite E; left). exists c, s. split; [done|lia].
Qed.

(** The number is read back as printed, nil included. *)
Lemma SetString16_formatX val : SetString16 (formatX val) = val.
Proof.
  destruct val as [z|]; [|done]. unfold formatX. destruct (Z.ltb_spec z 0).
  - destruct (hex_head (- z)) as (c & s & E & _). change (bs "-" ++ ?x) with (z2b 45 :: x).
    assert (forall s, s <> [] -> SetString16 (z2b 45 :: s) = (z ← parse_digits 16 s 0; Some (- z))) as -> by (by intros []).
    + rewrite hex_parse by lia. cbn. f_equal. lia.
    + by rewrite E.
  - destruct (hex_head z) as (c & s & E & H45 & H43). unfold SetString16. rewrite E.
    apply Z.eqb_neq in H45, H43. rewrite H45, H43, <- E, hex_parse by lia. done.
Qed.

Lemma formatX_no_hash val : z2b 35 ∉ formatX val.
Proof.
  assert (forall n, z2b 35 ∉ format_base true 16 n) as Hn by (intros n Hc%hex_chars; change (b2z (z2b 35)) with 35 in Hc; lia).
  destruct val as [z|]; [|apply (bool_decide_unpack _); by vm_compute]. unfold formatX. destruct (z <? 0); [|apply Hn].
  rewrite elem_of_app. intros [Hc|Hc]; [|by apply Hn in Hc]. revert Hc. apply (bool_decide_unpack _). by vm_compute.
Qed.

(** ** Progress of the loop over the parameters *)

Lemma shrinks_readPotentialSymbol depth : shrinks (readPotentialSymbol depth).
Proof. apply shrinks_bind; [apply shrinks_values|]. intros. apply shrinks_ret. Qed.

Lemma shrinks_readPotentialBigNum depth : shrinks (readPotentialBigNum depth).
Proof. apply shrinks_bind; [apply shrinks_values|]. intros. apply shrinks_ret. Qed.

Lemma readParameter_progress depth r : wlp (readParameter depth) r (fun p r' =>
  let '(_, _, fin, _) := p in fin = false -> (length (unread r') < length (unread r))%nat).
Proof.
  unfold readParameter. apply wlp_bind. eapply wlp_mono; [apply expect_consumes|]. intros start r1 H1.
  destruct start; cbn [negb]; [|by apply wlp_ret]. specialize (H1 eq_refl).
  apply wlp_bind. eapply wlp_mono; [apply shrinks_readPotentialSymbol|]. intros tag r2 H2.
  apply wlp_bind. eapply wlp_mono; [apply shrinks_readPotentialBigNum|]. intros value r3 H3.
  apply wlp_bind. eapply wlp_mono; [apply expect_consumes|]. intros fin r4 H4. cbn beta in *.
  pose proof (available_bounds r1). pose proof (available_bounds r3). destruct fin; cbn [negb]; apply wlp_ret; [|done].
  intros _. specialize (H4 eq_refl). lia.
Qed.

(** The bound of the loop is enough: a larger one gives the same answer. *)
Lemma parameterLoop_enough depth n k r : (length (unread r) <= n)%nat ->
  parameterLoop depth n k r = parameterLoop depth (S n) k r.
Proof.
  revert k r. induction n as [|n IH]; intros k r Hn; cbn [parameterLoop]; pose proof (readParameter_progress depth r) as Hp;
    unfold wlp in Hp; unfold mbind, gom_bind; destruct (readParameter depth r) as [[[[[tag value] fin] ok] r']|p]; try done;
    (destruct ok; [|done]); (destruct fin; [done|]); specialize (Hp eq_refl); cbn [negb]; destruct (assignParameter k tag value); try done.
  - lia.
  - apply IH. lia.
Qed.

(** ** Reading back what is written *)

(** Concrete white space and concrete tokens. *)
Ltac token := solve [done | repeat constructor].

Section ReadBack.
Variable depth : nat.
Abbreviation D := (S depth).

Lemma readPotentialSymbol_parses ws s rest : all_white ws -> symbol_text s = true -> delimited rest = true ->
  parses (readPotentialSymbol D) (ws ++ s) (s, true) rest.
Proof.
  intros. by apply (parses_bind_ret _ (fun res => match fst res with Some (Symbol s) => (s, true) | _ => ([], false) end) _ (Some (Symbol s), false)), ReadValue_symbol.
Qed.

Lemma readSymbolAndExpect_parses ws s rest : all_white ws -> symbol_text s = true -> delimited rest = true ->
  parses (readSymbolAndExpect D s) (ws ++ s) true rest.
Proof.
  intros Hws Hs Hd. pose proof (parses_bind_ret _ (fun res => snd res && bool_decide (fst res = s)) _ _ _ (readPotentialSymbol_parses ws s rest Hws Hs Hd)) as Hp.
  cbn [fst snd andb] in Hp. by rewrite bool_decide_true in Hp.
Qed.

Lemma readPotentialBigNum_parses ws val rest : all_white ws ->
  parses (readPotentialBigNum D) (ws ++ [z2b 35] ++ formatX val ++ [z2b 35]) (val, true) rest.
Proof.
  intros Hws. pose proof (parses_bind_ret _ (fun res => match fst res with Some (BigNum val) => (val, true) | _ => (None, false) end) _ _ _
    (ReadValue_bignum depth ws (formatX val) rest Hws (formatX_no_hash val))) as Hp.
  cbn [fst NewBigNum] in Hp. by rewrite SetString16_formatX in Hp.
Qed.

Lemma readPotentialString_parses ws s rest : all_white ws -> z2b 34 ∉ s ->
  parses (readPotentialStringOrSymbol D) (ws ++ [z2b 34] ++ s ++ [z2b 34]) (s, true) rest.
Proof.
  intros. by apply (parses_bind_ret _ (fun res => match fst res with Some (Sstring s) | Some (Symbol s) => (s, true) | _ => ([], false) end) _ (Some (Sstring s), false)), ReadValue_string.
Qed.

Lemma ReadListStart_parses ws rest : all_white ws -> parses ReadListStart (ws ++ [z2b 40]) true rest.
Proof. intros. by apply expect_yes. Qed.

Lemma ReadListEnd_parses ws rest : all_white ws -> parses ReadListEnd (ws ++ [z2b 41]) true rest.
Proof. intros. by apply expect_yes. Qed.

(** A parameter after the white space [ws]. *)
Definition parameter_text (tag : list byte) (val : option Z) : list byte :=
  [z2b 40] ++ tag ++ bs " " ++ [z2b 35] ++ formatX val ++ [z2b 35] ++ [z2b 41].

Lemma readParameter_parses ws tag val rest : all_white ws -> symbol_text tag = true ->
  parses (readParameter D) (ws ++ parameter_text tag val) (tag, val, false, true) rest.
Proof.
  intros Hws Ht. unfold readParameter, parameter_text. rewrite app_assoc.
  eapply parses_bind; [by apply ReadListStart_parses|]. cbn [negb].
  eapply parses_bind; [apply (readPotentialSymbol_parses []); token|].
  rewrite !app_assoc, <- (app_assoc (bs " ")), <- (app_assoc (bs " ")). cbn [fst snd].
  eapply parses_bind; [apply (readPotentialBigNum_parses (bs " ")); token|].
  apply (parses_bind _ _ [z2b 41] true []); [apply (ReadListEnd_parses []); token|]. apply parses_ret.
Qed.
Lemma parameterLoop_step n k ws tag val k' t r rest : all_white ws -> symbol_text tag = true ->
  assignParameter k tag val = Some k' -> parses (parameterLoop D n k') t r rest ->
  parses (parameterLoop D (S n) k) ((ws ++ parameter_text tag val) ++ t) r rest.
Proof.
  intros Hws Ht Ha Hl. eapply parses_bind; [by apply readParameter_parses|]. cbn [negb]. by rewrite Ha.
Qed.

Lemma parameterLoop_end n k ws rest : all_white ws -> parses (parameterLoop D n k) ws (Some k) (z2b 41 :: rest).
Proof.
  intros Hws. assert (parses (readParameter D) ws ([], None, true, true) (z2b 41 :: rest)) as Hp.
  { rewrite <- (app_nil_r ws). eapply parses_bind; [by apply expect_no|]. apply parses_ret. }
  destruct n; cbn [parameterLoop]; rewrite <- (app_nil_r ws); (eapply parses_bind; [exact Hp|]); apply parses_ret.
Qed.

Lemma parses_unread {A} (f : nat -> GoM Reader A) text a rest :
  (forall n, (length text <= n)%nat -> parses (f n) text a rest) -> parses (gget ≫= (fun r => f (length (unread r)))) text a rest.
Proof.
  intros Hf l. destruct (Hf (length (text ++ rest)) ltac:(rewrite length_app; lia) l) as [l' E]. exists l'. by step_state.
Qed.

Definition line_start (n : nat) : list byte := z2b 10 :: replicate n (z2b 32).

Lemma line_white n : all_white (line_start n).
Proof. constructor; [done|]. by apply Forall_replicate. Qed.

(** The expression of a key between its parentheses. *)
Definition dsa_text (k : dsa_PrivateKey) : list byte :=
  [z2b 40] ++ bs "dsa" ++ ((line_start 8 ++ parameter_text (bs "p") (dsa_P (dsa_pub k))) ++
  (line_start 8 ++ parameter_text (bs "q") (dsa_Q (dsa_pub k))) ++ (line_start 8 ++ parameter_text (bs "g") (dsa_G (dsa_pub k))) ++
  (line_start 8 ++ parameter_text (bs "y") (dsa_Y (dsa_pub k))) ++ (line_start 8 ++ parameter_text (bs "x") (dsa_X k)) ++ line_start 6) ++ [z2b 41].

Lemma readDSAPrivateKey_parses ws k rest : all_white ws -> parses (readDSAPrivateKey D) (ws ++ dsa_text k) (Some k, true) rest.
Proof.
  intros Hws. unfold readDSAPrivateKey, dsa_text. rewrite app_assoc. eapply parses_bind; [by apply ReadListStart_parses|].
  eapply parses_bind; [apply (readSymbolAndExpect_parses []); token|].
  apply (parses_unread (fun n => k ← parameterLoop D n new_dsa_PrivateKey;
    match k with None => mret (None, false) | Some k => ok2 ← ReadListEnd; mret (Some k, true && ok2) end)).
  intros n Hn. rewrite !length_app in Hn. do 5 (destruct n as [|n]; [cbn in Hn; lia|]). clear Hn.
  apply (parses_bind _ _ _ (Some k)).
  - destruct k as [[p q g y] x]. cbn [dsa_pub dsa_P dsa_Q dsa_G dsa_Y dsa_X].
    do 5 (eapply parameterLoop_step; [apply line_white|token|reflexivity|]). apply parameterLoop_end, line_white.
  - apply (parses_bind_ret _ (fun ok2 => (Some k, true && ok2)) _ true). apply (ReadListEnd_parses []). token.
Qed.

Definition key_text (k : dsa_PrivateKey) : list byte :=
  [z2b 40] ++ bs "private-key" ++ (line_start 6 ++ dsa_text k) ++ line_start 4 ++ [z2b 41].

Lemma readPrivateKey_parses addr ws k rest : all_white ws ->
  parses (readPrivateKey D addr) (ws ++ key_text k) (PrivateKeyAt addr (dsa_pub k) k, true) rest.
Proof.
  intros Hws. unfold readPrivateKey, key_text. rewrite app_assoc. eapply parses_bind; [by apply ReadListStart_parses|].
  eapply parses_bind; [apply (readSymbolAndExpect_parses []); token|].
  eapply parses_bind; [apply readDSAPrivateKey_parses, line_white|]. cbv iota beta. cbn [snd].
  apply (parses_bind_ret _ (fun ok3 => (PrivateKeyAt addr (dsa_pub k) k, true && true && ok3)) _ true), ReadListEnd_parses, line_white.
Qed.

Definition name_text (n : list byte) : list byte :=
  [z2b 40] ++ bs "name" ++ (bs " " ++ [z2b 34] ++ n ++ [z2b 34]) ++ [z2b 41].
Definition protocol_text (n : list byte) : list byte := [z2b 40] ++ bs "protocol" ++ (bs " " ++ n) ++ [z2b 41].

Lemma readAccountName_parses ws n rest : all_white ws -> z2b 34 ∉ n -> parses (readAccountName D) (ws ++ name_text n) (n, true) rest.
Proof.
  intros Hws Hn. unfold readAccountName, name_text. rewrite app_assoc. eapply parses_bind; [by apply ReadListStart_parses|].
  eapply parses_bind; [apply (readSymbolAndExpect_parses []); token|].
  eapply parses_bind; [apply readPotentialString_parses; [token|done]|]. cbn [fst snd].
  apply (parses_bind_ret _ (fun ok3 => (n, true && true && ok3)) _ true), (ReadListEnd_parses []). token.
Qed.

Lemma readAccountProtocol_parses ws n rest : all_white ws -> symbol_text n = true ->
  parses (readAccountProtocol D) (ws ++ protocol_text n) (n, true) rest.
Proof.
  intros Hws Hn. unfold readAccountProtocol, protocol_text. rewrite app_assoc. eapply parses_bind; [by apply ReadListStart_parses|].
  eapply parses_bind; [apply (readSymbolAndExpect_parses []); token|].
  eapply parses_bind; [apply (readPotentialSymbol_parses (bs " ")); [token|done|token]|]. cbn [fst snd].
  apply (parses_bind_ret _ (fun ok3 => (n, true && true && ok3)) _ true), (ReadListEnd_parses []). token.
Qed.

Definition account_text (a : Account) : list byte :=
  [z2b 40] ++ bs "account" ++ (line_start 4 ++ name_text (Name a)) ++ (line_start 4 ++ protocol_text (Protocol a)) ++
  (line_start 4 ++ key_text (sk_PrivateKey (Key a))) ++ line_start 2 ++ [z2b 41].

(** What can be read back: the name has no quote and the protocol is a symbol. *)
Definition exportable (a : Account) : Prop := (z2b 34 ∉ Name a) /\ symbol_text (Protocol a) = true.

(** The account as it is read: its key is a new one with the same numbers. *)
Definition imported (addr : Z) (a : Account) : Account :=
  AccountOf (Name a) (Protocol a) (PrivateKeyAt addr (dsa_pub (sk_PrivateKey (Key a))) (sk_PrivateKey (Key a))).

Lemma readAccount_parses addr ws a rest : all_white ws -> exportable a ->
  parses (readAccount D addr) (ws ++ account_text a) (Some (imported addr a), true, false) rest.
Proof.
  intros Hws [Hn Hp]. unfold readAccount, account_text. rewrite app_assoc. eapply parses_bind; [by apply ReadListStart_parses|]. cbn [negb].
  eapply parses_bind; [apply (readSymbolAndExpect_parses []); token|].
  eapply parses_bind; [by apply readAccountName_parses; [apply line_white|]|].
  eapply parses_bind; [by apply readAccountProtocol_parses; [apply line_white|]|].
  eapply parses_bind; [apply readPrivateKey_parses, line_white|]. cbn [fst snd].
  apply (parses_bind_ret _ (fun ok5 => (Some (imported addr a), true && true && true && true && ok5, false)) _ true), ReadListEnd_parses, line_white.
Qed.

Lemma exportAccount_text a : exportAccount a = bs "  " ++ account_text a ++ [z2b 10].
Proof.
  unfold exportAccount, exportName, exportProtocol, exportPrivateKey, exportDSAPrivateKey, exportParameter, account_text, name_text, protocol_text, key_text,
    dsa_text, parameter_text, line_start. by simplify_list_eq.
Qed.

(** ** Whole files *)

(** The accounts of a file that starts where a line ends. *)
Definition accounts_text (acs : list Account) : list byte := concat (map (fun a => line_start 2 ++ account_text a) acs).

Lemma exportAccounts_text acs : exportAccounts acs = [z2b 40] ++ bs "privkeys" ++ accounts_text acs ++ line_start 0 ++ [z2b 41] ++ [z2b 10].
Proof.
  assert (forall l, [z2b 10] ++ concat (map exportAccount acs) ++ l = accounts_text acs ++ [z2b 10] ++ l) as Hl.
  { unfold accounts_text. induction acs as [|a acs IH]; intros l; [done|]. cbn [map concat]. rewrite exportAccount_text.
    rewrite <- !app_assoc, IH. done. }
  unfold exportAccounts. pose proof (Hl (bs ")" ++ [z2b 10])) as E. simplify_list_eq. rewrite E. done.
Qed.

Fixpoint imported_all (addr : Z) (acs : list Account) : list Account :=
  match acs with [] => [] | a :: acs' => imported addr a :: imported_all (addr + 1) acs' end.

Lemma accountLoop_step memory addr acs a t r rest : exportable a ->
  parses (accountLoop D memory (addr + 1) true (acs ++ [imported addr a])) t r rest ->
  parses (accountLoop D (S memory) addr true acs) ((line_start 2 ++ account_text a) ++ t) r rest.
Proof. intros Ha Ht. eapply parses_bind; [apply readAccount_parses; [apply line_white|done]|]. exact Ht. Qed.

Lemma accountLoop_end memory addr acs rest : parses (accountLoop D memory addr true acs) (line_start 0) (acs, true) (z2b 41 :: rest).
Proof.
  assert (parses (readAccount D addr) (line_start 0) (None, true, true) (z2b 41 :: rest)) as Hp.
  { rewrite <- (app_nil_r (line_start 0)). eapply parses_bind; [apply expect_no; [apply line_white|done|done]|]. apply parses_ret. }
  destruct memory; cbn [accountLoop]; rewrite <- (app_nil_r (line_start 0)); (eapply parses_bind; [exact Hp|]); apply parses_ret.
Qed.

Lemma accountLoop_parses memory addr acs acs' rest : Forall exportable acs' -> (length acs' <= memory)%nat ->
  parses (accountLoop D memory addr true acs) (accounts_text acs' ++ line_start 0) (acs ++ imported_all addr acs', true) (z2b 41 :: rest).
Proof.
  intros Hf. revert memory addr acs. induction Hf as [|a acs' Ha _ IH]; intros memory addr acs Hm.
  - cbn [imported_all]. rewrite app_nil_r. apply accountLoop_end.
  - cbn [length] in Hm. destruct memory as [|memory]; [lia|]. unfold accounts_text. cbn [map concat]. rewrite <- (app_assoc (line_start 2 ++ _)).
    apply accountLoop_step; [done|]. cbn [imported_all]. rewrite (cons_middle (imported addr a) acs (imported_all _ _)), app_assoc. apply IH. lia.
Qed.

Lemma readAccounts_parses memory addr acs : Forall exportable acs -> (length acs <= memory)%nat ->
  parses (readAccounts D memory addr) ([z2b 40] ++ bs "privkeys" ++ (accounts_text acs ++ line_start 0) ++ [z2b 41]) (imported_all addr acs, true) [z2b 10].
Proof.
  intros Hf Hm. eapply parses_bind; [apply (ReadListStart_parses []); token|].
  eapply parses_bind; [apply (readSymbolAndExpect_parses []); [token|token|by destruct acs]|].
  eapply parses_bind; [by apply accountLoop_parses|]. cbn [fst snd app].
  apply (parses_bind_ret _ (fun ok3 => (imported_all addr acs, true && true && ok3)) _ true), (ReadListEnd_parses []). token.
Qed.

End ReadBack.

(** ** Files cut short *)

(** The reader is left with an opening parenthesis that is put back again and again. *)
Lemma readAccount_opening depth addr l : (4 <= depth)%nat ->
  exists a, readAccount depth addr (ReaderAt [z2b 40] l) = Done ((Some a, false, false), ReaderAt [z2b 40] None).
Proof. intros Hd. do 4 (destruct depth as [|depth]; [lia|]). eexists. reflexivity. Qed.

Lemma accountLoop_opening depth memory addr ok acs l : (4 <= depth)%nat ->
  accountLoop depth memory addr ok acs (ReaderAt [z2b 40] l) = Panicked OutOfMemory.
Proof.
  intros Hd. revert addr ok acs l. induction memory as [|memory IH]; intros addr ok acs l; cbn [accountLoop];
    destruct (readAccount_opening depth addr l Hd) as [a E]; step_done E; [done|apply IH].
Qed.

Lemma readAccount_white depth addr ws l : all_white ws ->
  readAccount depth addr (ReaderAt (ws ++ [z2b 40]) l) = readAccount depth addr (ReaderAt [z2b 40] l).
Proof.
  intros Hws. unfold readAccount, ReadListStart. rewrite (bind_done _ _ _ _ _ (expect_run (z2b 40) ws [] l Hws eq_refl)).
  by rewrite (bind_done _ _ _ _ _ (expect_run (z2b 40) [] [] l (Forall_nil_2 _) eq_refl)).
Qed.

Lemma accountLoop_truncated depth memory addr acs acs' l : (4 <= depth)%nat -> Forall exportable acs' ->
  accountLoop depth memory addr true acs (ReaderAt (accounts_text acs' ++ line_start 2 ++ [z2b 40]) l) = Panicked OutOfMemory.
Proof.
  intros Hd Hf. revert memory addr acs l. induction Hf as [|a acs' Ha _ IH]; intros memory addr acs l.
  - rewrite <- (accountLoop_opening depth memory addr true acs l Hd). cbn [accounts_text map concat app].
    destruct memory; cbn [accountLoop]; unfold mbind, gom_bind; by rewrite (readAccount_white depth addr (line_start 2) l (line_white 2)).
  - unfold accounts_text. cbn [map concat]. fold (accounts_text acs'). rewrite <- (app_assoc (line_start 2 ++ _)).
    destruct depth as [|depth]; [lia|].
    destruct (readAccount_parses depth addr (line_start 2) a (accounts_text acs' ++ line_start 2 ++ [z2b 40]) (line_white 2) Ha l) as [l' E].
    destruct memory as [|memory]; cbn [accountLoop]; step_done E; [done|apply IH].
Qed.

(** ** Scanning for numbers *)

Lemma Index_skip c x s : x <> z2b 35 ->
  Index (c :: x :: s) (bs " #") = let r := Index (x :: s) (bs " #") in if r =? -1 then -1 else r + 1.
Proof.
  intros Hx. cbn [Index]. assert (HasPrefix (c :: x :: s) (bs " #") = false) as ->; [|done].
  unfold HasPrefix. apply bool_decide_false. by intros [= _ E].
Qed.

Lemma Index_mark c pre rest : z2b 35 ∉ pre -> Index (c :: pre ++ bs " #" ++ rest) (bs " #") = 1 + len pre.
Proof.
  revert c. induction pre as [|x pre IH]; intros c Hp.
  - cbn [app]. change (bs " #" ++ rest) with (z2b 32 :: z2b 35 :: rest). rewrite Index_skip by done. done.
  - apply not_elem_of_cons in Hp as [Hx Hp]. cbn [app]. rewrite Index_skip by congruence. cbv zeta. rewrite IH by done.
    rewrite len_cons. pose proof (len_nonneg pre). destruct (Z.eqb_spec (1 + len pre) (-1)); lia.
Qed.

Lemma IndexFunc_first f s c rest : Forall (fun x => f x = false) s -> f c = true -> IndexFunc (s ++ c :: rest) f = len s.
Proof.
  intros Hs Hc. induction Hs as [|x s Hx _ IH]; cbn [app IndexFunc]; [by rewrite Hc|]. rewrite Hx, IH, len_cons.
  cbv zeta. pose proof (len_nonneg s). destruct (Z.eqb_spec (len s) (-1)); lia.
Qed.

Lemma notHex_digit d : 0 <= d < 16 -> notHex (digit_char true d) = false.
Proof.
  intros Hd. unfold notHex, digit_char. destruct (Z.ltb_spec d 10); rewrite b2z_z2b, Z.mod_small by lia;
    rewrite negb_false_iff, !orb_true_iff, !andb_true_iff, !Z.leb_le; lia.
Qed.

Lemma hexDecode_digits n ds acc : length ds = (2 * n)%nat -> Forall (fun d => 0 <= d < 16) ds ->
  exists l, hexDecode (map (digit_char true) ds) = Some l /\
    fold_left (fun a b => a * 256 + b2z b) l acc = fold_left (fun a d => a * 16 + d) ds acc.
Proof.
  revert ds acc. induction n as [|n IH]; intros ds acc Hl Hds.
  - destruct ds; [|simpl in Hl; lia]. by exists [].
  - destruct ds as [|x [|y ds]]; [simpl in Hl; lia..|]. inversion Hds as [|?? Hx Hds1]; subst. inversion Hds1 as [|?? Hy Hds2]; subst.
    destruct (IH ds ((acc * 16 + x) * 16 + y)) as (l & E & Ef); [simpl in Hl; lia|done|].
    exists (z2b (16 * x + y) :: l). cbn [map hexDecode]. rewrite !char_digit_char, E by done. split; [done|].
    cbn [fold_left]. rewrite <- Ef, b2z_z2b, Z.mod_small by lia. f_equal. lia.
Qed.

(** The numbers with an even count of digits, which [hex.Decode] accepts. *)
Definition even_hex (z : Z) : bool := Z.land (len (format_base true 16 z)) 1 =? 0.

Lemma hexDecode_format z : 0 <= z -> even_hex z = true -> exists l, hexDecode (format_base true 16 z) = Some l /\ SetBytes l = z.
Proof.
  unfold even_hex. rewrite Z.eqb_eq. change 1 with (Z.ones 1). rewrite Z.land_ones by lia. intros Hz He.
  assert (exists n, length (digits 16 z) = (2 * n)%nat) as [n Hn].
  { exists (length (digits 16 z) / 2)%nat. unfold len, format_base in He. rewrite length_map in He.
    pose proof (Nat.div_mod_eq (length (digits 16 z)) 2). change (2 ^ 1) with (Z.of_nat 2) in He. rewrite <- Nat2Z.inj_mod in He. lia. }
  destruct (hexDecode_digits n (digits 16 z) 0 Hn) as (l & E & Ef); [by apply digits_range|]. exists l. split; [done|].
  unfold SetBytes, be_decode. rewrite Ef. by apply of_digits_digits.
Qed.

Lemma importMPI_run c pre z rest : z2b 35 ∉ pre -> 0 <= z ->
  importMPI (c :: pre ++ bs " #" ++ format_base true 16 z ++ z2b 35 :: rest) = if even_hex z then Some (z, z2b 35 :: rest) else None.
Proof.
  intros Hp Hz. unfold importMPI. cbv zeta. rewrite Index_mark by done. pose proof (len_nonneg pre).
  destruct (Z.eqb_spec (1 + len pre) (-1)); [lia|].
  set (hex := format_base true 16 z).
  assert (drop (Z.to_nat (1 + len pre + len (bs " #"))) (c :: pre ++ bs " #" ++ hex ++ z2b 35 :: rest) = hex ++ z2b 35 :: rest) as ->.
  { rewrite app_comm_cons, (app_assoc _ (bs " #")). apply drop_app_length'. rewrite length_app. unfold len. cbn [length]. simpl (length (bs _)). lia. }
  rewrite IndexFunc_first; [| |done].
  2:{ unfold hex, format_base. apply Forall_map. eapply Forall_impl; [by apply (digits_range 16)|]. intros d. apply notHex_digit. }
  destruct (Z.eqb_spec (len hex) (-1)); [pose proof (len_nonneg hex); lia|].
  assert (Z.to_nat (len hex) = length hex) as -> by apply Nat2Z.id. rewrite take_app_length, drop_app_length. unfold even_hex. fold hex.
  destruct (Z.eqb_spec (Z.land (len hex) 1) 0) as [E|]; cbn [negb]; [|done].
  destruct (hexDecode_format z Hz) as (l & El & Es); [unfold even_hex; by apply Z.eqb_eq|]. unfold hex. rewrite El. cbn. by rewrite Es.
Qed.

(** What stands between two numbers. *)
Definition mark (tag : list byte) : list byte := bs ")" ++ line_start 8 ++ bs "(" ++ tag.

Lemma mark_free pre : existsb (fun x => bool_decide (x = z2b 35)) pre = false -> z2b 35 ∉ pre.
Proof.
  intros He Hin. apply not_true_iff_false in He. apply He, existsb_exists. exists (z2b 35).
  split; [by apply list_elem_of_In|by apply bool_decide_true].
Qed.

Lemma exportPrivateKey_numbers key p q g y x :
  sk_PrivateKey key = DsaPrivateKey (DsaPublicKey (Some p) (Some q) (Some g) (Some y)) (Some x) ->
  0 <= p -> 0 <= q -> 0 <= g -> 0 <= y -> 0 <= x ->
  let hex := format_base true 16 in
  exportPrivateKey key = z2b 32 :: (bs "   (private-key" ++ line_start 6 ++ bs "(dsa" ++ line_start 8 ++ bs "(p") ++ bs " #" ++ hex p ++
    z2b 35 :: mark (bs "q") ++ bs " #" ++ hex q ++ z2b 35 :: mark (bs "g") ++ bs " #" ++ hex g ++
    z2b 35 :: mark (bs "y") ++ bs " #" ++ hex y ++ z2b 35 :: mark (bs "x") ++ bs " #" ++ hex x ++
    z2b 35 :: bs ")" ++ line_start 6 ++ bs ")" ++ line_start 4 ++ bs ")" ++ [z2b 10].
Proof.
  intros Ek Hp Hq Hg Hy Hx. cbv zeta. unfold exportPrivateKey, exportDSAPrivateKey, exportParameter. rewrite Ek.
  cbn [dsa_pub dsa_P dsa_Q dsa_G dsa_Y dsa_X formatX].
  repeat match goal with |- context [?z <? 0] => destruct (Z.ltb_spec z 0); [lia|] end.
  unfold mark, line_start. by simplify_list_eq.
Qed.

(** ** The properties *)

(** C25: a key file is read back as it was written: importing the export of
    accounts whose names have no quote and whose protocols are symbols gives
    the accounts, each with a fresh key of the same numbers (absent numbers
    included). *)
Theorem import_export_roundtrip depth memory addr acs : Forall exportable acs -> (length acs <= memory)%nat ->
  ImportKeys (S depth) memory addr (exportAccounts acs) = Done (Ok (imported_all addr acs)).
Proof.
  intros Hf Hm. unfold ImportKeys. destruct (readAccounts_parses depth memory addr acs Hf Hm None) as [l E].
  assert (exportAccounts acs = ([z2b 40] ++ bs "privkeys" ++ (accounts_text acs ++ line_start 0) ++ [z2b 41]) ++ [z2b 10]) as ->
    by (rewrite exportAccounts_text; by simplify_list_eq).
  unfold mbind, go_bind. by rewrite E.
Qed.

(** C38: a key file cut off after the parenthesis that opens an account is never
    rejected: with room on the stack for the four calls a value needs, the loop
    over the accounts keeps reading that parenthesis and adds an account each
    time until the memory runs out, however many accounts there is room for. *)
Theorem import_truncated_exhausts depth memory addr acs : (4 <= depth)%nat -> Forall exportable acs ->
  ImportKeys depth memory addr ([z2b 40] ++ bs "privkeys" ++ accounts_text acs ++ line_start 2 ++ [z2b 40]) = Panicked OutOfMemory.
Proof.
  intros Hd Hf. unfold ImportKeys, readAccounts. set (text := accounts_text acs ++ line_start 2 ++ [z2b 40]).
  destruct (ReadListStart_parses [] (bs "privkeys" ++ text) (Forall_nil_2 _) None) as [l1 E1].
  destruct depth as [|depth]; [lia|].
  destruct (readSymbolAndExpect_parses depth [] (bs "privkeys") text (Forall_nil_2 _) eq_refl ltac:(by unfold text; destruct acs) l1) as [l2 E2].
  pose proof (accountLoop_truncated (S depth) memory addr [] acs l2 Hd Hf) as E3.
  unfold mbind at 1, go_bind. cbn [app] in E1, E2 |- *. step_done E1. step_done E2. by rewrite (bind_panicked _ _ _ _ E3).
Qed.

(** scanning an exported key for its numbers finds the key exactly when each
    number is written with an even count of digits; the export does not pad
    them, so [Import] refuses some keys [exportAccounts] writes.  The result
    says whether the public value fits the secret one. *)
Theorem Import_of_export priv key p q g y x : sk_PrivateKey key = DsaPrivateKey (DsaPublicKey (Some p) (Some q) (Some g) (Some y)) (Some x) ->
  0 <= p -> 0 <= q -> 0 <= g -> 0 <= y -> 0 <= x ->
  DSAPrivateKey_Import priv (exportPrivateKey key) =
    if even_hex p && even_hex q && even_hex g && even_hex y && even_hex x
    then (PrivateKeyAt (sk_addr priv) (dsa_pub (sk_PrivateKey key)) (sk_PrivateKey key), Exp g x p =? y)
    else (priv, false).
Proof.
  intros Ek Hp Hq Hg Hy Hx. rewrite (exportPrivateKey_numbers key p q g y x Ek Hp Hq Hg Hy Hx), Ek.
  unfold DSAPrivateKey_Import. rewrite importMPI_run by (try (apply mark_free; vm_compute); done).
  destruct (even_hex p); [|done]. cbn [mbind option_bind snd fst andb].
  do 4 (rewrite importMPI_run by (try (apply mark_free; vm_compute); done);
    match goal with |- context [if even_hex ?z then Some _ else None] => destruct (even_hex z); [|by rewrite ?andb_false_r] end;
    cbn [mbind option_bind snd fst andb]).
  done.
Qed.


(** ** Witnesses *)

Definition example_account (name : string) (p : Z) : Account :=
  let pub := DsaPublicKey (Some p) (Some 11) (Some 2) (Some 8) in
  AccountOf (bs name) (bs "prpl-jabber") (PrivateKeyAt 1 pub (DsaPrivateKey pub (Some 3))).

Lemma example_exportable : Forall exportable [example_account "alice@example.org/home" 23; example_account "bob" 255].
Proof. repeat constructor; try reflexivity; apply (bool_decide_unpack _); vm_compute; exact I. Qed.

Lemma import_export_roundtrip_witness : exists acs,
  ImportKeys 1 2 7 (exportAccounts [example_account "alice@example.org/home" 23; example_account "bob" 255]) = Done (Ok acs) /\
  map Name acs = [bs "alice@example.org/home"; bs "bob"].
Proof.
  eexists. split; [apply import_export_roundtrip; [exact example_exportable|vm_compute; lia]|reflexivity].
Defined.

Lemma import_truncated_exhausts_witness :
  ImportKeys 100 100 7 ([z2b 40] ++ bs "privkeys" ++
    accounts_text [example_account "alice@example.org/home" 23; example_account "bob" 255] ++ line_start 2 ++ [z2b 40]) = Panicked OutOfMemory.
Proof. apply import_truncated_exhausts; [lia|exact example_exportable]. Defined.

(** The numbers 255 and 16 have two digits; a number below 16 has one and is refused. *)
Definition example_key (q : Z) : PrivateKey :=
  let pub := DsaPublicKey (Some 255) (Some q) (Some 16) (Some 16) in PrivateKeyAt 1 pub (DsaPrivateKey pub (Some 17)).

Lemma Import_of_export_witness :
  DSAPrivateKey_Import (example_key 0) (exportPrivateKey (example_key 16)) = (example_key 16, true) /\
  DSAPrivateKey_Import (example_key 0) (exportPrivateKey (example_key 11)) = (example_key 0, false).
Proof.
  split; (erewrite Import_of_export; [|reflexivity|lia..]); vm_compute; reflexivity.
Defined.
