(* ===== verification/Conversation.v ===== *)
(** * The conversation: conversation.go, version.go, the message headers of
    otrv2.go and otrv3.go, the event files, inject_message.go, bytes.go and the
    state types of ake.go, auth_state_machine.go, smp.go, smp_state_machine.go,
    resend.go and fragmentation.go

    [Conversation] has the fields of the source and four of the environment:
    the reader of randomness, the clock, the first unused address and the log
    of the calls made to the event handlers.  A method is a [GoM Conversation]
    action. *)

From S2P Require Import Prelude GoLib Gotrax Policy Crypto KeyManagement Messages Smp Keys.

(** ** Events *)

Inductive MessageEvent :=
  | MessageEventEncryptionRequired | MessageEventEncryptionError | MessageEventConnectionEnded
  | MessageEventSetupError | MessageEventMessageReflected | MessageEventMessageSent
  | MessageEventMessageResent | MessageEventReceivedMessageNotInPrivate
  | MessageEventReceivedMessageUnreadable | MessageEventReceivedMessageMalformed
  | MessageEventLogHeartbeatReceived | MessageEventLogHeartbeatSent
  | MessageEventReceivedMessageGeneralError | MessageEventReceivedMessageUnencrypted
  | MessageEventReceivedMessageUnrecognized | MessageEventReceivedMessageForOtherInstance.

Inductive ErrorCode :=
  | ErrorCodeEncryptionError | ErrorCodeMessageUnreadable
  | ErrorCodeMessageMalformed | ErrorCodeMessageNotInPrivate.

Inductive SecurityEvent := GoneInsecure | GoneSecure | StillSecure.

Inductive SMPEvent :=
  | SMPEventError | SMPEventAbort | SMPEventCheated | SMPEventAskForAnswer
  | SMPEventAskForSecret | SMPEventInProgress | SMPEventSuccess | SMPEventFailure.

#[global] Instance MessageEvent_eq_dec : EqDecision MessageEvent.
Proof. solve_decision. Defined.
#[global] Instance SecurityEvent_eq_dec : EqDecision SecurityEvent.
Proof. solve_decision. Defined.
#[global] Instance SMPEvent_eq_dec : EqDecision SMPEvent.
Proof. solve_decision. Defined.

(** The opaque values the user attaches to a message. *)
Definition trace := list Z.

(** One call of a handler, with its arguments. *)
Inductive event :=
  | EvMessage (e : MessageEvent) (message : list byte) (err : option error) (t : trace)
  | EvSecurity (e : SecurityEvent)
  | EvSMP (e : SMPEvent) (progressPercent : Z) (question : list byte)
  | EvReceivedKey (usage : Z) (usageData symkey : list byte)
  | EvDump (text : list byte).

(** ** State types *)

Inductive msgState := plainText | encrypted | finished.
Inductive whitespaceState := whitespaceNotSent | whitespaceSent | whitespaceRejected.

#[global] Instance msgState_eq_dec : EqDecision msgState.
Proof. solve_decision. Defined.
#[global] Instance whitespaceState_eq_dec : EqDecision whitespaceState.
Proof. solve_decision. Defined.

Inductive authState :=
  | authStateNone
  | authStateAwaitingDHKey
  | authStateAwaitingRevealSig
  | authStateAwaitingSig (revealSigMsg : list byte).

Inductive smpState :=
  | smpStateExpect1
  | smpStateExpect2
  | smpStateExpect3
  | smpStateExpect4
  | smpStateWaitingForSecret (msg : smp1Message).

Record smp := Smp {
  smp_state : option smpState;
  smp_question : option (list byte);
  smp_secret : option Z;
  smp_s1 : option smp1State;
  smp_s2 : option smp2State;
  smp_s3 : option smp3State }.

(** The zero value of the struct, and what [wipe] leaves. *)
Definition empty_smp : smp := Smp None None None None None None.

Record ake := Ake {
  ake_secretExponent : option Z;
  ake_ourPublicValue : option Z;
  ake_theirPublicValue : option Z;
  ake_r : list byte;
  ake_encryptedGx : list byte;
  ake_xhashedGx : list byte;
  ake_revealKey : akeKeys;
  ake_sigKey : akeKeys;
  ake_state : authState;
  ake_keys : keyManagementContext;
  ake_lastStateChange : Z }.

Definition no_akeKeys : akeKeys := AkeKeys [] [] [].

(** The state [initAKE] allocates. *)
Definition initial_ake : ake :=
  Ake None None None (zeroes 16) [] [] no_akeKeys no_akeKeys authStateNone empty_keys 0.

Inductive retransmitFlag := noRetransmit | retransmitWithPrefix | retransmitExact.

#[global] Instance retransmitFlag_eq_dec : EqDecision retransmitFlag.
Proof. solve_decision. Defined.

Record messageToResend := MessageToResend { mr_m : list byte; mr_opaque : trace }.

Record resendContext := ResendContext {
  mayRetransmit : retransmitFlag;
  messageTransform : option (list byte -> list byte);
  retransmitting : bool;
  resend_messages : list messageToResend }.

Record fragmentationContext := FragmentationContext { frag : list byte; currentIndex : Z; currentLen : Z }.

Definition forgetFragment : fragmentationContext := FragmentationContext [] 0 0.

(** Times are in nanoseconds and the zero time is 0. *)
Record Conversation := MkConversation {
  c_version : option otrVersion;
  c_Rand : list byte;
  c_msgState : msgState;
  c_whitespaceState : whitespaceState;
  c_lastMessageStateChange : Z;
  c_ourInstanceTag : Z;
  c_theirInstanceTag : Z;
  c_ssid : list byte;
  c_ourKeys : list PrivateKey;
  c_ourCurrentKey : option PrivateKey;
  c_theirKey : option PublicKey;
  c_ake : option ake;
  c_smp : smp;
  c_keys : keyManagementContext;
  c_Policies : policies;
  c_lastSent : Z;
  c_resend : resendContext;
  c_injections : list (list byte);
  c_fragmentSize : Z;
  c_fragmentationContext : fragmentationContext;
  c_smpEventHandler : bool;
  c_errorMessageHandler : option (ErrorCode -> list byte);
  c_messageEventHandler : bool;
  c_securityEventHandler : bool;
  c_receivedKeyHandler : bool;
  c_debug : bool;
  c_sentRevealSig : bool;
  c_friendlyQueryMessage : list byte;
  (** the environment *)
  env_now : Z;
  env_fresh : Z;
  env_events : list event }.

#[export] Instance smp_eta : Eta smp := fun r =>
  Smp (smp_state r) (smp_question r) (smp_secret r) (smp_s1 r) (smp_s2 r) (smp_s3 r).
#[export] Instance ake_eta : Eta ake := fun r =>
  Ake (ake_secretExponent r) (ake_ourPublicValue r) (ake_theirPublicValue r) (ake_r r)
    (ake_encryptedGx r) (ake_xhashedGx r) (ake_revealKey r) (ake_sigKey r) (ake_state r)
    (ake_keys r) (ake_lastStateChange r).
#[export] Instance resendContext_eta : Eta resendContext := fun r =>
  ResendContext (mayRetransmit r) (messageTransform r) (retransmitting r) (resend_messages r).
#[export] Instance Conversation_eta : Eta Conversation := fun r =>
  MkConversation (c_version r) (c_Rand r) (c_msgState r) (c_whitespaceState r)
    (c_lastMessageStateChange r) (c_ourInstanceTag r) (c_theirInstanceTag r) (c_ssid r)
    (c_ourKeys r) (c_ourCurrentKey r) (c_theirKey r) (c_ake r) (c_smp r) (c_keys r)
    (c_Policies r) (c_lastSent r) (c_resend r) (c_injections r) (c_fragmentSize r)
    (c_fragmentationContext r) (c_smpEventHandler r) (c_errorMessageHandler r)
    (c_messageEventHandler r) (c_securityEventHandler r) (c_receivedKeyHandler r)
    (c_debug r) (c_sentRevealSig r) (c_friendlyQueryMessage r)
    (env_now r) (env_fresh r) (env_events r).

Abbreviation M := (GoM Conversation).

(** The zero-value conversation around a reader, a clock and the user's keys. *)
Definition new_conversation (v : option otrVersion) (p : policies) (keys : list PrivateKey) (rand : list byte) (now fresh : Z)
  : Conversation :=
  MkConversation v rand plainText whitespaceNotSent 0 0 0 (zeroes 8) keys None None None empty_smp
    empty_keys p 0 (ResendContext noRetransmit None false []) [] 0 forgetFragment
    false None false false false false false [] now fresh [].

(** ** Handlers: message_events.go, security_events.go, smp_events.go,
    error_codes.go, extra_key.go *)

Definition logEvent (installed : Conversation -> bool) (e : event) : M unit :=
  gmod (fun c => if installed c then c <| env_events := env_events c ++ [e] |> else c).

Definition messageEvent (e : MessageEvent) (t : trace) : M unit :=
  logEvent c_messageEventHandler (EvMessage e [] None t).
Definition messageEventWithError (e : MessageEvent) (err : error) : M unit :=
  logEvent c_messageEventHandler (EvMessage e [] (Some err) []).
Definition messageEventWithMessage (e : MessageEvent) (msg : list byte) : M unit :=
  logEvent c_messageEventHandler (EvMessage e msg None []).
Definition securityEvent (e : SecurityEvent) : M unit :=
  logEvent c_securityEventHandler (EvSecurity e).
Definition signalSecurityEventIf (cond : bool) (e : SecurityEvent) : M unit :=
  if cond then securityEvent e else mret tt.
Definition smpEvent (e : SMPEvent) (percent : Z) : M unit :=
  logEvent c_smpEventHandler (EvSMP e percent []).
Definition smpEventWithQuestion (e : SMPEvent) (percent : Z) (question : list byte) : M unit :=
  logEvent c_smpEventHandler (EvSMP e percent question).
Definition receivedSymKey (usage : Z) (usageData symkey : list byte) : M unit :=
  logEvent c_receivedKeyHandler (EvReceivedKey usage usageData symkey).

Definition queryMarker : list byte := bs "?OTR".
Definition errorMarker : list byte := bs "?OTR Error:".
Definition msgMarker : list byte := bs "?OTR:".

(** ** inject_message.go, error_codes.go *)

Definition injectMessage (vm : list byte) : M unit := gmod (fun c => c <| c_injections := c_injections c ++ [vm] |>).

Definition withInjects (vms : list (list byte)) : M (list (list byte)) :=
  c ← gget; _ ← gmod (fun c => c <| c_injections := [] |>); mret (vms ++ c_injections c).

Definition generatePotentialErrorMessage (ec : ErrorCode) : M unit :=
  c ← gget;
  match c_errorMessageHandler c with
  | Some h => injectMessage ((errorMarker ++ bs " ") ++ h ec)
  | None => mret tt
  end.

(** ** random.go *)

Definition conv_randomInto (n : nat) : M (result (list byte)) := fun c =>
  let '(res, r) := randomInto (c_Rand c) n in Done (res, c <| c_Rand := r |>).

Definition conv_randMPI (n : nat) : M (result Z) := fun c =>
  let '(res, r) := randSizedMPI (c_Rand c) n in Done (res, c <| c_Rand := r |>).

(** ** bytes.go *)

Fixpoint compactMessagesWithHeader (msgs : list (option (list byte))) : list (list byte) :=
  match msgs with
  | [] => []
  | Some m :: msgs' => m :: compactMessagesWithHeader msgs'
  | None :: msgs' => compactMessagesWithHeader msgs'
  end.

(** ** version.go *)

(** [c.version] used as a receiver. *)
Definition theVersion : M otrVersion := c ← gget; glift (deref (c_version c)).

Definition newOtrVersion (v : Z) (p : policies) : result otrVersion :=
  if v =? 2 then if has p allowV2 then Ok otrV2 else Err errInvalidVersion
  else if v =? 3 then if has p allowV3 then Ok otrV3 else Err errInvalidVersion
  else Err errUnsupportedOTRVersion.

Definition otrv3FragmentationPrefix : list byte := bs "?OTR|".
Definition otrv2FragmentationPrefix : list byte := bs "?OTR,".

Definition versionFromFragment (fragment : list byte) : Z :=
  if HasPrefix fragment otrv3FragmentationPrefix then 3
  else if HasPrefix fragment otrv2FragmentationPrefix then 2 else 0.

(** [1 << v] on a 64-bit [int], as the bits of the word. *)
Definition versionBit (v : Z) : Z := u64 (Z.shiftl 1 v).

Definition errNoKey : error := ForeignError "no possible key for current version".

Fixpoint keyForVersion (ks : list PrivateKey) (v : Z) : option PrivateKey :=
  match ks with
  | [] => None
  | k :: ks' => if IsAvailableForVersion v then Some k else keyForVersion ks' v
  end.

Definition setKeyMatchingVersion : M (result unit) :=
  c ← gget; v ← theVersion;
  match keyForVersion (c_ourKeys c) (protocolVersion v) with
  | Some k => _ ← gmod (fun c => c <| c_ourCurrentKey := Some k |>); mret (Ok tt)
  | None => mret (Err errNoKey)
  end.

Definition commitToVersionFrom (versions : Z) : M (result unit) :=
  c ← gget;
  match c_version c with
  | Some _ => mret (Ok tt)
  | None =>
      if has (c_Policies c) allowV3 && (0 <? Z.land versions (Z.shiftl 1 3)) then
        _ ← gmod (fun c => c <| c_version := Some otrV3 |>); setKeyMatchingVersion
      else if has (c_Policies c) allowV2 && (0 <? Z.land versions (Z.shiftl 1 2)) then
        _ ← gmod (fun c => c <| c_version := Some otrV2 |>); setKeyMatchingVersion
      else mret (Err errUnsupportedOTRVersion)
  end.

Definition checkVersion (message : list byte) : M (result unit) :=
  match ExtractShort message with
  | None => mret (Err errInvalidOTRMessage)
  | Some (_, messageVersion) =>
      _ ←? commitToVersionFrom (versionBit messageVersion);
      v ← theVersion;
      mret (if negb (protocolVersion v =? messageVersion) then Err errWrongProtocolVersion else Ok tt)
  end.

(** ** Message headers: otrv2.go, otrv3.go *)

Definition otrv2HeaderLen : Z := 3.
Definition otrv3HeaderLen : Z := 11.
Definition minValidInstanceTag : Z := 0x100.

(** The loop of [generateInstanceTag]: each round reads four bytes, so the
    length of the reader bounds the rounds. *)
Fixpoint instanceTagLoop (fuel : nat) (r : list byte) : result Z * list byte :=
  match fuel with
  | O => (Err errShortRandomRead, r)
  | S f =>
      match randomInto r 4 with
      | (Err e, r') => (Err e, r')
      | (Ok b, r') => let ret := be_decode b in
                      if ret <? minValidInstanceTag then instanceTagLoop f r' else (Ok ret, r')
      end
  end.

Definition generateInstanceTag : M (result unit) := fun c =>
  if negb (c_ourInstanceTag c =? 0) then Done (Ok tt, c)
  else match instanceTagLoop (S (length (c_Rand c))) (c_Rand c) with
       | (Ok ret, r) => Done (Ok tt, c <| c_Rand := r |> <| c_ourInstanceTag := ret |>)
       | (Err e, r) => Done (Err e, c <| c_Rand := r |>)
       end.

Definition otrV2_messageHeader (msgType : Z) : M (result (list byte)) :=
  mret (Ok (AppendShort [] otrV2_protocolVersion ++ [z2b msgType])).

Definition otrV3_messageHeader (msgType : Z) : M (result (list byte)) :=
  _ ←? generateInstanceTag;
  c ← gget;
  mret (Ok (AppendWord (AppendWord (AppendShort [] otrV3_protocolVersion ++ [z2b msgType])
              (c_ourInstanceTag c)) (c_theirInstanceTag c))).

(** [c.messageHeader], which calls the method of the version. *)
Definition messageHeader (msgType : Z) : M (result (list byte)) :=
  v ← theVersion;
  match v with otrV2 => otrV2_messageHeader msgType | otrV3 => otrV3_messageHeader msgType end.

Definition wrapMessageHeader (msgType : Z) (msg : list byte) : M (result (list byte)) :=
  header ←? messageHeader msgType; mret (Ok (header ++ msg)).

Definition malformedMessage : M unit :=
  _ ← messageEvent MessageEventReceivedMessageMalformed [];
  generatePotentialErrorMessage ErrorCodeMessageMalformed.

Definition verifyInstanceTags (their our : Z) : M (result unit) :=
  _ ← gmod (fun c => if c_theirInstanceTag c =? 0 then c <| c_theirInstanceTag := their |> else c);
  if (0 <? our) && (our <? minValidInstanceTag) then _ ← malformedMessage; mret (Err errInvalidOTRMessage)
  else if their <? minValidInstanceTag then _ ← malformedMessage; mret (Err errInvalidOTRMessage)
  else
    c ← gget;
    if (negb (our =? 0) && negb (c_ourInstanceTag c =? our)) || negb (c_theirInstanceTag c =? their) then
      _ ← messageEvent MessageEventReceivedMessageForOtherInstance [];
      mret (Err errReceivedMessageForOtherInstance)
    else mret (Ok tt).

(** [parseMessageHeader] of the two versions: the header and the body. *)
Definition otrV2_parseMessageHeader (msg : list byte) : M (result (list byte * list byte)) :=
  if len msg <? otrv2HeaderLen then mret (Err errInvalidOTRMessage)
  else mret (Ok (take 3 msg, drop 3 msg)).

Definition otrV3_parseMessageHeader (msg : list byte) : M (result (list byte * list byte)) :=
  if len msg <? otrv3HeaderLen then _ ← malformedMessage; mret (Err errInvalidOTRMessage)
  else
    let '(msg1, sender) := default ([], 0) (ExtractWord (drop 3 msg)) in
    let '(msg2, receiver) := default ([], 0) (ExtractWord msg1) in
    _ ←? verifyInstanceTags sender receiver;
    mret (Ok (take 11 msg, msg2)).

Definition parseMessageHeader (msg : list byte) : M (result (list byte * list byte)) :=
  v ← theVersion;
  match v with otrV2 => otrV2_parseMessageHeader msg | otrV3 => otrV3_parseMessageHeader msg end.

(** ** Small operations of conversation.go *)

Definition NewConversationWithVersion (v : Z) : Conversation :=
  new_conversation (if v =? 2 then Some otrV2 else if v =? 3 then Some otrV3 else None) 0 [] [] 0 0.

Definition IsEncrypted (c : Conversation) : bool := bool_decide (c_msgState c = encrypted).

Definition SetOurKeys (ks : list PrivateKey) : M unit := gmod (fun c => c <| c_ourKeys := ks |>).

(** The handlers are present or not; what they are told is in [env_events]. *)
Definition SetSMPEventHandler (handler : bool) : M unit := gmod (fun c => c <| c_smpEventHandler := handler |>).
Definition SetErrorMessageHandler (handler : option (ErrorCode -> list byte)) : M unit :=
  gmod (fun c => c <| c_errorMessageHandler := handler |>).
Definition SetMessageEventHandler (handler : bool) : M unit := gmod (fun c => c <| c_messageEventHandler := handler |>).
Definition SetSecurityEventHandler (handler : bool) : M unit := gmod (fun c => c <| c_securityEventHandler := handler |>).

Definition InitializeInstanceTag (tag : Z) : M Z :=
  _ ← (if tag =? 0 then _ ← generateInstanceTag; mret tt
       else gmod (fun c => c <| c_ourInstanceTag := tag |>));
  c ← gget; mret (c_ourInstanceTag c).

(** ** Lemmas *)

(** Equality of two conversations built by updates, field by field. *)
Lemma conversation_ext (c c' : Conversation) :
  c_version c = c_version c' -> c_Rand c = c_Rand c' -> c_msgState c = c_msgState c' ->
  c_whitespaceState c = c_whitespaceState c' -> c_lastMessageStateChange c = c_lastMessageStateChange c' ->
  c_ourInstanceTag c = c_ourInstanceTag c' -> c_theirInstanceTag c = c_theirInstanceTag c' ->
  c_ssid c = c_ssid c' -> c_ourKeys c = c_ourKeys c' -> c_ourCurrentKey c = c_ourCurrentKey c' ->
  c_theirKey c = c_theirKey c' -> c_ake c = c_ake c' -> c_smp c = c_smp c' -> c_keys c = c_keys c' ->
  c_Policies c = c_Policies c' -> c_lastSent c = c_lastSent c' -> c_resend c = c_resend c' ->
  c_injections c = c_injections c' -> c_fragmentSize c = c_fragmentSize c' ->
  c_fragmentationContext c = c_fragmentationContext c' -> c_smpEventHandler c = c_smpEventHandler c' ->
  c_errorMessageHandler c = c_errorMessageHandler c' -> c_messageEventHandler c = c_messageEventHandler c' ->
  c_securityEventHandler c = c_securityEventHandler c' -> c_receivedKeyHandler c = c_receivedKeyHandler c' ->
  c_debug c = c_debug c' -> c_sentRevealSig c = c_sentRevealSig c' ->
  c_friendlyQueryMessage c = c_friendlyQueryMessage c' -> env_now c = env_now c' ->
  env_fresh c = env_fresh c' -> env_events c = env_events c' ->
  c = c'.
Proof. destruct c, c'. simpl. intros. by subst. Qed.

Ltac conv_eq := apply conversation_ext; rec_simpl; reflexivity.

Lemma theVersion_Some c v : c_version c = Some v -> theVersion c = Done (v, c).
Proof. intros H. unfold theVersion. go_simpl. by rewrite H. Qed.

Lemma commitToVersionFrom_committed c v versions :
  c_version c = Some v -> commitToVersionFrom versions c = Done (Ok tt, c).
Proof. intros H. unfold commitToVersionFrom. go_simpl. by rewrite H. Qed.

(** ** Instance tags and headers *)

(** The instance tags of the sender [c] suit the receiver [r]. *)
Definition tags_ok (v : otrVersion) (c r : Conversation) : Prop :=
  match v with
  | otrV2 => True
  | otrV3 =>
      minValidInstanceTag <= c_ourInstanceTag c < 2 ^ 32 /\
      (c_theirInstanceTag c = 0 \/
       minValidInstanceTag <= c_theirInstanceTag c < 2 ^ 32 /\ c_theirInstanceTag c = c_ourInstanceTag r) /\
      (c_theirInstanceTag r = 0 \/ c_theirInstanceTag r = c_ourInstanceTag c)
  end.

(** What accepting a message of [c] changes in the receiver. *)
Definition learnTag (v : otrVersion) (c r : Conversation) : Conversation :=
  match v with otrV2 => r | otrV3 => r <| c_theirInstanceTag := c_ourInstanceTag c |> end.

Lemma verifyInstanceTags_accepts c r : tags_ok otrV3 c r ->
  verifyInstanceTags (c_ourInstanceTag c) (c_theirInstanceTag c) r = Done (Ok tt, learnTag otrV3 c r).
Proof.
  intros (Hs & Hr & Ht). unfold verifyInstanceTags, minValidInstanceTag in *. go_simpl.
  replace (if c_theirInstanceTag r =? 0 then _ else r) with (learnTag otrV3 c r).
  2:{ destruct Ht as [-> | Ht]; [done|]. destruct (c_theirInstanceTag r =? 0); [done|].
      unfold learnTag. rewrite <- Ht. by destruct r. }
  assert ((0 <? c_theirInstanceTag c) && (c_theirInstanceTag c <? 256) = false) as ->
    by (split_cmp; try done; lia).
  assert ((c_ourInstanceTag c <? 256) = false) as -> by (split_cmp; try done; lia).
  cbn [learnTag upd c_ourInstanceTag c_theirInstanceTag]. rewrite Z.eqb_refl.
  destruct Hr as [-> | [_ ->]]; [done|]. rewrite Z.eqb_refl, andb_false_r. done.
Qed.

(** The header a conversation with an instance tag puts before a message. *)
Definition headerOf (v : otrVersion) (our their msgType : Z) : list byte :=
  match v with
  | otrV2 => AppendShort [] (protocolVersion v) ++ [z2b msgType]
  | otrV3 => AppendWord (AppendWord (AppendShort [] (protocolVersion v) ++ [z2b msgType]) our) their
  end.

Lemma messageHeader_ready v c t :
  c_version c = Some v -> (v = otrV3 -> c_ourInstanceTag c <> 0) ->
  messageHeader t c = Done (Ok (headerOf v (c_ourInstanceTag c) (c_theirInstanceTag c) t), c).
Proof.
  intros Hv Ht. unfold messageHeader. step_done (theVersion_Some c v Hv). destruct v; [done|]. unfold otrV3_messageHeader.
  assert (generateInstanceTag c = Done (Ok tt, c)) as Hg; [|by step_done Hg].
  unfold generateInstanceTag. destruct (Z.eqb_spec (c_ourInstanceTag c) 0); [by destruct Ht|done].
Qed.

Lemma wrapMessageHeader_ready v c t body :
  c_version c = Some v -> (v = otrV3 -> c_ourInstanceTag c <> 0) ->
  wrapMessageHeader t body c = Done (Ok (headerOf v (c_ourInstanceTag c) (c_theirInstanceTag c) t ++ body), c).
Proof. intros Hv Ht. unfold wrapMessageHeader. by step_done (messageHeader_ready v c t Hv Ht). Qed.

Lemma instanceTagLoop_range n r t r' : instanceTagLoop n r = (Ok t, r') -> minValidInstanceTag <= t < 2 ^ 32.
Proof.
  revert r; induction n as [|n IH]; intros r; cbn [instanceTagLoop]; [done|]. unfold randomInto.
  destruct (Nat.leb_spec 4 (length r)) as [Hl|]; [|done].
  destruct (Z.ltb_spec (be_decode (take 4 r)) minValidInstanceTag) as [|Hm]; [apply IH|]. intros [= <- _]. split; [done|].
  pose proof (be_decode_bound (take 4 r)) as Hb. unfold len in Hb. by rewrite length_take_le in Hb.
Qed.

(** The tag in the headers of a conversation that has the tag [old]: this one,
    or the first valid one that is read, four bytes at a time. *)
Definition takes_tag (v : otrVersion) (old tag : Z) (rnd rest : list byte) : Prop :=
  if bool_decide (v = otrV3 /\ old = 0) then instanceTagLoop (S (length rnd)) rnd = (Ok tag, rest)
  else tag = old /\ rest = rnd.

Lemma takes_tag_range old tag rnd rest : takes_tag otrV3 old tag rnd rest -> old = 0 \/ minValidInstanceTag <= old < 2 ^ 32 ->
  minValidInstanceTag <= tag < 2 ^ 32.
Proof.
  unfold takes_tag. destruct (bool_decide_reflect (otrV3 = otrV3 /\ old = 0)) as [_|Hn]; [by intros ?%instanceTagLoop_range|].
  intros [-> _] [->|Ho]; [by destruct Hn|done].
Qed.

Lemma wrapMessageHeader_takes v c t body tag rest : c_version c = Some v -> takes_tag v (c_ourInstanceTag c) tag (c_Rand c) rest ->
  wrapMessageHeader t body c =
  Done (Ok (headerOf v tag (c_theirInstanceTag c) t ++ body), c <| c_Rand := rest |> <| c_ourInstanceTag := tag |>).
Proof.
  intros Hv. unfold takes_tag. destruct (bool_decide_reflect (v = otrV3 /\ c_ourInstanceTag c = 0)) as [[-> E]|Hn].
  - intros El. set (c' := c <| c_Rand := rest |> <| c_ourInstanceTag := tag |>).
    assert (generateInstanceTag c = Done (Ok tt, c')) as Hg by (unfold generateInstanceTag; by rewrite E, El).
    assert (messageHeader t c = Done (Ok (headerOf otrV3 tag (c_theirInstanceTag c) t), c')) as Hh; [|unfold wrapMessageHeader; by step_done Hh].
    unfold messageHeader. step_done (theVersion_Some c otrV3 Hv). unfold otrV3_messageHeader. by step_done Hg.
  - intros [-> ->]. assert (c <| c_Rand := c_Rand c |> <| c_ourInstanceTag := c_ourInstanceTag c |> = c) as -> by (by destruct c).
    apply wrapMessageHeader_ready; [done|]. intros -> E. by apply Hn.
Qed.

Lemma tags_ok_ready v c r : tags_ok v c r -> v = otrV3 -> c_ourInstanceTag c <> 0.
Proof. intros H ->. destruct H as [[H _] _]. unfold minValidInstanceTag in H. lia. Qed.

(** The receiver splits off the header and learns the sender's tag. *)
Lemma parseMessageHeader_accepts v c r t body :
  c_version r = Some v -> tags_ok v c r ->
  let hdr := headerOf v (c_ourInstanceTag c) (c_theirInstanceTag c) t in
  parseMessageHeader (hdr ++ body) r = Done (Ok (hdr, body), learnTag v c r).
Proof.
  intros Hv Ht hdr. unfold parseMessageHeader. step_done (theVersion_Some r v Hv).
  pose proof (len_nonneg body). destruct v; [unfold otrV2_parseMessageHeader|unfold otrV3_parseMessageHeader].
  { assert (len hdr = 3) as Hl by done. rewrite len_app, Hl. unfold otrv2HeaderLen.
    destruct (Z.ltb_spec (3 + len body) 3); [lia|].
    rewrite take_app_length', drop_app_length' by done. done. }
  assert (hdr = (AppendShort [] 3 ++ [z2b t]) ++ SerializeWord (c_ourInstanceTag c) ++ SerializeWord (c_theirInstanceTag c)) as Eh
    by (unfold hdr, headerOf, AppendWord; by rewrite <- app_assoc).
  assert (length hdr = 11%nat) as Hl by (rewrite Eh; unfold AppendShort, SerializeShort, SerializeWord;
    rewrite !length_app, !length_be_encode; done).
  rewrite len_app. replace (len hdr) with 11 by (unfold len; lia).
  unfold otrv3HeaderLen. destruct (Z.ltb_spec (11 + len body) 11); [lia|].
  assert (drop 3 (hdr ++ body) = SerializeWord (c_ourInstanceTag c) ++ SerializeWord (c_theirInstanceTag c) ++ body) as ->.
  { rewrite Eh, <- app_assoc, drop_app_length' by (unfold AppendShort, SerializeShort; rewrite !length_app, length_be_encode; done).
    by rewrite <- app_assoc. }
  destruct Ht as (Ho & Hth & Hr). rewrite ExtractWord_Serialize by (unfold minValidInstanceTag in Ho; lia).
  cbn [default from_option id]. rewrite ExtractWord_Serialize by (unfold minValidInstanceTag in Hth; lia).
  cbn [default from_option id].
  step_done (verifyInstanceTags_accepts c r (conj Ho (conj Hth Hr))).
  rewrite take_app_length' by done. done.
Qed.
