(* ===== verification/Events.v ===== *)
(** * Names of events and combined handlers

    The printed form of the events and error codes (message_events.go,
    security_events.go, smp_events.go, error_codes.go) and the handlers that
    pass an event on to several others.  A handler is a state transformer; a nil
    handler is [None]. *)

From S2P Require Import Prelude GoLib Gotrax Policy Crypto KeyManagement Messages Smp Keys Conversation.

Definition MessageEvent_String (s : MessageEvent) : string :=
  match s with
  | MessageEventEncryptionRequired => "MessageEventEncryptionRequired"
  | MessageEventEncryptionError => "MessageEventEncryptionError"
  | MessageEventConnectionEnded => "MessageEventConnectionEnded"
  | MessageEventSetupError => "MessageEventSetupError"
  | MessageEventMessageReflected => "MessageEventMessageReflected"
  | MessageEventMessageSent => "MessageEventMessageSent"
  | MessageEventMessageResent => "MessageEventMessageResent"
  | MessageEventReceivedMessageNotInPrivate => "MessageEventReceivedMessageNotInPrivate"
  | MessageEventReceivedMessageUnreadable => "MessageEventReceivedMessageUnreadable"
  | MessageEventReceivedMessageMalformed => "MessageEventReceivedMessageMalformed"
  | MessageEventLogHeartbeatReceived => "MessageEventLogHeartbeatReceived"
  | MessageEventLogHeartbeatSent => "MessageEventLogHeartbeatSent"
  | MessageEventReceivedMessageGeneralError => "MessageEventReceivedMessageGeneralError"
  | MessageEventReceivedMessageUnencrypted => "MessageEventReceivedMessageUnencrypted"
  | MessageEventReceivedMessageUnrecognized => "MessageEventReceivedMessageUnrecognized"
  | MessageEventReceivedMessageForOtherInstance => "MessageEventReceivedMessageForOtherInstance"
  end.

Definition ErrorCode_String (s : ErrorCode) : string :=
  match s with
  | ErrorCodeEncryptionError => "ErrorCodeEncryptionError"
  | ErrorCodeMessageUnreadable => "ErrorCodeMessageUnreadable"
  | ErrorCodeMessageMalformed => "ErrorCodeMessageMalformed"
  | ErrorCodeMessageNotInPrivate => "ErrorCodeMessageNotInPrivate"
  end.

Definition SecurityEvent_String (s : SecurityEvent) : string :=
  match s with
  | GoneInsecure => "GoneInsecure"
  | GoneSecure => "GoneSecure"
  | StillSecure => "StillSecure"
  end.

Definition SMPEvent_String (s : SMPEvent) : string :=
  match s with
  | SMPEventError => "SMPEventError"
  | SMPEventAbort => "SMPEventAbort"
  | SMPEventCheated => "SMPEventCheated"
  | SMPEventAskForAnswer => "SMPEventAskForAnswer"
  | SMPEventAskForSecret => "SMPEventAskForSecret"
  | SMPEventInProgress => "SMPEventInProgress"
  | SMPEventSuccess => "SMPEventSuccess"
  | SMPEventFailure => "SMPEventFailure"
  end.

(** [combinedMessageEventHandler], [combinedSecurityEventHandler] and
    [combinedSMPEventHandler]: one loop over the handlers that are not nil. *)
Definition combinedHandler {E S} (handlers : list (option (E -> S -> S))) (event : E) (s : S) : S :=
  fold_left (fun s h => match h with Some h => h event s | None => s end) handlers s.

(** [combinedErrorMessageHandler]: every handler runs, the last answer counts. *)
Definition combinedErrorMessageHandler {S} (handlers : list (option (ErrorCode -> S -> list byte * S))) (e : ErrorCode) (s : S) : list byte * S :=
  fold_left (fun rs h => match h with Some h => h e (snd rs) | None => rs end) handlers ([], s).

(** ** The names tell the events apart *)

Lemma event_names_differ :
  (forall a b, MessageEvent_String a = MessageEvent_String b -> a = b) /\ (forall a b, ErrorCode_String a = ErrorCode_String b -> a = b) /\
  (forall a b, SecurityEvent_String a = SecurityEvent_String b -> a = b) /\ (forall a b, SMPEvent_String a = SMPEvent_String b -> a = b).
Proof. split_and!; intros [] []; (reflexivity || discriminate). Qed.

(** A combined handler is the handlers in sequence, nil ones left out; so
    combining combined handlers is the same as combining all of them. *)
Lemma combinedHandler_app {E S} (hs hs' : list (option (E -> S -> S))) e s :
  combinedHandler [Some (combinedHandler hs); None; Some (combinedHandler hs')] e s = combinedHandler (hs ++ hs') e s.
Proof. unfold combinedHandler. by rewrite fold_left_app. Qed.

Lemma combinedErrorMessageHandler_last {S} (hs : list (option (ErrorCode -> S -> list byte * S))) h e s :
  fst (combinedErrorMessageHandler (hs ++ [Some h; None]) e s) = fst (h e (snd (combinedErrorMessageHandler hs e s))).
Proof. unfold combinedErrorMessageHandler. by rewrite fold_left_app. Qed.
