(* ===== verification/Fragmentation.v ===== *)
(** * Fragmentation: fragmentation.go, the fragment headers of otrv2.go and
    otrv3.go, [parseFragmentPrefix] of conversation.go

    Sizes and indices are 16-bit and wrap around, as in the source. *)

From S2P Require Import Prelude GoLib Gotrax Policy Crypto KeyManagement Messages Smp Keys Conversation.

Definition comma : byte := z2b 44.
Definition bar : byte := z2b 124.

(** ** Sending *)

(** [min] *)
Definition min16 (l r : Z) : Z := if l <? r then l else r.

Definition fragmentStart (i fraglen : Z) : Z := u16 (i * fraglen).
Definition fragmentEnd (i fraglen l : Z) : Z := u16 (min16 (u16 (u16 (i + 1) * fraglen)) l).

Definition fragmentData (data : list byte) (i fraglen l : Z) : go (list byte) :=
  slice data (fragmentStart (u16 i) fraglen) (fragmentEnd (u16 i) fraglen l).

(** [fmt.Sprintf] with [%08x] and [%05d]. *)
Definition hex8 (n : Z) : list byte := pad0 8 (format_base false 16 n).
Definition dec5 (n : Z) : list byte := pad0 5 (format_base false 10 n).

Definition otrV2_fragmentPrefix (n total itags itagr : Z) : list byte :=
  otrv2FragmentationPrefix ++ dec5 (n + 1) ++ [comma] ++ dec5 total ++ [comma].

Definition otrV3_fragmentPrefix (n total itags itagr : Z) : list byte :=
  otrv3FragmentationPrefix ++ hex8 itags ++ [bar] ++ hex8 itagr ++ [comma]
    ++ dec5 (n + 1) ++ [comma] ++ dec5 total ++ [comma].

Definition fragmentPrefix (v : otrVersion) : Z -> Z -> Z -> Z -> list byte :=
  match v with otrV2 => otrV2_fragmentPrefix | otrV3 => otrV3_fragmentPrefix end.

Definition SetFragmentSize (size : Z) : M unit := gmod (fun c => c <| c_fragmentSize := size |>).

(** The loop over the fragments: [n] rounds from index [i]. *)
Fixpoint fragmentLoop (n : nat) (v : otrVersion) (c : Conversation) (data : list byte) (i numFragments realFraglen : Z)
  : go (list (list byte)) :=
  match n with
  | O => mret []
  | S n' =>
      piece ← fragmentData data i realFraglen (u16 (len data));
      rest ← fragmentLoop n' v c data (i + 1) numFragments realFraglen;
      mret (((fragmentPrefix v i numFragments (c_ourInstanceTag c) (c_theirInstanceTag c) ++ piece) ++ [comma]) :: rest)
  end.

Definition realFraglen (v : otrVersion) (c : Conversation) (fraglen : Z) : Z :=
  let fakeHeader := fragmentPrefix v 1 1 (c_ourInstanceTag c) (c_theirInstanceTag c) in
  u16 (u16 (fraglen - u16 (len fakeHeader)) - 1).

Definition fragment (data : list byte) (fraglen : Z) : M (list (list byte)) :=
  c ← gget;
  if (len data <=? fraglen) || (fraglen =? 0) then mret [data]
  else
    v ← theVersion;
    let real := realFraglen v c fraglen in
    if real <=? 0 then mret [data]
    else
      let numFragments := len data / real + 1 in
      glift (fragmentLoop (Z.to_nat numFragments) v c data 0 numFragments real).

(** ** Receiving *)

Definition otrV2_isFragmented (data : list byte) : bool := HasPrefix data otrv2FragmentationPrefix.

Definition otrV3_isFragmented (data : list byte) : bool :=
  HasPrefix data otrv3FragmentationPrefix || otrV2_isFragmented data.

Definition isFragmented (v : otrVersion) : list byte -> bool :=
  match v with otrV2 => otrV2_isFragmented | otrV3 => otrV3_isFragmented end.

Definition parseItag (s : list byte) : result Z :=
  match ParseInt s 16 with Ok v => Ok (u32 v) | Err e => Err e end.

(** The rest of the data, [ignore] and [ok]. *)
Definition otrV2_parseFragmentPrefix (data : list byte) : M (list byte * bool * bool) :=
  mret (if len data <? 5 then (data, false, false) else (drop 5 data, false, true)).

Definition otrV3_parseFragmentPrefix (data : list byte) : M (list byte * bool * bool) :=
  if len data <? 23 then mret (data, false, false)
  else
    let header := take 23 data in
    let headerPart := default [] (head (Split header comma)) in
    match Split headerPart bar with
    | _ :: p1 :: p2 :: _ =>
        match parseItag p1, parseItag p2 with
        | Ok sender, Ok receiver =>
            r ← verifyInstanceTags sender receiver;
            mret (match r with
                  | Ok _ => (drop 23 data, false, true)
                  | Err e =>
                      if decide (e = errInvalidOTRMessage) then (data, false, false)
                      else if decide (e = errReceivedMessageForOtherInstance) then (data, true, true)
                      else (drop 23 data, false, true)
                  end)
        | _, _ => mret (data, false, false)
        end
    | _ => mret (data, false, false)
    end.

Definition version_parseFragmentPrefix (v : otrVersion) : list byte -> M (list byte * bool * bool) :=
  match v with otrV2 => otrV2_parseFragmentPrefix | otrV3 => otrV3_parseFragmentPrefix end.

Definition resolveVersionFromFragment (fragment : list byte) : M (result unit) :=
  commitToVersionFrom (versionBit (versionFromFragment fragment)).

Definition parseFragmentPrefix (data : list byte) : M (list byte * bool * bool) :=
  r ← resolveVersionFromFragment data;
  match r with
  | Err _ => mret (data, true, false)
  | Ok _ => v ← theVersion; version_parseFragmentPrefix v data
  end.

Definition bytesToUint16 (d : list byte) : result Z :=
  match Atoi d with Ok z => Ok (u16 z) | Err e => Err e end.

Definition fragmentsFinished (f : fragmentationContext) : bool :=
  (0 <? currentIndex f) && (currentIndex f =? currentLen f).

(** The fragment, its index and the number of fragments, when well formed. *)
Definition parseFragment (data : list byte) : option (list byte * Z * Z) :=
  match Split data comma with
  | [p0; p1; p2; _] =>
      match bytesToUint16 p0, bytesToUint16 p1 with
      | Ok ix, Ok l => Some (p2, ix, l)
      | _, _ => None
      end
  | _ => None
  end.

Definition fragmentIsInvalid (ix l : Z) : bool := (ix =? 0) || (l =? 0) || (l <? ix).
Definition fragmentIsFirstMessage (ix l : Z) : bool := ix =? 1.
Definition fragmentIsNextMessage (before : fragmentationContext) (ix l : Z) : bool :=
  (u16 (currentIndex before + 1) =? ix) && (currentLen before =? l).

Definition appendFragment (ctx : fragmentationContext) (data : list byte) (ix l : Z) : fragmentationContext :=
  FragmentationContext (frag ctx ++ data) ix l.
Definition restartFragment (data : list byte) (ix l : Z) : fragmentationContext := FragmentationContext data ix l.

(** The transition of the context on one well-formed fragment. *)
Definition nextFragment (before : fragmentationContext) (data : list byte) (ix l : Z) : fragmentationContext :=
  if fragmentIsInvalid ix l then before
  else if fragmentIsFirstMessage ix l then restartFragment data ix l
  else if fragmentIsNextMessage before ix l then appendFragment before data ix l
  else forgetFragment.

Definition errInvalidFragment : error := newOtrError "invalid OTR fragment".

Definition receiveFragment (before : fragmentationContext) (data : list byte) : M (fragmentationContext * option error) :=
  p ← parseFragmentPrefix data;
  let '(fragBody, ignore, ok1) := p : list byte * bool * bool in
  let parsed := parseFragment fragBody in
  if ignore then
    _ ← messageEvent MessageEventReceivedMessageForOtherInstance [];
    mret (before, None)
  else if negb ok1 then mret (before, Some errInvalidFragment)
  else
    match parsed with
    | None => mret (before, Some errInvalidFragment)
    | Some (resultData, ix, l) => mret (nextFragment before resultData ix l, None)
    end.

(** The fragments of a message fed to [receiveFragment] one after the other,
    as [receiveUnit] does. *)
Fixpoint receiveFragments (before : fragmentationContext) (msgs : list (list byte)) : M fragmentationContext :=
  match msgs with
  | [] => mret before
  | m :: msgs' => fe ← receiveFragment before m; receiveFragments (fst fe) msgs'
  end.

(** ** Lemmas *)

(** An element that is not in a closed list. *)
Ltac concrete_notin := apply (bool_decide_unpack _); vm_compute; exact I.

Lemma not_in_text b w n c : 2 <= b <= 16 -> ~ (48 <= b2z c <= 102) -> (c ∉ pad0 w (format_base false b n)).
Proof. intros Hb Hc Hin. apply Hc. by eapply format_chars. Qed.

Lemma dec5_no_comma n : (comma ∉ dec5 n).
Proof. apply not_in_text; [lia|]. change (b2z comma) with 44. lia. Qed.

Lemma hex8_no_comma n : (comma ∉ hex8 n).
Proof. apply not_in_text; [lia|]. change (b2z comma) with 44. lia. Qed.

Lemma length_dec5 n : 0 <= n < 100000 -> length (dec5 n) = 5%nat.
Proof. intros. apply length_pad0; [lia| |lia]. change (10 ^ Z.of_nat 5) with 100000. lia. Qed.

Lemma length_hex8 n : 0 <= n < 2 ^ 32 -> length (hex8 n) = 8%nat.
Proof. intros. apply length_pad0; [lia|exact H|lia]. Qed.

Lemma hex8_no_bar n : (bar ∉ hex8 n).
Proof. apply not_in_text; [lia|]. change (b2z bar) with 124. lia. Qed.

Lemma bytesToUint16_dec5 n : 0 <= n < 2 ^ 16 -> bytesToUint16 (dec5 n) = Ok n.
Proof.
  intros Hn. unfold bytesToUint16, Atoi, dec5. rewrite ParseInt_format by lia.
  f_equal. by apply Z.mod_small.
Qed.

Lemma parseItag_hex8 n : 0 <= n < 2 ^ 32 -> parseItag (hex8 n) = Ok n.
Proof.
  intros Hn. unfold parseItag, hex8. rewrite ParseInt_format by lia.
  f_equal. by apply Z.mod_small.
Qed.

(** The body of a fragment, after the prefix with the instance tags. *)
Definition fragmentBody (i n : Z) (piece : list byte) : list byte :=
  dec5 (i + 1) ++ [comma] ++ dec5 n ++ [comma] ++ piece ++ [comma].

Lemma parseFragment_body i n piece :
  0 <= i -> i < n < 2 ^ 16 -> (comma ∉ piece) ->
  parseFragment (fragmentBody i n piece) = Some (piece, i + 1, n).
Proof.
  intros Hi Hn Hp. unfold parseFragment, fragmentBody. cbn [app].
  rewrite !Split_app by (done || apply dec5_no_comma). cbn [Split].
  by rewrite !bytesToUint16_dec5 by lia.
Qed.

Definition mkFragment (v : otrVersion) (c : Conversation) (i n : Z) (piece : list byte) : list byte :=
  (fragmentPrefix v i n (c_ourInstanceTag c) (c_theirInstanceTag c) ++ piece) ++ [comma].

Fixpoint mkFragments (v : otrVersion) (c : Conversation) (i n : Z) (ps : list (list byte)) : list (list byte) :=
  match ps with
  | [] => []
  | p :: ps' => mkFragment v c i n p :: mkFragments v c (i + 1) n ps'
  end.

(** The receiver strips the prefix of a fragment meant for it. *)
Lemma version_parseFragmentPrefix_strips v c r i n piece :
  tags_ok v c r ->
  version_parseFragmentPrefix v (mkFragment v c i n piece) r =
  Done ((fragmentBody i n piece, false, true), learnTag v c r).
Proof.
  intros Ht.
  unfold mkFragment, fragmentPrefix, version_parseFragmentPrefix.
  destruct v; unfold otrV2_fragmentPrefix, otrV3_fragmentPrefix, otrV2_parseFragmentPrefix, otrV3_parseFragmentPrefix.
  - rewrite <- !app_assoc, len_app. change (len otrv2FragmentationPrefix) with 5.
    pose proof (len_nonneg (dec5 (i + 1) ++ [comma] ++ dec5 n ++ [comma] ++ piece ++ [comma])).
    rewrite (proj2 (Z.ltb_ge _ _)) by lia. done.
  - pose proof Ht as Ht'. unfold tags_ok, minValidInstanceTag in Ht'. destruct Ht' as (Hct' & Hct & _).
    assert (length (hex8 (c_ourInstanceTag c)) = 8%nat) as L1 by (apply length_hex8; lia).
    assert (length (hex8 (c_theirInstanceTag c)) = 8%nat) as L2 by (apply length_hex8; lia).
    set (tag := otrv3FragmentationPrefix ++ hex8 (c_ourInstanceTag c) ++ [bar] ++ hex8 (c_theirInstanceTag c)).
    assert (length (tag ++ [comma]) = 23%nat) as Lh by (unfold tag; rewrite !length_app, L1, L2; done).
    match goal with |- context [len ?x] => replace x with ((tag ++ [comma]) ++ fragmentBody i n piece)
      by (unfold tag, fragmentBody; rewrite <- !app_assoc; done) end.
    pose proof (len_nonneg (fragmentBody i n piece)).
    rewrite len_app. unfold len at 1. rewrite Lh. rewrite (proj2 (Z.ltb_ge _ _)) by lia.
    rewrite <- Lh, take_app_length, drop_app_length.
    assert (comma ∉ tag) as Hcomma.
    { unfold tag. rewrite !elem_of_app. intros [Hin|[Hin|[Hin|Hin]]].
      - revert Hin. concrete_notin.
      - by apply hex8_no_comma in Hin.
      - revert Hin. concrete_notin.
      - by apply hex8_no_comma in Hin. }
    rewrite Split_app by done. cbn [head hd_error default from_option id]. unfold tag.
    change (otrv3FragmentationPrefix ++ hex8 (c_ourInstanceTag c) ++ [bar] ++ hex8 (c_theirInstanceTag c))
      with (bs "?OTR" ++ bar :: (hex8 (c_ourInstanceTag c) ++ bar :: hex8 (c_theirInstanceTag c))).
    rewrite !Split_app, Split_nosep by (apply hex8_no_bar || concrete_notin).
    rewrite !parseItag_hex8 by lia.
    by step_done (verifyInstanceTags_accepts c r Ht).
Qed.

Lemma parseFragmentPrefix_strips v c r i n piece :
  c_version r = Some v -> tags_ok v c r ->
  parseFragmentPrefix (mkFragment v c i n piece) r = Done ((fragmentBody i n piece, false, true), learnTag v c r).
Proof.
  intros Hv Ht. unfold parseFragmentPrefix, resolveVersionFromFragment.
  step_done (commitToVersionFrom_committed r v
    (versionBit (versionFromFragment (mkFragment v c i n piece))) Hv).
  step_done (theVersion_Some r v Hv). by apply version_parseFragmentPrefix_strips.
Qed.

Lemma receiveFragment_next v c r before i n piece :
  c_version r = Some v -> tags_ok v c r -> 0 <= i -> i < n < 2 ^ 16 -> (comma ∉ piece) ->
  receiveFragment before (mkFragment v c i n piece) r =
  Done ((nextFragment before piece (i + 1) n, None), learnTag v c r).
Proof.
  intros Hv Ht Hi Hn Hp. unfold receiveFragment.
  step_done (parseFragmentPrefix_strips v c r i n piece Hv Ht).
  by rewrite parseFragment_body by done.
Qed.

(** The context that has the first [i] of [n] fragments. *)
Definition has_prefix (i n : Z) (acc : list byte) (f : fragmentationContext) : Prop :=
  if i =? 0 then acc = [] else f = FragmentationContext acc i n.

Lemma nextFragment_extends i n acc f piece :
  0 <= i -> i < n < 2 ^ 16 -> has_prefix i n acc f ->
  nextFragment f piece (i + 1) n = FragmentationContext (acc ++ piece) (i + 1) n.
Proof.
  intros Hi Hn Hf. unfold nextFragment, fragmentIsInvalid, fragmentIsFirstMessage, has_prefix in *.
  destruct (Z.eqb_spec i 0) as [->|Hne].
  - subst acc. cbn [Z.add Z.eqb orb]. split_cmp; try lia. done.
  - subst f. unfold fragmentIsNextMessage. cbn [currentIndex currentLen].
    unfold u16. rewrite Z.mod_small, !Z.eqb_refl by lia. split_cmp; try lia. done.
Qed.

Lemma learnTag_keeps v c r : c_version (learnTag v c r) = c_version r.
Proof. by destruct v. Qed.

Lemma learnTag_tags_ok v c r : tags_ok v c r -> tags_ok v c (learnTag v c r).
Proof. destruct v; [done|]. intros (? & ? & ?). repeat split; try lia; auto. Qed.

Lemma learnTag_idem v c r : learnTag v c (learnTag v c r) = learnTag v c r.
Proof. by destruct v, r. Qed.

Lemma receiveFragments_all v c n ps : forall r i acc f,
  c_version r = Some v -> tags_ok v c r -> 0 <= i -> ps <> [] -> i + len ps = n -> n < 2 ^ 16 ->
  Forall (fun p => (comma ∉ p)) ps -> has_prefix i n acc f ->
  receiveFragments f (mkFragments v c i n ps) r =
  Done (FragmentationContext (acc ++ concat ps) n n, learnTag v c r).
Proof.
  induction ps as [|p ps IH]; intros r i acc f Hv Ht Hi Hne Hlen Hn Hps Hf; [done|].
  rewrite len_cons in Hlen. pose proof (len_nonneg ps). apply Forall_cons in Hps as [Hp Hps].
  cbn [mkFragments receiveFragments].
  step_done (receiveFragment_next v c r f i n p Hv Ht Hi ltac:(lia) Hp).
  cbn [fst]. rewrite (nextFragment_extends i n acc f p) by (done || lia).
  destruct ps as [|p' ps].
  - cbn [mkFragments receiveFragments concat]. rewrite app_nil_r. unfold len in Hlen. cbn in Hlen.
    by replace (i + 1) with n by lia.
  - rewrite (IH (learnTag v c r) (i + 1) (acc ++ p)); [|by rewrite learnTag_keeps|by apply learnTag_tags_ok|lia|done|lia|done|done|].
    + by rewrite learnTag_idem, <- app_assoc.
    + unfold has_prefix. destruct (Z.eqb_spec (i + 1) 0); [lia|done].
Qed.

(** The slices cover the data, and none is longer than the fragment length. *)
Lemma fragmentLoop_pieces v c data n real : forall k i,
  0 < real -> 0 <= i -> i + Z.of_nat k = n -> n * real < 2 ^ 16 -> (n - 1) * real <= len data < n * real ->
  exists ps, fragmentLoop k v c data i n real = Done (mkFragments v c i n ps) /\
    length ps = k /\ concat ps = drop (Z.to_nat (i * real)) data /\ Forall (fun p => len p <= real) ps.
Proof.
  induction k as [|k IH]; intros i Hreal Hi Hn Hw Hl.
  - exists []. rewrite drop_ge by (unfold len in *; nia). done.
  - assert (i * real <= len data) by nia. assert (0 <= i * real) by nia.
    assert ((i + 1) * real < 2 ^ 16) by nia.
    destruct (IH (i + 1)) as (ps & Hloop & Hlen & Hcat & Hps); try (done || lia).
    assert (fragmentData data i real (u16 (len data)) =
            Done (take (Z.to_nat real) (drop (Z.to_nat (i * real)) data))) as Hd.
    { unfold fragmentData, fragmentStart, fragmentEnd, min16, u16.
      rewrite (Z.mod_small i), (Z.mod_small (i * real)), (Z.mod_small (i + 1)), (Z.mod_small (len data)),
        (Z.mod_small ((i + 1) * real)) by nia.
      destruct (Z.ltb_spec ((i + 1) * real) (len data)).
      - rewrite Z.mod_small, slice_ok by nia. do 2 f_equal. lia.
      - rewrite Z.mod_small, slice_ok by nia. f_equal. rewrite !take_ge; [done|..];
          rewrite length_drop; unfold len in *; nia. }
    cbn [fragmentLoop]. rewrite Hd. go_simpl. rewrite Hloop.
    exists (take (Z.to_nat real) (drop (Z.to_nat (i * real)) data) :: ps).
    split; [done|]. split; [simpl; lia|]. split.
    + cbn [concat]. rewrite Hcat, Z.mul_add_distr_r, Z.mul_1_l, Z2Nat.inj_add, <- drop_drop by lia.
      apply take_drop.
    + constructor; [|done]. unfold len. rewrite length_take. lia.
Qed.

(** The length of the fragment header of each version. *)
Definition prefixLen (v : otrVersion) : Z := match v with otrV2 => 17 | otrV3 => 35 end.

Definition sender_tags (v : otrVersion) (c : Conversation) : Prop :=
  match v with
  | otrV2 => True
  | otrV3 => 0 <= c_ourInstanceTag c < 2 ^ 32 /\ 0 <= c_theirInstanceTag c < 2 ^ 32
  end.

Lemma tags_ok_sender v c r : tags_ok v c r -> sender_tags v c.
Proof. destruct v; [done|]. unfold tags_ok, sender_tags, minValidInstanceTag. lia. Qed.

Lemma len_fragmentPrefix v c i n : sender_tags v c -> 0 <= i + 1 < 2 ^ 16 -> 0 <= n < 2 ^ 16 ->
  len (fragmentPrefix v i n (c_ourInstanceTag c) (c_theirInstanceTag c)) = prefixLen v.
Proof.
  intros Ht Hi Hn. unfold fragmentPrefix, otrV2_fragmentPrefix, otrV3_fragmentPrefix, len.
  destruct v; rewrite !length_app, !length_dec5 by lia; [done|].
  cbn [sender_tags] in Ht. rewrite !length_hex8 by lia. done.
Qed.

Lemma realFraglen_eq v c size : sender_tags v c -> realFraglen v c size = u16 (u16 (size - prefixLen v) - 1).
Proof.
  intros Ht. unfold realFraglen. rewrite len_fragmentPrefix by (done || lia). by destruct v.
Qed.

Lemma len_mkFragments v c n ps : forall i, sender_tags v c -> 0 <= i -> i + len ps <= n -> n < 2 ^ 16 ->
  Forall2 (fun m p => len m = prefixLen v + len p + 1) (mkFragments v c i n ps) ps.
Proof.
  induction ps as [|p ps IH]; intros i Ht Hi Hl Hn; cbn [mkFragments]; [constructor|].
  rewrite len_cons in Hl. pose proof (len_nonneg ps). constructor; [|apply IH; done || lia].
  unfold mkFragment. rewrite !len_app, len_fragmentPrefix by (done || lia). done.
Qed.

Lemma fragment_eq v c data size real :
  c_version c = Some v -> 0 < size < len data -> realFraglen v c size = real -> 0 < real ->
  fragment data size c =
  glift (fragmentLoop (Z.to_nat (len data / real + 1)) v c data 0 (len data / real + 1) real) c.
Proof.
  intros Hv Hs Hr Hpos. unfold fragment.
  rewrite (bind_done gget _ c c c eq_refl). rewrite (proj2 (Z.leb_gt _ _)) by lia.
  rewrite (proj2 (Z.eqb_neq _ _)) by lia. cbn [orb].
  step_done (theVersion_Some c v Hv). rewrite Hr, (proj2 (Z.leb_gt _ _)) by lia. done.
Qed.

Lemma chunks_bounds l real : 0 < real -> (l / real + 1 - 1) * real <= l < (l / real + 1) * real.
Proof. intros. pose proof (Z.div_mod l real). pose proof (Z.mod_pos_bound l real). nia. Qed.

(** A round of the loop that panics makes the whole loop panic. *)
Lemma fragmentLoop_panics v c data n real : forall k i j,
  0 <= j < Z.of_nat k -> fragmentData data (i + j) real (u16 (len data)) = Panicked SliceBounds ->
  fragmentLoop k v c data i n real = Panicked SliceBounds.
Proof.
  induction k as [|k IH]; intros i j Hj Hp; [lia|]. cbn [fragmentLoop]. go_simpl.
  destruct (fragmentData data i real (u16 (len data))) as [piece|p] eqn:E.
  - destruct (Z.eq_dec j 0) as [->|Hn]; [by rewrite Z.add_0_r, E in Hp|].
    by rewrite (IH (i + 1) (j - 1)) by (lia || by replace (i + 1 + (j - 1)) with (i + j) by lia).
  - unfold fragmentData, slice in E. by destruct (_ && _); simplify_eq.
Qed.

(** ** Theorems *)

(** C20: a message that is cut into fragments arrives whole: within the range
    where the 16-bit arithmetic does not wrap, every fragment is at most the
    fragment size, and a peer that receives them in order, whatever it had
    collected before, completes exactly the message. *)
Theorem fragment_roundtrip v c r before data size :
  let real := size - prefixLen v - 1 in
  c_version c = Some v -> c_version r = Some v -> tags_ok v c r -> (comma ∉ data) ->
  0 < real -> size < len data -> (len data / real + 1) * real < 2 ^ 16 ->
  exists frags f r',
    fragment data size c = Done (frags, c) /\
    Forall (fun m => len m <= size) frags /\
    receiveFragments before frags r = Done (f, r') /\
    fragmentsFinished f = true /\ frag f = data.
Proof.
  intros real Hvc Hvr Ht Hcomma Hreal Hsize Hw.
  pose proof (chunks_bounds (len data) real Hreal) as Hb. set (n := len data / real + 1) in *.
  assert (0 < prefixLen v) by (by destruct v). assert (real < 2 ^ 16) by nia. assert (1 <= n < 2 ^ 16) by nia.
  assert (realFraglen v c size = real) as Hrf.
  { rewrite realFraglen_eq by (by eapply tags_ok_sender). unfold u16.
    rewrite (Z.mod_small (size - _)), Z.mod_small by (destruct v; unfold real, prefixLen in *; nia). done. }
  destruct (fragmentLoop_pieces v c data n real (Z.to_nat n) 0) as (ps & Hloop & Hlen & Hcat & Hps); try (done || lia).
  assert (len ps = n) as Hlp by (unfold len; lia).
  assert (Forall (fun p => (comma ∉ p)) ps) as Hpc.
  { apply Forall_forall. intros p Hp Hin. apply Hcomma. change data with (drop (Z.to_nat 0) data).
    change (Z.to_nat (0 * real)) with (Z.to_nat 0) in Hcat. rewrite <- Hcat.
    apply list_elem_of_In, in_concat. exists p. by rewrite <- !list_elem_of_In. }
  exists (mkFragments v c 0 n ps), (FragmentationContext data n n), (learnTag v c r).
  split; [|split; [|split; [|split]]].
  - rewrite (fragment_eq v c data size real) by (done || lia). fold n. unfold glift. by rewrite Hloop.
  - eapply Forall2_Forall_l; [apply (len_mkFragments v c n ps 0); (by eapply tags_ok_sender) || lia|].
    eapply Forall_impl; [exact Hps|]. intros p Hp m Hm. unfold real in *. lia.
  - rewrite (receiveFragments_all v c n ps r 0 [] before); try (done || lia).
    + cbn [app]. rewrite Hcat. done.
    + intros ->. unfold len in Hlp. simpl in Hlp. lia.
  - unfold fragmentsFinished. cbn [currentIndex currentLen]. rewrite Z.eqb_refl. split_cmp; [done|lia].
  - done.
Qed.

Definition example_sender : Conversation :=
  (new_conversation (Some otrV3) 0 [] [] 0 0) <| c_ourInstanceTag := 0x1234 |>.
Definition example_receiver : Conversation :=
  (new_conversation (Some otrV3) 0 [] [] 0 0) <| c_ourInstanceTag := 0x5678 |>.

Lemma fragment_roundtrip_witness : exists frags f r',
  fragment (replicate 50 Byte.x41) 46 example_sender = Done (frags, example_sender) /\ length frags = 6%nat /\
  receiveFragments forgetFragment frags example_receiver = Done (f, r') /\ frag f = replicate 50 Byte.x41.
Proof.
  destruct (fragment_roundtrip otrV3 example_sender example_receiver forgetFragment (replicate 50 Byte.x41) 46)
    as (frags & f & r' & Hf & _ & Hr & _ & Hd); try reflexivity.
  - vm_compute. repeat split; try discriminate; by left.
  - concrete_notin.
  - exists frags, f, r'. split; [exact Hf|]. split; [|split; [exact Hr|exact Hd]].
    vm_compute in Hf. injection Hf as <-. reflexivity.
Defined.

(** A fragment size that the header alone fills is not honoured: the
    subtraction wraps around, and a message longer than that size comes out as
    one fragment that is longer than the message itself. *)
Theorem fragment_size_underflow v c data size :
  c_version c = Some v -> sender_tags v c -> 0 < size <= prefixLen v ->
  size < len data < 2 ^ 16 + size - prefixLen v - 1 ->
  exists m, fragment data size c = Done ([m], c) /\ size < len data < len m.
Proof.
  intros Hv Ht Hs Hl. set (real := 2 ^ 16 + size - prefixLen v - 1) in *.
  assert (realFraglen v c size = real) as Hr.
  { rewrite realFraglen_eq by done. unfold real, u16. destruct v; cbn [prefixLen] in *; dlia. }
  assert (0 < real) by lia. assert (len data / real = 0) as Hz by (apply Z.div_small; lia).
  exists (mkFragment v c 0 1 data). split.
  - rewrite (fragment_eq v c data size real), Hz by (done || lia). change (Z.to_nat (0 + 1)) with 1%nat.
    cbn [fragmentLoop]. assert (fragmentData data 0 real (u16 (len data)) = Done data) as ->; [|done].
    unfold fragmentData, fragmentStart, fragmentEnd, min16. rewrite Z.mul_0_l.
    assert (u16 (len data) = len data) as Hu by (apply Z.mod_small; destruct v; cbn [prefixLen] in *; lia).
    change (u16 (u16 0 + 1)) with 1. rewrite Z.mul_1_l.
    assert (u16 real = real) as -> by (apply Z.mod_small; destruct v; cbn [prefixLen] in *; lia).
    rewrite Hu, (proj2 (Z.ltb_ge _ _)), Hu by lia. change (u16 0) with 0.
    rewrite slice_ok, take_ge, drop_0; [done| |lia|lia]. rewrite drop_0. unfold len. lia.
  - unfold mkFragment. rewrite !len_app, len_fragmentPrefix by (done || lia).
    change (len [comma]) with 1. destruct v; cbn [prefixLen] in *; lia.
Qed.

Lemma fragment_size_underflow_witness : exists m,
  fragment (replicate 50 Byte.x41) 20 example_sender = Done ([m], example_sender) /\ 20 < 50 < len m.
Proof.
  apply (fragment_size_underflow otrV3 example_sender (replicate 50 Byte.x41) 20).
  - reflexivity.
  - vm_compute. repeat split; discriminate.
  - vm_compute. repeat split; discriminate.
  - vm_compute. repeat split; discriminate.
Defined.

(** C40: a message just below 64 KiB makes the fragmentation panic: the end of
    the last fragment wraps around below its start. *)
Theorem fragment_overflow_panics v c data size :
  let real := size - prefixLen v - 1 in
  c_version c = Some v -> sender_tags v c -> 0 < real -> size < len data < 2 ^ 16 ->
  2 ^ 16 <= (len data / real + 1) * real ->
  fragment data size c = Panicked SliceBounds.
Proof.
  intros real Hv Ht Hreal Hsize Hw. pose proof (chunks_bounds (len data) real Hreal) as Hb.
  set (n := len data / real + 1) in *. assert (0 < prefixLen v) by (by destruct v).
  assert (0 < n) by nia. assert (n <= 2 ^ 16) by nia.
  assert (realFraglen v c size = real) as Hrf.
  { rewrite realFraglen_eq by done. unfold u16.
    rewrite (Z.mod_small (size - _)), Z.mod_small by (unfold real in *; lia). done. }
  rewrite (fragment_eq v c data size real) by (done || lia). fold n. unfold glift.
  rewrite (fragmentLoop_panics v c data n real (Z.to_nat n) 0 (n - 1)); [done|lia|].
  unfold fragmentData, fragmentStart, fragmentEnd, min16. rewrite Z.add_0_l.
  apply slice_panics. right. left. unfold u16.
  rewrite (Z.mod_small (n - 1)) by lia. replace (n - 1 + 1) with n by lia.
  rewrite (Z.mod_small ((n - 1) * real)) by nia. rewrite (Z.mod_small (len data)) by lia.
  assert ((n * real) mod 2 ^ 16 = n * real - 2 ^ 16) as Hm by (symmetry; apply (Z.mod_unique_pos _ _ 1); nia).
  assert ((n mod 2 ^ 16 * real) mod 2 ^ 16 = n * real - 2 ^ 16) as -> by (by rewrite Z.mul_mod_idemp_l).
  rewrite (proj2 (Z.ltb_lt _ _)) by nia. rewrite Z.mod_small by nia. nia.
Qed.

Lemma fragment_overflow_panics_witness :
  fragment (replicate (Z.to_nat 65500) Byte.x41) 200 example_sender = Panicked SliceBounds.
Proof.
  assert (len (replicate (Z.to_nat 65500) Byte.x41) = 65500) as Hl
    by (unfold len; rewrite length_replicate, Z2Nat.id; [reflexivity|lia]).
  apply (fragment_overflow_panics otrV3 example_sender (replicate (Z.to_nat 65500) Byte.x41) 200); rewrite ?Hl.
  - reflexivity.
  - vm_compute. repeat split; discriminate.
  - reflexivity.
  - vm_compute. repeat split.
  - vm_compute. discriminate.
Defined.
