(* ===== verification/SmpMachine.v ===== *)
(** * The SMP state machine: smp_state_machine.go, the methods of [smp] in smp.go

    Each handler of the interface [smpState] is one definition by cases on the
    state; a state that does not define a handler inherits the one of
    [smpStateBase]. *)

From S2P Require Import Prelude GoLib Gotrax Policy Crypto KeyManagement Messages Smp Keys Conversation.

(** What a handler returns: the next state, the reply and the error. *)
Definition smpOutcome : Type := smpState * option smpMessage * option error.

(** ** smp.go *)

Definition smp_wipe : M unit := gmod (fun c => c <| c_smp := empty_smp |>).

Definition ensureSMP : M unit :=
  gmod (fun c => match smp_state (c_smp c) with
                 | Some _ => c
                 | None => c <| c_smp := (c_smp c) <| smp_state := Some smpStateExpect1 |> |>
                 end).

Definition SMPQuestion (c : Conversation) : list byte * bool :=
  match smp_question (c_smp c) with Some q => (q, true) | None => ([], false) end.

Definition modSMP (f : smp -> smp) : M unit := gmod (fun c => c <| c_smp := f (c_smp c) |>).

(** [c.theirKey] and [c.ourCurrentKey] used as receivers. *)
Definition theTheirKey : M PublicKey := c ← gget; glift (deref (c_theirKey c)).
Definition theOurKey : M PrivateKey := c ← gget; glift (deref (c_ourCurrentKey c)).

(** ** Aborting *)

Definition abortState (e : option error) : smpOutcome := (smpStateExpect1, Some SMPAbort, e).
Definition sendSMPAbortAndRestartStateMachine : smpOutcome := abortState None.

Definition abortStateMachineAndNotifyCheated : M smpOutcome :=
  _ ← smpEvent SMPEventCheated 0; mret sendSMPAbortAndRestartStateMachine.

Definition abortStateMachineAndNotifyError : M smpOutcome :=
  _ ← smpEvent SMPEventError 0; mret sendSMPAbortAndRestartStateMachine.

Definition restartSMP : M tlv :=
  _ ← modSMP (fun s => s <| smp_state := Some smpStateExpect1 |>); mret smpAbort_tlv.

Section Machine.
Context `{DHGroup} `{Crypto}.

(** A generator of smp_msg1.go to smp_msg4.go run on the conversation's reader. *)
Definition withRand {A} (f : list byte -> go (result A * list byte)) : M (result A) := fun c =>
  match f (c_Rand c) with
  | Done (a, r) => Done (a, c <| c_Rand := r |>)
  | Panicked p => Panicked p
  end.

(** ** Handlers *)

Definition receiveMessage1 (s : smpState) (m : smp1Message) : M smpOutcome :=
  match s with
  | smpStateExpect1 =>
      v ← theVersion;
      match verifySMP1 v m with
      | Some _ => abortStateMachineAndNotifyCheated
      | None =>
          _ ← (if hasQuestion m then
                 _ ← modSMP (fun s => s <| smp_question := Some (question m) |>);
                 smpEventWithQuestion SMPEventAskForAnswer 25 (question m)
               else smpEvent SMPEventAskForSecret 25);
          mret (smpStateWaitingForSecret m, None, None)
      end
  | _ => abortStateMachineAndNotifyError
  end.

Definition continueMessage1 (s : smpState) (mutualSecret : list byte) : M smpOutcome :=
  match s with
  | smpStateWaitingForSecret msg =>
      c ← gget;
      if negb (IsEncrypted c) then mret (abortState (Some errCantAuthenticateWithoutEncryption))
      else
        their ← theTheirKey; our ← theOurKey; v ← theVersion;
        let secret := generateSMPSecret (Fingerprint their) (Fingerprint (PublicKey_of our)) (c_ssid c) mutualSecret v in
        _ ← modSMP (fun s => s <| smp_secret := Some secret |>);
        s2 ← withRand (fun r => mret (generateSMP2 secret msg v r));
        match s2 with
        | Err _ => abortStateMachineAndNotifyCheated
        | Ok s2 =>
            _ ← modSMP (fun s => s <| smp_s2 := Some s2 |>);
            mret (smpStateExpect3, Some (SMP2 (s2_msg s2)), None)
        end
  | _ => mret (abortState (Some errNotWaitingForSMPSecret))
  end.

Definition receiveMessage2 (s : smpState) (m : smp2Message) : M smpOutcome :=
  match s with
  | smpStateExpect2 =>
      c ← gget; v ← theVersion;
      err ← glift (verifySMP2 v (smp_s1 (c_smp c)) m);
      match err with
      | Some _ => abortStateMachineAndNotifyCheated
      | None =>
          s1 ← glift (deref (smp_s1 (c_smp c)));
          s3 ← withRand (generateSMP3 (smp_secret (c_smp c)) s1 m v);
          match s3 with
          | Err _ => abortStateMachineAndNotifyCheated
          | Ok s3 =>
              _ ← smpEvent SMPEventInProgress 60;
              _ ← modSMP (fun s => s <| smp_s3 := Some s3 |>);
              mret (smpStateExpect4, Some (SMP3 (s3_msg s3)), None)
          end
      end
  | _ => abortStateMachineAndNotifyError
  end.

Definition receiveMessage3 (s : smpState) (m : smp3Message) : M smpOutcome :=
  match s with
  | smpStateExpect3 =>
      c ← gget; v ← theVersion;
      err ← glift (verifySMP3 v (smp_s2 (c_smp c)) m);
      match err with
      | Some _ => abortStateMachineAndNotifyCheated
      | None =>
          err ← glift (verifySMP3ProtocolSuccess (smp_s2 (c_smp c)) m);
          match err with
          | Some _ => _ ← smpEvent SMPEventFailure 100; mret sendSMPAbortAndRestartStateMachine
          | None =>
              _ ← smpEvent SMPEventSuccess 100;
              s2 ← glift (deref (smp_s2 (c_smp c)));
              ret ← withRand (generateSMP4 (smp_secret (c_smp c)) s2 m v);
              match ret with
              | Err _ => abortStateMachineAndNotifyCheated
              | Ok ret => _ ← smp_wipe; mret (smpStateExpect1, Some (SMP4 (s4_msg ret)), None)
              end
          end
      end
  | _ => abortStateMachineAndNotifyError
  end.

Definition receiveMessage4 (s : smpState) (m : smp4Message) : M smpOutcome :=
  match s with
  | smpStateExpect4 =>
      c ← gget; v ← theVersion;
      err ← glift (verifySMP4 v (smp_s3 (c_smp c)) m);
      match err with
      | Some _ => abortStateMachineAndNotifyCheated
      | None =>
          err ← glift (verifySMP4ProtocolSuccess (smp_s1 (c_smp c)) (smp_s3 (c_smp c)) m);
          match err with
          | Some _ => _ ← smpEvent SMPEventFailure 100; mret sendSMPAbortAndRestartStateMachine
          | None =>
              _ ← smpEvent SMPEventSuccess 100;
              _ ← smp_wipe;
              mret (smpStateExpect1, None, None)
          end
      end
  | _ => abortStateMachineAndNotifyError
  end.

(** ** Dispatch *)

(** [c.smp.state, ret, err = c.smp.state.handler(c, ...)]; calling a method of
    a nil interface panics. *)
Definition runHandler (h : smpState -> M smpOutcome) : M (option smpMessage * option error) :=
  c ← gget;
  s ← glift (deref (smp_state (c_smp c)));
  o ← h s;
  let '(s', ret, err) := o : smpOutcome in
  _ ← modSMP (fun x => x <| smp_state := Some s' |>);
  mret (ret, err).

Definition receivedMessage (m : smpMessage) : M (option smpMessage * option error) :=
  match m with
  | SMP1 m => runHandler (fun s => receiveMessage1 s m)
  | SMP2 m => runHandler (fun s => receiveMessage2 s m)
  | SMP3 m => runHandler (fun s => receiveMessage3 s m)
  | SMP4 m => runHandler (fun s => receiveMessage4 s m)
  | SMPAbort =>
      _ ← modSMP (fun s => s <| smp_state := Some smpStateExpect1 |>);
      _ ← smpEvent SMPEventAbort 0;
      mret (None, None)
  end.

Definition continueMessage (mutualSecret : list byte) : M (option smpMessage * option error) :=
  runHandler (fun s => continueMessage1 s mutualSecret).

Definition receiveSMP (m : smpMessage) : M (result (option tlv)) :=
  r ← receivedMessage m;
  match r with
  | (_, Some e) => mret (Err e)
  | (None, None) => mret (Ok None)
  | (Some toSend, None) => mret (Ok (Some (smpMessage_tlv toSend)))
  end.

Definition continueSMP (mutualSecret : list byte) : M (result tlv) :=
  r ← continueMessage mutualSecret;
  match r with
  | (_, Some e) => mret (Err e)
  | (toSend, None) => toSend ← glift (deref toSend); mret (Ok (smpMessage_tlv toSend))
  end.

(** ** Starting *)

Definition startAuthenticateExpect1 (question mutualSecret : list byte) : M (result (list tlv)) :=
  c ← gget;
  if negb (IsEncrypted c) then mret (Err errCantAuthenticateWithoutEncryption)
  else
    our ← theOurKey; their ← theTheirKey; v ← theVersion;
    let secret := generateSMPSecret (Fingerprint (PublicKey_of our)) (Fingerprint their) (c_ssid c) mutualSecret v in
    _ ← modSMP (fun s => s <| smp_secret := Some secret |>);
    s1 ← withRand (fun r => mret (generateSMP1 v r));
    match s1 with
    | Err _ => mret (Err errShortRandomRead)
    | Ok s1 =>
        let s1 := if bool_decide (question = []) then s1
                  else s1 <| s1_msg := Smp1Message (m1_g2a (s1_msg s1)) (m1_g3a (s1_msg s1)) (m1_c2 (s1_msg s1))
                               (m1_c3 (s1_msg s1)) (m1_d2 (s1_msg s1)) (m1_d3 (s1_msg s1)) true question |> in
        _ ← modSMP (fun s => s <| smp_s1 := Some s1 |> <| smp_state := Some smpStateExpect2 |>);
        mret (Ok [smp1_tlv (s1_msg s1)])
    end.

Definition startAuthenticate (s : smpState) (question mutualSecret : list byte) : M (result (list tlv)) :=
  match s with
  | smpStateExpect1 => startAuthenticateExpect1 question mutualSecret
  | _ => tlvs ←? startAuthenticateExpect1 question mutualSecret; mret (Ok (smpAbort_tlv :: tlvs))
  end.

End Machine.

(** ** The invariant of the machine *)

Section Invariant.
Context `{DHGroup} `{Crypto}.

(** Invertible modulo [p]. *)
Definition unit_mod_p (n : Z) : Prop := Z.gcd n dh_p = 1.

(** What each state needs: the values its handler dereferences are there, and
    those it divides by are invertible. *)
Definition smp_state_ok (x : smp) (s : smpState) : Prop :=
  match s with
  | smpStateExpect1 => True
  | smpStateWaitingForSecret m => isGroupElement (m1_g2a m) = true /\ isGroupElement (m1_g3a m) = true
  | smpStateExpect2 => is_Some (smp_s1 x) /\ is_Some (smp_secret x)
  | smpStateExpect3 => exists s2, smp_s2 x = Some s2 /\ unit_mod_p (s2_qb s2) /\ unit_mod_p (s2_pb s2)
  | smpStateExpect4 => is_Some (smp_s1 x) /\ is_Some (smp_s3 x)
  end.

Definition smp_ok (x : smp) : Prop := match smp_state x with None => True | Some s => smp_state_ok x s end.

Definition smp_inv (c : Conversation) : Prop :=
  c_version c = Some otrV3 /\
  (c_msgState c = encrypted -> is_Some (c_theirKey c) /\ is_Some (c_ourCurrentKey c)) /\
  smp_ok (c_smp c).

(** The entry points of the machine: a TLV of the peer, the user's secret, the
    user's request, an abort and the end of the conversation. *)
Inductive smp_input :=
  | InMessage (m : smpMessage)
  | InSecret (mutualSecret : list byte)
  | InStart (question mutualSecret : list byte)
  | InAbort
  | InWipe.

Definition smp_run (i : smp_input) : M unit :=
  match i with
  | InMessage m => _ ← ensureSMP; _ ← receiveSMP m; mret tt
  | InSecret secret => _ ← continueSMP secret; mret tt
  | InStart q secret =>
      _ ← ensureSMP; c ← gget; s ← glift (deref (smp_state (c_smp c)));
      _ ← startAuthenticate s q secret; mret tt
  | InAbort => _ ← restartSMP; mret tt
  | InWipe => smp_wipe
  end.

End Invariant.

(** ** Lemmas *)

Section Safety.
Context `{DHGroup} `{Crypto}.
Hypothesis p_prime : Z.prime dh_p.
Hypothesis g1_range : 2 <= dh_g1 < dh_p.

Lemma p_nz : dh_p <> 0.
Proof. pose proof (Z.prime_ge_2 _ p_prime). lia. Qed.

Lemma unit_iff n : unit_mod_p n <-> ~ (dh_p | n).
Proof. unfold unit_mod_p. rewrite Z.gcd_comm. apply Z.coprime_prime_l_iff, p_prime. Qed.

Lemma unit_mod n : unit_mod_p (n mod dh_p) <-> unit_mod_p n.
Proof. unfold unit_mod_p. by rewrite Z.gcd_mod_l. Qed.

Lemma unit_mul a b : unit_mod_p a -> unit_mod_p b -> unit_mod_p (a * b).
Proof. rewrite !unit_iff, Z.divide_prime_mul by done. tauto. Qed.

Lemma unit_pow a n : unit_mod_p a -> 0 <= n -> unit_mod_p (a ^ n).
Proof.
  intros Ha Hn. pattern n. apply natlike_ind; [|clear n Hn|done].
  - rewrite Z.pow_0_r. apply Z.gcd_1_l.
  - intros n Hn IH. rewrite Z.pow_succ_r by done. by apply unit_mul.
Qed.

Lemma unit_modExp a n : unit_mod_p a -> 0 <= n -> unit_mod_p (modExp a n).
Proof. intros. rewrite modExp_spec by apply p_nz. rewrite unit_mod. by apply unit_pow. Qed.

Lemma unit_mulMod a b : unit_mod_p a -> unit_mod_p b -> unit_mod_p (mulMod a b dh_p).
Proof. intros. unfold mulMod, bn_mul. rewrite unit_mod. by apply unit_mul. Qed.

Lemma unit_g1 : unit_mod_p dh_g1.
Proof. unfold unit_mod_p. rewrite Z.gcd_comm. apply Z.coprime_prime_small; [done|lia]. Qed.

Lemma unit_element n : isGroupElement n = true -> unit_mod_p n.
Proof. intros. apply isGroupElement_coprime; [done|lia|done]. Qed.

Lemma randMPIs_nonneg n r size : Forall (Z.le 0) (map result_value (fst (randMPIs n r size))).
Proof.
  revert r; induction n as [|n IH]; intros r; [constructor|]. cbn [randMPIs].
  destruct (randSizedMPI r size) as [x r1] eqn:Ex. specialize (IH r1).
  destruct (randMPIs n r1 size) as [xs r2]. cbn [fst map] in *. constructor; [|done].
  unfold randSizedMPI in Ex. destruct (randomInto r size) as [[b|e] r'].
  - injection Ex as <- _. apply SetBytes_nonneg.
  - by injection Ex as <- _.
Qed.

(** The responder's values are invertible when the initiator's are. *)
Lemma generateSMP2_units secret m1 r s2 r' :
  0 <= secret -> unit_mod_p (m1_g2a m1) -> unit_mod_p (m1_g3a m1) ->
  generateSMP2 secret m1 otrV3 r = (Ok s2, r') -> unit_mod_p (s2_qb s2) /\ unit_mod_p (s2_pb s2).
Proof.
  intros Hs H2 H3. unfold generateSMP2, generateSMP2Parameters.
  pose proof (randMPIs_nonneg 7 r (Z.to_nat (parameterLength otrV3))) as Hn.
  destruct (randMPIs _ _ _) as [xs r1]. cbn [fst] in Hn.
  destruct (firstError _); [done|].
  destruct (map result_value xs) as [|b2 [|b3 [|r2 [|r3 [|r4 [|r5 [|r6 [|? ?]]]]]]]]; try done.
  repeat (apply Forall_cons in Hn as [? Hn]).
  destruct (generateSMP2Message _ m1 otrV3) as [s2' msg] eqn:E. intros [= <- <-].
  unfold generateSMP2Message, generateZKP in E. cbv beta iota zeta in E. injection E as <- _.
  cbn [upd s2_qb s2_pb s2_b2 s2_b3 s2_r4 s2_y].
  pose proof unit_g1. auto using unit_mulMod, unit_modExp.
Qed.

Lemma generateSMPSecret_nonneg a b ssid s v : 0 <= generateSMPSecret a b ssid s v.
Proof. apply SetBytes_nonneg. Qed.

Lemma divMod_unit l r : unit_mod_p r -> exists z, divMod l r dh_p = Done z.
Proof. apply divMod_coprime. Qed.

(** What the machine leaves alone. *)
Definition same_session (c c' : Conversation) : Prop :=
  c_version c' = c_version c /\ c_msgState c' = c_msgState c /\
  c_theirKey c' = c_theirKey c /\ c_ourCurrentKey c' = c_ourCurrentKey c.

Lemma same_session_trans c1 c2 c3 : same_session c1 c2 -> same_session c2 c3 -> same_session c1 c3.
Proof. unfold same_session. intros (? & ? & ? & ?) (? & ? & ? & ?). repeat split; congruence. Qed.

Lemma wp_logEvent installed e c (P : unit -> Conversation -> Prop) :
  (forall c', same_session c c' -> c_smp c' = c_smp c -> P tt c') -> wp (logEvent installed e) c P.
Proof. intros HP. unfold logEvent. wp_step. destruct (installed c); by apply HP. Qed.

Lemma wp_theVersion c v (P : otrVersion -> Conversation -> Prop) : c_version c = Some v -> P v c -> wp theVersion c P.
Proof. intros Hv HP. eapply wp_done; [by apply theVersion_Some|done]. Qed.

Lemma wp_withRand {A} (f : list byte -> go (result A * list byte)) c (P : result A -> Conversation -> Prop) a r :
  f (c_Rand c) = Done (a, r) -> P a (c <| c_Rand := r |>) -> wp (withRand f) c P.
Proof. intros Hf HP. unfold wp, withRand. by rewrite Hf. Qed.

(** The outcome of a handler fits the state it leaves. *)
Definition outcome_ok (c : Conversation) (o : smpOutcome) (c' : Conversation) : Prop :=
  same_session c c' /\ smp_state_ok (c_smp c') o.1.1.

Lemma wp_abort_cheated c : wp abortStateMachineAndNotifyCheated c (outcome_ok c).
Proof. unfold abortStateMachineAndNotifyCheated. wp_step. apply wp_logEvent. intros c' Hs _. by wp_step. Qed.

Lemma wp_abort_error c : wp abortStateMachineAndNotifyError c (outcome_ok c).
Proof. unfold abortStateMachineAndNotifyError. wp_step. apply wp_logEvent. intros c' Hs _. by wp_step. Qed.

Lemma outcome_ok_trans c1 c2 o c3 : same_session c1 c2 -> outcome_ok c2 o c3 -> outcome_ok c1 o c3.
Proof. intros H1 [H2 H3]. split; [by eapply same_session_trans|done]. Qed.

Lemma wp_receiveMessage1 c s m : c_version c = Some otrV3 -> wp (receiveMessage1 s m) c (outcome_ok c).
Proof.
  intros Hv. destruct s; unfold receiveMessage1, modSMP; try apply wp_abort_error.
  wp_step. apply (wp_theVersion _ _ _ Hv). destruct (verifySMP1 otrV3 m) eqn:E; [apply wp_abort_cheated|].
  assert (smp_state_ok (c_smp c) (smpStateWaitingForSecret m)) as Hok.
  { unfold verifySMP1 in E. cbn [version_isGroupElement] in E.
    by do 2 apply firstFailure_cons_None in E as [? E]. }
  wp_step. destruct (hasQuestion m); repeat wp_step; apply wp_logEvent; intros c' Hs Hc; by wp_step.
Qed.

Lemma wp_continueMessage1 c s secret : smp_inv c -> smp_state_ok (c_smp c) s -> wp (continueMessage1 s secret) c (outcome_ok c).
Proof.
  intros (Hv & Hkeys & _) Hok. destruct s as [| | | |m]; unfold continueMessage1, modSMP; try by wp_step.
  do 2 wp_step. unfold IsEncrypted. destruct (bool_decide_reflect (c_msgState c = encrypted)) as [He|]; cbn [negb]; [|by wp_step].
  destruct (Hkeys He) as [[tk Ht] [ok Ho]]. unfold theTheirKey, theOurKey.
  repeat wp_step. eapply wp_glift; [by rewrite Ht|]. repeat wp_step. eapply wp_glift; [by rewrite Ho|].
  wp_step. apply (wp_theVersion _ _ _ Hv). do 3 wp_step.
  set (sec := generateSMPSecret _ _ _ _ _). destruct (generateSMP2 sec m otrV3 (c_Rand c)) as [s2 r] eqn:Eg.
  eapply wp_withRand; [cbn [upd c_Rand]; by rewrite Eg|]. destruct s2 as [s2|e].
  - repeat wp_step. split; [done|]. exists s2. split; [done|].
    destruct Hok. eapply generateSMP2_units; [apply generateSMPSecret_nonneg| | |exact Eg]; by apply unit_element.
  - eapply wp_mono; [apply wp_abort_cheated|]. intros. by eapply outcome_ok_trans.
Qed.

Lemma wp_receiveMessage2 c s m : c_version c = Some otrV3 -> smp_state_ok (c_smp c) s -> wp (receiveMessage2 s m) c (outcome_ok c).
Proof.
  intros Hv Hok. destruct s; unfold receiveMessage2, modSMP; try apply wp_abort_error.
  destruct Hok as [[s1 Hs1] [sec Hsec]].
  do 2 wp_step. wp_step. apply (wp_theVersion _ _ _ Hv). wp_step. rewrite Hs1.
  destruct (verifySMP2 otrV3 (Some s1) m) as [err|] eqn:Ev.
  2:{ unfold verifySMP2 in Ev. by destruct (firstFailure _). }
  eapply wp_glift; [done|]. destruct err as [e|]; [apply wp_abort_cheated|].
  wp_step. eapply wp_glift; [done|]. wp_step.
  assert (exists a r, generateSMP3 (smp_secret (c_smp c)) s1 m otrV3 (c_Rand c) = Done (a, r)) as (a & r & Eg).
  { rewrite Hsec. unfold generateSMP3. destruct (generateSMP3Parameters otrV3 (c_Rand c)) as [[s3|e] r]; [|eauto].
    unfold verifySMP2 in Ev. cbn [version_isGroupElement] in Ev.
    destruct (firstFailure _) eqn:Hf in Ev; [done|]. do 4 apply firstFailure_cons_None in Hf as [? Hf].
    destruct (generateSMP3Message_total (s3 <| s3_x := sec |>) s1 m otrV3) as (s3' & m3 & Hg); [by apply unit_element..|].
    go_simpl. cbn [deref]. rewrite Hg. eauto. }
  eapply wp_withRand; [exact Eg|]. destruct a as [s3|e].
  - wp_step. apply wp_logEvent. intros c' Hs Hc. repeat wp_step. split; [done|].
    split; cbn; [|done]. rewrite Hc. cbn. by rewrite Hs1.
  - eapply wp_mono; [apply wp_abort_cheated|]. intros. by eapply outcome_ok_trans.
Qed.

Lemma verifySMP3_total v s2 m : unit_mod_p (s2_qb s2) -> exists err, verifySMP3 v (Some s2) m = Done err.
Proof.
  intros Hq. unfold verifySMP3. destruct (firstFailure _); [eauto|]. go_simpl. cbn [deref].
  destruct (negb _); [eauto|]. destruct (divMod_unit (m3_qa m) _ Hq) as [z ->]. eauto.
Qed.

Lemma verifySMP3ProtocolSuccess_total s2 m :
  unit_mod_p (s2_pb s2) -> exists err, verifySMP3ProtocolSuccess (Some s2) m = Done err.
Proof.
  intros Hp. unfold verifySMP3ProtocolSuccess. go_simpl. cbn [deref].
  destruct (divMod_unit (m3_pa m) _ Hp) as [z ->]. eauto.
Qed.

Lemma generateSMP4_total secret s2 m v r :
  unit_mod_p (s2_qb s2) -> exists a r', generateSMP4 secret s2 m v r = Done (a, r').
Proof.
  intros Hq. unfold generateSMP4. destruct (generateSMP4Parameters v r) as [[s4|e] r']; [|eauto].
  unfold generateSMP4Message. destruct (divMod_unit (m3_qa m) _ Hq) as [z Hz].
  cbn [upd]. rewrite Hz. go_simpl. eauto.
Qed.

Lemma wp_receiveMessage3 c s m : c_version c = Some otrV3 -> smp_state_ok (c_smp c) s -> wp (receiveMessage3 s m) c (outcome_ok c).
Proof.
  intros Hv Hok. destruct s; unfold receiveMessage3; try apply wp_abort_error.
  destruct Hok as (s2 & Hs2 & Hq & Hp).
  do 2 wp_step. wp_step. apply (wp_theVersion _ _ _ Hv). wp_step. rewrite Hs2.
  destruct (verifySMP3_total otrV3 s2 m Hq) as [err Ev]. eapply wp_glift; [exact Ev|].
  destruct err as [e|]; [apply wp_abort_cheated|]. wp_step.
  destruct (verifySMP3ProtocolSuccess_total s2 m Hp) as [err Ep]. eapply wp_glift; [exact Ep|].
  destruct err as [e|]; wp_step; apply wp_logEvent; intros c' Hs Hc; wp_step; [done|].
  eapply wp_glift; [done|]. wp_step.
  destruct (generateSMP4_total (smp_secret (c_smp c)) s2 m otrV3 (c_Rand c') Hq) as (a & r & Eg).
  eapply wp_withRand; [exact Eg|]. destruct a as [s4|e].
  - unfold smp_wipe. repeat wp_step. by split.
  - eapply wp_mono; [apply wp_abort_cheated|]. intros. by eapply outcome_ok_trans.
Qed.

Lemma wp_receiveMessage4 c s m : c_version c = Some otrV3 -> smp_state_ok (c_smp c) s -> wp (receiveMessage4 s m) c (outcome_ok c).
Proof.
  intros Hv Hok. destruct s; unfold receiveMessage4; try apply wp_abort_error.
  destruct Hok as [[s1 Hs1] [s3 Hs3]].
  do 2 wp_step. wp_step. apply (wp_theVersion _ _ _ Hv). wp_step. rewrite Hs1, Hs3.
  assert (exists err, verifySMP4 otrV3 (Some s3) m = Done err) as [err Ev].
  { unfold verifySMP4. destruct (negb _); eauto. }
  eapply wp_glift; [exact Ev|]. destruct err as [e|]; [apply wp_abort_cheated|]. wp_step.
  eapply wp_glift; [done|].
  destruct (firstFailure _) as [e|]; wp_step; apply wp_logEvent; intros c' Hs Hc; unfold smp_wipe; repeat wp_step; by split.
Qed.

Lemma wp_runHandler c s h : smp_state (c_smp c) = Some s -> wp (h s) c (outcome_ok c) ->
  wp (runHandler h) c (fun _ c' => same_session c c' /\ smp_ok (c_smp c') /\ is_Some (smp_state (c_smp c'))).
Proof.
  intros Hs Hh. unfold runHandler, modSMP. do 2 wp_step. wp_step.
  eapply wp_glift; [by rewrite Hs|]. wp_step. eapply wp_mono; [exact Hh|].
  intros [[s' ret] err] c' [Hc Hok]. repeat wp_step. cbn [fst] in Hok. split; [done|]. split; [|done]. by destruct s'.
Qed.

Lemma smp_inv_same c c' : smp_inv c -> same_session c c' -> smp_ok (c_smp c') -> smp_inv c'.
Proof. intros (Hv & Hk & _) (E1 & E2 & E3 & E4) Hok. split; [congruence|]. split; [|done]. by rewrite E2, E3, E4. Qed.

Lemma wp_receivedMessage c m : c_version c = Some otrV3 -> smp_ok (c_smp c) -> is_Some (smp_state (c_smp c)) ->
  wp (receivedMessage m) c (fun _ c' => same_session c c' /\ smp_ok (c_smp c') /\ is_Some (smp_state (c_smp c'))).
Proof.
  intros Hv Hi [s Hs]. assert (smp_state_ok (c_smp c) s) as Hok by (unfold smp_ok in Hi; by rewrite Hs in Hi).
  destruct m; cbn [receivedMessage]; try (eapply wp_runHandler; [done..|]).
  - by apply wp_receiveMessage1.
  - by apply wp_receiveMessage2.
  - by apply wp_receiveMessage3.
  - by apply wp_receiveMessage4.
  - unfold modSMP. repeat wp_step. apply wp_logEvent. intros c' Hc Hsmp. wp_step. rewrite Hsmp. done.
Qed.

Lemma ensureSMP_inv c : smp_inv c -> wp ensureSMP c (fun _ c' => smp_inv c' /\ is_Some (smp_state (c_smp c'))).
Proof.
  intros Hi. unfold ensureSMP. wp_step. destruct (smp_state (c_smp c)) eqn:E; [by rewrite E|].
  destruct Hi as (Hv & Hk & _). done.
Qed.

Lemma wp_startAuthenticate c s q secret : smp_inv c -> smp_state (c_smp c) = Some s ->
  wp (startAuthenticate s q secret) c (fun _ c' => smp_inv c' /\ is_Some (smp_state (c_smp c'))).
Proof.
  intros Hi Hs.
  assert (wp (startAuthenticateExpect1 q secret) c (fun _ c' => smp_inv c' /\ is_Some (smp_state (c_smp c')))) as Hw.
  { pose proof Hi as (Hv & Hk & Hm). unfold smp_ok in Hm. unfold startAuthenticateExpect1, modSMP. do 2 wp_step. unfold IsEncrypted.
    destruct (bool_decide_reflect (c_msgState c = encrypted)) as [He|]; cbn [negb]; [|by wp_step; rewrite Hs].
    destruct (Hk He) as [[tk Ht] [ok Ho]]. unfold theTheirKey, theOurKey.
    repeat wp_step. eapply wp_glift; [by rewrite Ho|]. repeat wp_step. eapply wp_glift; [by rewrite Ht|].
    wp_step. apply (wp_theVersion _ _ _ Hv). do 3 wp_step.
    destruct (generateSMP1 otrV3 (c_Rand c)) as [s1 r] eqn:Eg.
    eapply wp_withRand; [cbn [upd c_Rand]; by rewrite Eg|]. destruct s1 as [s1|e].
    - repeat wp_step. repeat split; cbn; eauto.
    - wp_step. unfold smp_inv, smp_ok. cbn. rewrite Hs in Hm |- *.
      split; [|eauto]. split; [done|]. split; [done|].
      destruct s; cbn in *; try done. destruct Hm. eauto. }
  destruct s; cbn [startAuthenticate]; try exact Hw.
  all: apply wp_tryb; eapply wp_mono; [exact Hw|]; intros [tlvs|e] c' Hc'; [by wp_step|done].
Qed.
End Safety.

(** ** Sequences of inputs *)

Section Runs.
Context `{DHGroup} `{Crypto}.

Fixpoint smp_run_all (ins : list smp_input) : M unit :=
  match ins with
  | [] => mret tt
  | i :: ins' => _ ← smp_run i; smp_run_all ins'
  end.

(** Whether every secret is provided while an SMP state exists: after the first
    message or request, and not right after the machine was wiped. *)
Fixpoint inputs_ok (started : bool) (ins : list smp_input) : bool :=
  match ins with
  | [] => true
  | InSecret _ :: ins' => started && inputs_ok started ins'
  | InWipe :: ins' => inputs_ok false ins'
  | _ :: ins' => inputs_ok true ins'
  end.

(** The next state the protocol allows for a message, when it expects it. *)
Definition smp_expected (s : smpState) (m : smpMessage) : option smpState :=
  match s, m with
  | smpStateExpect1, SMP1 m1 => Some (smpStateWaitingForSecret m1)
  | smpStateExpect2, SMP2 _ => Some smpStateExpect4
  | smpStateExpect3, SMP3 _ => Some smpStateExpect1
  | smpStateExpect4, SMP4 _ => Some smpStateExpect1
  | _, SMPAbort => Some smpStateExpect1
  | _, _ => None
  end.

Lemma continueMessage1_replies s secret c o c' :
  continueMessage1 s secret c = Done (o, c') -> o.2 = None -> is_Some o.1.2.
Proof.
  destruct s as [| | | |m]; cbn [continueMessage1]; try (intros [= <- <-]; done).
  unfold theTheirKey, theOurKey, theVersion, modSMP, withRand, abortStateMachineAndNotifyCheated, smpEvent, logEvent.
  go_simpl. destruct (negb _); [by intros [= <- <-]|].
  destruct (c_theirKey c); cbn [deref]; [|done]. destruct (c_ourCurrentKey c); cbn [deref]; [|done].
  destruct (c_version c); cbn [deref]; [|done].
  match goal with |- context [generateSMP2 ?x m ?v ?r] => destruct (generateSMP2 x m v r) as [[s2|e] r'] end;
    cbn; by intros [= <- <-].
Qed.

Hypothesis p_prime : Z.prime dh_p.
Hypothesis g1_range : 2 <= dh_g1 < dh_p.

Lemma wp_continueSMP c secret : smp_inv c -> is_Some (smp_state (c_smp c)) ->
  wp (continueSMP secret) c (fun _ c' => smp_inv c' /\ is_Some (smp_state (c_smp c'))).
Proof.
  intros Hi [s Hs]. assert (smp_state_ok (c_smp c) s) as Hok by (destruct Hi as (_ & _ & Hm); unfold smp_ok in Hm; by rewrite Hs in Hm). unfold continueSMP, continueMessage. wp_step.
  pose proof (wp_runHandler c s (fun s => continueMessage1 s secret) Hs
                (wp_continueMessage1 p_prime g1_range c s secret Hi Hok)) as Hw.
  apply wp_inv in Hw as ([ret err] & c' & Er & Hc & Hm' & Hst). eapply wp_done; [exact Er|].
  assert (smp_inv c' /\ is_Some (smp_state (c_smp c'))) as Hc' by (split; [by eapply smp_inv_same|done]).
  destruct err as [e|]; [by wp_step|]. wp_step.
  assert (is_Some ret) as [m ->]; [|by eapply wp_glift].
  unfold runHandler, modSMP in Er. go_simpl in Er. rewrite Hs in Er. cbn [deref] in Er.
  destruct (continueMessage1 s secret c) as [[[[s' ret'] err'] c1]|] eqn:Ec; [|done].
  injection Er as <- -> _. by apply (continueMessage1_replies _ _ _ _ _ Ec).
Qed.

Lemma continueSMP_without_state_panics c secret : smp_state (c_smp c) = None -> continueSMP secret c = Panicked NilDeref.
Proof. intros Hs. unfold continueSMP, continueMessage, runHandler. go_simpl. by rewrite Hs. Qed.

Definition stated (c : Conversation) : bool := bool_decide (is_Some (smp_state (c_smp c))).

Lemma stated_true c : is_Some (smp_state (c_smp c)) -> stated c = true.
Proof. apply bool_decide_eq_true_2. Qed.

Lemma wp_smp_run c i : smp_inv c -> (forall s, i = InSecret s -> is_Some (smp_state (c_smp c))) ->
  wp (smp_run i) c (fun _ c' => smp_inv c' /\ stated c' = match i with InWipe => false | _ => true end).
Proof.
  intros Hi Hsec. destruct i as [m|secret|q secret| |]; cbn [smp_run].
  - wp_step. eapply wp_mono; [by apply ensureSMP_inv|]. intros [] c1 [Hi1 Hs1]. wp_step.
    pose proof Hi1 as (Hv1 & _ & Hm1).
    unfold receiveSMP. wp_step. eapply wp_mono; [by apply wp_receivedMessage|].
    intros [[ret|] [e|]] c2 (Hc2 & Hm2 & Hs2); pose proof (smp_inv_same _ _ Hi1 Hc2 Hm2); repeat wp_step; auto using stated_true.
  - wp_step. eapply wp_mono; [by apply wp_continueSMP; [|eapply Hsec]|]. intros r c1 [? ?]. wp_step. auto using stated_true.
  - wp_step. eapply wp_mono; [by apply ensureSMP_inv|]. intros [] c1 [Hi1 [s Hs1]]. wp_step. wp_step. wp_step.
    eapply wp_glift; [by rewrite Hs1|]. wp_step.
    eapply wp_mono; [by apply wp_startAuthenticate|]. intros r c2 [? ?]. wp_step. auto using stated_true.
  - unfold restartSMP, modSMP. repeat wp_step. by destruct Hi as (Hv & Hk & _).
  - unfold smp_wipe. wp_step. by destruct Hi as (Hv & Hk & _).
Qed.

Lemma smp_run_all_outcome ins c : smp_inv c ->
  if inputs_ok (stated c) ins then wp (smp_run_all ins) c (fun _ c' => smp_inv c')
  else smp_run_all ins c = Panicked NilDeref.
Proof.
  revert c. induction ins as [|i ins IH]; intros c Hi; cbn [smp_run_all]; [by apply wp_ret|].
  assert ((exists s, i = InSecret s /\ smp_state (c_smp c) = None) \/ (forall s, i = InSecret s -> is_Some (smp_state (c_smp c)))) as [(s & -> & Hs)|Hsec].
  { destruct (smp_state (c_smp c)) eqn:Es; [by right; eauto|]. destruct i; [right; done|left; eauto|right; done..]. }
  - unfold stated. rewrite Hs. cbn [inputs_ok bool_decide]. rewrite (bool_decide_eq_false_2 (is_Some None)) by (by intros []). cbn [andb smp_run].
    by rewrite (bind_panicked _ _ _ NilDeref) by (apply bind_panicked; by apply continueSMP_without_state_panics).
  - pose proof (wp_smp_run c i Hi Hsec) as HW. apply wp_inv in HW as ([] & c' & E & Hi' & Hs'). specialize (IH c' Hi').
    assert (inputs_ok (stated c) (i :: ins) = inputs_ok (stated c') ins) as ->.
    { rewrite Hs'. destruct i; cbn [inputs_ok]; try done. by rewrite (stated_true c (Hsec _ eq_refl)). }
    unfold wp. by rewrite (bind_done _ _ _ _ _ E).
Qed.

(** C10: in version 3, over a group of prime modulus, from a conversation that
    satisfies the invariant (a session has the long-term keys of both sides, and
    the values that the SMP state needs are there; one without an SMP state
    has none to keep), exactly one thing makes the SMP state machine panic:
    providing a secret while it has no state, before the first message or request
    or after it was wiped, which dereferences nil.
    Any sequence of messages from the peer, requests, aborts, wipes and secrets
    provided in some state runs to its end: every pointer a handler dereferences
    is set and every number it divides by is invertible. *)
Theorem smp_v3_panics_only_without_state ins c : smp_inv c ->
  if inputs_ok (bool_decide (is_Some (smp_state (c_smp c)))) ins
  then exists c', smp_run_all ins c = Done (tt, c') /\ smp_inv c'
  else smp_run_all ins c = Panicked NilDeref.
Proof.
  intros Hi. pose proof (smp_run_all_outcome ins c Hi) as HO. unfold stated in HO. destruct (inputs_ok _ ins); [|done].
  destruct (wp_inv _ _ _ HO) as ([] & c' & Hr & Hi'). eauto.
Qed.

Lemma runHandler_inv h c s ret err c' :
  smp_state (c_smp c) = Some s -> runHandler h c = Done ((ret, err), c') ->
  exists s' c1, h s c = Done ((s', ret, err), c1) /\
    c' = c1 <| c_smp := (c_smp c1) <| smp_state := Some s' |> |>.
Proof.
  intros Hs. unfold runHandler, modSMP. go_simpl. rewrite Hs. cbn [deref].
  destruct (h s c) as [[[[s' ret'] err'] c1]|]; [|done]. intros [= <- <- <-]. eauto.
Qed.

(** An unexpected message: the handler of [smpStateBase]. *)
Lemma abort_error_outcome c o c1 : c_smpEventHandler c = true ->
  abortStateMachineAndNotifyError c = Done (o, c1) ->
  o = sendSMPAbortAndRestartStateMachine /\ c1 = c <| env_events := env_events c ++ [EvSMP SMPEventError 0 []] |>.
Proof.
  intros Hh. unfold abortStateMachineAndNotifyError, smpEvent, logEvent. go_simpl. rewrite Hh. by intros [= <- <-].
Qed.

(** An expected one: the next state, or the abort. *)
Definition next_or_abort (next : smpState) (o : smpOutcome) (c : Conversation) : Prop :=
  o.2 = None /\ (o.1.1 = next \/ o = sendSMPAbortAndRestartStateMachine).

Lemma wlp_cheated next c : wlp abortStateMachineAndNotifyCheated c (next_or_abort next).
Proof. unfold abortStateMachineAndNotifyCheated, smpEvent, logEvent. repeat wlp_step. by split; [|right]. Qed.

Lemma expected_outcomes c m :
  match m with
  | SMP1 m => wlp (receiveMessage1 smpStateExpect1 m) c (next_or_abort (smpStateWaitingForSecret m))
  | SMP2 m => wlp (receiveMessage2 smpStateExpect2 m) c (next_or_abort smpStateExpect4)
  | SMP3 m => wlp (receiveMessage3 smpStateExpect3 m) c (next_or_abort smpStateExpect1)
  | SMP4 m => wlp (receiveMessage4 smpStateExpect4 m) c (next_or_abort smpStateExpect1)
  | SMPAbort => True
  end.
Proof.
  destruct m as [m|m|m|m|]; [| | | |done].
  all: unfold receiveMessage1, receiveMessage2, receiveMessage3, receiveMessage4, theVersion, modSMP, smp_wipe,
    smpEvent, smpEventWithQuestion, logEvent.
  all: repeat match goal with
              | |- wlp abortStateMachineAndNotifyCheated _ _ => apply wlp_cheated
              | |- wlp _ _ _ => first [wlp_step | apply wlp_intro; intros]
              end; try (by split; [|left]); try (by split; [|right]).
Qed.

(** C11: a message that the current state does not expect is never processed:
    the machine returns to its initial state, keeps its values, reports the
    error event and answers with an abort message; an expected one leads to the
    next state of the protocol or to the abort. *)
Theorem smp_message_order c c' s m ret err :
  smp_state (c_smp c) = Some s -> c_smpEventHandler c = true ->
  receivedMessage m c = Done ((ret, err), c') ->
  err = None /\
  match smp_expected s m with
  | Some next => smp_state (c_smp c') = Some next \/ smp_state (c_smp c') = Some smpStateExpect1 /\ ret = Some SMPAbort
  | None =>
      c_smp c' = (c_smp c) <| smp_state := Some smpStateExpect1 |> /\ ret = Some SMPAbort /\
      env_events c' = env_events c ++ [EvSMP SMPEventError 0 []]
  end.
Proof.
  intros Hs Hh Hr. destruct m as [m|m|m|m|].
  1-4: cbn [receivedMessage] in Hr; apply (runHandler_inv _ _ s) in Hr as (s' & c1 & Eh & ->); [|done].
  5: { unfold receivedMessage, smpEvent, logEvent, modSMP in Hr. go_simpl in Hr.
       cbn [upd c_smpEventHandler] in Hr. rewrite Hh in Hr. injection Hr as <- <- <-.
       destruct s; by split; [|left]. }
  all: pose proof (expected_outcomes c) as Hexp.
  1: specialize (Hexp (SMP1 m)). 2: specialize (Hexp (SMP2 m)). 3: specialize (Hexp (SMP3 m)). 4: specialize (Hexp (SMP4 m)).
  all: cbn beta iota in Hexp; destruct s; cbn [smp_expected];
    try (apply abort_error_outcome in Eh as [Eo ->]; [|done]; injection Eo as -> -> ->; done).
  all: eapply wlp_use in Hexp as [Herr Hn]; [|exact Eh]; cbn [fst snd] in Herr, Hn; subst err; split; [done|].
  all: destruct Hn as [->|Hn]; [by left|]; injection Hn as -> ->; by right.
Qed.
End Runs.

(** ** Two machines that run the protocol with each other *)

Section Exchange.
Context `{DHGroup} `{Crypto}.

(** Alice ([a]) starts, Bob ([b]) is asked and answers, and the messages go
    back and forth until the last reply. *)
Definition smp_exchange (question sa sb : list byte) (a b : Conversation) : go (Conversation * Conversation) :=
  '(_, a) ← startAuthenticate smpStateExpect1 question sa a;
  s1 ← deref (smp_s1 (c_smp a));
  '(_, b) ← receivedMessage (SMP1 (s1_msg s1)) b;
  '((m2, _), b) ← continueMessage sb b;
  m2 ← deref m2;
  '((m3, _), a) ← receivedMessage m2 a;
  m3 ← deref m3;
  '((m4, _), b) ← receivedMessage m3 b;
  m4 ← deref m4;
  '(_, a) ← receivedMessage m4 a;
  mret (a, b).

(** Both ends of one encrypted session, ready for SMP. *)
Record smp_peers (v : otrVersion) (a b : Conversation) : Prop := {
  peers_version : c_version a = Some v /\ c_version b = Some v;
  peers_encrypted : c_msgState a = encrypted /\ c_msgState b = encrypted;
  peers_handlers : c_smpEventHandler a = true /\ c_smpEventHandler b = true;
  peers_ssid : c_ssid a = c_ssid b;
  peers_ready : smp_state (c_smp b) = Some smpStateExpect1;
  peers_keys : exists ka kb ta tb,
    c_ourCurrentKey a = Some ka /\ c_theirKey a = Some tb /\
    c_ourCurrentKey b = Some kb /\ c_theirKey b = Some ta /\
    Fingerprint ta = Fingerprint (PublicKey_of ka) /\ Fingerprint tb = Fingerprint (PublicKey_of kb) }.

(** The number an end of the conversation derives from the user's secret, as
    the initiator computes it. *)
Definition peerSecret (v : otrVersion) (a : Conversation) (secret : list byte) : Z :=
  match c_ourCurrentKey a, c_theirKey a with
  | Some k, Some t => generateSMPSecret (Fingerprint (PublicKey_of k)) (Fingerprint t) (c_ssid a) secret v
  | _, _ => 0
  end.

Definition ask_event (question : list byte) : event :=
  if bool_decide (question = []) then EvSMP SMPEventAskForSecret 25 [] else EvSMP SMPEventAskForAnswer 25 question.

(** The first message with the question of the user. *)
Definition with_question (q : list byte) (m : smp1Message) : smp1Message :=
  if bool_decide (q = []) then m
  else Smp1Message (m1_g2a m) (m1_g3a m) (m1_c2 m) (m1_c3 m) (m1_d2 m) (m1_d3 m) true q.

Lemma exchange_start v a q sa s1 ra k t :
  c_version a = Some v -> c_msgState a = encrypted -> c_ourCurrentKey a = Some k -> c_theirKey a = Some t ->
  generateSMP1Parameters v (c_Rand a) = (Ok s1, ra) ->
  startAuthenticate smpStateExpect1 q sa a =
  Done (Ok [smp1_tlv (with_question q (generateSMP1Message s1 v))],
        a <| c_Rand := ra |>
          <| c_smp := Smp (Some smpStateExpect2) (smp_question (c_smp a)) (Some (peerSecret v a sa))
               (Some (s1 <| s1_msg := with_question q (generateSMP1Message s1 v) |>))
               (smp_s2 (c_smp a)) (smp_s3 (c_smp a)) |>).
Proof.
  intros Hv He Hk Ht Hp. unfold startAuthenticate, startAuthenticateExpect1, IsEncrypted, theOurKey, theTheirKey.
  unfold peerSecret. rewrite Hk, Ht. go_simpl. rewrite He, (bool_decide_eq_true_2 _ eq_refl). cbn [negb].
  rewrite Hk. cbn [deref]. rewrite Ht. cbn [deref]. unfold theVersion. go_simpl. rewrite Hv. cbn [deref].
  unfold modSMP, withRand. go_simpl. cbn [upd c_Rand]. unfold generateSMP1. rewrite Hp.
  unfold with_question. cbn [upd s1_msg]. by destruct (bool_decide (q = [])).
Qed.

Lemma exchange_ask v b q m :
  c_version b = Some v -> c_smpEventHandler b = true -> smp_state (c_smp b) = Some smpStateExpect1 ->
  verifySMP1 v m = None -> hasQuestion m = false ->
  exists b1, receivedMessage (SMP1 (with_question q m)) b = Done ((None, None), b1) /\
    smp_state (c_smp b1) = Some (smpStateWaitingForSecret (with_question q m)) /\
    env_events b1 = env_events b ++ [ask_event q] /\
    c_Rand b1 = c_Rand b /\ same_session b b1 /\ c_ssid b1 = c_ssid b /\ c_smpEventHandler b1 = true.
Proof.
  intros Hv Hh Hs Hok Hq. unfold receivedMessage, runHandler. go_simpl. rewrite Hs. cbn [deref receiveMessage1].
  unfold theVersion. go_simpl. rewrite Hv. cbn [deref].
  assert (verifySMP1 v (with_question q m) = None) as ->.
  { unfold with_question. by destruct (bool_decide _). }
  unfold smpEvent, smpEventWithQuestion, logEvent, modSMP. go_simpl. unfold ask_event, with_question.
  destruct (bool_decide (q = [])); cbn [hasQuestion question]; rewrite ?Hq; cbn [upd c_smpEventHandler]; rewrite Hh;
    eexists; repeat split; try done.
Qed.

Lemma exchange_answer v b1 sb m s2 rb k t :
  c_version b1 = Some v -> c_msgState b1 = encrypted -> c_ourCurrentKey b1 = Some k -> c_theirKey b1 = Some t ->
  smp_state (c_smp b1) = Some (smpStateWaitingForSecret m) ->
  generateSMP2Parameters v (c_Rand b1) = (Ok s2, rb) ->
  let y := generateSMPSecret (Fingerprint t) (Fingerprint (PublicKey_of k)) (c_ssid b1) sb v in
  let s2m := generateSMP2Message (s2 <| s2_y := y |>) m v in
  continueMessage sb b1 =
  Done ((Some (SMP2 s2m.2), None),
        b1 <| c_Rand := rb |>
           <| c_smp := Smp (Some smpStateExpect3) (smp_question (c_smp b1)) (Some y) (smp_s1 (c_smp b1))
                (Some (s2m.1 <| s2_msg := s2m.2 |>)) (smp_s3 (c_smp b1)) |>).
Proof.
  intros Hv He Hk Ht Hs Hp y s2m. unfold continueMessage, runHandler. go_simpl. rewrite Hs. cbn [deref continueMessage1].
  unfold IsEncrypted, theOurKey, theTheirKey. go_simpl. rewrite He, (bool_decide_eq_true_2 _ eq_refl). cbn [negb].
  rewrite Ht. cbn [deref]. rewrite Hk. cbn [deref]. unfold theVersion. go_simpl. rewrite Hv. cbn [deref].
  unfold modSMP, withRand. go_simpl. cbn [upd c_Rand]. fold y. unfold generateSMP2. rewrite Hp.
  subst s2m. by destruct (generateSMP2Message _ m v) as [s2' msg].
Qed.

(** The message stored in a state plays no role in the checks. *)
Lemma verifySMP3_msg v s2 msg m3 : verifySMP3 v (Some (s2 <| s2_msg := msg |>)) m3 = verifySMP3 v (Some s2) m3.
Proof. done. Qed.
Lemma verifySMP3ProtocolSuccess_msg s2 msg m3 :
  verifySMP3ProtocolSuccess (Some (s2 <| s2_msg := msg |>)) m3 = verifySMP3ProtocolSuccess (Some s2) m3.
Proof. done. Qed.
Lemma generateSMP4Message_msg s4 s2 y msg m3 v :
  generateSMP4Message (s4 <| s4_y := y |>) (s2 <| s2_msg := msg |>) m3 v = generateSMP4Message s4 s2 m3 v.
Proof. done. Qed.
Lemma verifySMP2_msg v s1 msg m2 : verifySMP2 v (Some (s1 <| s1_msg := msg |>)) m2 = verifySMP2 v (Some s1) m2.
Proof. done. Qed.
Lemma generateSMP3Message_msg s3 s1 msg m2 v :
  generateSMP3Message s3 (s1 <| s1_msg := msg |>) m2 v = generateSMP3Message s3 s1 m2 v.
Proof. done. Qed.
Lemma verifySMP4_msg v s3 msg m4 : verifySMP4 v (Some (s3 <| s3_msg := msg |>)) m4 = verifySMP4 v (Some s3) m4.
Proof. done. Qed.
Lemma verifySMP4ProtocolSuccess_msg s1 s3 msg msg' m4 :
  verifySMP4ProtocolSuccess (Some (s1 <| s1_msg := msg |>)) (Some (s3 <| s3_msg := msg' |>)) m4 =
  verifySMP4ProtocolSuccess (Some s1) (Some s3) m4.
Proof. done. Qed.

Lemma exchange_reply2 v a1 s1 x m2 s3 ra s3' m3 :
  c_version a1 = Some v -> c_smpEventHandler a1 = true -> smp_state (c_smp a1) = Some smpStateExpect2 ->
  smp_s1 (c_smp a1) = Some s1 -> smp_secret (c_smp a1) = Some x ->
  verifySMP2 v (Some s1) m2 = Done None -> generateSMP3Parameters v (c_Rand a1) = (Ok s3, ra) ->
  generateSMP3Message (s3 <| s3_x := x |>) s1 m2 v = Done (s3', m3) ->
  exists a2, receivedMessage (SMP2 m2) a1 = Done ((Some (SMP3 m3), None), a2) /\
    smp_state (c_smp a2) = Some smpStateExpect4 /\ smp_s1 (c_smp a2) = Some s1 /\
    smp_s3 (c_smp a2) = Some (s3' <| s3_msg := m3 |>) /\ c_version a2 = Some v /\
    c_smpEventHandler a2 = true /\
    env_events a2 = env_events a1 ++ [EvSMP SMPEventInProgress 60 []].
Proof.
  intros Hv Hh Hs Hs1 Hx Hok Hp Hg. unfold receivedMessage, runHandler. go_simpl. rewrite Hs. cbn [deref receiveMessage2].
  unfold theVersion. go_simpl. rewrite Hv. cbn [deref]. rewrite Hs1, Hok. go_simpl. cbn [deref].
  unfold withRand, generateSMP3. rewrite Hp, Hx. go_simpl. cbn [deref]. rewrite Hg.
  unfold smpEvent, logEvent, modSMP. go_simpl. rec_simpl. rewrite Hh.
  eexists. split; [reflexivity|]. repeat apply conj; first [reflexivity | exact Hv | exact Hs1 | exact Hh].
Qed.

(** Bob's verdict on the third message. *)
Lemma exchange_reply3 v b2 s2 m3 s4 rb m4 verdict :
  c_version b2 = Some v -> c_smpEventHandler b2 = true -> smp_state (c_smp b2) = Some smpStateExpect3 ->
  smp_s2 (c_smp b2) = Some s2 -> verifySMP3 v (Some s2) m3 = Done None ->
  verifySMP3ProtocolSuccess (Some s2) m3 = Done verdict ->
  generateSMP4Parameters v (c_Rand b2) = (Ok s4, rb) -> generateSMP4Message (s4 <| s4_y := smp_secret (c_smp b2) |>) s2 m3 v = Done m4 ->
  exists b3, receivedMessage (SMP3 m3) b2 =
      Done ((Some (match verdict with None => SMP4 m4 | Some _ => SMPAbort end), None), b3) /\
    env_events b3 = env_events b2 ++
      [EvSMP (match verdict with None => SMPEventSuccess | Some _ => SMPEventFailure end) 100 []].
Proof.
  intros Hv Hh Hs Hs2 Hok Hverdict Hp Hg. unfold receivedMessage, runHandler. go_simpl. rewrite Hs. cbn [deref receiveMessage3].
  unfold theVersion. go_simpl. rewrite Hv. cbn [deref]. rewrite Hs2, Hok. go_simpl. rewrite Hverdict.
  unfold smpEvent, logEvent. destruct verdict as [e|]; go_simpl; rewrite Hh.
  - unfold modSMP. go_simpl. eexists. split; [reflexivity|]. by rec_simpl.
  - cbn [deref]. unfold withRand, generateSMP4. rec_simpl. rewrite Hp. go_simpl.
    rewrite Hg. unfold smp_wipe, modSMP. go_simpl. eexists. split; [reflexivity|]. by rec_simpl.
Qed.

(** Alice's verdict on the fourth. *)
Lemma exchange_reply4 v a2 s1 s3 m4 verdict :
  c_version a2 = Some v -> c_smpEventHandler a2 = true -> smp_state (c_smp a2) = Some smpStateExpect4 ->
  smp_s1 (c_smp a2) = Some s1 -> smp_s3 (c_smp a2) = Some s3 -> verifySMP4 v (Some s3) m4 = Done None ->
  verifySMP4ProtocolSuccess (Some s1) (Some s3) m4 = Done verdict ->
  exists r a3, receivedMessage (SMP4 m4) a2 = Done (r, a3) /\
    env_events a3 = env_events a2 ++
      [EvSMP (match verdict with None => SMPEventSuccess | Some _ => SMPEventFailure end) 100 []].
Proof.
  intros Hv Hh Hs Hs1 Hs3 Hok Hverdict. unfold receivedMessage, runHandler. go_simpl. rewrite Hs. cbn [deref receiveMessage4].
  unfold theVersion. go_simpl. rewrite Hv. cbn [deref]. rewrite Hs3, Hok. go_simpl. rewrite Hs1, Hverdict.
  unfold smpEvent, logEvent. destruct verdict as [e|]; go_simpl; rewrite Hh; unfold smp_wipe, modSMP; go_simpl;
    eexists _, _; (split; [reflexivity|]); by rec_simpl.
Qed.

Lemma exchange_abort a2 : c_smpEventHandler a2 = true ->
  exists r a3, receivedMessage SMPAbort a2 = Done (r, a3) /\
    env_events a3 = env_events a2 ++ [EvSMP SMPEventAbort 0 []].
Proof.
  intros Hh. unfold receivedMessage, modSMP, smpEvent, logEvent. go_simpl. rec_simpl. rewrite Hh.
  eexists _, _. split; [reflexivity|]. by rec_simpl.
Qed.

(** The initiator after the last message: the abort or the fourth message. *)
Lemma exchange_last v a2 s1 s3 m4 (verdict : option error) :
  c_version a2 = Some v -> c_smpEventHandler a2 = true -> smp_state (c_smp a2) = Some smpStateExpect4 ->
  smp_s1 (c_smp a2) = Some s1 -> smp_s3 (c_smp a2) = Some s3 ->
  (verdict = None -> verifySMP4 v (Some s3) m4 = Done None /\ verifySMP4ProtocolSuccess (Some s1) (Some s3) m4 = Done None) ->
  exists r a3, receivedMessage (match verdict with None => SMP4 m4 | Some _ => SMPAbort end) a2 = Done (r, a3) /\
    env_events a3 = env_events a2 ++ [match verdict with None => EvSMP SMPEventSuccess 100 [] | Some _ => EvSMP SMPEventAbort 0 [] end].
Proof.
  intros Hv Hh Hs Hs1 Hs3 Hok. destruct verdict as [e|]; [by apply exchange_abort|]. destruct (Hok eq_refl) as [V4 D4].
  by apply (exchange_reply4 v a2 s1 s3 m4 None).
Qed.

End Exchange.

Section ExchangeTheorem.
Context `{DHGroup} `{Crypto} `{!DHGroupLaws}.

Lemma params_nonneg v r1 r2 r3 r4 s1 s2 s3 s4 ra ra' rb rb' x y :
  generateSMP1Parameters v r1 = (Ok s1, ra) -> generateSMP2Parameters v r2 = (Ok s2, rb) ->
  generateSMP3Parameters v r3 = (Ok s3, ra') -> generateSMP4Parameters v r4 = (Ok s4, rb') ->
  0 <= x -> 0 <= y -> smp_params_ok s1 (s2 <| s2_y := y |>) (s3 <| s3_x := x |>) s4.
Proof.
  unfold generateSMP1Parameters, generateSMP2Parameters, generateSMP3Parameters, generateSMP4Parameters.
  pose proof (randMPIs_nonneg 4 r1 (Z.to_nat (parameterLength v))) as N1.
  pose proof (randMPIs_nonneg 7 r2 (Z.to_nat (parameterLength v))) as N2.
  pose proof (randMPIs_nonneg 4 r3 (Z.to_nat (parameterLength v))) as N3.
  destruct (randMPIs 4 r1 _) as [x1 q1], (randMPIs 7 r2 _) as [x2 q2], (randMPIs 4 r3 _) as [x3 q3]. cbn [fst] in *.
  destruct (firstError (map result_error x1)); [done|]. destruct (firstError (map result_error x2)); [done|].
  destruct (firstError (map result_error x3)); [done|].
  destruct (map result_value x1) as [|? [|? [|? [|? [|? ?]]]]]; try done.
  destruct (map result_value x2) as [|? [|? [|? [|? [|? [|? [|? [|? ?]]]]]]]]; try done.
  destruct (map result_value x3) as [|? [|? [|? [|? [|? ?]]]]]; try done.
  destruct (randSizedMPI r4 _) as [[r7|e] q4] eqn:E4; [|done].
  assert (0 <= r7).
  { unfold randSizedMPI in E4. destruct (randomInto r4 _) as [[b|e] ?]; [|done]. injection E4 as <- _. apply SetBytes_nonneg. }
  intros [= <- _] [= <- _] [= <- _] [= <- _] Hx Hy. unfold smp_params_ok. cbn.
  repeat match goal with Hf : Forall _ (_ :: _) |- _ => apply Forall_cons in Hf as [? Hf] end.
  by repeat constructor.
Qed.

Lemma with_question_same q m :
  m1_g2a (with_question q m) = m1_g2a m /\ m1_g3a (with_question q m) = m1_g3a m.
Proof. unfold with_question. by destruct (bool_decide _). Qed.

Lemma generateSMP2Message_question s q m v : generateSMP2Message s (with_question q m) v = generateSMP2Message s m v.
Proof. unfold generateSMP2Message. by destruct (with_question_same q m) as [-> ->]. Qed.

(** C9: two conversations of one encrypted session that run the protocol with
    each other finish it, and what both users are told is decided by their
    secrets: with equal ones both are told of success, with different ones the
    responder is told of the failure and the initiator of the abort. *)
Theorem smp_exchange_decides v a b q sa sb s1 s2 s3 s4 ra ra' rb rb' t :
  let x := peerSecret v a sa in
  let y := peerSecret v a sb in
  Z.prime dh_q -> gpow 1 <> 1 -> smp_peers v a b ->
  generateSMP1Parameters v (c_Rand a) = (Ok s1, ra) -> generateSMP3Parameters v ra = (Ok s3, ra') ->
  generateSMP2Parameters v (c_Rand b) = (Ok s2, rb) -> generateSMP4Parameters v rb = (Ok s4, rb') ->
  x < dh_q -> y < dh_q -> smp_exponents_ok s1 s2 ->
  honest_smp v s1 (s2 <| s2_y := y |>) (s3 <| s3_x := x |>) s4 = Done t ->
  Forall (fun n => version_isGroupElement v n = true) (transcript_elements t) ->
  exists a' b', smp_exchange q sa sb a b = Done (a', b') /\
    env_events a' = env_events a ++ [EvSMP SMPEventInProgress 60 [];
      if x =? y then EvSMP SMPEventSuccess 100 [] else EvSMP SMPEventAbort 0 []] /\
    env_events b' = env_events b ++ [ask_event q;
      EvSMP (if x =? y then SMPEventSuccess else SMPEventFailure) 100 []].
Proof.
  intros x y Hq Hg [[Hva Hvb] [Hea Heb] [Hha Hhb] Hssid Hready (ka & kb & ta & tb & Hka & Hta & Hkb & Htb & Hf1 & Hf2)].
  intros P1 P3 P2 P4 Hx Hy Hexp Ht Hel.
  assert (0 <= x /\ 0 <= y) as [Hx0 Hy0].
  { unfold x, y, peerSecret. rewrite Hka, Hta. split; apply generateSMPSecret_nonneg. }
  pose proof (params_nonneg v _ _ _ _ _ _ _ _ _ _ _ _ x y P1 P2 P3 P4 Hx0 Hy0) as Hok.
  destruct (honest_smp_verified v _ _ _ _ _ Hok Ht Hel) as (V1 & V2 & V3 & V4).
  destruct (honest_smp_verdict v _ _ _ _ _ Hq Hg Hok Hexp Hx Hy Ht) as (verdict & D3 & D4 & Hverdict).
  apply honest_smp_inv in Ht as (Hm1 & Hs2 & Hm2 & H3 & H4). rewrite Hm1 in *. rewrite Hs2 in *. rewrite Hm2 in *.
  set (s2y := generateSMP2Message (s2 <| s2_y := y |>) (generateSMP1Message s1 v) v) in *.
  pose proof (exchange_start v a q sa s1 ra ka tb Hva Hea Hka Hta P1) as E1.
  set (a1 := a <| c_Rand := ra |> <| c_smp := _ |>) in E1.
  destruct (exchange_ask v b q (generateSMP1Message s1 v) Hvb Hhb Hready V1 eq_refl)
    as (b1 & E2 & Hb1 & Evb1 & Rb1 & (Vb1 & Mb1 & Tb1 & Ob1) & Sb1 & Hhb1).
  pose proof (exchange_answer v b1 sb (with_question q (generateSMP1Message s1 v)) s2 rb kb ta) as E3.
  cbv zeta in E3. rewrite Rb1, Vb1, Mb1, Ob1, Tb1, Sb1, <- Hssid, generateSMP2Message_question in E3.
  specialize (E3 Hvb Heb Hkb Htb Hb1 P2).
  assert (generateSMPSecret (Fingerprint ta) (Fingerprint (PublicKey_of kb)) (c_ssid a) sb v = y) as Hsame.
  { unfold y, peerSecret. by rewrite Hka, Hta, Hf1, Hf2. }
  rewrite Hsame in E3. fold s2y in E3. set (b2 := b1 <| c_Rand := rb |> <| c_smp := _ |>) in E3.
  destruct (exchange_reply2 v a1 (s1 <| s1_msg := with_question q (generateSMP1Message s1 v) |>) x s2y.2 s3 ra' (tr_s3 t) (tr_m3 t))
    as (a2 & E4 & Ha2 & S1a2 & S3a2 & Va2 & Hha2 & Eva2);
    [exact Hva|exact Hha|reflexivity..|by rewrite verifySMP2_msg|exact P3|by rewrite generateSMP3Message_msg|].
  destruct (exchange_reply3 v b2 (s2y.1 <| s2_msg := s2y.2 |>) (tr_m3 t) s4 rb' (tr_m4 t) verdict) as (b3 & E5 & Evb3);
    [by rewrite <- Hvb, <- Vb1|exact Hhb1|reflexivity..|by rewrite verifySMP3_msg|by rewrite verifySMP3ProtocolSuccess_msg
    |exact P4|by rewrite generateSMP4Message_msg|].
  destruct (exchange_last v a2 _ _ (tr_m4 t) verdict Va2 Hha2 Ha2 S1a2 S3a2) as (r & a3 & E6 & Eva3);
    [intros ->; by rewrite verifySMP4_msg, verifySMP4ProtocolSuccess_msg|].
  exists a3, b3. split.
  - unfold smp_exchange. rewrite E1. go_simpl.
    change (smp_s1 (c_smp a1)) with (Some (s1 <| s1_msg := with_question q (generateSMP1Message s1 v) |>)).
    cbn [deref]. rec_simpl. rewrite E2.
    go_simpl. rewrite E3. go_simpl. cbn [deref]. rewrite E4. go_simpl. cbn [deref]. rewrite E5. go_simpl. cbn [deref].
    by rewrite E6.
  - assert (verdict = None <-> x = y) as Hxy by exact Hverdict.
    change (env_events b2) with (env_events b1) in Evb3. change (env_events a1) with (env_events a) in Eva2.
    rewrite Eva3, Eva2, Evb3, Evb1, <- !app_assoc. cbn [app].
    destruct verdict as [e|], (Z.eqb_spec x y) as [Exy|Exy]; try done.
    + by apply Hxy in Exy.
    + by destruct Exy; apply Hxy.
Qed.
End ExchangeTheorem.

(** ** Witnesses *)

Definition param192 (n : Z) : list byte := be_encode 192 n.

Definition example_alice : Conversation :=
  (new_conversation (Some otrV3) allowV3 [example_priv] (concat (map param192 [3; 4; 5; 6; 1; 4; 5; 6])) 0 100)
    <| c_msgState := encrypted |> <| c_ourCurrentKey := Some example_priv |>
    <| c_theirKey := Some (PublicKeyAt 50 example_pub) |> <| c_smpEventHandler := true |>.

Definition example_bob : Conversation :=
  (new_conversation (Some otrV3) allowV3 [example_priv] (concat (map param192 [2; 5; 3; 4; 5; 6; 7; 8])) 0 100)
    <| c_msgState := encrypted |> <| c_ourCurrentKey := Some example_priv |>
    <| c_theirKey := Some (PublicKeyAt 51 example_pub) |> <| c_smpEventHandler := true |>
    <| c_smp := empty_smp <| smp_state := Some smpStateExpect1 |> |>.

Definition example_secret : list byte := zeroes 31 ++ [Byte.x07].

Lemma example_peers : @smp_peers toy_crypto otrV3 example_alice example_bob.
Proof.
  split; try done. by exists example_priv, example_priv, (PublicKeyAt 51 example_pub), (PublicKeyAt 50 example_pub).
Qed.

Lemma smp_exchange_decides_witness : exists a' b',
  @smp_exchange small_group toy_crypto (bs "where?") example_secret example_secret example_alice example_bob = Done (a', b') /\
  env_events a' = [EvSMP SMPEventInProgress 60 []; EvSMP SMPEventSuccess 100 []] /\
  env_events b' = [EvSMP SMPEventAskForAnswer 25 (bs "where?"); EvSMP SMPEventSuccess 100 []].
Proof.
  eapply (@smp_exchange_decides small_group toy_crypto small_group_laws otrV3 example_alice example_bob
            (bs "where?") example_secret example_secret).
  - exact prime_11.
  - vm_compute. discriminate.
  - exact example_peers.
  - vm_compute. reflexivity.
  - vm_compute. reflexivity.
  - vm_compute. reflexivity.
  - vm_compute. reflexivity.
  - vm_compute. reflexivity.
  - vm_compute. reflexivity.
  - repeat constructor; vm_compute; discriminate.
  - vm_compute. reflexivity.
  - vm_compute. repeat constructor.
Defined.

Lemma example_bob_inv : @smp_inv small_group example_bob.
Proof. split; [done|]. split; [|done]. intros _. split; eexists; reflexivity. Qed.

Lemma smp_v3_panics_only_without_state_witness :
  (exists c', @smp_run_all small_group toy_crypto
    [InMessage SMPAbort; InSecret (bs "x"); InStart (bs "q") (bs "s"); InWipe; InMessage SMPAbort] example_bob = Done (tt, c') /\
    @smp_inv small_group c') /\
  @smp_run_all small_group toy_crypto [InMessage SMPAbort; InWipe; InSecret (bs "x")] example_bob = Panicked NilDeref.
Proof.
  assert (2 <= @dh_g1 small_group < @dh_p small_group) as Hg by (vm_compute; split; [discriminate|reflexivity]). split.
  - exact (@smp_v3_panics_only_without_state small_group toy_crypto prime_23 Hg
      [InMessage SMPAbort; InSecret (bs "x"); InStart (bs "q") (bs "s"); InWipe; InMessage SMPAbort] example_bob example_bob_inv).
  - exact (@smp_v3_panics_only_without_state small_group toy_crypto prime_23 Hg
      [InMessage SMPAbort; InWipe; InSecret (bs "x")] example_bob example_bob_inv).
Defined.

Lemma smp_message_order_witness : exists c' ret err,
  @receivedMessage small_group toy_crypto (SMP4 no_smp4Message) example_bob = Done ((ret, err), c') /\ ret = Some SMPAbort.
Proof.
  destruct (@receivedMessage small_group toy_crypto (SMP4 no_smp4Message) example_bob) as [[[ret err] c']|p] eqn:E.
  - exists c', ret, err. split; [reflexivity|].
    destruct (@smp_message_order small_group toy_crypto example_bob c' smpStateExpect1 (SMP4 no_smp4Message) ret err)
      as (_ & _ & Hret & _); [reflexivity|reflexivity|exact E|exact Hret].
  - vm_compute in E. discriminate E.
Defined.
