(* ===== verification/DataMessage.v ===== *)
(** * Data messages: data_message.go, resend.go, heartbeat.go, disconnect.go,
    extra_key.go, padding.go, authenticate.go, [End] of conversation.go

    Sending and receiving on an established session, and the handlers of the
    TLVs a data message carries. *)

From S2P Require Import Prelude GoLib Gotrax Policy Crypto KeyManagement Messages Smp Keys Conversation Fragmentation SmpMachine.

Definition modKeys (f : keyManagementContext -> keyManagementContext) : M unit :=
  gmod (fun c => c <| c_keys := f (c_keys c) |>).

(** ** resend.go, heartbeat.go *)

Definition secondNs : Z := 1000000000.
Definition resendInterval : Z := 60 * secondNs.
Definition heartbeatInterval : Z := 60 * secondNs.
Definition defaultResentPrefix : list byte := bs "[resent] ".

Definition modResend (f : resendContext -> resendContext) : M unit :=
  gmod (fun c => c <| c_resend := f (c_resend c) |>).

(** [resendContext.later] *)
Definition later (msg : list byte) (opaque : trace) : M unit :=
  modResend (fun r => if retransmitting r then r
                      else r <| resend_messages := resend_messages r ++ [MessageToResend msg opaque] |>).

Definition lastMessage (msg : list byte) (opaque : trace) : M unit := later msg opaque.

Definition pending (r : resendContext) : list messageToResend := resend_messages r.
Definition clear (r : resendContext) : resendContext := r <| resend_messages := [] |>.

Definition resend_shouldRetransmit (r : resendContext) : bool :=
  (0 <? len (resend_messages r)) && bool_decide (mayRetransmit r <> noRetransmit).

Definition defaultResendMessageTransform (msg : list byte) : list byte := defaultResentPrefix ++ msg.

Definition resendMessageTransformer (c : Conversation) : list byte -> list byte :=
  default defaultResendMessageTransform (messageTransform (c_resend c)).

Definition updateMayRetransmitTo (f : retransmitFlag) : M unit := modResend (fun r => r <| mayRetransmit := f |>).

Definition shouldRetransmit (c : Conversation) : bool :=
  resend_shouldRetransmit (c_resend c) && (env_now c - resendInterval <? c_lastSent c).

Definition updateLastSent : M unit := gmod (fun c => c <| c_lastSent := env_now c |>).

Section DataMessages.
Context `{DHGroup} `{Crypto}.

(** ** Sending *)

(** [c.keys.calculateDHSessionKeys] *)
Definition conv_sessionKeys (our their : Z) (v : otrVersion) : M (result sessionKeys) := fun c =>
  match sessionKeysFor (c_keys c) our their v with
  | Done (r, k) => Done (r, c <| c_keys := k |>)
  | Panicked p => Panicked p
  end.

(** The counter for the next message under a pair of keys. *)
Definition conv_takeOurCounter (our their : Z) : M Z := fun c =>
  let '(ctr, k) := takeOurCounter (c_keys c) our their in Done (ctr, c <| c_keys := k |>).

Definition conv_revealMACKeys : M (list macKey) := fun c =>
  let '(ks, k) := revealMACKeys (c_keys c) in Done (ks, c <| c_keys := k |>).

(** The message and the extra symmetric key ([dataMessageExtra]). *)
Definition genDataMsgWithFlag (message : list byte) (flag : Z) (tlvs : list tlv) : M (result (dataMsg * list byte)) :=
  c ← gget;
  if negb (IsEncrypted c) then mret (Err errCannotSendUnencrypted)
  else
    v ← theVersion;
    let our := u32 (ourKeyID (c_keys c) - 1) in
    let their := theirKeyID (c_keys c) in
    keys ←? conv_sessionKeys our their v;
    counter ← conv_takeOurCounter our their;
    let topHalfCtr := be_encode 8 counter in
    let encrypted := plainDataMsg_encrypt (PlainDataMsg message tlvs) (sendingAESKey keys) topHalfCtr in
    header ←? messageHeader msgTypeData;
    c ← gget;
    y ← glift (deref (kp_pub (ourCurrentDHKeys (c_keys c))));
    oldMACKeys ← conv_revealMACKeys;
    let dataMessage := DataMsg (z2b flag) our their y topHalfCtr encrypted [] oldMACKeys None in
    let dataMessage := dataMsg_sign dataMessage (sendingMACKey keys) header v in
    _ ← updateMayRetransmitTo noRetransmit;
    _ ← lastMessage message [];
    mret (Ok (dataMessage, extraKey keys)).

Definition genDataMsg (message : list byte) (tlvs : list tlv) : M (result (dataMsg * list byte)) :=
  genDataMsgWithFlag message messageFlagNormal tlvs.

Definition encode (msg : list byte) : list byte := (msgMarker ++ b64encode msg) ++ bs ".".

Definition fragEncode (msg : list byte) : M (list (list byte)) := c ← gget; fragment (encode msg) (c_fragmentSize c).

Definition createSerializedDataMessage (msg : list byte) (flag : Z) (tlvs : list tlv)
  : M (result (list (list byte) * list byte)) :=
  dx ←? genDataMsgWithFlag msg flag tlvs;
  v ← theVersion;
  res ←? wrapMessageHeader msgTypeData (dataMsg_serialize (fst dx) v);
  _ ← updateLastSent;
  frags ← fragEncode res;
  mret (Ok (frags, snd dx)).

(** ** Retransmission *)

(** The loop of [retransmit]. *)
Fixpoint retransmitLoop (msgs : list messageToResend) (resending : bool) : M (result (list (option (list byte)))) :=
  match msgs with
  | [] => mret (Ok [])
  | m :: msgs' =>
      c ← gget;
      let msg := if resending then resendMessageTransformer c (mr_m m) else mr_m m in
      dx ←? genDataMsg msg [];
      v ← theVersion;
      toSend ← wrapMessageHeader msgTypeData (dataMsg_serialize (fst dx) v);
      ret ←? retransmitLoop msgs' resending;
      mret (Ok (match toSend with Ok t => Some t | Err _ => None end :: ret))
  end.

Fixpoint resentEvents (ev : MessageEvent) (msgs : list messageToResend) : M unit :=
  match msgs with
  | [] => mret tt
  | m :: msgs' => _ ← messageEvent ev (mr_opaque m); resentEvents ev msgs'
  end.

Definition retransmit : M (result (list (option (list byte)))) :=
  c ← gget;
  let msgs := pending (c_resend c) in
  let resending := bool_decide (mayRetransmit (c_resend c) = retransmitWithPrefix) in
  _ ← modResend clear;
  _ ← modResend (fun r => r <| retransmitting := true |>);
  ret ← retransmitLoop msgs resending;
  match ret with
  | Err e =>
      _ ← modResend (fun r => r <| retransmitting := false |>);
      mret (Err e)
  | Ok ret =>
      _ ← resentEvents (if resending then MessageEventMessageResent else MessageEventMessageSent) msgs;
      _ ← updateLastSent;
      _ ← modResend (fun r => r <| retransmitting := false |>);
      mret (Ok ret)
  end.

Definition maybeRetransmit : M (result (list (option (list byte)))) :=
  c ← gget; if negb (shouldRetransmit c) then mret (Ok []) else retransmit.

(** ** TLV handlers *)

Definition processPaddingTLV : M (result (option tlv)) := mret (Ok None).

Definition processDisconnectedTLV : M (result (option tlv)) :=
  c ← gget;
  _ ← gmod (fun c => c <| c_lastMessageStateChange := 0 |> <| c_msgState := finished |>);
  _ ← smp_wipe;
  _ ← gmod (fun c => c <| c_ake := None |> <| c_keys := empty_keys |>);
  _ ← signalSecurityEventIf (IsEncrypted c) GoneInsecure;
  mret (Ok None).

Definition processSMPTLV (t : tlv) : M (result (option tlv)) :=
  _ ← ensureSMP;
  match tlv_smpMessage t with
  | None => mret (Err (newOtrError "corrupt data message"))
  | Some m => receiveSMP m
  end.

Definition processExtraSymmetricKeyTLV (t : tlv) (key : list byte) : M (result (option tlv)) :=
  value ← glift (slice (tlvValue t) 0 (tlvLength t));
  _ ← match ExtractWord value with
      | Some (rest, usage) => receivedSymKey usage rest key
      | None => mret tt
      end;
  mret (Ok None).

(** [messageHandlerForTLV] and the table it reads; a type outside the table is
    skipped by the caller. *)
Definition handleTLV (t : tlv) (key : list byte) : option (M (result (option tlv))) :=
  if tlvType t =? tlvTypePadding then Some processPaddingTLV
  else if tlvType t =? tlvTypeDisconnected then Some processDisconnectedTLV
  else if isSMPMessage t then Some (processSMPTLV t)
  else if tlvType t =? tlvTypeExtraSymmetricKey then Some (processExtraSymmetricKeyTLV t key)
  else None.

Fixpoint processTLVs (tlvs : list tlv) (key : list byte) : M (result (list tlv)) :=
  match tlvs with
  | [] => mret (Ok [])
  | t :: tlvs' =>
      match handleTLV t key with
      | None => processTLVs tlvs' key
      | Some mh =>
          toSend ←? mh;
          ret ←? processTLVs tlvs' key;
          mret (Ok (match toSend with Some x => x :: ret | None => ret end))
      end
  end.

Definition decideFlagFrom (tlvs : list tlv) : Z :=
  if existsb isSMPMessage tlvs then messageFlagIgnoreUnreadable else 0.

(** ** Receiving *)

(** [processDataMessage] returns a plaintext, a reply and an error, each of
    which may be nil. *)
Definition outcome3 : Type := option (list byte) * option (list byte) * option error.

(** [MessagePlaintext] of the text: nil for an empty one. *)
Definition plaintextOf (m : list byte) : option (list byte) := if bool_decide (m = []) then None else Some m.

Definition conv_checkMessageCounter (m : dataMsg) : M (option error) := fun c =>
  let '(e, k) := checkMessageCounter (c_keys c) (dm_recipientKeyID m) (dm_senderKeyID m) (be_decode (dm_topHalfCtr m)) in
  Done (e, c <| c_keys := k |>).

Definition conv_rotateKeys (m : dataMsg) : M (option error) := fun c =>
  match rotateKeys (c_keys c) (dm_recipientKeyID m) (dm_senderKeyID m) (dm_y m) (c_Rand c) with
  | Done (e, k, r) => Done (e, c <| c_keys := k |> <| c_Rand := r |>)
  | Panicked p => Panicked p
  end.

(** The part after the plaintext is known: rotation, TLVs and the reply. *)
Definition afterDecryption (m : dataMsg) (p : plainDataMsg) (keys : sessionKeys) (v : otrVersion) : M outcome3 :=
  let plain := plaintextOf (pd_message p) in
  _ ← (if bool_decide (pd_message p = []) then messageEvent MessageEventLogHeartbeatReceived [] else mret tt);
  err ← conv_rotateKeys m;
  match err with
  | Some e => mret (plain, None, Some e)
  | None =>
      tlvs ← processTLVs (pd_tlvs p) (extraKey keys);
      match tlvs with
      | Err e => mret (plain, None, Some e)
      | Ok [] => mret (plain, None, None)
      | Ok tlvs =>
          reply ← genDataMsgWithFlag [] (decideFlagFrom tlvs) tlvs;
          match reply with
          | Err e => mret (plain, None, Some e)
          | Ok dx =>
              toSend ← wrapMessageHeader msgTypeData (dataMsg_serialize (fst dx) v);
              match toSend with
              | Err e => mret (plain, None, Some e)
              | Ok t => mret (plain, Some t, None)
              end
          end
      end
  end.

Definition processDataMessageWithRawErrors (header msg : list byte) : M outcome3 :=
  c ← gget;
  if negb (IsEncrypted c) then
    _ ← messageEvent MessageEventReceivedMessageNotInPrivate [];
    mret (None, None, Some errMessageNotInPrivate)
  else
    v ← theVersion;
    dm ← glift (dataMsg_deserialize msg v);
    match dm with
    | Err e => mret (None, None, Some e)
    | Ok dm =>
        err ← conv_checkMessageCounter dm;
        match err with
        | Some e => mret (None, None, Some e)
        | None =>
            keys ← conv_sessionKeys (dm_recipientKeyID dm) (dm_senderKeyID dm) v;
            match keys with
            | Err e => mret (None, None, Some e)
            | Ok keys =>
                match checkSign dm (receivingMACKey keys) header v with
                | Some e => mret (None, None, Some e)
                | None =>
                    let p := match plainDataMsg_decrypt (receivingAESKey keys) (dm_topHalfCtr dm) (dm_encryptedMsg dm) with
                             | Ok p => p
                             | Err _ => PlainDataMsg [] []
                             end in
                    afterDecryption dm p keys v
                end
            end
        end
    end.

Definition extractDataMessageFlag (msg : list byte) : Z :=
  match msg with [] => messageFlagNormal | b :: _ => b2z b end.

Definition processDataMessage (header msg : list byte) : M outcome3 :=
  let ignoreUnreadable := Z.land (extractDataMessageFlag msg) messageFlagIgnoreUnreadable =? messageFlagIgnoreUnreadable in
  o ← processDataMessageWithRawErrors header msg;
  let '(plain, toSend, err) := o : outcome3 in
  mret (plain, toSend, if ignoreUnreadable then None else err).

(** ** Heartbeats *)

Definition potentialHeartbeat (plain : option (list byte)) : M (result (option (list byte))) :=
  match plain with
  | None => mret (Ok None)
  | Some _ =>
      c ← gget;
      if negb (c_lastSent c <? env_now c - heartbeatInterval) then mret (Ok None)
      else
        dx ←? genDataMsgWithFlag [] messageFlagIgnoreUnreadable [];
        v ← theVersion;
        toSend ←? wrapMessageHeader msgTypeData (dataMsg_serialize (fst dx) v);
        _ ← updateLastSent;
        _ ← messageEvent MessageEventLogHeartbeatSent [];
        mret (Ok (Some toSend))
  end.

(** [receiveDataMessage] of receive.go without the notification: the outcome
    of [processDataMessage] and the heartbeat it may trigger. *)
Definition maybeHeartbeat (o : outcome3) : M (option (list byte) * list (list byte) * option error) :=
  let '(plain, toSend, err) := o in
  match err with
  | Some e => mret (None, [], Some e)
  | None =>
      tsExtra ← potentialHeartbeat plain;
      mret (plain,
            compactMessagesWithHeader [toSend; match tsExtra with Ok t => t | Err _ => None end],
            match tsExtra with Ok _ => None | Err e => Some e end)
  end.

(** ** The user's operations *)

Definition UseExtraSymmetricKey (usage : Z) (usageData : list byte) : M (result (list byte * list (list byte))) :=
  c ← gget;
  if negb (IsEncrypted c) || (theirKeyID (c_keys c) =? 0)
  then mret (Err (newOtrError "cannot send message in current state"))
  else
    let t := Tlv tlvTypeExtraSymmetricKey (u16 (4 + u16 (len usageData))) (AppendWord [] usage ++ usageData) in
    r ←? createSerializedDataMessage [] messageFlagIgnoreUnreadable [t];
    mret (Ok (snd r, fst r)).

Definition StartAuthenticate (question mutualSecret : list byte) : M (result (list (list byte))) :=
  _ ← ensureSMP;
  c ← gget;
  s ← glift (deref (smp_state (c_smp c)));
  tlvs ←? startAuthenticate s question mutualSecret;
  r ←? createSerializedDataMessage [] messageFlagIgnoreUnreadable tlvs;
  mret (Ok (fst r)).

Definition ProvideAuthenticationSecret (mutualSecret : list byte) : M (result (list (list byte))) :=
  t ←? continueSMP mutualSecret;
  r ←? createSerializedDataMessage [] messageFlagIgnoreUnreadable [t];
  mret (Ok (fst r)).

Definition AbortAuthentication : M (result (list (list byte))) :=
  t ← restartSMP;
  r ←? createSerializedDataMessage [] messageFlagIgnoreUnreadable [t];
  mret (Ok (fst r)).

(** The end of [End]: the key pairs are set to nil and the peer's current key to zero. *)
Definition wipeSessionKeys : M unit :=
  modKeys (fun k => k <| ourCurrentDHKeys := no_keys |> <| ourPreviousDHKeys := no_keys |>
                      <| theirCurrentDHPubKey := (fun _ => 0) <$> theirCurrentDHPubKey k |>).

Definition End : M (list (list byte) * option error) :=
  c ← gget;
  r ← (if IsEncrypted c then
         _ ← smp_wipe;
         r ← createSerializedDataMessage [] messageFlagIgnoreUnreadable [Tlv tlvTypeDisconnected 0 []];
         mret (match r with Ok (toSend, _) => (toSend, None) | Err e => ([], Some e) end)
       else mret ([], None));
  _ ← gmod (fun c => c <| c_lastMessageStateChange := 0 |> <| c_ake := None |> <| c_msgState := plainText |>);
  _ ← wipeSessionKeys;
  _ ← signalSecurityEventIf (IsEncrypted c) GoneInsecure;
  mret r.

End DataMessages.

(** ** Lemmas: sending *)

(** The counter the next message carries. *)
Definition nextCounter (k : keyManagementContext) (our their : Z) : Z :=
  if ourCounterOf k our their =? 0 then 1 else ourCounterOf k our their.

Section Lemmas.
Context `{DHGroup} `{CryptoLaws}.

(** The message [genDataMsgWithFlag] makes. *)
Definition sentMessage (v : otrVersion) (k : keyManagementContext) (hdr : list byte) (ks : sessionKeys) (our their y flag : Z)
    (p : plainDataMsg) : dataMsg :=
  let ctr := be_encode 8 (nextCounter k our their) in
  dataMsg_sign (DataMsg (z2b flag) our their y ctr (plainDataMsg_encrypt p (sendingAESKey ks) ctr) [] (oldMACKeys k) None)
    (sendingMACKey ks) hdr v.

(** What sending leaves of the keys and of the resend context. *)
Definition sentKeys (k : keyManagementContext) (our their : Z) (ks : sessionKeys) : keyManagementContext :=
  (snd (takeOurCounter k our their))
    <| macKeyHistory := addKeys (macKeyHistory k) our their (receivingMACKey ks) |> <| oldMACKeys := [] |>.

(** The Diffie-Hellman keys, which sending leaves alone; it counts messages and
    keeps account of MAC keys. *)
Definition dhKeys (k : keyManagementContext) :=
  (ourKeyID k, theirKeyID k, ourCurrentDHKeys k, ourPreviousDHKeys k, theirCurrentDHPubKey k, theirPreviousDHPubKey k).

Definition sentResend (r : resendContext) (m : list byte) : resendContext :=
  if retransmitting r then r <| mayRetransmit := noRetransmit |>
  else r <| mayRetransmit := noRetransmit |> <| resend_messages := resend_messages r ++ [MessageToResend m []] |>.

Definition sentState (c : Conversation) (our their : Z) (ks : sessionKeys) (m : list byte) : Conversation :=
  c <| c_keys := sentKeys (c_keys c) our their ks |> <| c_resend := sentResend (c_resend c) m |>.

Lemma sessionKeysFor_ok k our their v priv pub theirs :
  pickOurKeys k our = Ok (Some priv, Some pub) -> pickTheirKey k their = Ok (Some theirs) ->
  let ks := calculateDHSessionKeys priv pub theirs v in
  sessionKeysFor k our their v =
  Done (Ok ks, k <| macKeyHistory := addKeys (macKeyHistory k) our their (receivingMACKey ks) |>).
Proof. intros Ho Ht ks. unfold sessionKeysFor. by rewrite Ho, Ht. Qed.

Lemma takeOurCounter_eq k our their :
  takeOurCounter k our their = (nextCounter k our their, snd (takeOurCounter k our their)).
Proof.
  destruct (takeOurCounter k our their) as [ctr k'] eqn:E. simpl. f_equal.
  by apply takeOurCounter_spec in E as [-> _].
Qed.

Lemma takeOurCounter_history k our their items :
  takeOurCounter (k <| macKeyHistory := items |>) our their =
  (nextCounter k our their, (snd (takeOurCounter k our their)) <| macKeyHistory := items |>).
Proof.
  pose proof (takeOurCounter_eq k our their) as E. unfold takeOurCounter in *. simpl.
  destruct (findCounterFor (counterHistory k) our their). simpl in *. congruence.
Qed.

Lemma genDataMsgWithFlag_run c v priv pub theirs y m flag tlvs :
  let k := c_keys c in
  let our := u32 (ourKeyID k - 1) in
  let their := theirKeyID k in
  let ks := calculateDHSessionKeys priv pub theirs v in
  let hdr := headerOf v (c_ourInstanceTag c) (c_theirInstanceTag c) msgTypeData in
  c_msgState c = encrypted -> c_version c = Some v -> (v = otrV3 -> c_ourInstanceTag c <> 0) ->
  pickOurKeys k our = Ok (Some priv, Some pub) -> pickTheirKey k their = Ok (Some theirs) ->
  kp_pub (ourCurrentDHKeys k) = Some y ->
  genDataMsgWithFlag m flag tlvs c =
  Done (Ok (sentMessage v k hdr ks our their y flag (PlainDataMsg m tlvs), extraKey ks), sentState c our their ks m).
Proof.
  intros k our their ks hdr Henc Hv Ht Ho Hth Hy. unfold genDataMsgWithFlag. step_state.
  unfold IsEncrypted. rewrite bool_decide_true by done. cbn [negb].
  step_done (theVersion_Some c v Hv). fold k our their.
  set (c1 := c <| c_keys := k <| macKeyHistory := addKeys (macKeyHistory k) our their (receivingMACKey ks) |> |>).
  assert (conv_sessionKeys our their v c = Done (Ok ks, c1)) as E1
    by (unfold conv_sessionKeys; fold k; by rewrite (sessionKeysFor_ok k our their v priv pub theirs Ho Hth)).
  step_done E1. clear E1.
  set (k2 := (snd (takeOurCounter k our their)) <| macKeyHistory := addKeys (macKeyHistory k) our their (receivingMACKey ks) |>).
  set (c2 := c <| c_keys := k2 |>).
  assert (conv_takeOurCounter our their c1 = Done (nextCounter k our their, c2)) as E2
    by (unfold conv_takeOurCounter, c1; rec_simpl; by rewrite takeOurCounter_history).
  step_done E2. clear E2. step_done (messageHeader_ready v c2 msgTypeData Hv Ht).
  step_state. change (c_keys c2) with k2.
  assert (kp_pub (ourCurrentDHKeys k2) = Some y /\ oldMACKeys k2 = oldMACKeys k) as [Hy2 Ho2].
  { unfold k2, takeOurCounter. destruct (findCounterFor _ _ _). done. }
  rewrite Hy2. rewrite (bind_glift (deref (Some y)) y _ _ eq_refl).
  set (c3 := c <| c_keys := sentKeys k our their ks |>).
  assert (conv_revealMACKeys c2 = Done (oldMACKeys k, c3)) as E3
    by (unfold conv_revealMACKeys, revealMACKeys, c2; rec_simpl; by rewrite Ho2).
  step_done E3. clear E3. unfold updateMayRetransmitTo, lastMessage, later, modResend. step_state.
  unfold c3, sentState, sentResend. rec_simpl. by destruct (c_resend c) as [? ? [] ?].
Qed.

(** ** Lemmas: receiving *)

Lemma pickOurKeys_counters k h id : pickOurKeys (k <| counterHistory := h |>) id = pickOurKeys k id.
Proof. done. Qed.

Lemma pickTheirKey_counters k h id : pickTheirKey (k <| counterHistory := h |>) id = pickTheirKey k id.
Proof. done. Qed.

(** A message whose counter, keys, MAC and ciphertext check out is processed. *)
Lemma accept_dataMsg c v hdr msg dm k1 priv pub theirs p :
  let k := c_keys c in
  let r := dm_recipientKeyID dm in
  let s := dm_senderKeyID dm in
  let ks := calculateDHSessionKeys priv pub theirs v in
  c_msgState c = encrypted -> c_version c = Some v -> dataMsg_deserialize msg v = Done (Ok dm) ->
  checkMessageCounter k r s (be_decode (dm_topHalfCtr dm)) = (None, k1) ->
  pickOurKeys k r = Ok (Some priv, Some pub) -> pickTheirKey k s = Ok (Some theirs) ->
  checkSign dm (receivingMACKey ks) hdr v = None ->
  plainDataMsg_decrypt (receivingAESKey ks) (dm_topHalfCtr dm) (dm_encryptedMsg dm) = Ok p ->
  processDataMessageWithRawErrors hdr msg c =
  afterDecryption dm p ks v
    (c <| c_keys := k1 <| macKeyHistory := addKeys (macKeyHistory k) r s (receivingMACKey ks) |> |>).
Proof.
  intros k r s ks Henc Hv Hd Hc Ho Hth Hs Hp. unfold processDataMessageWithRawErrors. step_state.
  unfold IsEncrypted. rewrite bool_decide_true by done. cbn [negb].
  step_done (theVersion_Some c v Hv). rewrite (bind_glift _ _ _ _ Hd).
  set (c1 := c <| c_keys := k1 |>).
  assert (conv_checkMessageCounter dm c = Done (None, c1)) as E1 by (unfold conv_checkMessageCounter; fold k r s; by rewrite Hc).
  step_done E1. fold r s.
  destruct (checkMessageCounter_spec _ _ _ _ _ _ Hc) as (_ & _ & _ & Ek).
  assert (macKeyHistory k1 = macKeyHistory k) as Em by (by rewrite Ek).
  set (c2 := c <| c_keys := k1 <| macKeyHistory := addKeys (macKeyHistory k) r s (receivingMACKey ks) |> |>).
  assert (conv_sessionKeys r s v c1 = Done (Ok ks, c2)) as E2.
  { unfold conv_sessionKeys, c1. rec_simpl. rewrite (sessionKeysFor_ok k1 r s v priv pub theirs).
    - fold ks. by rewrite Em.
    - by rewrite Ek, pickOurKeys_counters.
    - by rewrite Ek, pickTheirKey_counters. }
  step_done E2. rewrite Hs, Hp. done.
Qed.

(** Text without TLVs of its own: the padding TLV produces no reply. *)
Lemma processTLVs_padding m key c : processTLVs (pd_tlvs (pad (PlainDataMsg m []))) key c = Done (Ok [], c).
Proof. done. Qed.

(** What is logged for a message: empty messages are heartbeats. *)
Definition heartbeatLogged (m : list byte) (c : Conversation) : Conversation :=
  if bool_decide (m = []) then
    if c_messageEventHandler c then c <| env_events := env_events c ++ [EvMessage MessageEventLogHeartbeatReceived [] None []] |> else c
  else c.

Lemma afterDecryption_text dm m ks v c k' rand' :
  rotateKeys (c_keys c) (dm_recipientKeyID dm) (dm_senderKeyID dm) (dm_y dm) (c_Rand c) = Done (None, k', rand') ->
  afterDecryption dm (pad (PlainDataMsg m [])) ks v c =
  Done ((plaintextOf m, None, None), (heartbeatLogged m c) <| c_keys := k' |> <| c_Rand := rand' |>).
Proof.
  intros Hr. unfold afterDecryption. change (pd_message (pad (PlainDataMsg m []))) with m.
  set (c1 := heartbeatLogged m c).
  assert ((if bool_decide (m = []) then messageEvent MessageEventLogHeartbeatReceived [] else mret tt) c = Done (tt, c1)) as E1.
  { unfold c1, heartbeatLogged. by destruct (bool_decide (m = [])). }
  step_done E1. set (c2 := c1 <| c_keys := k' |> <| c_Rand := rand' |>).
  assert (conv_rotateKeys dm c1 = Done (None, c2)) as E2.
  { unfold conv_rotateKeys. replace (c_keys c1) with (c_keys c) by (unfold c1, heartbeatLogged; by repeat case_match).
    replace (c_Rand c1) with (c_Rand c) by (unfold c1, heartbeatLogged; by repeat case_match). by rewrite Hr. }
  step_done E2. step_done (processTLVs_padding m (extraKey ks) c2). done.
Qed.

Lemma len_AESKey b secbytes v : len (take (Z.to_nat (keyLength v)) (kdf b secbytes (hash v))) = 16.
Proof. unfold len, kdf. rewrite length_take, hash_length. by destruct v. Qed.

Lemma len_sendingAESKey priv pub theirs v : len (sendingAESKey (calculateDHSessionKeys priv pub theirs v)) = 16.
Proof. unfold calculateDHSessionKeys. destruct (bn_gt pub theirs); apply len_AESKey. Qed.

Lemma length_receivingMACKey priv pub theirs v :
  length (receivingMACKey (calculateDHSessionKeys priv pub theirs v)) = 20%nat.
Proof. unfold calculateDHSessionKeys. destruct (bn_gt pub theirs); apply hash_length. Qed.

End Lemmas.
