(* ===== verification/Ake.v ===== *)
(** * The authenticated key exchange: ake.go, auth_state_machine.go, the wipe
    operations of wipe.go it uses, [sendDHCommit] of send.go

    [c.ake] is a pointer; [theAke] dereferences it.  Wiping sets the values
    aside: a wiped number or byte string is not read again, except where the
    source shares memory, which the definitions say. *)

From S2P Require Import Prelude GoLib Gotrax Policy Crypto KeyManagement Messages Smp Keys Conversation Fragmentation SmpMachine DataMessage.

Definition theAke : M ake := c ← gget; glift (deref (c_ake c)).

Definition modAke (f : ake -> ake) : M unit := a ← theAke; gmod (fun c => c <| c_ake := Some (f a) |>).

Definition modAkeKeys (f : keyManagementContext -> keyManagementContext) : M unit :=
  modAke (fun a => a <| ake_keys := f (ake_keys a) |>).

(** ** wipe.go *)

Definition akeKeys_wipe (k : akeKeys) : akeKeys := no_akeKeys.

Definition keys_wipe (k : keyManagementContext) : keyManagementContext := empty_keys.

(** The copy shares the bytes of the MAC keys with the context it wipes next:
    what is kept are the zeroed keys. *)
Definition wipeAndKeepRevealKeys (k : keyManagementContext) : keyManagementContext :=
  empty_keys <| oldMACKeys := map (fun key => zeroes (length key)) (oldMACKeys k) |>.

Definition wipeGX (a : ake) : ake := a <| ake_encryptedGx := [] |> <| ake_xhashedGx := [] |>.

(** [a.wipe(wipeKeys)]: the keys are emptied in both cases; [wipeKeys] decides
    whether the memory they point to is zeroed. *)
Definition ake_wipe (a : ake) : ake :=
  (wipeGX (a <| ake_secretExponent := None |> <| ake_ourPublicValue := None |>
             <| ake_theirPublicValue := None |> <| ake_r := zeroes 16 |>))
    <| ake_revealKey := no_akeKeys |> <| ake_sigKey := no_akeKeys |> <| ake_keys := empty_keys |>.

(** [c.ake.wipe(..)], which accepts a nil pointer. *)
Definition wipeAke : M unit := gmod (fun c => c <| c_ake := ake_wipe <$> c_ake c |>).

(** ** ake.go *)

Definition initAKE : M unit := gmod (fun c => c <| c_ake := Some initial_ake |>).

Definition ensureAKE : M unit := c ← gget; match c_ake c with Some _ => mret tt | None => initAKE end.

Definition fixedSize (s : Z) (v : list byte) : list byte :=
  if len v <? s then v ++ zeroes (Z.to_nat (s - len v)) else v.

Section AKE.
Context `{DHGroup} `{Crypto}.

Definition calcAKEKeys (s : Z) : M unit :=
  v ← theVersion;
  let '(ssid, revealKey, sigKey) := calculateAKEKeys s v in
  _ ← gmod (fun c => c <| c_ssid := ssid |>);
  modAke (fun a => a <| ake_revealKey := revealKey |> <| ake_sigKey := sigKey |>).

Definition setSecretExponent (val : Z) : M unit :=
  modAke (fun a => a <| ake_secretExponent := Some val |> <| ake_ourPublicValue := Some (modExp dh_g1 val) |>).

Definition calcDHSharedSecret : M Z :=
  a ← theAke;
  their ← glift (deref (ake_theirPublicValue a));
  x ← glift (deref (ake_secretExponent a));
  mret (modExp their x).

Definition appendAll (one two : Z) (publicKey : PublicKey) (keyID : Z) : list byte :=
  AppendWord (AppendMPI (AppendMPI [] one) two ++ PublicKey_serialize publicKey) keyID.

(** The reader's end of input becomes [errShortRandomRead]. *)
Definition signError (e : error) : error :=
  match e with
  | ForeignError m => if String.eqb m "EOF" || String.eqb m "unexpected EOF" then errShortRandomRead else e
  | OtrError _ _ => e
  end.

(** What [encrypt] leaves in its destination. *)
Definition encrypted_or_zero (key data : list byte) : M (list byte) :=
  e ← glift (encrypt key data);
  mret (match e with Ok dst => dst | Err _ => zeroes (length data) end).

Definition calcXb (key : akeKeys) (mb : list byte) : M (result (list byte)) :=
  c ← gget;
  k ← glift (deref (c_ourCurrentKey c));
  a ← theAke;
  let xb := AppendWord (PublicKey_serialize (PublicKey_of k)) (ourKeyID (ake_keys a)) in
  sigb ← withRand (fun rand => Sign k rand mb);
  match sigb with
  | Err e => mret (Err (signError e))
  | Ok sigb =>
      v ← theVersion;
      xb ← encrypted_or_zero (fixedSize (keyLength v) (akeKeys_c key)) (xb ++ sigb);
      mret (Ok xb)
  end.

Definition generateEncryptedSignature (key : akeKeys) : M (result (list byte)) :=
  a ← theAke;
  c ← gget;
  our ← glift (deref (ake_ourPublicValue a));
  their ← glift (deref (ake_theirPublicValue a));
  k ← glift (deref (c_ourCurrentKey c));
  let verifyData := appendAll our their (PublicKey_of k) (ourKeyID (ake_keys a)) in
  v ← theVersion;
  let mb := sumHMAC (akeKeys_m1 key) verifyData v in
  xb ←? calcXb key mb;
  mret (Ok (AppendData [] xb)).

Definition serializeDHCommit (public : Z) : M (list byte) :=
  a ← theAke; v ← theVersion;
  mret (dhCommit_serialize (DhCommit (ake_encryptedGx a) (hash2 v (AppendMPI [] public)))).

(** [c.randomInto(c.ake.r[:])]: a short read leaves the bytes it got. *)
Definition readR : M (result unit) :=
  c ← gget;
  r ← conv_randomInto 16;
  match r with
  | Ok r => _ ← modAke (fun a => a <| ake_r := r |>); mret (Ok tt)
  | Err e => _ ← modAke (fun a => a <| ake_r := take 16 (c_Rand c ++ drop (length (c_Rand c)) (ake_r a)) |>); mret (Err e)
  end.

Definition dhCommitMessage : M (result (list byte)) :=
  _ ← initAKE;
  _ ← modAkeKeys (fun k => k <| ourKeyID := 0 |>);
  x ←? conv_randMPI 40;
  _ ← setSecretExponent x;
  _ ←? readR;
  a ← theAke;
  public ← glift (deref (ake_ourPublicValue a));
  egx ← encrypted_or_zero (ake_r a) (AppendMPI [] public);
  _ ← modAke (fun a => a <| ake_encryptedGx := egx |>);
  msg ← serializeDHCommit public;
  mret (Ok msg).

Definition serializeDHKey : M (list byte) :=
  a ← theAke; gy ← glift (deref (ake_ourPublicValue a)); mret (dhKey_serialize (DhKey gy)).

Definition dhKeyMessage : M (result (list byte)) :=
  _ ← initAKE;
  y ←? conv_randMPI 40;
  _ ← setSecretExponent y;
  msg ← serializeDHKey;
  mret (Ok msg).

Definition revealSigMessage : M (result (list byte)) :=
  s ← calcDHSharedSecret;
  _ ← calcAKEKeys s;
  _ ← modAkeKeys (fun k => k <| ourKeyID := u32 (ourKeyID k + 1) |>);
  a ← theAke;
  encryptedSig ←? generateEncryptedSignature (ake_revealKey a);
  a ← theAke; v ← theVersion;
  let macSig := sumHMAC (akeKeys_m2 (ake_revealKey a)) encryptedSig v in
  msg ← glift (revealSig_serialize (RevealSig (ake_r a) encryptedSig macSig) v);
  mret (Ok msg).

Definition sigMessage : M (result (list byte)) :=
  _ ← modAkeKeys (fun k => k <| ourKeyID := u32 (ourKeyID k + 1) |>);
  a ← theAke;
  encryptedSig ←? generateEncryptedSignature (ake_sigKey a);
  a ← theAke; v ← theVersion;
  let macSig := sumHMAC (akeKeys_m2 (ake_sigKey a)) encryptedSig v in
  msg ← glift (sig_serialize (Sig encryptedSig macSig) v);
  mret (Ok msg).

Definition processDHCommit (msg : list byte) : M (result unit) :=
  match dhCommit_deserialize msg with
  | Err e => mret (Err e)
  | Ok m =>
      _ ← modAke (fun a => a <| ake_encryptedGx := dhc_encryptedGx m |> <| ake_xhashedGx := dhc_yhashedGx m |>);
      mret (Ok tt)
  end.

(** Whether the value is the one received before. *)
Definition processDHKey (msg : list byte) : M (result bool) :=
  match dhKey_deserialize msg with
  | Err e => mret (Err e)
  | Ok m =>
      if negb (isGroupElement (dhk_gy m)) then mret (Err (newOtrError "DH value out of range"))
      else
        a ← theAke;
        match ake_theirPublicValue a with
        | Some gy => mret (Ok (bn_eq gy (dhk_gy m)))
        | None => _ ← modAke (fun a => a <| ake_theirPublicValue := Some (dhk_gy m) |>); mret (Ok false)
        end
  end.

(** The number is returned, and stored by the caller, in the error cases too. *)
Definition extractGx (decryptedGx : list byte) : option Z * option error :=
  match ExtractMPI decryptedGx with
  | None => (None, Some (newOtrError "gx corrupt after decryption"))
  | Some (newData, gx) =>
      if 0 <? len newData then (Some gx, Some (newOtrError "gx corrupt after decryption"))
      else if negb (isGroupElement gx) then (Some gx, Some (newOtrError "DH value out of range"))
      else (Some gx, None)
  end.

Definition checkDecryptedGx (decryptedGx hashedGx : list byte) (v : otrVersion) : option error :=
  if bool_decide (hash2 v decryptedGx = hashedGx) then None
  else Some (newOtrError "bad commit MAC in reveal signature message").

(** ** The encrypted signature *)

Definition verifyEncryptedSignatureMAC (encryptedSig theirMAC : list byte) (keys : akeKeys) (v : otrVersion)
  : go (option error) :=
  let tomac := AppendData [] encryptedSig in
  myMAC ← slice (sumHMAC (akeKeys_m2 keys) tomac v) 0 (truncateLength v);
  mret (if bool_decide (myMAC = theirMAC) then None
        else Some (newOtrError "bad signature MAC in encrypted signature")).

(** The peer's key is stored before its signature is checked; it is
    allocated at the next unused address. *)
Definition parseTheirKey (key : list byte) : M (result (list byte * Z)) :=
  c ← gget;
  let '(rest, ok1, pub) := ParsePublicKey (env_fresh c) key in
  _ ← gmod (fun c => c <| c_theirKey := pub |> <| env_fresh := env_fresh c + 1 |>);
  mret (match ExtractWord rest with
        | Some (sig, keyID) => if ok1 then Ok (sig, keyID) else Err errCorruptEncryptedSignature
        | None => Err errCorruptEncryptedSignature
        end).

Definition expectedMessageHMAC (keyID : Z) (keys : akeKeys) : M (list byte) :=
  a ← theAke; c ← gget;
  their ← glift (deref (ake_theirPublicValue a));
  our ← glift (deref (ake_ourPublicValue a));
  k ← glift (deref (c_theirKey c));
  v ← theVersion;
  mret (sumHMAC (akeKeys_m1 keys) (appendAll their our k keyID) v).

Definition checkedSignatureVerification (mb sig : list byte) : M (result unit) :=
  c ← gget;
  k ← glift (deref (c_theirKey c));
  let '(rest, ok) := Verify k mb sig in
  mret (if negb ok then Err (newOtrError "bad signature in encrypted signature")
        else if 0 <? len rest then Err errCorruptEncryptedSignature
        else Ok tt).

Definition processEncryptedSig (encryptedSig theirMAC : list byte) (keys : akeKeys) : M (result unit) :=
  v ← theVersion;
  err ← glift (verifyEncryptedSignatureMAC encryptedSig theirMAC keys v);
  match err with
  | Some e => mret (Err e)
  | None =>
      match decrypt (fixedSize (keyLength v) (akeKeys_c keys)) encryptedSig with
      | Err e => mret (Err e)
      | Ok decryptedSig =>
          sk ←? parseTheirKey decryptedSig;
          mb ← expectedMessageHMAC (snd sk) keys;
          _ ←? checkedSignatureVerification mb (fst sk);
          _ ← modAkeKeys (fun k => k <| theirKeyID := snd sk |>);
          mret (Ok tt)
      end
  end.

Definition in_message (prefix : string) (e : error) : error := newOtrError (String.append prefix (Error e)).

Definition processRevealSig (msg : list byte) : M (result unit) :=
  v ← theVersion;
  match revealSig_deserialize msg v with
  | Err e => mret (Err e)
  | Ok m =>
      a ← theAke;
      match decrypt (rs_r m) (ake_encryptedGx a) with
      | Err e => mret (Err e)
      | Ok decryptedGx =>
          match checkDecryptedGx decryptedGx (ake_xhashedGx a) v with
          | Some e => mret (Err e)
          | None =>
              let '(gx, err) := extractGx decryptedGx in
              _ ← modAke (fun a => a <| ake_theirPublicValue := gx |>);
              match err with
              | Some e => mret (Err e)
              | None =>
                  s ← calcDHSharedSecret;
                  _ ← calcAKEKeys s;
                  a ← theAke;
                  r ← processEncryptedSig (rs_encryptedSig m) (rs_macSig m) (ake_revealKey a);
                  mret (match r with Err e => Err (in_message "in reveal signature message: " e) | Ok _ => Ok tt end)
              end
          end
      end
  end.

Definition processSig (msg : list byte) : M (result unit) :=
  match sig_deserialize msg with
  | Err e => mret (Err e)
  | Ok m =>
      a ← theAke;
      r ← processEncryptedSig (sig_encryptedSig m) (sig_macSig m) (ake_sigKey a);
      mret (match r with Err e => Err (in_message "in signature message: " e) | Ok _ => Ok tt end)
  end.

(** ** [sendDHCommit] of send.go *)

Definition sendDHCommit : M (result (list byte)) :=
  _ ← wipeAke;
  _ ← gmod (fun c => c <| c_ake := None |>);
  toSend ←? dhCommitMessage;
  toSend ←? wrapMessageHeader msgTypeDHCommit toSend;
  _ ← modAke (fun a => a <| ake_state := authStateAwaitingDHKey |>);
  mret (Ok toSend).

(** ** auth_state_machine.go *)

Definition conv_generateNewDHKeyPair : M (option error) := fun c =>
  let '(err, k, r) := generateNewDHKeyPair (c_keys c) (c_Rand c) in
  Done (err, c <| c_keys := k |> <| c_Rand := r |>).

(** The two deferred notifications run after the body, the last one first. *)
Definition akeHasFinished : M (option error) :=
  a ← theAke;
  _ ← gmod (fun c => c <| c_keys := ake_keys a |>);
  _ ← wipeAke;
  c ← gget;
  let previousMsgState := c_msgState c in
  _ ← gmod (fun c => c <| c_lastMessageStateChange := env_now c |> <| c_msgState := encrypted |>);
  k ← glift (deref (c_ourCurrentKey c));
  _ ← (if match c_theirKey c with Some their => IsSame (PublicKey_of k) their | None => false end
       then messageEvent MessageEventMessageReflected [] else mret tt);
  err ← conv_generateNewDHKeyPair;
  _ ← signalSecurityEventIf (bool_decide (previousMsgState = encrypted)) StillSecure;
  _ ← signalSecurityEventIf (negb (bool_decide (previousMsgState = encrypted))) GoneSecure;
  mret err.

(** What a handler returns: the next state, the message to send and an error. *)
Definition authOutcome : Type := authState * option (list byte) * option error.

(** An early return from a handler: stay in the state with the error. *)
Definition tryA {A} (s : authState) (m : M (result A)) (f : A -> M authOutcome) : M authOutcome :=
  r ← m; match r with Ok a => f a | Err e => mret (s, None, Some e) end.

Definition receiveDHCommitNone (msg : list byte) : M authOutcome :=
  let s := authStateNone in
  _ ← wipeAke;
  tryA s dhKeyMessage (fun dhKeyMsg =>
  tryA s (wrapMessageHeader msgTypeDHKey dhKeyMsg) (fun dhKeyMsg =>
  tryA s (processDHCommit msg) (fun _ =>
  mret (authStateAwaitingRevealSig, Some dhKeyMsg, None)))).

Definition receiveDHCommitAwaitingRevealSig (msg : list byte) : M authOutcome :=
  let s := authStateAwaitingRevealSig in
  _ ← modAkeKeys wipeAndKeepRevealKeys;
  _ ← modAke wipeGX;
  tryA s (processDHCommit msg) (fun _ =>
  body ← serializeDHKey;
  tryA s (wrapMessageHeader msgTypeDHKey body) (fun dhKeyMsg =>
  mret (authStateAwaitingRevealSig, Some dhKeyMsg, None))).

(** Both sides committed: the higher hash wins. *)
Definition receiveDHCommitAwaitingDHKey (msg : list byte) : M authOutcome :=
  let s := authStateAwaitingDHKey in
  match ExtractData msg with
  | None => mret (s, None, Some errInvalidOTRMessage)
  | Some (newMsg, _) =>
      match ExtractData newMsg with
      | None => mret (s, None, Some errInvalidOTRMessage)
      | Some (_, theirHashedGx) =>
          a ← theAke;
          v ← theVersion;
          public ← glift (deref (ake_ourPublicValue a));
          let hashedGx := hash2 v (AppendMPI [] public) in
          if Compare hashedGx theirHashedGx =? 1 then
            body ← serializeDHCommit public;
            tryA s (wrapMessageHeader msgTypeDHCommit body) (fun dhCommitMsg =>
            mret (authStateAwaitingRevealSig, Some dhCommitMsg, None))
          else receiveDHCommitNone msg
      end
  end.

Definition receiveDHCommitMessage (s : authState) (msg : list byte) : M authOutcome :=
  match s with
  | authStateAwaitingRevealSig => receiveDHCommitAwaitingRevealSig msg
  | authStateAwaitingDHKey => receiveDHCommitAwaitingDHKey msg
  | authStateNone | authStateAwaitingSig _ => receiveDHCommitNone msg
  end.

(** [c.ake.keys.setTheirCurrentDHPubKey(c.ake.theirPublicValue)] *)
Definition storeTheirKey : M unit :=
  a ← theAke;
  k ← glift (setTheirCurrentDHPubKey (ake_keys a) (ake_theirPublicValue a));
  modAkeKeys (fun _ => k).

(** [c.ake.keys.setOurCurrentDHKeys(c.ake.secretExponent, c.ake.ourPublicValue)] *)
Definition storeOurKeys : M unit :=
  a ← theAke;
  k ← glift (setOurCurrentDHKeys (ake_keys a) (ake_secretExponent a) (ake_ourPublicValue a));
  modAkeKeys (fun _ => k).

Definition receiveDHKeyAwaitingDHKey (msg : list byte) : M authOutcome :=
  let s := authStateAwaitingDHKey in
  tryA s (processDHKey msg) (fun _ =>
  tryA s revealSigMessage (fun revealSigMsg =>
  tryA s (wrapMessageHeader msgTypeRevealSig revealSigMsg) (fun revealSigMsg =>
  _ ← storeTheirKey;
  _ ← storeOurKeys;
  _ ← gmod (fun c => c <| c_sentRevealSig := true |>);
  mret (authStateAwaitingSig revealSigMsg, Some revealSigMsg, None)))).

Definition receiveDHKeyAwaitingSig (revealSigMsg msg : list byte) : M authOutcome :=
  let s := authStateAwaitingSig revealSigMsg in
  tryA s (processDHKey msg) (fun isSame =>
  mret (s, if isSame : bool then Some revealSigMsg else None, None)).

Definition receiveDHKeyMessage (s : authState) (msg : list byte) : M authOutcome :=
  match s with
  | authStateAwaitingDHKey => receiveDHKeyAwaitingDHKey msg
  | authStateAwaitingSig m => receiveDHKeyAwaitingSig m msg
  | authStateNone | authStateAwaitingRevealSig => mret (s, None, None)
  end.

Definition receiveRevealSigAwaiting (msg : list byte) : M authOutcome :=
  let s := authStateAwaitingRevealSig in
  tryA s (processRevealSig msg) (fun _ =>
  tryA s sigMessage (fun sigMsg =>
  tryA s (wrapMessageHeader msgTypeSig sigMsg) (fun sigMsg =>
  _ ← storeTheirKey;
  _ ← storeOurKeys;
  _ ← gmod (fun c => c <| c_sentRevealSig := false |>);
  err ← akeHasFinished;
  mret (authStateNone, Some sigMsg, err)))).

Definition receiveRevealSigMessage (s : authState) (msg : list byte) : M authOutcome :=
  match s with
  | authStateAwaitingRevealSig => receiveRevealSigAwaiting msg
  | _ => mret (s, None, None)
  end.

Definition receiveSigAwaiting (revealSigMsg msg : list byte) : M authOutcome :=
  tryA (authStateAwaitingSig revealSigMsg) (processSig msg) (fun _ =>
  _ ← storeTheirKey;
  err ← akeHasFinished;
  mret (authStateNone, None, err)).

Definition receiveSigMessage (s : authState) (msg : list byte) : M authOutcome :=
  match s with
  | authStateAwaitingSig m => receiveSigAwaiting m msg
  | _ => mret (s, None, None)
  end.

(** [c.ake.state, toSend, err = c.ake.state.handler(c, msg)]: the new state is
    stored in the exchange the conversation points to after the call. *)
Definition runAuth (h : authState -> M authOutcome) : M (option (list byte) * option error) :=
  a ← theAke;
  o ← h (ake_state a);
  let '(s', toSend, err) := o : authOutcome in
  _ ← modAke (fun a => a <| ake_state := s' |>);
  mret (toSend, err).

Definition ignoreError {A} (r : result (list A)) : list A := match r with Ok l => l | Err _ => [] end.

Definition unknownMessageType (msgType : Z) : error :=
  newOtrError (String.append "unknown message type 0x" (string_of_list_byte (format_base true 16 msgType))).

Definition processAKE (msgType : Z) (msg : list byte) : M (list (list byte) * option error) :=
  _ ← ensureAKE;
  r ← (if msgType =? msgTypeDHCommit then
         se ← runAuth (fun s => receiveDHCommitMessage s msg); mret (se, [])
       else if msgType =? msgTypeDHKey then
         se ← runAuth (fun s => receiveDHKeyMessage s msg); mret (se, [])
       else if msgType =? msgTypeRevealSig then
         se ← runAuth (fun s => receiveRevealSigMessage s msg);
         extra ← maybeRetransmit; mret (se, ignoreError extra)
       else if msgType =? msgTypeSig then
         se ← runAuth (fun s => receiveSigMessage s msg);
         extra ← maybeRetransmit; mret (se, ignoreError extra)
       else mret ((None, Some (unknownMessageType msgType)), []));
  let '((single, err), extra) := r : option (list byte) * option error * list (option (list byte)) in
  c ← gget;
  _ ← modAke (fun a => a <| ake_lastStateChange := env_now c |>);
  mret (compactMessagesWithHeader (single :: extra), err).

End AKE.

(** ** Dereferencing the exchange *)

Lemma theAke_Some c a : c_ake c = Some a -> theAke c = Done (a, c).
Proof. intros Ha. unfold theAke. step_state. by rewrite Ha. Qed.

Lemma modAke_Some f c a : c_ake c = Some a -> modAke f c = Done (tt, c <| c_ake := Some (f a) |>).
Proof. intros Ha. unfold modAke. by step_done (theAke_Some c a Ha). Qed.

Lemma modAkeKeys_Some f c a : c_ake c = Some a ->
  modAkeKeys f c = Done (tt, c <| c_ake := Some (a <| ake_keys := f (ake_keys a) |>) |>).
Proof. intros Ha. unfold modAkeKeys. by rewrite (modAke_Some _ c a Ha). Qed.

(** ** The end of the exchange *)

Section Finished.
Context `{DHGroup} `{Crypto}.

(** Telling a handler changes the log only. *)
Lemma wlp_logEvent (b : bool) h e d (P : unit -> Conversation -> Prop) : (forall evs, P tt (d <| env_events := evs |>)) ->
  wlp (if b then logEvent h e else mret tt) d P.
Proof.
  intros HP. assert (P tt d) as Hd by (specialize (HP (env_events d)); by destruct d).
  destruct b; [|done]. unfold logEvent. apply wlp_gmod. destruct (h d); [apply HP|done].
Qed.

Lemma akeHasFinished_keys c av : c_ake c = Some av ->
  wlp akeHasFinished c (fun _ c' => c_version c' = c_version c /\ c_ake c' = Some (ake_wipe av) /\
    c_keys c' = snd (fst (generateNewDHKeyPair (ake_keys av) (c_Rand c))) /\ c_Rand c' = snd (generateNewDHKeyPair (ake_keys av) (c_Rand c))).
Proof.
  intros Ha. unfold akeHasFinished, wipeAke. apply wlp_bind. unfold wlp at 1. rewrite (theAke_Some c av Ha). do 8 wlp_step. rec_simpl. rewrite Ha.
  match goal with |- wlp _ ?s _ => set (c1 := s) end. apply wlp_bind, wlp_glift. intros k _. apply wlp_bind.
  apply wlp_logEvent. intros evs. apply wlp_bind. unfold conv_generateNewDHKeyPair, wlp at 1. change (c_keys (c1 <| env_events := evs |>)) with (ake_keys av).
  change (c_Rand (c1 <| env_events := evs |>)) with (c_Rand c). destruct (generateNewDHKeyPair (ake_keys av) (c_Rand c)) as [[err k'] r'].
  cbn beta iota. unfold signalSecurityEventIf, securityEvent. apply wlp_bind, wlp_logEvent. intros evs2. apply wlp_bind, wlp_logEvent. intros evs3. by apply wlp_ret.
Qed.

End Finished.
