(* ===== verification/Frames.v ===== *)
(** * What the actions of a conversation leave alone

    [keeps] relates the conversations before and after an action that returns;
    [leaves] is the case of a part of the conversation that does not change.
    [solve_leaves] proves such a fact by following the code, with the facts about
    what it calls in the hint database [leaves].  The two frames at the end are
    those of the key exchange and of SMP. *)

From S2P Require Import Prelude GoLib Gotrax Policy Crypto KeyManagement Messages Smp Keys Conversation Fragmentation SmpMachine DataMessage Ake.

(** Total and partial correctness combined. *)
Lemma wp_and {S A} (m : GoM S A) s (P Q : A -> S -> Prop) : wp m s P -> wlp m s Q -> wp m s (fun a s' => P a s' /\ Q a s').
Proof. unfold wp, wlp. by destruct (m s) as [[a s']|p]. Qed.

Definition is_ok {A} (r : result A) : bool := match r with Ok _ => true | Err _ => false end.

(** ** What an action leaves alone *)

(** Whenever the action returns, [R] relates the conversation to the one before. *)
Definition keeps (R : Conversation -> Conversation -> Prop) {A} (m : M A) : Prop := forall c, wlp m c (fun _ c' => R c c').

(** The action does not change what [f] reads of the conversation. *)
Abbreviation leaves f := (keeps (fun c c' => f c' = f c)).

#[export] Instance same_preorder {X} (f : Conversation -> X) : PreOrder (fun c c' => f c' = f c).
Proof. split; [by intros c|]. intros c1 c2 c3 E1 E2. congruence. Qed.

Section Keeps.
Context (R : Conversation -> Conversation -> Prop) `{!PreOrder R}.

Lemma keeps_ret {A} (a : A) : keeps R (mret a).
Proof. intros c. apply wlp_ret. reflexivity. Qed.

Lemma keeps_bind {A B} (m : M A) (k : A -> M B) : keeps R m -> (forall a, keeps R (k a)) -> keeps R (m ≫= k).
Proof.
  intros Hm Hk c. apply wlp_bind. eapply wlp_mono; [apply Hm|]. intros a c1 E. eapply wlp_mono; [apply Hk|].
  intros b c2 E2. by transitivity c1.
Qed.

Lemma keeps_tryb {A B} (m : M (result A)) (k : A -> M (result B)) : keeps R m -> (forall a, keeps R (k a)) -> keeps R (tryb m k).
Proof. intros Hm Hk. apply keeps_bind; [done|]. intros [a|e]; [apply Hk|apply keeps_ret]. Qed.

Lemma keeps_gget : keeps R gget.
Proof. intros c. apply wlp_gget. reflexivity. Qed.

Lemma keeps_gmod g : (forall c, R c (g c)) -> keeps R (gmod g).
Proof. intros Hg c. apply wlp_gmod, Hg. Qed.

Lemma keeps_glift {A} (m : go A) : keeps R (glift m).
Proof. intros c. apply wlp_glift. reflexivity. Qed.

End Keeps.

Create HintDb leaves.

(** Follow the code; what it calls is in the hint database. *)
Ltac leaves_step :=
  cbn beta iota zeta;
  lazymatch goal with |- keeps ?R _ => first
    [ apply (keeps_ret R) | apply (keeps_gget R) | apply (keeps_glift R)
    | solve [eauto 2 with leaves]
    | apply (keeps_bind R); [|intros ?] | apply (keeps_tryb R); [|intros ?]
    | apply (keeps_gmod R); intros ?; cbn beta; first [reflexivity | by repeat case_match]
    | case_match
    | progress unfold tryA, messageEvent, messageEventWithError, messageEventWithMessage, securityEvent, signalSecurityEventIf, smpEvent,
        smpEventWithQuestion, receivedSymKey, logEvent, generatePotentialErrorMessage, injectMessage, theVersion, theAke, modAke, modAkeKeys,
        initAKE, ensureAKE, wipeAke, modSMP, smp_wipe, ensureSMP, theTheirKey, theOurKey, modKeys, modResend, updateLastSent,
        updateMayRetransmitTo, lastMessage, later ]
  end.

Ltac solve_leaves := intros; repeat leaves_step.

Section Frames.
Context `{DHGroup} `{Crypto}.

(** ** What the key exchange leaves alone *)

Definition exchange_frame (c : Conversation) := (c_Policies c, c_ourKeys c, c_fragmentSize c, c_debug c, c_smp c).

Lemma frame_randomInto n : leaves exchange_frame (conv_randomInto n).
Proof. intros c. unfold wlp, conv_randomInto. by destruct (randomInto _ _). Qed.
Lemma frame_randMPI n : leaves exchange_frame (conv_randMPI n).
Proof. intros c. unfold wlp, conv_randMPI. by destruct (randSizedMPI _ _). Qed.
Lemma frame_withRand {A} (f : list byte -> go (result A * list byte)) : leaves exchange_frame (withRand f).
Proof. intros c. unfold wlp, withRand. by destruct (f _) as [[? ?]|]. Qed.
Lemma frame_generateInstanceTag : leaves exchange_frame generateInstanceTag.
Proof. intros c. unfold wlp, generateInstanceTag. destruct (negb _); [done|]. by destruct (instanceTagLoop _ _) as [[?|?] ?]. Qed.
Lemma frame_generateNewDHKeyPair : leaves exchange_frame conv_generateNewDHKeyPair.
Proof. intros c. unfold wlp, conv_generateNewDHKeyPair. by destruct (generateNewDHKeyPair _ _) as [[? ?] ?]. Qed.
#[local] Hint Resolve frame_randomInto frame_randMPI frame_withRand frame_generateInstanceTag frame_generateNewDHKeyPair : leaves.

Lemma frame_wrapMessageHeader t m : leaves exchange_frame (wrapMessageHeader t m).
Proof. unfold wrapMessageHeader, messageHeader, otrV2_messageHeader, otrV3_messageHeader. solve_leaves. Qed.
#[local] Hint Resolve frame_wrapMessageHeader : leaves.

Lemma frame_dhKeyMessage : leaves exchange_frame dhKeyMessage.
Proof. unfold dhKeyMessage, serializeDHKey, setSecretExponent. solve_leaves. Qed.
Lemma frame_dhCommitMessage : leaves exchange_frame dhCommitMessage.
Proof. unfold dhCommitMessage, serializeDHCommit, setSecretExponent, readR, encrypted_or_zero. solve_leaves. Qed.
#[local] Hint Resolve frame_dhKeyMessage frame_dhCommitMessage : leaves.

Lemma frame_sendDHCommit : leaves exchange_frame sendDHCommit.
Proof. unfold sendDHCommit. solve_leaves. Qed.
Lemma frame_generateEncryptedSignature key : leaves exchange_frame (generateEncryptedSignature key).
Proof. unfold generateEncryptedSignature, calcXb, encrypted_or_zero. solve_leaves. Qed.
Lemma frame_calcAKEKeys s : leaves exchange_frame (calcAKEKeys s).
Proof. unfold calcAKEKeys. solve_leaves. Qed.
#[local] Hint Resolve frame_sendDHCommit frame_generateEncryptedSignature frame_calcAKEKeys : leaves.

Lemma frame_processEncryptedSig esig mac keys : leaves exchange_frame (processEncryptedSig esig mac keys).
Proof. unfold processEncryptedSig, parseTheirKey, expectedMessageHMAC, checkedSignatureVerification. solve_leaves. Qed.
Lemma frame_processDHCommit msg : leaves exchange_frame (processDHCommit msg).
Proof. unfold processDHCommit. solve_leaves. Qed.
Lemma frame_processDHKey msg : leaves exchange_frame (processDHKey msg).
Proof. unfold processDHKey. solve_leaves. Qed.
Lemma frame_akeHasFinished : leaves exchange_frame akeHasFinished.
Proof. unfold akeHasFinished. solve_leaves. Qed.
#[local] Hint Resolve frame_processEncryptedSig frame_processDHCommit frame_processDHKey frame_akeHasFinished : leaves.

Lemma frame_handlers s msg : leaves exchange_frame (receiveDHCommitMessage s msg) /\ leaves exchange_frame (receiveDHKeyMessage s msg) /\
  leaves exchange_frame (receiveRevealSigMessage s msg) /\ leaves exchange_frame (receiveSigMessage s msg).
Proof.
  unfold receiveDHCommitMessage, receiveDHKeyMessage, receiveRevealSigMessage, receiveSigMessage, receiveDHCommitNone, receiveDHCommitAwaitingRevealSig,
    receiveDHCommitAwaitingDHKey, receiveDHKeyAwaitingDHKey, receiveDHKeyAwaitingSig, receiveRevealSigAwaiting, receiveSigAwaiting, revealSigMessage,
    sigMessage, processRevealSig, processSig, storeTheirKey, storeOurKeys, serializeDHCommit, serializeDHKey, calcDHSharedSecret, receiveDHCommitNone.
  split_and!; solve_leaves.
Qed.

(** ** What SMP leaves alone *)

Definition smp_frame (c : Conversation) :=
  (c_version c, c_msgState c, c_ourCurrentKey c, c_ake c, c_keys c, c_ssid c, c_ourInstanceTag c, (c_Policies c, c_ourKeys c, c_fragmentSize c, c_debug c)).

Lemma smp_frame_withRand {A} (f : list byte -> go (result A * list byte)) : leaves smp_frame (withRand f).
Proof. intros c. unfold wlp, withRand. by destruct (f _) as [[? ?]|]. Qed.
#[local] Hint Resolve smp_frame_withRand : leaves.

Lemma smp_frame_receiveSMP m : leaves smp_frame (receiveSMP m).
Proof.
  unfold receiveSMP, receivedMessage, runHandler, receiveMessage1, receiveMessage2, receiveMessage3, receiveMessage4,
    abortStateMachineAndNotifyCheated, abortStateMachineAndNotifyError. solve_leaves.
Qed.

Lemma smp_frame_continueSMP secret : leaves smp_frame (continueSMP secret).
Proof. unfold continueSMP, continueMessage, runHandler, continueMessage1, abortStateMachineAndNotifyCheated. solve_leaves. Qed.

Lemma smp_frame_startAuthenticate s q secret : leaves smp_frame (startAuthenticate s q secret).
Proof. unfold startAuthenticate, startAuthenticateExpect1. solve_leaves. Qed.

End Frames.

(** ** What sending leaves alone *)

Definition sent_frame (c : Conversation) :=
  (c_version c, c_ourCurrentKey c, c_msgState c, c_theirKey c, c_ssid c, c_ake c, dhKeys (c_keys c),
   (c_Policies c, c_ourKeys c, c_fragmentSize c, c_debug c, c_smp c)).

(** Sending may draw an instance tag, once. *)
Definition sent (c c' : Conversation) : Prop :=
  sent_frame c' = sent_frame c /\ (c_ourInstanceTag c <> 0 -> c_ourInstanceTag c' = c_ourInstanceTag c).

#[export] Instance sent_preorder : PreOrder sent.
Proof.
  split; [by split|]. intros c1 c2 c3 [E1 T1] [E2 T2]. split; [by rewrite E2|]. intros Ht. rewrite T2; [auto|]. by rewrite T1.
Qed.

(** Updates of other fields. *)
#[local] Hint Extern 1 (keeps sent (gmod _)) => apply keeps_gmod; intros ?; first [by split | by repeat case_match] : leaves.

Section Sending.
Context `{DHGroup} `{Crypto}.

Lemma sent_sessionKeys our their v : keeps sent (conv_sessionKeys our their v).
Proof.
  intros c. unfold wlp, conv_sessionKeys, sessionKeysFor. destruct (pickOurKeys _ _) as [[priv pub]|e]; [|by split].
  destruct (pickTheirKey _ _) as [y|e]; [|by split]. destruct priv, pub, y; by try split.
Qed.
Lemma sent_takeOurCounter our their : keeps sent (conv_takeOurCounter our their).
Proof. intros c. unfold wlp, conv_takeOurCounter, takeOurCounter. by destruct (findCounterFor _ _ _). Qed.
Lemma sent_revealMACKeys : keeps sent conv_revealMACKeys.
Proof. by intros c. Qed.
Lemma sent_generateInstanceTag : keeps sent generateInstanceTag.
Proof.
  intros c. unfold wlp, generateInstanceTag. destruct (Z.eqb_spec (c_ourInstanceTag c) 0) as [E|E]; cbn [negb]; [|by split].
  by destruct (instanceTagLoop _ _) as [[?|?] ?].
Qed.
#[local] Hint Resolve sent_sessionKeys sent_takeOurCounter sent_revealMACKeys sent_generateInstanceTag : leaves.

Lemma sent_messageHeader t : keeps sent (messageHeader t).
Proof. unfold messageHeader, otrV2_messageHeader, otrV3_messageHeader. solve_leaves. Qed.
#[local] Hint Resolve sent_messageHeader : leaves.
Lemma sent_wrapMessageHeader t m : keeps sent (wrapMessageHeader t m).
Proof. unfold wrapMessageHeader. solve_leaves. Qed.
Lemma sent_genDataMsg msg flag tlvs : keeps sent (genDataMsgWithFlag msg flag tlvs).
Proof. unfold genDataMsgWithFlag. solve_leaves. Qed.
#[local] Hint Resolve sent_wrapMessageHeader sent_genDataMsg : leaves.

Lemma sent_retransmitLoop msgs b : keeps sent (retransmitLoop msgs b).
Proof. induction msgs as [|m msgs IH]; cbn [retransmitLoop]; unfold genDataMsg; solve_leaves. Qed.
Lemma sent_resentEvents ev msgs : keeps sent (resentEvents ev msgs).
Proof. induction msgs as [|m msgs IH]; cbn [resentEvents]; solve_leaves. Qed.
#[local] Hint Resolve sent_retransmitLoop sent_resentEvents : leaves.

Lemma sent_maybeRetransmit : keeps sent maybeRetransmit.
Proof. unfold maybeRetransmit, retransmit. solve_leaves. Qed.
Lemma sent_createSerialized msg flag tlvs : keeps sent (createSerializedDataMessage msg flag tlvs).
Proof. unfold createSerializedDataMessage, fragEncode, fragment. solve_leaves. Qed.
Lemma sent_maybeHeartbeat o : keeps sent (maybeHeartbeat o).
Proof. unfold maybeHeartbeat, potentialHeartbeat. solve_leaves. Qed.

(** ** The frame of a key-exchange message *)

(** A relation and a weaker one. *)
Lemma keeps_weaken (R R' : Conversation -> Conversation -> Prop) {A} (m : M A) : (forall c c', R c c' -> R' c c') -> keeps R m -> keeps R' m.
Proof. intros HR Hm c. eapply wlp_mono; [apply Hm|]. intros a c'. apply HR. Qed.

Lemma frame_processAKE t msg : leaves exchange_frame (processAKE t msg).
Proof.
  assert (forall s, leaves exchange_frame (receiveDHCommitMessage s msg)) by (intros s; apply (frame_handlers s msg)).
  assert (forall s, leaves exchange_frame (receiveDHKeyMessage s msg)) by (intros s; apply (frame_handlers s msg)).
  assert (forall s, leaves exchange_frame (receiveRevealSigMessage s msg)) by (intros s; apply (frame_handlers s msg)).
  assert (forall s, leaves exchange_frame (receiveSigMessage s msg)) by (intros s; apply (frame_handlers s msg)).
  assert (leaves exchange_frame maybeRetransmit).
  { apply (keeps_weaken sent); [|apply sent_maybeRetransmit]. intros c c' [E _]. unfold sent_frame in E. unfold exchange_frame. congruence. }
  unfold processAKE, runAuth. solve_leaves.
Qed.

End Sending.

(** ** Sending does not panic *)

Section Total.
Context `{DHGroup} `{Crypto}.
Variable v : otrVersion.

(** The keys of the session are there. *)
Definition sendable (c : Conversation) : Prop := c_msgState c = encrypted -> c_version c = Some v /\ keys_inv (c_keys c).

Lemma keys_inv_dh k k' : dhKeys k' = dhKeys k -> keys_inv k -> keys_inv k'.
Proof. unfold dhKeys, keys_inv. by intros [= -> -> -> -> -> _]. Qed.

Lemma sendable_sent c c' : sent c c' -> sendable c -> sendable c'.
Proof.
  unfold sendable. intros [E _] Hs He. unfold sent_frame in E. injection E as E1 _ E3 _ _ _ E7 E8 E9 E10 E11 E12.
  rewrite E3 in He. destruct (Hs He) as [Hv Hk]. split; [congruence|]. eapply keys_inv_dh; [|exact Hk]. unfold dhKeys. congruence.
Qed.

Lemma sent_state c c' : sent c c' -> c_msgState c' = c_msgState c /\ c_version c' = c_version c.
Proof. intros [E _]. unfold sent_frame in E. by injection E. Qed.

Lemma sent_ake c c' : sent c c' -> c_ake c' = c_ake c.
Proof. intros [E _]. unfold sent_frame in E. by injection E. Qed.

(** A total action that sends. *)
Lemma wp_sent {A} (m : M A) c c0 P : keeps sent m -> sent c0 c -> wp m c (fun a c' => sent c0 c' -> P a c') -> wp m c P.
Proof.
  intros Hk Hc HP. eapply wp_mono; [apply wp_and; [exact HP|apply Hk]|]. intros a c' [Ha Hs]. apply Ha. by transitivity c.
Qed.

Lemma messageHeader_total t c : c_version c = Some v -> wp (messageHeader t) c (fun _ c' => c_keys c' = c_keys c).
Proof.
  intros Hv. unfold messageHeader. apply wp_bind, (wp_theVersion _ v); [done|]. destruct v; [by apply wp_ret|].
  unfold otrV3_messageHeader. apply wp_tryb. unfold wp at 1, generateInstanceTag. destruct (negb _); [done|].
  by destruct (instanceTagLoop _ _) as [[tag|e] r].
Qed.

Lemma wrapMessageHeader_total t m c : c_version c = Some v -> wp (wrapMessageHeader t m) c (fun _ c' => sent c c').
Proof.
  intros Hv. apply (wp_sent _ c c); [apply sent_wrapMessageHeader|done|]. unfold wrapMessageHeader. apply wp_tryb.
  eapply wp_mono; [by apply messageHeader_total|]. intros [h|e] c' _; [apply wp_ret|]; auto.
Qed.

Lemma sessionKeys_total our their w c : keys_inv (c_keys c) ->
  wp (conv_sessionKeys our their w) c (fun r c' => sent c c' /\ (is_ok r = true -> is_full (ourCurrentDHKeys (c_keys c')))).
Proof.
  intros Hk. apply (wp_sent _ c c); [apply sent_sessionKeys|done|]. unfold wp, conv_sessionKeys.
  destruct (sessionKeysFor_inv (c_keys c) our their w Hk) as (res & k' & Es & Hk' & Ek). rewrite Es.
  intros Hs. split; [done|]. intros Hok. cbn. rewrite Ek. cbn.
  unfold sessionKeysFor, pickOurKeys in Es. destruct ((our =? 0) || (ourKeyID (c_keys c) =? 0)) eqn:E0; [by injection Es as <- _|].
  apply orb_false_iff in E0 as [_ E0]. apply Z.eqb_neq in E0. destruct Hk as (Hr & _ & Hc & _). apply Hc. lia.
Qed.

Lemma takeOurCounter_total our their c :
  wp (conv_takeOurCounter our their) c (fun _ c' => sent c c' /\ ourCurrentDHKeys (c_keys c') = ourCurrentDHKeys (c_keys c)).
Proof.
  apply (wp_sent _ c c); [apply sent_takeOurCounter|done|]. unfold wp, conv_takeOurCounter, takeOurCounter. by destruct (findCounterFor _ _ _).
Qed.

Lemma genDataMsg_total msg flag tlvs c : sendable c ->
  wp (genDataMsgWithFlag msg flag tlvs) c (fun r c' => sent c c' /\ (is_ok r = true -> c_msgState c = encrypted)).
Proof.
  intros Hc. apply (wp_sent _ c c); [apply sent_genDataMsg|done|]. unfold genDataMsgWithFlag. do 2 wp_step. unfold IsEncrypted.
  destruct (bool_decide_reflect (c_msgState c = encrypted)) as [He|]; cbn [negb]; [|by apply wp_ret].
  destruct (Hc He) as [Hv Hk]. apply wp_bind, (wp_theVersion _ v); [done|]. cbn zeta.
  wp_spec sessionKeys_total; [done|]. intros [ks|e] c1 [H1 Hfull]; [|apply wp_ret; by split]. specialize (Hfull eq_refl).
  wp_spec takeOurCounter_total. intros ctr c2 [H2 E2].
  assert (c_version c2 = Some v) as Hv2 by (destruct (sent_state _ _ H1) as [_ F1], (sent_state _ _ H2) as [_ F2]; congruence).
  wp_spec messageHeader_total; [done|]. intros [hdr|e] c3 E3; [|by apply wp_ret]. do 2 wp_step.
  rewrite <- E2, <- E3 in Hfull. destruct Hfull as [[y Hy] _]. apply wp_bind, (wp_glift _ y); [by rewrite Hy|].
  unfold conv_revealMACKeys, updateMayRetransmitTo, lastMessage, later, modResend. apply wp_bind. unfold wp at 1. cbn beta iota. repeat wp_step. by apply wp_ret.
Qed.

(** A data message with its header. *)
Lemma dataMessage_total {A} msg flag tlvs (k : dataMsg * list byte -> result (list byte) -> M (result A)) c P : sendable c ->
  (forall e c', sent c c' -> P (Err e) c') ->
  (forall dx res c', sent c c' -> c_msgState c = encrypted -> wp (k dx res) c' P) ->
  wp (dx ←? genDataMsgWithFlag msg flag tlvs; v ← theVersion; res ← wrapMessageHeader msgTypeData (dataMsg_serialize (fst dx) v); k dx res) c P.
Proof.
  intros Hc HE Hk. wp_spec genDataMsg_total; [done|]. intros [dx|e] c1 [H1 He]; [|apply wp_ret; by apply HE]. specialize (He eq_refl).
  assert (c_version c1 = Some v) as Hv by (destruct (sent_state _ _ H1) as [_ ->]; by apply Hc).
  apply wp_bind, (wp_theVersion _ v); [done|]. wp_spec wrapMessageHeader_total; [done|]. intros res c2 H2. apply Hk; [by transitivity c1|done].
Qed.

Lemma retransmitLoop_total msgs b : forall c, sendable c -> wp (retransmitLoop msgs b) c (fun _ c' => sent c c').
Proof.
  induction msgs as [|m msgs IH]; intros c Hc; cbn [retransmitLoop]; [by apply wp_ret|]. do 2 wp_step. cbn zeta. unfold genDataMsg.
  apply dataMessage_total; [done|done|]. intros dx res c1 H1 _. wp_spec IH; [by eapply sendable_sent|].
  intros [ret|e] c2 H2; apply wp_ret; by transitivity c1.
Qed.

Lemma resentEvents_total ev msgs : forall c, wp (resentEvents ev msgs) c (fun _ _ => True).
Proof.
  induction msgs as [|m msgs IH]; intros c; cbn [resentEvents]; [by apply wp_ret|]. unfold messageEvent, logEvent. do 2 wp_step. apply IH.
Qed.

Lemma maybeRetransmit_total c : sendable c -> wp maybeRetransmit c (fun _ c' => sent c c').
Proof.
  intros Hc. apply (wp_sent _ c c); [apply sent_maybeRetransmit|done|]. enough (wp maybeRetransmit c (fun _ _ => True)) as HT by (eapply wp_mono; [exact HT|auto]).
  unfold maybeRetransmit. do 2 wp_step. destruct (negb _); [by apply wp_ret|]. unfold retransmit, modResend. do 6 wp_step. cbn zeta.
  match goal with |- wp _ ?s _ => set (c1 := s) end. assert (sent c c1) as H1 by done.
  wp_spec retransmitLoop_total; [by eapply sendable_sent|]. intros [ret|e] c2 H2; [|by do 2 wp_step].
  wp_spec resentEvents_total. intros _ c3 _. unfold updateLastSent. by do 4 wp_step.
Qed.

Lemma maybeHeartbeat_total o c : sendable c -> wp (maybeHeartbeat o) c (fun _ c' => sent c c').
Proof.
  intros Hc. apply (wp_sent _ c c); [apply sent_maybeHeartbeat|done|].
  enough (wp (maybeHeartbeat o) c (fun _ _ => True)) as HT by (eapply wp_mono; [exact HT|auto]).
  destruct o as [[plain toSend] [e|]]; cbn [maybeHeartbeat]; [by apply wp_ret|]. apply wp_bind, (wp_mono _ _ (fun _ _ => True)); [|intros; by apply wp_ret].
  unfold potentialHeartbeat. destruct plain as [p|]; [|by apply wp_ret]. do 2 wp_step. destruct (negb _); [by apply wp_ret|].
  unfold tryb at 2. apply dataMessage_total; [done|done|]. intros dx [res|e] c1 _ _; [|by apply wp_ret].
  unfold updateLastSent, messageEvent, logEvent. do 4 wp_step. by apply wp_ret.
Qed.

End Total.
