(* ===== verification/KeyMemory.v ===== *)
(** * The memory of the keys: wipe.go and the pointers of key_management.go

    The other files treat a key as a value.  In the program a big number is
    behind a pointer, a MAC key is a slice of an array and a message counter is
    behind a pointer; wiping writes zeroes through these references, so it
    matters which of them share memory.  Here the same operations run on a heap
    of addressable words: a context holds references, an operation reads and
    writes the heap.  The theorems show that the operations of a conversation on
    its keys implement the values of the other files for every sequence of
    calls, that a wiped reference never is one that is still in use, and which
    secrets are zero in memory afterwards.

    A block is one allocation; an address is a block and an offset in it.  The
    arrays of references themselves ([[]macKey], [[]macKeyUsage],
    [[]*keyPairCounter]) are lists: [wipeAndKeepRevealKeys] copies the array it
    keeps, and the struct assignment of [akeHasFinished] empties its source, so
    no two live contexts share one. *)

From stdpp Require Import gmap.
From S2P Require Import Prelude GoLib Gotrax Policy Crypto KeyManagement Messages Smp Keys Conversation SmpMachine DataMessage Ake.

(** ** The heap *)

Abbreviation addr := (positive * nat)%type.

Inductive word := WInt (z : Z) | WByte (b : byte) | WCounter (c : keyPairCounter).

Abbreviation heap := (gmap addr word).

Abbreviation HM := (GoM heap).

(** A pointer to a big number or a counter; [None] is nil. *)
Definition ptr : Type := option positive.

(** A byte slice: a window of an array.  A slice of no bytes is [no_view]. *)
Record view := View { vw_block : positive; vw_off : nat; vw_len : nat }.

Definition no_view : view := View 1 0 0.

Definition ptr_addrs (p : ptr) : list addr := match p with Some b => [(b, 0%nat)] | None => [] end.

Definition view_addrs (v : view) : list addr := map (fun i => (vw_block v, (vw_off v + i)%nat)) (seq 0 (vw_len v)).

(** Writing a list of words to consecutive offsets of a block. *)
Fixpoint place (b : positive) (i : nat) (ws : list word) (h : heap) : heap :=
  match ws with [] => h | w :: ws' => <[(b, i) := w]> (place b (S i) ws' h) end.

Definition fresh_block (h : heap) : positive := fresh (set_map fst (dom h) : gset positive).

Definition alloc (ws : list word) : HM positive := fun h =>
  let b := fresh_block h in Done (b, place b 0 ws h).

Definition newInt (z : Z) : HM ptr := b ← alloc [WInt z]; mret (Some b).

Definition newBytes (l : list byte) : HM view := b ← alloc (map WByte l); mret (View b 0 (length l)).

(** [s[i:j]] of a slice. *)
Definition subView (v : view) (i j : nat) : view := View (vw_block v) (vw_off v + i) (j - i).

Definition load_int (p : ptr) : HM Z := fun h =>
  match p with
  | Some b => match h !! (b, 0%nat) with Some (WInt z) => Done (z, h) | _ => Panicked NilDeref end
  | None => Panicked NilDeref
  end.

Definition load_counter (b : positive) : HM keyPairCounter := fun h =>
  match h !! (b, 0%nat) with Some (WCounter c) => Done (c, h) | _ => Panicked NilDeref end.

(** Overwriting words that exist. *)
Definition fill (w : word) (l : list addr) (h : heap) : heap := foldr (alter (fun _ => w)) h l.

Definition store (b : positive) (w : word) : HM unit := gmod (fill w [(b, 0%nat)]).

(** ** wipe.go: bytes and numbers *)

Definition wipeBytes (b : view) : HM unit := gmod (fill (WByte Byte.x00) (view_addrs b)).

Definition wipeBigInt (k : ptr) : HM unit :=
  match k with
  | None => mret tt
  | Some b => z ← load_int k; store b (WInt (SetBytes (zeroes (length (Bytes z)))))
  end.

Definition mem_setBigInt (dst src : ptr) : HM ptr :=
  _ ← wipeBigInt dst;
  ret ← alloc [WInt 0];
  z ← load_int src;
  _ ← store ret (WInt z);
  mret (Some ret).

(** ** The structs *)

Record pairRef := PairRef { pr_pub : ptr; pr_priv : ptr }.

Record usageRef := UsageRef { ur_ourKeyID : Z; ur_theirKeyID : Z; ur_receivingKey : view }.

Record keysRef := KeysRef {
  kr_ourKeyID : Z; kr_theirKeyID : Z;
  kr_ourCurrentDHKeys : pairRef; kr_ourPreviousDHKeys : pairRef;
  kr_theirCurrentDHPubKey : ptr; kr_theirPreviousDHPubKey : ptr;
  kr_counterHistory : list positive;
  kr_macKeyHistory : list usageRef;
  kr_oldMACKeys : list view }.

Record akeKeysRef := AkeKeysRef { akr_c : view; akr_m1 : view; akr_m2 : view }.

Record akeRef := AkeRef {
  ar_secretExponent : ptr; ar_ourPublicValue : ptr; ar_theirPublicValue : ptr;
  ar_r : list byte;
  ar_encryptedGx : view; ar_xhashedGx : view;
  ar_revealKey : akeKeysRef; ar_sigKey : akeKeysRef;
  ar_keys : keysRef }.

#[export] Instance keysRef_eta : Eta keysRef := fun r =>
  KeysRef (kr_ourKeyID r) (kr_theirKeyID r) (kr_ourCurrentDHKeys r) (kr_ourPreviousDHKeys r)
    (kr_theirCurrentDHPubKey r) (kr_theirPreviousDHPubKey r) (kr_counterHistory r) (kr_macKeyHistory r)
    (kr_oldMACKeys r).
#[export] Instance akeRef_eta : Eta akeRef := fun r =>
  AkeRef (ar_secretExponent r) (ar_ourPublicValue r) (ar_theirPublicValue r) (ar_r r) (ar_encryptedGx r)
    (ar_xhashedGx r) (ar_revealKey r) (ar_sigKey r) (ar_keys r).

Definition no_pairRef : pairRef := PairRef None None.
Definition no_keysRef : keysRef := KeysRef 0 0 no_pairRef no_pairRef None None [] [] [].
Definition no_akeKeysRef : akeKeysRef := AkeKeysRef no_view no_view no_view.
Definition initial_akeRef : akeRef :=
  AkeRef None None None (zeroes 16) no_view no_view no_akeKeysRef no_akeKeysRef no_keysRef.

(** The addresses each struct refers to. *)
Definition pair_addrs (p : pairRef) : list addr := ptr_addrs (pr_pub p) ++ ptr_addrs (pr_priv p).
Definition counters_addrs (l : list positive) : list addr := concat (map (fun b => [(b, 0%nat)]) l).
Definition usages_addrs (l : list usageRef) : list addr := concat (map (fun u => view_addrs (ur_receivingKey u)) l).
Definition views_addrs (l : list view) : list addr := concat (map view_addrs l).

Definition dh_addrs (k : keysRef) : list addr :=
  pair_addrs (kr_ourCurrentDHKeys k) ++ pair_addrs (kr_ourPreviousDHKeys k)
    ++ ptr_addrs (kr_theirCurrentDHPubKey k) ++ ptr_addrs (kr_theirPreviousDHPubKey k).

Definition keys_addrs (k : keysRef) : list addr :=
  dh_addrs k ++ counters_addrs (kr_counterHistory k) ++ usages_addrs (kr_macKeyHistory k) ++ views_addrs (kr_oldMACKeys k).

Definition akeKeys_addrs (k : akeKeysRef) : list addr := view_addrs (akr_c k) ++ view_addrs (akr_m1 k) ++ view_addrs (akr_m2 k).

(** The exchange without its key context. *)
Definition exchange_addrs (a : akeRef) : list addr :=
  ptr_addrs (ar_secretExponent a) ++ ptr_addrs (ar_ourPublicValue a) ++ ptr_addrs (ar_theirPublicValue a)
    ++ view_addrs (ar_encryptedGx a) ++ view_addrs (ar_xhashedGx a)
    ++ akeKeys_addrs (ar_revealKey a) ++ akeKeys_addrs (ar_sigKey a).

Definition ake_addrs (a : akeRef) : list addr := exchange_addrs a ++ keys_addrs (ar_keys a).

(** ** wipe.go: the structs *)

Definition dhKeyPair_wipe (p : pairRef) : HM pairRef :=
  _ ← wipeBigInt (pr_pub p);
  _ ← wipeBigInt (pr_priv p);
  mret no_pairRef.

Definition mem_akeKeys_wipe (k : akeKeysRef) : HM akeKeysRef :=
  _ ← wipeBytes (akr_c k);
  _ ← wipeBytes (akr_m1 k);
  _ ← wipeBytes (akr_m2 k);
  mret no_akeKeysRef.

Definition macKey_wipe (k : view) : HM view := _ ← wipeBytes k; mret no_view.

Definition macKeyUsage_wipe (u : usageRef) : HM usageRef :=
  k ← macKey_wipe (ur_receivingKey u);
  mret (UsageRef (ur_ourKeyID u) (ur_theirKeyID u) k).

Definition keyPairCounter_wipe (b : positive) : HM unit := store b (WCounter (KeyPairCounter 0 0 0 0)).

(** [for i := range l { l[i].wipe() }] *)
Fixpoint wipe_each {A B} (wipe : A -> HM B) (l : list A) : HM unit :=
  match l with [] => mret tt | x :: l' => _ ← wipe x; wipe_each wipe l' end.

Definition counterHistory_wipe (l : list positive) : HM (list positive) := _ ← wipe_each keyPairCounter_wipe l; mret [].

Definition macKeyHistory_wipe (l : list usageRef) : HM (list usageRef) := _ ← wipe_each macKeyUsage_wipe l; mret [].

Definition mem_wipeKeys (k : keysRef) : HM keysRef :=
  current ← dhKeyPair_wipe (kr_ourCurrentDHKeys k);
  previous ← dhKeyPair_wipe (kr_ourPreviousDHKeys k);
  _ ← wipeBigInt (kr_theirCurrentDHPubKey k);
  _ ← wipeBigInt (kr_theirPreviousDHPubKey k);
  mret (k <| kr_ourCurrentDHKeys := current |> <| kr_ourPreviousDHKeys := previous |>
          <| kr_theirCurrentDHPubKey := None |> <| kr_theirPreviousDHPubKey := None |>).

Definition mem_keys_wipe (k : keysRef) : HM keysRef :=
  k ← mem_wipeKeys k;
  let k := k <| kr_ourKeyID := 0 |> <| kr_theirKeyID := 0 |> in
  _ ← wipe_each macKey_wipe (kr_oldMACKeys k);
  let k := k <| kr_oldMACKeys := [] |> in
  counters ← counterHistory_wipe (kr_counterHistory k);
  items ← macKeyHistory_wipe (kr_macKeyHistory k);
  mret (k <| kr_counterHistory := counters |> <| kr_macKeyHistory := items |>).

(** The array of references is copied, what they refer to is not. *)
Definition mem_wipeAndKeepRevealKeys (k : keysRef) : HM keysRef :=
  let ret := no_keysRef <| kr_oldMACKeys := kr_oldMACKeys k |> in
  _ ← mem_keys_wipe k;
  mret ret.

Definition mem_wipeGX (a : akeRef) : HM akeRef :=
  _ ← wipeBytes (ar_xhashedGx a);
  _ ← wipeBytes (ar_encryptedGx a);
  mret (a <| ar_xhashedGx := no_view |> <| ar_encryptedGx := no_view |>).

Definition mem_ake_wipe (a : akeRef) (wipeKeys : bool) : HM akeRef :=
  _ ← wipeBigInt (ar_secretExponent a);
  let a := a <| ar_secretExponent := None |> in
  _ ← wipeBigInt (ar_ourPublicValue a);
  let a := a <| ar_ourPublicValue := None |> in
  _ ← wipeBigInt (ar_theirPublicValue a);
  let a := a <| ar_theirPublicValue := None |> <| ar_r := zeroes 16 |> in
  a ← mem_wipeGX a;
  revealKey ← mem_akeKeys_wipe (ar_revealKey a);
  sigKey ← mem_akeKeys_wipe (ar_sigKey a);
  let a := a <| ar_revealKey := revealKey |> <| ar_sigKey := sigKey |> in
  if wipeKeys : bool then keys ← mem_keys_wipe (ar_keys a); mret (a <| ar_keys := keys |>)
  else mret (a <| ar_keys := no_keysRef |>).

(** ** key_management.go *)

Fixpoint findCounterIn (cs : list positive) (our their : Z) : HM (option positive) :=
  match cs with
  | [] => mret None
  | b :: cs' =>
      c ← load_counter b;
      if (kpc_ourKeyID c =? our) && (kpc_theirKeyID c =? their) then mret (Some b) else findCounterIn cs' our their
  end.

(** The pointer to the counter and the history it is in. *)
Definition mem_findCounterFor (cs : list positive) (our their : Z) : HM (positive * list positive) :=
  found ← findCounterIn cs our their;
  match found with
  | Some b => mret (b, cs)
  | None => b ← alloc [WCounter (KeyPairCounter our their 0 0)]; mret (b, cs ++ [b])
  end.

Definition mem_checkMessageCounter (k : keysRef) (recipientKeyID senderKeyID topHalfCtr : Z) : HM (option error * keysRef) :=
  found ← mem_findCounterFor (kr_counterHistory k) recipientKeyID senderKeyID;
  let '(b, cs) := found : positive * list positive in
  let k := k <| kr_counterHistory := cs |> in
  counter ← load_counter b;
  if topHalfCtr <=? kpc_theirCounter counter then mret (Some (newOtrConflictError "counter regressed"), k)
  else _ ← store b (WCounter (counter <| kpc_theirCounter := topHalfCtr |>)); mret (None, k).

(** The use of [ourCounter] in [genDataMsgWithFlag]. *)
Definition mem_takeOurCounter (k : keysRef) (our their : Z) : HM (Z * keysRef) :=
  found ← mem_findCounterFor (kr_counterHistory k) our their;
  let '(b, cs) := found : positive * list positive in
  counter ← load_counter b;
  let ctr := if kpc_ourCounter counter =? 0 then 1 else kpc_ourCounter counter in
  _ ← store b (WCounter (counter <| kpc_ourCounter := u64 (ctr + 1) |>));
  mret (ctr, k <| kr_counterHistory := cs |>).

Definition mem_setTheirCurrentDHPubKey (k : keysRef) (key : ptr) : HM keysRef :=
  p ← mem_setBigInt (kr_theirCurrentDHPubKey k) key; mret (k <| kr_theirCurrentDHPubKey := p |>).

Definition mem_setOurCurrentDHKeys (k : keysRef) (priv pub : ptr) : HM keysRef :=
  priv' ← mem_setBigInt (pr_priv (kr_ourCurrentDHKeys k)) priv;
  let k := k <| kr_ourCurrentDHKeys := PairRef (pr_pub (kr_ourCurrentDHKeys k)) priv' |> in
  pub' ← mem_setBigInt (pr_pub (kr_ourCurrentDHKeys k)) pub;
  mret (k <| kr_ourCurrentDHKeys := PairRef pub' (pr_priv (kr_ourCurrentDHKeys k)) |>).

Definition mem_revealMACKeysForOurPreviousKeyID (k : keysRef) : HM keysRef :=
  '(keys, items) ← glift (forgetMACKeys ur_receivingKey (fun u => ur_ourKeyID u =? u32 (kr_ourKeyID k - 1)) (kr_macKeyHistory k));
  mret (k <| kr_macKeyHistory := items |> <| kr_oldMACKeys := kr_oldMACKeys k ++ keys |>).

Definition mem_revealMACKeysForTheirPreviousKeyID (k : keysRef) : HM keysRef :=
  '(keys, items) ← glift (forgetMACKeys ur_receivingKey (fun u => ur_theirKeyID u =? u32 (kr_theirKeyID k - 1)) (kr_macKeyHistory k));
  mret (k <| kr_macKeyHistory := items |> <| kr_oldMACKeys := kr_oldMACKeys k ++ keys |>).

Definition mem_pickOurKeys (k : keysRef) (id : Z) : result (ptr * ptr) :=
  if (id =? 0) || (kr_ourKeyID k =? 0) then Err (newOtrConflictError "invalid key id for local peer")
  else if id =? kr_ourKeyID k then Ok (pr_priv (kr_ourCurrentDHKeys k), pr_pub (kr_ourCurrentDHKeys k))
  else if id =? u32 (kr_ourKeyID k - 1) then Ok (pr_priv (kr_ourPreviousDHKeys k), pr_pub (kr_ourPreviousDHKeys k))
  else Err (newOtrConflictError "mismatched key id for local peer").

Definition mem_pickTheirKey (k : keysRef) (id : Z) : result ptr :=
  if (id =? 0) || (kr_theirKeyID k =? 0) then Err (newOtrConflictError "invalid key id for remote peer")
  else if id =? kr_theirKeyID k then Ok (kr_theirCurrentDHPubKey k)
  else if id =? u32 (kr_theirKeyID k - 1) then
    match kr_theirPreviousDHPubKey k with
    | None => Err (newOtrConflictError "no previous key for remote peer found")
    | Some y => Ok (Some y)
    end
  else Err (newOtrConflictError "mismatched key id for remote peer").

Section KeyMemory.
Context `{DHGroup} `{Crypto}.

Definition mem_generateNewDHKeyPair (k : keysRef) (r : list byte) : HM (option error * keysRef * list byte) :=
  match randSizedMPI r 40 with
  | (Err e, r') => mret (Some e, k, r')
  | (Ok newPrivKey, r') =>
      priv ← newInt newPrivKey;
      _ ← dhKeyPair_wipe (kr_ourPreviousDHKeys k);
      let k := k <| kr_ourPreviousDHKeys := kr_ourCurrentDHKeys k |> in
      pub ← newInt (modExp dh_g1 newPrivKey);
      mret (None, k <| kr_ourCurrentDHKeys := PairRef pub priv |> <| kr_ourKeyID := u32 (kr_ourKeyID k + 1) |>, r')
  end.

Definition mem_rotateOurKeys (k : keysRef) (recipientKeyID : Z) (r : list byte) : HM (option error * keysRef * list byte) :=
  if recipientKeyID =? kr_ourKeyID k then k ← mem_revealMACKeysForOurPreviousKeyID k; mem_generateNewDHKeyPair k r
  else mret (None, k, r).

(** The number of the message is behind a pointer of its own. *)
Definition mem_rotateTheirKey (k : keysRef) (senderKeyID : Z) (pubDHKey : ptr) : HM keysRef :=
  if senderKeyID =? kr_theirKeyID k then
    k ← mem_revealMACKeysForTheirPreviousKeyID k;
    mret (k <| kr_theirPreviousDHPubKey := kr_theirCurrentDHPubKey k |> <| kr_theirCurrentDHPubKey := pubDHKey |>
            <| kr_theirKeyID := u32 (kr_theirKeyID k + 1) |>)
  else mret k.

(** [rotateKeys] on a parsed message. *)
Definition mem_rotateKeys (k : keysRef) (recipientKeyID senderKeyID y : Z) (r : list byte)
  : HM (option error * keysRef * list byte) :=
  y ← newInt y;
  '(err, k, r) ← mem_rotateOurKeys k recipientKeyID r;
  match err with
  | Some e => mret (Some e, k, r)
  | None => k ← mem_rotateTheirKey k senderKeyID y; mret (None, k, r)
  end.

(** The session keys themselves are used and dropped by the caller; the MAC key
    of the peer stays in the history. *)
Definition mem_sessionKeysFor (k : keysRef) (our their : Z) (v : otrVersion) : HM (result sessionKeys * keysRef) :=
  match mem_pickOurKeys k our with
  | Err e => mret (Err e, k)
  | Ok (ourPriv, ourPub) =>
      match mem_pickTheirKey k their with
      | Err e => mret (Err e, k)
      | Ok theirPub =>
          priv ← load_int ourPriv; pub ← load_int ourPub; their' ← load_int theirPub;
          let ret := calculateDHSessionKeys priv pub their' v in
          key ← newBytes (receivingMACKey ret);
          mret (Ok ret, k <| kr_macKeyHistory := kr_macKeyHistory k ++ [UsageRef our their key] |>)
      end
  end.

(** [calculateAKEKeys]: the two cipher keys are halves of one array. *)
Definition mem_calculateAKEKeys (s : Z) (v : otrVersion) : HM (akeKeysRef * akeKeysRef) :=
  let secbytes := AppendMPI [] s in
  let sha := hash2 v in
  keys ← newBytes (kdf 1 secbytes sha);
  rm1 ← newBytes (kdf 2 secbytes sha);
  rm2 ← newBytes (kdf 3 secbytes sha);
  sm1 ← newBytes (kdf 4 secbytes sha);
  sm2 ← newBytes (kdf 5 secbytes sha);
  mret (AkeKeysRef (subView keys 0 16) rm1 rm2, AkeKeysRef (subView keys 16 (vw_len keys)) sm1 sm2).

End KeyMemory.

(** ** The keys of a conversation *)

(** The fields [keys] and [ake] of a conversation, with its random source. *)
Record keyMemory := KeyMemory { km_keys : keysRef; km_ake : option akeRef; km_Rand : list byte }.

#[export] Instance keyMemory_eta : Eta keyMemory := fun r => KeyMemory (km_keys r) (km_ake r) (km_Rand r).

Definition owned (m : keyMemory) : list addr := keys_addrs (km_keys m) ++ from_option ake_addrs [] (km_ake m).

(** The steps in which a conversation changes its keys; the last one stands for
    what else is drawn from the random source in between. *)
Inductive keyOp :=
  | OpInitAKE
  | OpSetSecretExponent (val : Z)
  | OpRandomR (r : list byte)
  | OpEncryptedGx (egx : list byte)
  | OpWipeAKE
  | OpForgetAKE
  | OpProcessDHCommit (msg : list byte)
  | OpTheirPublicValue (gx : option Z)
  | OpCalcAKEKeys (s : Z)
  | OpStoreTheirKey
  | OpStoreOurKeys
  | OpKeyIDs (our their : Z)
  | OpKeepRevealKeys
  | OpHasFinished
  | OpSessionKeys (our their : Z) (v : otrVersion)
  | OpTakeOurCounter (our their : Z)
  | OpRevealMACKeys
  | OpCheckCounter (m : dataMsg)
  | OpRotateKeys (m : dataMsg)
  | OpEnd
  | OpDisconnected
  | OpDraw (n : nat).

Section Steps.
Context `{DHGroup} `{Crypto}.

(** The step as the model of the other files takes it. *)
Definition conv_step (o : keyOp) : M unit :=
  match o with
  | OpInitAKE => initAKE
  | OpSetSecretExponent val => setSecretExponent val
  | OpRandomR r => modAke (fun a => a <| ake_r := r |>)
  | OpEncryptedGx egx => modAke (fun a => a <| ake_encryptedGx := egx |>)
  | OpWipeAKE => wipeAke
  | OpForgetAKE => gmod (fun c => c <| c_ake := None |>)
  | OpProcessDHCommit msg => _ ← processDHCommit msg; mret tt
  | OpTheirPublicValue gx => modAke (fun a => a <| ake_theirPublicValue := gx |>)
  | OpCalcAKEKeys s => calcAKEKeys s
  | OpStoreTheirKey => storeTheirKey
  | OpStoreOurKeys => storeOurKeys
  | OpKeyIDs our their => modAkeKeys (fun k => k <| ourKeyID := our |> <| theirKeyID := their |>)
  | OpKeepRevealKeys => _ ← modAkeKeys wipeAndKeepRevealKeys; modAke wipeGX
  | OpHasFinished => _ ← akeHasFinished; mret tt
  | OpSessionKeys our their v => _ ← conv_sessionKeys our their v; mret tt
  | OpTakeOurCounter our their => _ ← conv_takeOurCounter our their; mret tt
  | OpRevealMACKeys => _ ← conv_revealMACKeys; mret tt
  | OpCheckCounter m => _ ← conv_checkMessageCounter m; mret tt
  | OpRotateKeys m => _ ← conv_rotateKeys m; mret tt
  | OpEnd => _ ← gmod (fun c => c <| c_ake := None |>); wipeSessionKeys
  | OpDisconnected => _ ← processDisconnectedTLV; mret tt
  | OpDraw n => _ ← conv_randomInto n; mret tt
  end.

Definition mem_theAke (m : keyMemory) : HM akeRef := glift (deref (km_ake m)).

(** [dhCommitMessage] and [dhKeyMessage] wipe the number they have drawn once it is stored. *)
Definition mem_setSecretExponent (a : akeRef) (val : Z) : HM akeRef :=
  x ← newInt val;
  z ← load_int x;
  secret ← newInt z;
  public ← newInt (modExp dh_g1 z);
  _ ← wipeBigInt x;
  mret (a <| ar_secretExponent := secret |> <| ar_ourPublicValue := public |>).

(** The two parts are slices of the message. *)
Definition mem_processDHCommit (a : akeRef) (msg : list byte) : HM akeRef :=
  buf ← newBytes msg;
  mret (match dhCommit_deserialize msg with
        | Err _ => a
        | Ok m =>
            let n := length (dhc_encryptedGx m) in
            a <| ar_encryptedGx := subView buf 4 (4 + n) |>
              <| ar_xhashedGx := subView buf (8 + n) (8 + n + length (dhc_yhashedGx m)) |>
        end).

(** The part of [akeHasFinished] that handles keys. *)
Definition mem_akeHasFinished (m : keyMemory) (a : akeRef) : HM keyMemory :=
  _ ← mem_keys_wipe (km_keys m);
  let keys := ar_keys a in
  a ← mem_ake_wipe a false;
  '(_, keys, r) ← mem_generateNewDHKeyPair keys (km_Rand m);
  mret (KeyMemory keys (Some a) r).

Definition mem_wipeSessionKeys (k : keysRef) : HM keysRef :=
  current ← dhKeyPair_wipe (kr_ourCurrentDHKeys k);
  previous ← dhKeyPair_wipe (kr_ourPreviousDHKeys k);
  _ ← wipeBigInt (kr_theirCurrentDHPubKey k);
  mret (k <| kr_ourCurrentDHKeys := current |> <| kr_ourPreviousDHKeys := previous |>).

(** The same step on references and the heap. *)
Definition mem_step (v : otrVersion) (o : keyOp) (m : keyMemory) : HM keyMemory :=
  let on_keys (f : keysRef -> HM keysRef) := k ← f (km_keys m); mret (m <| km_keys := k |>) in
  let on_ake (f : akeRef -> HM akeRef) := a ← mem_theAke m; a ← f a; mret (m <| km_ake := Some a |>) in
  let on_akeKeys (f : akeRef -> keysRef -> HM keysRef) := on_ake (fun a => k ← f a (ar_keys a); mret (a <| ar_keys := k |>)) in
  match o with
  | OpInitAKE => mret (m <| km_ake := Some initial_akeRef |>)
  | OpSetSecretExponent val => on_ake (fun a => mem_setSecretExponent a val)
  | OpRandomR r => on_ake (fun a => mret (a <| ar_r := r |>))
  | OpEncryptedGx egx => on_ake (fun a => w ← newBytes egx; mret (a <| ar_encryptedGx := w |>))
  | OpWipeAKE => match km_ake m with None => mret m | Some a => a ← mem_ake_wipe a true; mret (m <| km_ake := Some a |>) end
  | OpForgetAKE => mret (m <| km_ake := None |>)
  | OpProcessDHCommit msg =>
      match dhCommit_deserialize msg with Err _ => mret m | Ok _ => on_ake (fun a => mem_processDHCommit a msg) end
  | OpTheirPublicValue gx =>
      on_ake (fun a => p ← match gx with Some z => newInt z | None => mret None end; mret (a <| ar_theirPublicValue := p |>))
  | OpCalcAKEKeys s =>
      on_ake (fun a => ks ← mem_calculateAKEKeys s v; mret (a <| ar_revealKey := fst ks |> <| ar_sigKey := snd ks |>))
  | OpStoreTheirKey => on_akeKeys (fun a k => mem_setTheirCurrentDHPubKey k (ar_theirPublicValue a))
  | OpStoreOurKeys => on_akeKeys (fun a k => mem_setOurCurrentDHKeys k (ar_secretExponent a) (ar_ourPublicValue a))
  | OpKeyIDs our their => on_akeKeys (fun _ k => mret (k <| kr_ourKeyID := our |> <| kr_theirKeyID := their |>))
  | OpKeepRevealKeys => on_ake (fun a => k ← mem_wipeAndKeepRevealKeys (ar_keys a); mem_wipeGX (a <| ar_keys := k |>))
  | OpHasFinished => a ← mem_theAke m; mem_akeHasFinished m a
  | OpSessionKeys our their v => on_keys (fun k => r ← mem_sessionKeysFor k our their v; mret (snd r))
  | OpTakeOurCounter our their => on_keys (fun k => r ← mem_takeOurCounter k our their; mret (snd r))
  | OpRevealMACKeys => on_keys (fun k => mret (k <| kr_oldMACKeys := [] |>))
  | OpCheckCounter dm =>
      on_keys (fun k => r ← mem_checkMessageCounter k (dm_recipientKeyID dm) (dm_senderKeyID dm) (be_decode (dm_topHalfCtr dm)); mret (snd r))
  | OpRotateKeys dm =>
      '(_, k, r) ← mem_rotateKeys (km_keys m) (dm_recipientKeyID dm) (dm_senderKeyID dm) (dm_y dm) (km_Rand m);
      mret (m <| km_keys := k |> <| km_Rand := r |>)
  | OpEnd => k ← mem_wipeSessionKeys (km_keys m); mret (m <| km_ake := None |> <| km_keys := k |>)
  | OpDisconnected => mret (m <| km_ake := None |> <| km_keys := no_keysRef |>)
  | OpDraw n => mret (m <| km_Rand := snd (randomInto (km_Rand m) n) |>)
  end.

Fixpoint conv_steps (ops : list keyOp) : M unit :=
  match ops with [] => mret tt | o :: ops' => _ ← conv_step o; conv_steps ops' end.

Fixpoint mem_steps (v : otrVersion) (ops : list keyOp) (m : keyMemory) : HM keyMemory :=
  match ops with [] => mret m | o :: ops' => m ← mem_step v o m; mem_steps v ops' m end.

End Steps.

(** ** Lemmas: the heap *)

Lemma place_lookup b i ws h a : place b i ws h !! a =
  if decide (a.1 = b /\ (i <= a.2 < i + length ws)%nat) then ws !! (a.2 - i)%nat else h !! a.
Proof.
  revert i; induction ws as [|w ws IH]; intros i; cbn [place length].
  - destruct (decide _) as [[_ ?]|_]; [lia|done].
  - destruct (decide (a = (b, i))) as [->|Hne].
    + rewrite lookup_insert_eq. cbn [fst snd]. rewrite decide_True by lia. by rewrite Nat.sub_diag.
    + rewrite lookup_insert_ne, IH by done. destruct a as [b' j]. cbn [fst snd] in *.
      destruct (decide (b' = b /\ (S i <= j < S i + length ws)%nat)) as [[-> Hj]|Hn].
      * rewrite decide_True by lia. replace (j - i)%nat with (S (j - S i)) by lia. done.
      * rewrite decide_False; [done|]. intros [-> Hj]. apply Hn. split; [done|].
        assert (j <> i) by (intros ->; done). lia.
Qed.

Lemma fresh_block_spec h i : h !! (fresh_block h, i) = None.
Proof.
  apply not_elem_of_dom. intros Hin. apply (is_fresh (set_map fst (dom h) : gset positive)).
  apply elem_of_map. by exists (fresh_block h, i).
Qed.

(** The word a wipe leaves. *)
Definition zero_word (w : word) : word :=
  match w with WInt _ => WInt 0 | WByte _ => WByte Byte.x00 | WCounter _ => WCounter (KeyPairCounter 0 0 0 0) end.

Definition erase (A : list addr) (h : heap) : heap := foldr (alter zero_word) h A.

Lemma erase_lookup A h a : erase A h !! a = if decide (a ∈ A) then zero_word <$> h !! a else h !! a.
Proof.
  induction A as [|b A IH]; [by rewrite decide_False by apply not_elem_of_nil|]. cbn [erase foldr].
  fold (erase A h). destruct (decide (a = b)) as [->|Hne].
  - rewrite lookup_alter_eq, IH. rewrite (decide_True (P := b ∈ b :: A)) by set_solver.
    destruct (decide (b ∈ A)); [|done]. by destruct (h !! b) as [[]|].
  - rewrite lookup_alter_ne, IH by done. destruct (decide (a ∈ A)) as [Ha|Ha].
    + by rewrite decide_True by set_solver.
    + rewrite decide_False; [done|]. set_solver.
Qed.

Lemma erase_app A B h : erase A (erase B h) = erase (A ++ B) h.
Proof. unfold erase. by rewrite foldr_app. Qed.

(** Membership in concatenations. *)
Ltac solve_in := intros ?; repeat rewrite elem_of_app; tauto.

Lemma erase_ext A B h : (forall a, a ∈ A <-> a ∈ B) -> erase A h = erase B h.
Proof.
  intros HAB. apply map_eq. intros a. rewrite !erase_lookup.
  destruct (decide (a ∈ A)), (decide (a ∈ B)); done || set_solver.
Qed.

(** ** Lemmas: what references denote *)

Definition int_at (h : heap) (p : ptr) (o : option Z) : Prop :=
  match p, o with
  | Some b, Some z => h !! (b, 0%nat) = Some (WInt z)
  | None, None => True
  | _, _ => False
  end.

Definition pair_at (h : heap) (p : pairRef) (kp : dhKeyPair) : Prop :=
  int_at h (pr_pub p) (kp_pub kp) /\ int_at h (pr_priv p) (kp_priv kp).

Definition bytes_at (h : heap) (v : view) (l : list byte) : Prop :=
  Forall2 (fun a b => h !! a = Some (WByte b)) (view_addrs v) l.

Definition counter_at (h : heap) (b : positive) (c : keyPairCounter) : Prop := h !! (b, 0%nat) = Some (WCounter c).

Definition usage_at (h : heap) (u : usageRef) (uv : macKeyUsage) : Prop :=
  ur_ourKeyID u = mku_ourKeyID uv /\ ur_theirKeyID u = mku_theirKeyID uv /\ bytes_at h (ur_receivingKey u) (mku_receivingKey uv).

Record keys_at (h : heap) (k : keysRef) (kv : keyManagementContext) : Prop := {
  at_ourKeyID : kr_ourKeyID k = ourKeyID kv;
  at_theirKeyID : kr_theirKeyID k = theirKeyID kv;
  at_current : pair_at h (kr_ourCurrentDHKeys k) (ourCurrentDHKeys kv);
  at_previous : pair_at h (kr_ourPreviousDHKeys k) (ourPreviousDHKeys kv);
  at_theirCurrent : int_at h (kr_theirCurrentDHPubKey k) (theirCurrentDHPubKey kv);
  at_theirPrevious : int_at h (kr_theirPreviousDHPubKey k) (theirPreviousDHPubKey kv);
  at_counters : Forall2 (counter_at h) (kr_counterHistory k) (counterHistory kv);
  at_usages : Forall2 (usage_at h) (kr_macKeyHistory k) (macKeyHistory kv);
  at_old : Forall2 (bytes_at h) (kr_oldMACKeys k) (oldMACKeys kv) }.

Definition akeKeys_at (h : heap) (k : akeKeysRef) (kv : akeKeys) : Prop :=
  bytes_at h (akr_c k) (akeKeys_c kv) /\ bytes_at h (akr_m1 k) (akeKeys_m1 kv) /\ bytes_at h (akr_m2 k) (akeKeys_m2 kv).

Record exchange_at (h : heap) (a : akeRef) (av : ake) : Prop := {
  at_secretExponent : int_at h (ar_secretExponent a) (ake_secretExponent av);
  at_ourPublicValue : int_at h (ar_ourPublicValue a) (ake_ourPublicValue av);
  at_theirPublicValue : int_at h (ar_theirPublicValue a) (ake_theirPublicValue av);
  at_r : ar_r a = ake_r av;
  at_encryptedGx : bytes_at h (ar_encryptedGx a) (ake_encryptedGx av);
  at_xhashedGx : bytes_at h (ar_xhashedGx a) (ake_xhashedGx av);
  at_revealKey : akeKeys_at h (ar_revealKey a) (ake_revealKey av);
  at_sigKey : akeKeys_at h (ar_sigKey a) (ake_sigKey av) }.

Definition ake_at (h : heap) (a : akeRef) (av : ake) : Prop := exchange_at h a av /\ keys_at h (ar_keys a) (ake_keys av).

(** The words at the addresses [A] are the same in the two heaps. *)
Definition kept (A : list addr) (h h' : heap) : Prop := forall a, a ∈ A -> h' !! a = h !! a.

Lemma kept_app A B h h' : kept (A ++ B) h h' <-> kept A h h' /\ kept B h h'.
Proof. unfold kept. set_solver. Qed.

Lemma int_at_frame h h' p o : int_at h p o -> kept (ptr_addrs p) h h' -> int_at h' p o.
Proof. destruct p, o; try done. simpl. intros <- Hk. apply Hk. set_solver. Qed.

Lemma pair_at_frame h h' p o : pair_at h p o -> kept (pair_addrs p) h h' -> pair_at h' p o.
Proof. unfold pair_addrs. rewrite kept_app. intros [] []. split; by eapply int_at_frame. Qed.

Lemma bytes_at_frame h h' v l : bytes_at h v l -> kept (view_addrs v) h h' -> bytes_at h' v l.
Proof.
  unfold bytes_at, kept. generalize (view_addrs v) as A. intros A Hb. induction Hb; intros Hk; constructor.
  - rewrite Hk by set_solver. done.
  - apply IHHb. set_solver.
Qed.

Lemma Forall2_frame {A B} (R : heap -> A -> B -> Prop) (addrs : A -> list addr) h h' l lv :
  (forall x y, R h x y -> kept (addrs x) h h' -> R h' x y) ->
  Forall2 (R h) l lv -> kept (concat (map addrs l)) h h' -> Forall2 (R h') l lv.
Proof.
  intros HR HF. induction HF as [|x y l lv Hxy _ IH]; simpl; [done|]. rewrite kept_app. intros [Hx Hl]. auto.
Qed.

Lemma usage_at_frame h h' u uv : usage_at h u uv -> kept (view_addrs (ur_receivingKey u)) h h' -> usage_at h' u uv.
Proof. intros (Ho & Ht & Hb) Hk. repeat split; [done|done|by eapply bytes_at_frame]. Qed.

Lemma counter_at_frame h h' b c : counter_at h b c -> kept [(b, 0%nat)] h h' -> counter_at h' b c.
Proof. unfold counter_at, kept. intros <- Hk. apply Hk. set_solver. Qed.

Lemma keys_at_frame h h' k kv : keys_at h k kv -> kept (keys_addrs k) h h' -> keys_at h' k kv.
Proof.
  unfold keys_addrs, dh_addrs. rewrite !kept_app. intros [] ((K1 & K2 & K3 & K4) & K5 & K6 & K7). constructor; try done.
  - by eapply pair_at_frame.
  - by eapply pair_at_frame.
  - by eapply int_at_frame.
  - by eapply int_at_frame.
  - by eapply (Forall2_frame counter_at); [apply counter_at_frame|..].
  - by eapply (Forall2_frame usage_at); [apply usage_at_frame|..].
  - by eapply (Forall2_frame bytes_at); [apply bytes_at_frame|..].
Qed.

Lemma akeKeys_at_frame h h' k kv : akeKeys_at h k kv -> kept (akeKeys_addrs k) h h' -> akeKeys_at h' k kv.
Proof.
  unfold akeKeys_addrs. rewrite !kept_app. intros (? & ? & ?) (? & ? & ?). repeat split; by eapply bytes_at_frame.
Qed.

Lemma exchange_at_frame h h' a av : exchange_at h a av -> kept (exchange_addrs a) h h' -> exchange_at h' a av.
Proof.
  unfold exchange_addrs. rewrite !kept_app. intros [] (K1 & K2 & K3 & K4 & K5 & K6 & K7).
  constructor; try done; by (eapply int_at_frame || eapply bytes_at_frame || eapply akeKeys_at_frame).
Qed.

(** The kind of word at the addresses [A]. *)
Inductive kind := KInt | KByte | KCounter.

Definition kind_of (w : word) : kind := match w with WInt _ => KInt | WByte _ => KByte | WCounter _ => KCounter end.

Definition shaped (t : kind) (A : list addr) (h : heap) : Prop := forall a, a ∈ A -> kind_of <$> h !! a = Some t.

Lemma shaped_app t A B h : shaped t (A ++ B) h <-> shaped t A h /\ shaped t B h.
Proof. unfold shaped. set_solver. Qed.

Lemma shaped_erase t A B h : shaped t A h -> shaped t A (erase B h).
Proof.
  intros Hs a Ha. rewrite erase_lookup. destruct (decide _); [|auto]. rewrite <- (Hs a Ha). by destruct (h !! a) as [[]|].
Qed.

(** Overwriting words with the zero of their kind erases them. *)
Lemma fill_erase w A h : zero_word w = w -> shaped (kind_of w) A h -> fill w A h = erase A h.
Proof.
  intros Hw Hs. induction A as [|a A IH]; [done|]. unfold fill, erase. cbn [foldr]. fold (fill w A h) (erase A h).
  rewrite IH by (intros b Hb; apply Hs; set_solver). apply map_eq. intros b.
  destruct (decide (a = b)) as [->|]; [|by rewrite !lookup_alter_ne].
  rewrite !lookup_alter_eq, erase_lookup. assert (kind_of <$> h !! b = Some (kind_of w)) as Hb by (apply Hs; set_solver).
  destruct (h !! b) as [x|]; [|done]. destruct (decide _); simpl; f_equal; destruct x, w; simpl in *; congruence.
Qed.

Lemma SetBytes_zeroes n : SetBytes (zeroes n) = 0.
Proof. unfold SetBytes, zeroes. induction n as [|n IH]; [done|]. unfold be_decode in *. simpl. done. Qed.

Lemma wipeBigInt_run p h : shaped KInt (ptr_addrs p) h -> wipeBigInt p h = Done (tt, erase (ptr_addrs p) h).
Proof.
  destruct p as [b|]; [|done]. intros Hs. pose proof (Hs (b, 0%nat) ltac:(set_solver)) as Hb.
  unfold wipeBigInt. destruct (h !! (b, 0%nat)) as [[z| |]|] eqn:E; try done.
  assert (load_int (Some b) h = Done (z, h)) as Hl by (unfold load_int; by rewrite E). step_done Hl.
  rewrite SetBytes_zeroes. unfold store, gmod. rewrite fill_erase; [done|done|].
  intros a Ha. assert (a = (b, 0%nat)) as -> by set_solver. by rewrite E.
Qed.

Lemma wipeBytes_run v h : shaped KByte (view_addrs v) h -> wipeBytes v h = Done (tt, erase (view_addrs v) h).
Proof. intros Hs. unfold wipeBytes, gmod. by rewrite fill_erase. Qed.

(** What a context refers to has the right kinds. *)
Definition keys_shaped (k : keysRef) (h : heap) : Prop :=
  shaped KInt (dh_addrs k) h /\ shaped KCounter (counters_addrs (kr_counterHistory k)) h /\
  shaped KByte (usages_addrs (kr_macKeyHistory k)) h /\ shaped KByte (views_addrs (kr_oldMACKeys k)) h.

Definition exchange_shaped (a : akeRef) (h : heap) : Prop :=
  shaped KInt (ptr_addrs (ar_secretExponent a) ++ ptr_addrs (ar_ourPublicValue a) ++ ptr_addrs (ar_theirPublicValue a)) h /\
  shaped KByte (view_addrs (ar_encryptedGx a) ++ view_addrs (ar_xhashedGx a)
    ++ akeKeys_addrs (ar_revealKey a) ++ akeKeys_addrs (ar_sigKey a)) h.

Lemma keys_shaped_erase k A h : keys_shaped k h -> keys_shaped k (erase A h).
Proof. intros (? & ? & ? & ?). repeat split; by apply shaped_erase. Qed.

Lemma int_at_shaped h p o : int_at h p o -> shaped KInt (ptr_addrs p) h.
Proof. destruct p as [b|], o; try done; intros Hp a Ha; [|set_solver]. assert (a = (b, 0%nat)) as -> by set_solver. simpl in Hp. by rewrite Hp. Qed.

Lemma bytes_at_shaped h v l : bytes_at h v l -> shaped KByte (view_addrs v) h.
Proof. unfold bytes_at, shaped. intros HF a Ha. induction HF; [set_solver|]. apply elem_of_cons in Ha as [->|]; [by simplify_option_eq|auto]. Qed.

Lemma Forall2_shaped {A B} (R : A -> B -> Prop) (addrs : A -> list addr) t h l lv :
  (forall x y, R x y -> shaped t (addrs x) h) -> Forall2 R l lv -> shaped t (concat (map addrs l)) h.
Proof. intros HR HF. induction HF; simpl; [intros a Ha; set_solver|]. rewrite shaped_app. eauto. Qed.

Lemma keys_at_shaped h k kv : keys_at h k kv -> keys_shaped k h.
Proof.
  intros [_ _ [] [] ? ? ? ? ?]. split; [|split; [|split]].
  - unfold dh_addrs, pair_addrs. rewrite !shaped_app. repeat split; by eapply int_at_shaped.
  - eapply Forall2_shaped; [|done]. intros b c Hb a Ha. assert (a = (b, 0%nat)) as -> by set_solver. unfold counter_at in Hb. by rewrite Hb.
  - eapply Forall2_shaped; [|done]. intros u uv (_ & _ & Hu). by eapply bytes_at_shaped.
  - eapply Forall2_shaped; [|done]. intros v l Hv. by eapply bytes_at_shaped.
Qed.

Lemma exchange_at_shaped h a av : exchange_at h a av -> exchange_shaped a h.
Proof.
  intros [? ? ? _ ? ? (? & ? & ?) (? & ? & ?)]. unfold exchange_shaped, akeKeys_addrs. rewrite !shaped_app.
  repeat split; by (eapply int_at_shaped || eapply bytes_at_shaped).
Qed.

Lemma shaped_present t A h : shaped t A h -> forall a, a ∈ A -> is_Some (h !! a).
Proof. intros Hs a Ha. specialize (Hs a Ha). destruct (h !! a); [by eexists|done]. Qed.

Definition present (A : list addr) (h : heap) : Prop := forall a, a ∈ A -> is_Some (h !! a).

Lemma present_app A B h : present (A ++ B) h <-> present A h /\ present B h.
Proof. unfold present. set_solver. Qed.

Lemma present_sub A B h : present B h -> A ⊆ B -> present A h.
Proof. unfold present. set_solver. Qed.

Lemma keys_at_present h k kv : keys_at h k kv -> present (keys_addrs k) h.
Proof.
  intros (S1 & S2 & S3 & S4)%keys_at_shaped. unfold keys_addrs. rewrite !present_app.
  repeat split; unfold present; by eapply shaped_present.
Qed.

Lemma exchange_at_present h a av : exchange_at h a av -> present (exchange_addrs a) h.
Proof.
  intros [S1 S2]%exchange_at_shaped. unfold akeKeys_addrs in S2. repeat rewrite shaped_app in S1; repeat rewrite shaped_app in S2.
  destruct_and? S1. destruct_and? S2. unfold exchange_addrs, akeKeys_addrs. rewrite !present_app.
  repeat split; unfold present; by eapply shaped_present.
Qed.

(** ** Lemmas: wiping *)

Ltac wipe_step Hs := rewrite (bind_done _ _ _ _ _ Hs); cbn beta iota zeta.

Lemma dhKeyPair_wipe_run p h : shaped KInt (pair_addrs p) h -> dhKeyPair_wipe p h = Done (no_pairRef, erase (pair_addrs p) h).
Proof.
  unfold pair_addrs. rewrite shaped_app. intros [H1 H2]. unfold dhKeyPair_wipe. wipe_step (wipeBigInt_run _ _ H1).
  wipe_step (wipeBigInt_run _ _ (shaped_erase _ _ (ptr_addrs (pr_pub p)) _ H2)). unfold mret, gom_ret. rewrite erase_app.
  do 2 f_equal. apply erase_ext. solve_in.
Qed.

Lemma wipe_each_run {A B} (wipe : A -> HM B) (addrs : A -> list addr) t l h :
  (forall x h, shaped t (addrs x) h -> exists y, wipe x h = Done (y, erase (addrs x) h)) ->
  shaped t (concat (map addrs l)) h -> wipe_each wipe l h = Done (tt, erase (concat (map addrs l)) h).
Proof.
  intros Hw. revert h; induction l as [|x l IH]; intros h; simpl; [done|]. rewrite shaped_app. intros [Hx Hl].
  destruct (Hw x h Hx) as [y Hy]. wipe_step Hy. rewrite IH by (by apply shaped_erase). rewrite erase_app.
  do 2 f_equal. apply erase_ext. solve_in.
Qed.

Lemma macKey_wipe_run v h : shaped KByte (view_addrs v) h -> macKey_wipe v h = Done (no_view, erase (view_addrs v) h).
Proof. intros Hs. unfold macKey_wipe. by wipe_step (wipeBytes_run _ _ Hs). Qed.

Lemma macKeyUsage_wipe_run u h : shaped KByte (view_addrs (ur_receivingKey u)) h ->
  exists y, macKeyUsage_wipe u h = Done (y, erase (view_addrs (ur_receivingKey u)) h).
Proof. intros Hs. unfold macKeyUsage_wipe. wipe_step (macKey_wipe_run _ _ Hs). by eexists. Qed.

Lemma keyPairCounter_wipe_run b h : shaped KCounter [(b, 0%nat)] h -> exists y, keyPairCounter_wipe b h = Done (y, erase [(b, 0%nat)] h).
Proof. intros Hs. exists tt. unfold keyPairCounter_wipe, store, gmod. by rewrite fill_erase. Qed.

Lemma mem_wipeKeys_run k h : shaped KInt (dh_addrs k) h ->
  mem_wipeKeys k h = Done (k <| kr_ourCurrentDHKeys := no_pairRef |> <| kr_ourPreviousDHKeys := no_pairRef |>
    <| kr_theirCurrentDHPubKey := None |> <| kr_theirPreviousDHPubKey := None |>, erase (dh_addrs k) h).
Proof.
  unfold dh_addrs. rewrite !shaped_app. intros (H1 & H2 & H3 & H4). unfold mem_wipeKeys.
  wipe_step (dhKeyPair_wipe_run _ _ H1). rewrite (bind_done _ _ _ _ _ (dhKeyPair_wipe_run _ _ (shaped_erase _ _ _ _ H2))).
  rewrite (bind_done _ _ _ _ _ (wipeBigInt_run _ _ (shaped_erase _ _ _ _ (shaped_erase _ _ _ _ H3)))).
  rewrite (bind_done _ _ _ _ _ (wipeBigInt_run _ _ (shaped_erase _ _ _ _ (shaped_erase _ _ _ _ (shaped_erase _ _ _ _ H4))))).
  unfold mret, gom_ret. rewrite !erase_app. do 2 f_equal. apply erase_ext. solve_in.
Qed.

Lemma mem_keys_wipe_run k h : keys_shaped k h -> mem_keys_wipe k h = Done (no_keysRef, erase (keys_addrs k) h).
Proof.
  intros (H1 & H2 & H3 & H4). unfold mem_keys_wipe. wipe_step (mem_wipeKeys_run _ _ H1).
  unfold counterHistory_wipe, macKeyHistory_wipe. rec_simpl.
  rewrite (bind_done _ _ _ _ _ (wipe_each_run macKey_wipe view_addrs KByte _ _
    (fun v h Hv => ex_intro _ no_view (macKey_wipe_run v h Hv)) (shaped_erase _ _ _ _ H4))).
  rewrite gom_bind_assoc, (bind_done _ _ _ _ _ (wipe_each_run keyPairCounter_wipe (fun b => [(b, 0%nat)]) KCounter _ _
    keyPairCounter_wipe_run (shaped_erase _ _ _ _ (shaped_erase _ _ _ _ H2)))).
  rewrite gom_bind_ret_l, gom_bind_assoc, (bind_done _ _ _ _ _ (wipe_each_run macKeyUsage_wipe (fun u => view_addrs (ur_receivingKey u)) KByte _ _
    macKeyUsage_wipe_run (shaped_erase _ _ _ _ (shaped_erase _ _ _ _ (shaped_erase _ _ _ _ H3))))).
  rewrite gom_bind_ret_l. unfold mret, gom_ret. rewrite !erase_app.
  rewrite (erase_ext _ (keys_addrs k)); [done|]. unfold keys_addrs, usages_addrs, views_addrs, counters_addrs. solve_in.
Qed.

Lemma mem_wipeGX_run a h : shaped KByte (view_addrs (ar_encryptedGx a) ++ view_addrs (ar_xhashedGx a)) h ->
  mem_wipeGX a h = Done (a <| ar_xhashedGx := no_view |> <| ar_encryptedGx := no_view |>,
    erase (view_addrs (ar_encryptedGx a) ++ view_addrs (ar_xhashedGx a)) h).
Proof.
  rewrite shaped_app. intros [H1 H2]. unfold mem_wipeGX. wipe_step (wipeBytes_run _ _ H2).
  wipe_step (wipeBytes_run _ _ (shaped_erase _ _ (view_addrs (ar_xhashedGx a)) _ H1)). unfold mret, gom_ret. by rewrite erase_app.
Qed.

Lemma mem_akeKeys_wipe_run k h : shaped KByte (akeKeys_addrs k) h -> mem_akeKeys_wipe k h = Done (no_akeKeysRef, erase (akeKeys_addrs k) h).
Proof.
  unfold akeKeys_addrs. rewrite !shaped_app. intros (H1 & H2 & H3). unfold mem_akeKeys_wipe. wipe_step (wipeBytes_run _ _ H1).
  rewrite (bind_done _ _ _ _ _ (wipeBytes_run _ _ (shaped_erase _ _ _ _ H2))).
  rewrite (bind_done _ _ _ _ _ (wipeBytes_run _ _ (shaped_erase _ _ _ _ (shaped_erase _ _ _ _ H3)))).
  unfold mret, gom_ret. rewrite !erase_app. do 2 f_equal. apply erase_ext. solve_in.
Qed.

(** What [a.wipe] leaves of the struct. *)
Definition wiped_akeRef : akeRef := initial_akeRef.

Lemma mem_ake_wipe_run a b h : exchange_shaped a h -> (b = true -> keys_shaped (ar_keys a) h) ->
  mem_ake_wipe a b h = Done (wiped_akeRef, erase (exchange_addrs a ++ if b then keys_addrs (ar_keys a) else []) h).
Proof.
  intros [HI HB] Hk. rewrite !shaped_app in HI. destruct HI as (H1 & H2 & H3).
  rewrite app_assoc, (shaped_app _ (_ ++ _)), (shaped_app _ (akeKeys_addrs _)) in HB. destruct HB as (H4 & H5 & H6). unfold mem_ake_wipe.
  wipe_step (wipeBigInt_run _ _ H1). rec_simpl. set (h1 := erase _ h).
  wipe_step (wipeBigInt_run _ _ (shaped_erase _ _ _ _ H2 : shaped _ _ h1)). rec_simpl. set (h2 := erase _ h1).
  wipe_step (wipeBigInt_run _ _ (shaped_erase _ _ _ _ (shaped_erase _ _ _ _ H3) : shaped _ _ h2)). set (h3 := erase _ h2).
  set (a1 := a <| ar_secretExponent := None |> <| ar_ourPublicValue := None |> <| ar_theirPublicValue := None |> <| ar_r := zeroes 16 |>).
  assert (forall t A, shaped t A h -> shaped t A h3) as Hs3 by (intros; by repeat apply shaped_erase).
  wipe_step (mem_wipeGX_run a1 h3 (Hs3 _ _ H4)). rec_simpl. set (h4 := erase _ h3).
  assert (forall t A, shaped t A h -> shaped t A h4) as Hs4 by (intros; by apply shaped_erase, Hs3).
  wipe_step (mem_akeKeys_wipe_run _ _ (Hs4 _ _ H5)). set (h5 := erase _ h4).
  wipe_step (mem_akeKeys_wipe_run _ _ (shaped_erase _ _ _ _ (Hs4 _ _ H6) : shaped _ _ h5)). set (h6 := erase _ h5).
  assert (h6 = erase (exchange_addrs a) h) as E6.
  { unfold h6, h5, h4, h3, h2, h1. rewrite !erase_app. apply erase_ext. unfold exchange_addrs, a1. rec_simpl. solve_in. }
  clear Hs3 Hs4. clearbody h6. subst h6. unfold a1. clear -Hk. destruct b; [|by rewrite app_nil_r].
  wipe_step (mem_keys_wipe_run _ _ (keys_shaped_erase _ (exchange_addrs a) _ (Hk eq_refl))). unfold mret, gom_ret. rewrite erase_app.
  rewrite (erase_ext _ (exchange_addrs a ++ keys_addrs (ar_keys a))); [done|]. solve_in.
Qed.

(** ** Lemmas: separation *)

(** A step from the addresses [A] to the addresses [A']: what else is in the
    heap is kept, and what is new in [A'] was not in use. *)
Definition local (A A' : list addr) (h h' : heap) : Prop :=
  (forall a w, a ∉ A -> h !! a = Some w -> h' !! a = Some w) /\ NoDup A' /\ (forall a, a ∈ A' -> a ∈ A \/ h !! a = None).

Lemma local_refl A h : NoDup A -> local A A h h.
Proof. unfold local. auto. Qed.

Lemma local_trans A B C h1 h2 h3 : local A B h1 h2 -> local B C h2 h3 -> local A C h1 h3.
Proof.
  intros (K1 & _ & N1) (K2 & D2 & N2). split; [|split; [done|]].
  - intros a w Ha Hw. apply K2; [|auto]. intros Hb. destruct (N1 a Hb); [done|congruence].
  - intros a Ha. destruct (N2 a Ha) as [Hb|Hn]; [auto|]. destruct (h1 !! a) as [w|] eqn:E; [|by right].
    destruct (decide (a ∈ A)); [by left|]. rewrite (K1 a w) in Hn by done. done.
Qed.

Lemma local_perm A A' B h h' : A' ≡ₚ B -> local A A' h h' -> local A B h h'.
Proof. intros Hp (K & D & N). split; [done|]. split; [by rewrite <- Hp|]. intros a Ha. apply N. by rewrite Hp. Qed.

Lemma local_sub A A' B h h' : local A A' h h' -> B ⊆+ A' -> local A B h h'.
Proof.
  intros (K & D & N) [C HC]%submseteq_Permutation. rewrite HC in D. apply NoDup_app in D as (D & _). split; [done|]. split; [done|].
  intros a Ha. apply N. rewrite HC. set_solver.
Qed.

Lemma local_drop A A' B h h' : local A (A' ++ B) h h' -> local A A' h h'.
Proof. intros HL. eapply local_sub; [exact HL|]. by apply submseteq_inserts_r. Qed.

(** What the step does not own stays apart and unchanged. *)
Lemma local_frame A A' B h h' : local A A' h h' -> NoDup (A ++ B) -> present B h -> NoDup (A' ++ B) /\ kept B h h'.
Proof.
  intros (K & D & N) (_ & Hd & HB)%NoDup_app Hp. split.
  - apply NoDup_app. split; [done|]. split; [|done]. intros a Ha Hb. destruct (N a Ha) as [Hin|Hn]; [by eapply Hd|].
    destruct (Hp a Hb) as [w Hw]. congruence.
  - intros a Ha. destruct (Hp a Ha) as [w Hw]. rewrite Hw. apply K; [|done]. intros Hin. by eapply Hd.
Qed.

Lemma local_erase A A' B h : A' ++ B ≡ₚ A -> NoDup A -> local A A' h (erase B h).
Proof.
  intros Hp HA. rewrite <- Hp in HA. split; [|split].
  - intros a w Ha Hw. rewrite erase_lookup, decide_False; [done|]. rewrite <- Hp in Ha. set_solver.
  - by apply NoDup_app in HA as [].
  - intros a Ha. left. rewrite <- Hp. set_solver.
Qed.

Lemma local_extend A A' B h h' : local A A' h h' -> NoDup (A ++ B) -> present B h -> local (A ++ B) (A' ++ B) h h'.
Proof.
  intros HL HA HB. destruct (local_frame _ _ _ _ _ HL HA HB) as [HA' _]. destruct HL as (K & _ & N). split; [|split; [done|]].
  - intros a w Ha. apply K. set_solver.
  - intros a. rewrite !elem_of_app. intros [Ha|Ha]; [|by auto]. destruct (N a Ha); auto.
Qed.

Lemma present_kept A h h' : present A h -> kept A h h' -> present A h'.
Proof. intros Hp Hk a Ha. rewrite Hk by done. auto. Qed.

Lemma present_erase A B h : present A h -> present A (erase B h).
Proof. intros Hp a Ha. rewrite erase_lookup. destruct (decide _); [|auto]. rewrite fmap_is_Some. auto. Qed.

(** ** Specifications: allocation *)

Definition block_addrs (b : positive) (n : nat) : list addr := map (fun i => (b, i)) (seq 0 n).

Lemma elem_of_block b n a : a ∈ block_addrs b n <-> a.1 = b /\ (a.2 < n)%nat.
Proof.
  unfold block_addrs. rewrite list_elem_of_fmap. destruct a as [b' i]. simpl. split.
  - intros (j & [= -> ->] & Hj%elem_of_seq). lia.
  - intros [-> Hi]. exists i. split; [done|]. apply elem_of_seq. lia.
Qed.

Lemma NoDup_block b n : NoDup (block_addrs b n).
Proof. apply NoDup_fmap_2; [by intros i j [= ->]|apply NoDup_seq]. Qed.

Lemma alloc_spec ws h : wp (alloc ws) h (fun b h' => local [] (block_addrs b (length ws)) h h' /\ forall i, (i < length ws)%nat -> h' !! (b, i) = ws !! i).
Proof.
  unfold wp, alloc. cbn zeta. pose proof (fresh_block_spec h) as Hf. set (b := fresh_block h) in *. split; [split; [|split]|].
  - intros [b' i] w _ Hw. rewrite place_lookup, decide_False; [done|]. cbn. intros [-> _]. by rewrite Hf in Hw.
  - apply NoDup_block.
  - intros [b' i] [Hb _]%elem_of_block. simpl in Hb. rewrite Hb. right. apply Hf.
  - intros i Hi. rewrite place_lookup, decide_True by (cbn; lia). cbn. by rewrite Nat.sub_0_r.
Qed.

Lemma newInt_spec z h : wp (newInt z) h (fun p h' => int_at h' p (Some z) /\ local [] (ptr_addrs p) h h').
Proof.
  unfold newInt. wp_spec alloc_spec. intros b h' [HL Hw]. apply wp_ret. split; [|exact HL]. apply (Hw 0%nat). simpl. lia.
Qed.

Lemma view_addrs_block b n : view_addrs (View b 0 n) = block_addrs b n.
Proof. done. Qed.

Lemma newBytes_spec l h : wp (newBytes l) h (fun v h' => bytes_at h' v l /\ local [] (view_addrs v) h h' /\ vw_len v = length l).
Proof.
  unfold newBytes. wp_spec alloc_spec. intros b h' [HL Hw]. apply wp_ret. rewrite length_map in *. split; [|done].
  unfold bytes_at. rewrite view_addrs_block. apply Forall2_same_length_lookup_2; [unfold block_addrs; by rewrite length_map, length_seq|].
  intros i a x Ha Hx. unfold block_addrs in Ha. rewrite list_lookup_fmap in Ha. apply fmap_Some in Ha as (j & [-> Hj]%lookup_seq & ->).
  simpl. rewrite Hw by (by apply lookup_lt_Some in Hx). by rewrite list_lookup_fmap, Hx.
Qed.

Lemma load_int_run h p z : int_at h p (Some z) -> load_int p h = Done (z, h).
Proof. destruct p; [|done]. simpl. intros Hp. by rewrite Hp. Qed.

Lemma fill_lookup w A h a : fill w A h !! a = if decide (a ∈ A) then (fun _ => w) <$> h !! a else h !! a.
Proof.
  induction A as [|b A IH]; [by rewrite decide_False by apply not_elem_of_nil|]. unfold fill. cbn [foldr]. fold (fill w A h).
  destruct (decide (a = b)) as [->|Hne].
  - rewrite lookup_alter_eq, IH, (decide_True (P := b ∈ b :: A)) by set_solver. destruct (decide _); by destruct (h !! b).
  - rewrite lookup_alter_ne, IH by done. destruct (decide (a ∈ A)) as [Ha|Ha].
    + by rewrite decide_True by set_solver.
    + rewrite decide_False; [done|]. set_solver.
Qed.

Lemma kept_fill w A B h : (forall a, a ∈ A -> a ∉ B) -> kept B h (fill w A h).
Proof. intros Hd a Ha. rewrite fill_lookup, decide_False; [done|]. intros Hin. by eapply Hd. Qed.

Lemma local_fill w A h : NoDup A -> local A A h (fill w A h).
Proof. intros HA. split; [|auto]. intros a x Ha Hx. by rewrite fill_lookup, decide_False. Qed.

Lemma mem_setBigInt_spec dst src z h :
  shaped KInt (ptr_addrs dst) h -> int_at h src (Some z) -> NoDup (ptr_addrs dst ++ ptr_addrs src) ->
  wp (mem_setBigInt dst src) h (fun p h' => int_at h' p (Some z) /\ local (ptr_addrs dst) (ptr_addrs p) h h').
Proof.
  intros Hd Hs HD. unfold mem_setBigInt. wp_run (wipeBigInt_run dst h Hd). set (h1 := erase (ptr_addrs dst) h).
  pose proof HD as (HD1 & HD2 & _)%NoDup_app.
  assert (local (ptr_addrs dst) [] h h1) as L1 by (by apply local_erase).
  wp_spec alloc_spec. intros b h2 [L2 Hw]. specialize (Hw 0%nat ltac:(simpl; lia)).
  assert (kept (ptr_addrs src) h h2) as Hk.
  { destruct src as [s|]; [|done]. intros a Ha. assert (a = (s, 0%nat)) as -> by set_solver. simpl in Hs. rewrite Hs. destruct L2 as (K2 & _).
    apply K2; [set_solver|]. destruct L1 as (K1 & _). apply K1; [|done]. intros Hin. by eapply HD2. }
  wp_run (load_int_run h2 src z (int_at_frame _ _ _ _ Hs Hk)). unfold store. do 2 wp_step. apply wp_ret.
  change (block_addrs b (length [WInt 0])) with (ptr_addrs (Some b)) in L2. split.
  - cbn [int_at]. rewrite fill_lookup, decide_True by set_solver. by rewrite Hw.
  - eapply local_trans; [exact L1|]. eapply local_trans; [exact L2|]. apply local_fill. by destruct L2 as (_ & ? & _).
Qed.

(** ** Specifications: counters *)

Lemma counters_elem l b : b ∈ l -> (b, 0%nat) ∈ counters_addrs l.
Proof. unfold counters_addrs. induction l as [|x l IH]; simpl; [set_solver|]. rewrite !elem_of_cons. intros [->|]; auto. Qed.

Lemma findCounterIn_run h cs csv our their : Forall2 (counter_at h) cs csv ->
  findCounterIn cs our their h = Done (findCounterIndex csv our their ≫= (fun i => cs !! i), h).
Proof.
  intros HF. induction HF as [|b c cs csv Hb _ IH]; [done|]. cbn [findCounterIn findCounterIndex].
  assert (load_counter b h = Done (c, h)) as Hl by (unfold load_counter; unfold counter_at in Hb; by rewrite Hb).
  step_done Hl. destruct (_ && _); [done|]. rewrite IH. by destruct (findCounterIndex csv our their).
Qed.

Lemma mem_findCounterFor_spec h cs csv our their : Forall2 (counter_at h) cs csv -> NoDup (counters_addrs cs) ->
  wp (mem_findCounterFor cs our their) h (fun r h' =>
    Forall2 (counter_at h') r.2 (findCounterFor csv our their).2 /\ r.2 !! (findCounterFor csv our their).1 = Some r.1 /\
    local (counters_addrs cs) (counters_addrs r.2) h h').
Proof.
  intros HF HD. unfold mem_findCounterFor, findCounterFor. wp_run (findCounterIn_run h cs csv our their HF).
  destruct (findCounterIndex csv our their) as [i|] eqn:E; cbn [mbind option_bind].
  - assert (is_Some (cs !! i)) as [b Hb].
    { apply lookup_lt_is_Some. rewrite (Forall2_length _ _ _ HF). clear -E. revert i E.
      induction csv as [|c csv IH]; intros i; simpl; [done|]. destruct (_ && _); [intros [= <-]; lia|].
      destruct (findCounterIndex csv our their) as [j|]; [|done]. intros [= <-]. specialize (IH j eq_refl). lia. }
    rewrite Hb. apply wp_ret. split; [done|]. split; [done|]. by apply local_refl.
  - wp_spec alloc_spec. intros b h' [HL Hw]. specialize (Hw 0%nat ltac:(simpl; lia)). apply wp_ret.
    assert (present (counters_addrs cs) h) as Hp.
    { intros a Ha. eapply (shaped_present KCounter); [|done]. eapply Forall2_shaped; [|done].
      intros x y Hx a' Ha'. assert (a' = (x, 0%nat)) as -> by set_solver. unfold counter_at in Hx. by rewrite Hx. }
    destruct (local_frame _ _ (counters_addrs cs) _ _ HL HD Hp) as [_ Hk]. cbn [fst snd]. split; [|split].
    + apply Forall2_app; [by eapply (Forall2_frame counter_at); [apply counter_at_frame|..]|]. by constructor.
    + rewrite <- (Forall2_length _ _ _ HF). by rewrite lookup_app_r, Nat.sub_diag.
    + eapply local_perm; [|exact (local_extend _ _ _ _ _ HL HD Hp)]. unfold counters_addrs. rewrite map_app, concat_app. simpl.
      change (block_addrs b 1) with [(b, 0%nat)]. by rewrite Permutation_app_comm.
Qed.

Lemma store_counter_spec h cs csv i b c : Forall2 (counter_at h) cs csv -> NoDup (counters_addrs cs) -> cs !! i = Some b ->
  wp (store b (WCounter c)) h (fun _ h' => Forall2 (counter_at h') cs (<[i := c]> csv) /\ local (counters_addrs cs) (counters_addrs cs) h h').
Proof.
  intros HF HD Hb. unfold store. apply wp_gmod. split.
  - apply Forall2_same_length_lookup_2; [by rewrite length_insert, (Forall2_length _ _ _ HF)|]. intros j x y Hx Hy. unfold counter_at.
    destruct (decide (i = j)) as [<-|Hne].
    + assert (x = b) as -> by congruence. apply list_lookup_insert_Some in Hy. destruct Hy as [(_ & -> & _)|[? _]]; [|done].
      destruct (Forall2_lookup_l _ _ _ _ _ HF Hb) as (c0 & _ & Hc0). unfold counter_at in Hc0. by rewrite fill_lookup, decide_True, Hc0 by set_solver.
    + rewrite list_lookup_insert_ne in Hy by done. pose proof (Forall2_lookup_lr _ _ _ _ _ _ HF Hx Hy) as Hc. unfold counter_at in Hc.
      rewrite fill_lookup, decide_False; [done|]. intros Hin. assert (x = b) as -> by set_solver.
      assert (NoDup cs) as HDc by (clear -HD; induction cs as [|z cs IH]; [constructor|]; unfold counters_addrs in HD; simpl in HD;
        apply NoDup_cons in HD as [Hz HD]; constructor; [intros Hin; apply Hz; by apply counters_elem|auto]).
      apply Hne. by eapply (NoDup_lookup cs).
  - split; [|split; [done|auto]]. intros a w Ha Hw. rewrite fill_lookup, decide_False; [done|]. intros Hin. apply Ha.
    assert (a = (b, 0%nat)) as -> by set_solver. apply counters_elem. by eapply list_elem_of_lookup_2.
Qed.

Lemma load_counter_run h cs csv i b : Forall2 (counter_at h) cs csv -> cs !! i = Some b -> load_counter b h = Done (counterAt csv i, h).
Proof.
  intros HF Hb. destruct (Forall2_lookup_l _ _ _ _ _ HF Hb) as (c & Hc & Hat). unfold load_counter, counter_at, counterAt in *.
  by rewrite Hat, Hc.
Qed.

(** ** Specifications: the parts of a key context *)

Lemma kept_sub A B h h' : kept B h h' -> A ⊆ B -> kept A h h'.
Proof. unfold kept. set_solver. Qed.

(** A step of a part [A] of the addresses [K]; the rest [B] is framed. *)
Lemma local_within A A' B K K' h h' : K ≡ₚ A ++ B -> K' ≡ₚ A' ++ B -> local A A' h h' -> NoDup K -> present B h ->
  local K K' h h' /\ kept B h h'.
Proof.
  intros Hp Hp' HL HD HB. rewrite Hp in HD. destruct (local_frame _ _ B _ _ HL HD HB) as [_ HK]. split; [|done].
  eapply local_perm; [symmetry; exact Hp'|]. destruct (local_extend _ _ _ _ _ HL HD HB) as (E1 & E2 & E3). split; [|split; [done|]].
  - intros a w Ha. apply E1. by rewrite <- Hp.
  - intros a Ha. rewrite Hp. auto.
Qed.

(** A step of a context: it denotes the new values and owns what it refers to. *)
Definition keys_step (k : keysRef) (h : heap) (k' : keysRef) (kv' : keyManagementContext) (h' : heap) : Prop :=
  keys_at h' k' kv' /\ local (keys_addrs k) (keys_addrs k') h h'.

Lemma keys_step_refl h k kv : keys_at h k kv -> NoDup (keys_addrs k) -> keys_step k h k kv h.
Proof. intros. split; [done|]. by apply local_refl. Qed.

Lemma keys_step_trans k1 h1 k2 kv2 h2 k3 kv3 h3 : keys_step k1 h1 k2 kv2 h2 -> keys_step k2 h2 k3 kv3 h3 -> keys_step k1 h1 k3 kv3 h3.
Proof. intros [_ L1] [? L2]. split; [done|]. by eapply local_trans. Qed.

(** A part of a context that the step leaves alone. *)
Ltac framed :=
  first [ eapply pair_at_frame; [eassumption|] | eapply int_at_frame; [eassumption|]
        | eapply (Forall2_frame counter_at); [apply counter_at_frame|eassumption|]
        | eapply (Forall2_frame usage_at); [apply usage_at_frame|eassumption|]
        | eapply (Forall2_frame bytes_at); [apply bytes_at_frame|eassumption|] ];
  eapply kept_sub; [eassumption|solve_in].

(** The counters change. *)
Lemma step_counters h h' k kv cs csv : keys_at h k kv -> NoDup (keys_addrs k) ->
  Forall2 (counter_at h') cs csv -> local (counters_addrs (kr_counterHistory k)) (counters_addrs cs) h h' ->
  keys_step k h (k <| kr_counterHistory := cs |>) (kv <| counterHistory := csv |>) h'.
Proof.
  intros Hk HD HF HL. pose proof (keys_at_present _ _ _ Hk) as Hpr.
  destruct (local_within (counters_addrs (kr_counterHistory k)) (counters_addrs cs) (dh_addrs k ++ usages_addrs (kr_macKeyHistory k) ++ views_addrs (kr_oldMACKeys k))
    (keys_addrs k) (keys_addrs (k <| kr_counterHistory := cs |>)) _ _ ltac:(unfold keys_addrs; solve_Permutation)
    ltac:(unfold keys_addrs, dh_addrs; cbn; solve_Permutation) HL HD) as [L K]; [eapply present_sub; [exact Hpr|unfold keys_addrs; solve_in]|].
  split; [|done]. unfold dh_addrs in K. destruct Hk. constructor; try done; cbn; framed.
Qed.

(** The Diffie-Hellman keys and the identifiers change. *)
Lemma step_dh h h' k kv k' kv' : keys_at h k kv -> NoDup (keys_addrs k) ->
  kr_counterHistory k' = kr_counterHistory k -> counterHistory kv' = counterHistory kv ->
  kr_macKeyHistory k' = kr_macKeyHistory k -> macKeyHistory kv' = macKeyHistory kv ->
  kr_oldMACKeys k' = kr_oldMACKeys k -> oldMACKeys kv' = oldMACKeys kv ->
  kr_ourKeyID k' = ourKeyID kv' -> kr_theirKeyID k' = theirKeyID kv' ->
  pair_at h' (kr_ourCurrentDHKeys k') (ourCurrentDHKeys kv') -> pair_at h' (kr_ourPreviousDHKeys k') (ourPreviousDHKeys kv') ->
  int_at h' (kr_theirCurrentDHPubKey k') (theirCurrentDHPubKey kv') -> int_at h' (kr_theirPreviousDHPubKey k') (theirPreviousDHPubKey kv') ->
  local (dh_addrs k) (dh_addrs k') h h' -> keys_step k h k' kv' h'.
Proof.
  intros Hk HD E1 F1 E2 F2 E3 F3 ? ? ? ? ? ? HL. pose proof (keys_at_present _ _ _ Hk) as Hpr.
  destruct (local_within (dh_addrs k) (dh_addrs k') (counters_addrs (kr_counterHistory k) ++ usages_addrs (kr_macKeyHistory k) ++ views_addrs (kr_oldMACKeys k))
    (keys_addrs k) (keys_addrs k') _ _ ltac:(unfold keys_addrs; solve_Permutation)
    ltac:(unfold keys_addrs; rewrite E1, E2, E3; solve_Permutation) HL HD) as [L K]; [eapply present_sub; [exact Hpr|unfold keys_addrs; solve_in]|].
  split; [|done]. destruct Hk. constructor; try done; [rewrite E1, F1|rewrite E2, F2|rewrite E3, F3]; framed.
Qed.

(** The MAC keys change. *)
Lemma step_macs h h' k kv items itemsv old oldv : keys_at h k kv -> NoDup (keys_addrs k) ->
  Forall2 (usage_at h') items itemsv -> Forall2 (bytes_at h') old oldv ->
  local (usages_addrs (kr_macKeyHistory k) ++ views_addrs (kr_oldMACKeys k)) (usages_addrs items ++ views_addrs old) h h' ->
  keys_step k h (k <| kr_macKeyHistory := items |> <| kr_oldMACKeys := old |>) (kv <| macKeyHistory := itemsv |> <| oldMACKeys := oldv |>) h'.
Proof.
  intros Hk HD HF HO HL. pose proof (keys_at_present _ _ _ Hk) as Hpr.
  destruct (local_within (usages_addrs (kr_macKeyHistory k) ++ views_addrs (kr_oldMACKeys k)) (usages_addrs items ++ views_addrs old)
    (dh_addrs k ++ counters_addrs (kr_counterHistory k))
    (keys_addrs k) (keys_addrs (k <| kr_macKeyHistory := items |> <| kr_oldMACKeys := old |>)) _ _ ltac:(unfold keys_addrs; solve_Permutation)
    ltac:(unfold keys_addrs, dh_addrs; cbn; solve_Permutation) HL HD) as [L K]; [eapply present_sub; [exact Hpr|unfold keys_addrs; solve_in]|].
  split; [|done]. unfold dh_addrs in K. destruct Hk. constructor; try done; cbn; framed.
Qed.

Lemma local_alloc A N h h' : local [] N h h' -> NoDup A -> present A h -> local A (N ++ A) h h' /\ kept A h h'.
Proof. intros HL HD HP. by apply (local_within [] N A A (N ++ A)). Qed.

Lemma kept_erase A B h : NoDup (A ++ B) -> kept A h (erase B h).
Proof. intros (_ & Hd & _)%NoDup_app a Ha. rewrite erase_lookup, decide_False; [done|]. intros Hb. by eapply Hd. Qed.

Lemma kept_trans A h1 h2 h3 : kept A h1 h2 -> kept A h2 h3 -> kept A h1 h3.
Proof. intros H1 H2 a Ha. rewrite H2 by done. auto. Qed.

Lemma int_at_present h p z : int_at h p (Some z) -> present (ptr_addrs p) h.
Proof. intros Hp. unfold present. eapply shaped_present, int_at_shaped, Hp. Qed.

Lemma NoDup_dh k : NoDup (keys_addrs k) -> NoDup (dh_addrs k).
Proof. unfold keys_addrs. by intros (? & _)%NoDup_app. Qed.

Lemma dh_present h k kv : keys_at h k kv -> present (dh_addrs k) h.
Proof. intros Hk. eapply present_sub; [by eapply keys_at_present|]. unfold keys_addrs. solve_in. Qed.

(** ** Specifications: forgetting MAC keys *)

Lemma Permutation_concat_map {A B} (f : A -> list B) l k : l ≡ₚ k -> concat (map f l) ≡ₚ concat (map f k).
Proof. rewrite <- !flat_map_concat_map. apply Permutation_flat_map. Qed.

Lemma last_Forall2 {A B} (R : A -> B -> Prop) l k : Forall2 R l k ->
  match last l, last k with Some x, Some y => R x y | None, None => True | _, _ => False end.
Proof.
  intros HF. destruct l as [|x l _] using rev_ind; [by apply Forall2_nil_inv_l in HF as ->|].
  apply Forall2_app_inv_l in HF as (k1 & k2 & _ & HF2 & ->). apply Forall2_cons_inv_l in HF2 as (y & k3 & HR & H3 & ->).
  apply Forall2_nil_inv_l in H3 as ->. by rewrite !last_snoc.
Qed.

(** The scan and the deletion depend on the items only through the test. *)
Lemma scanKeys_related {A B K L} (R : A -> B -> Prop) (S : K -> L -> Prop) keyA keyB f g l k i : Forall2 R l k ->
  (forall x y, R x y -> f x = g y /\ S (keyA x) (keyB y)) ->
  (scanKeys keyA f l i).1 = (scanKeys keyB g k i).1 /\ Forall2 S (scanKeys keyA f l i).2 (scanKeys keyB g k i).2.
Proof.
  intros HF HR. revert i; induction HF as [|x y l k Hxy _ IH]; intros i; [by split; [|constructor]|]. cbn [scanKeys].
  specialize (IH (Datatypes.S i)). destruct (scanKeys keyA f l _) as [d1 r1], (scanKeys keyB g k _) as [d2 r2]. cbn in IH.
  destruct IH as [-> IH], (HR x y Hxy) as [-> Hs]. destruct (g y); cbn; split; auto.
Qed.

Lemma deleteKeysAt_related {A B} (R : A -> B -> Prop) l k del : Forall2 R l k ->
  match deleteKeysAt l del, deleteKeysAt k del with
  | Done l', Done k' => Forall2 R l' k'
  | Panicked p, Panicked q => p = q
  | _, _ => False
  end.
Proof.
  intros HF. induction del as [|d del IH]; [done|]. cbn [deleteKeysAt]. unfold mbind, go_bind.
  destruct (deleteKeysAt l del) as [l'|p], (deleteKeysAt k del) as [k'|q]; try done. unfold deleteKeyAt.
  rewrite <- (Forall2_length _ _ _ IH). pose proof (last_Forall2 _ _ _ IH) as HL. destruct (last l'), (last k'); try done.
  destruct (d <? _)%nat; [|done]. by apply Forall2_take, Forall2_insert.
Qed.

(** Forgetting the keys of matching items, on references and on values. *)
Lemma forgetMACKeys_related h items itemsv f g : Forall2 (usage_at h) items itemsv ->
  (forall u uv, usage_at h u uv -> f u = g uv) ->
  exists keys items' keysv itemsv', forgetMACKeys ur_receivingKey f items = Done (keys, items') /\
    forgetMACKeys mku_receivingKey g itemsv = Done (keysv, itemsv') /\
    Forall2 (bytes_at h) keys keysv /\ Forall2 (usage_at h) items' itemsv' /\
    usages_addrs items ≡ₚ usages_addrs items' ++ views_addrs keys.
Proof.
  intros HF Hfg. destruct (forgetMACKeys_spec ur_receivingKey f items) as (items' & E1 & HP).
  destruct (forgetMACKeys_spec mku_receivingKey g itemsv) as (itemsv' & E2 & _).
  eexists _, items', _, itemsv'. split; [exact E1|]. split; [exact E2|].
  unfold forgetMACKeys in E1, E2.
  destruct (scanKeys_related (usage_at h) (bytes_at h : view -> macKey -> Prop) ur_receivingKey mku_receivingKey f g items itemsv 0 HF) as [Ed Er].
  { intros u uv Hu. split; [by apply Hfg|by apply Hu]. }
  destruct (scanKeys ur_receivingKey f items 0) as [d1 r1], (scanKeys mku_receivingKey g itemsv 0) as [d2 r2]. cbn in Ed, Er. subst d2.
  pose proof (deleteKeysAt_related (usage_at h) items itemsv d1 HF) as HDel. unfold mbind, go_bind, mret, go_ret in E1, E2.
  destruct (deleteKeysAt items d1), (deleteKeysAt itemsv d1); try done. simplify_eq. split; [done|]. split; [done|].
  clear -HP. unfold usages_addrs, views_addrs.
  transitivity (concat (map (fun u => view_addrs (ur_receivingKey u)) (List.filter (fun u => negb (f u)) items ++ List.filter f items))).
  - apply (Permutation_concat_map _ items). clear HP. induction items as [|u items IH]; [done|]. cbn. destruct (f u); cbn; [rewrite <- Permutation_middle|]; by apply perm_skip.
  - rewrite map_app, concat_app, (Permutation_concat_map _ _ _ HP), map_map. done.
Qed.

Section KeySpecs.
Context `{DHGroup} `{Crypto}.

(** A new number takes the place of a wiped one. *)
Lemma mem_generateNewDHKeyPair_spec h k kv r : keys_at h k kv -> NoDup (keys_addrs k) ->
  wp (mem_generateNewDHKeyPair k r) h (fun x h' => let '(err, kv', r') := generateNewDHKeyPair kv r in
    x.1.1 = err /\ x.2 = r' /\ keys_step k h x.1.2 kv' h').
Proof.
  intros Hk HD. unfold mem_generateNewDHKeyPair, generateNewDHKeyPair.
  destruct (randSizedMPI r 40) as [[priv|e] r']; [|apply wp_ret; split; [done|]; split; [done|]; by apply keys_step_refl].
  pose proof (dh_present _ _ _ Hk) as HP. pose proof (NoDup_dh _ HD) as HDd. unfold dh_addrs in HP, HDd.
  set (Pc := pair_addrs (kr_ourCurrentDHKeys k)) in *. set (Pp := pair_addrs (kr_ourPreviousDHKeys k)) in *.
  set (Tc := ptr_addrs (kr_theirCurrentDHPubKey k)) in *. set (Tp := ptr_addrs (kr_theirPreviousDHPubKey k)) in *.
  wp_spec newInt_spec. intros p1 h1 [I1 L1]. destruct (local_alloc _ _ _ _ L1 HDd HP) as [W1 K1].
  assert (shaped KInt Pp h1) as HS.
  { intros a Ha. rewrite K1 by set_solver. destruct (keys_at_shaped _ _ _ Hk) as [HI _]. apply HI. unfold dh_addrs. fold Pc Pp Tc Tp. set_solver. }
  wp_run (dhKeyPair_wipe_run _ _ HS). set (h2 := erase Pp h1).
  assert (NoDup ((ptr_addrs p1 ++ Pc ++ Tc ++ Tp) ++ Pp)) as HD1.
  { destruct W1 as (_ & HW & _). eapply NoDup_Permutation_proper; [|exact HW]. solve_Permutation. }
  assert (local (ptr_addrs p1 ++ Pc ++ Pp ++ Tc ++ Tp) (ptr_addrs p1 ++ Pc ++ Tc ++ Tp) h1 h2) as W2.
  { apply local_erase; [solve_Permutation|]. by destruct W1 as (_ & ? & _). }
  pose proof (kept_erase _ _ h1 HD1) as K2. fold h2 in K2.
  assert (present (ptr_addrs p1 ++ Pc ++ Tc ++ Tp) h2) as HP2.
  { apply present_erase, present_app. split; [by eapply int_at_present|]. eapply present_sub; [eapply present_kept; [exact HP|exact K1]|solve_in]. }
  wp_spec newInt_spec. intros p2 h3 [I2 L2]. apply wp_ret. cbn [fst snd]. split; [done|]. split; [done|].
  destruct (local_alloc _ _ _ _ L2 (proj1 (proj2 W2)) HP2) as [W3 K3].
  assert (kept (Pc ++ Tc ++ Tp) h h3) as KK.
  { intros a Ha. rewrite K3, K2, K1; [done|..]; set_solver. }
  pose proof Hk as [Hid Htid Hcur Hprev Htc Htp _ _ _].
  eapply step_dh; try done; cbn.
  - by rewrite Hid.
  - split; [exact I2|]. eapply int_at_frame; [eapply int_at_frame; [exact I1|]|]; intros a Ha; [apply K2|apply K3]; set_solver.
  - eapply pair_at_frame; [exact Hcur|]. eapply kept_sub; [exact KK|solve_in].
  - eapply int_at_frame; [exact Htc|]. eapply kept_sub; [exact KK|solve_in].
  - eapply int_at_frame; [exact Htp|]. eapply kept_sub; [exact KK|solve_in].
  - eapply local_trans; [exact W1|]. eapply local_trans; [exact W2|]. eapply local_perm; [|exact W3].
    unfold dh_addrs. rec_simpl. change (pair_addrs (PairRef p2 p1)) with (ptr_addrs p2 ++ ptr_addrs p1). fold Pc Tc Tp. solve_Permutation.
Qed.

(** Replacing one of the numbers, with the other ones in [B]. *)
Lemma set_number_spec h k kv dst src z B : keys_at h k kv -> NoDup (keys_addrs k ++ ptr_addrs src) -> dh_addrs k ≡ₚ ptr_addrs dst ++ B ->
  int_at h src (Some z) ->
  wp (mem_setBigInt dst src) h (fun p h' => int_at h' p (Some z) /\ local (dh_addrs k) (ptr_addrs p ++ B) h h' /\ kept B h h').
Proof.
  intros Hk HD HB Hz. apply NoDup_app in HD as (HD & Hdis & HDs). pose proof (NoDup_dh _ HD) as HDd. pose proof (dh_present _ _ _ Hk) as HP.
  destruct (keys_at_shaped _ _ _ Hk) as (HS & _).
  assert (forall a, a ∈ ptr_addrs dst -> a ∈ dh_addrs k) as Hin by (intros a Ha; rewrite HB; set_solver).
  eapply wp_mono; [apply mem_setBigInt_spec; [|exact Hz|]|].
  - intros a Ha. apply HS. auto.
  - apply NoDup_app. split; [|split; [|done]]; [rewrite HB, NoDup_app in HDd; tauto|].
    intros a Ha. apply Hdis. unfold keys_addrs. apply Hin in Ha. set_solver.
  - intros p h' [Hp L]. split; [done|]. apply (local_within (ptr_addrs dst) (ptr_addrs p)); try done.
    intros a Ha. apply HP. rewrite HB. set_solver.
Qed.

Lemma mem_setTheirCurrentDHPubKey_spec h k kv key z : keys_at h k kv -> NoDup (keys_addrs k ++ ptr_addrs key) -> int_at h key (Some z) ->
  wp (mem_setTheirCurrentDHPubKey k key) h (fun k' h' => keys_step k h k' (kv <| theirCurrentDHPubKey := Some z |>) h').
Proof.
  intros Hk HD Hz. unfold mem_setTheirCurrentDHPubKey. pose proof Hk as [Hid Htid Hcur Hprev Htc Htp _ _ _].
  wp_spec (set_number_spec h k kv (kr_theirCurrentDHPubKey k) key z
    (pair_addrs (kr_ourCurrentDHKeys k) ++ pair_addrs (kr_ourPreviousDHKeys k) ++ ptr_addrs (kr_theirPreviousDHPubKey k)));
    [done|done|unfold dh_addrs; solve_Permutation|done|].
  intros p h' (Hp & L & K). apply wp_ret. apply NoDup_app in HD as (HD & _).
  eapply step_dh; try done; cbn; [framed..|]. eapply local_perm; [|exact L]. unfold dh_addrs. rec_simpl. solve_Permutation.
Qed.

Lemma mem_setOurCurrentDHKeys_spec h k kv priv pub x gx : keys_at h k kv -> NoDup (keys_addrs k ++ ptr_addrs priv ++ ptr_addrs pub) ->
  int_at h priv (Some x) -> int_at h pub (Some gx) ->
  wp (mem_setOurCurrentDHKeys k priv pub) h (fun k' h' => keys_step k h k' (kv <| ourCurrentDHKeys := DhKeyPair (Some gx) (Some x) |>) h').
Proof.
  intros Hk HD Hx Hgx. unfold mem_setOurCurrentDHKeys. pose proof Hk as [Hid Htid [Hcp Hcx] Hprev Htc Htp _ _ _].
  assert (NoDup (keys_addrs k ++ ptr_addrs priv)) as HD1 by (rewrite app_assoc, NoDup_app in HD; tauto).
  assert (NoDup (keys_addrs k ++ ptr_addrs pub)) as HD2
    by (rewrite (Permutation_app_comm (ptr_addrs priv)), app_assoc, NoDup_app in HD; tauto).
  set (B := pair_addrs (kr_ourPreviousDHKeys k) ++ ptr_addrs (kr_theirCurrentDHPubKey k) ++ ptr_addrs (kr_theirPreviousDHPubKey k)).
  wp_spec (set_number_spec h k kv (pr_priv (kr_ourCurrentDHKeys k)) priv x (ptr_addrs (pr_pub (kr_ourCurrentDHKeys k)) ++ B));
    [done|done|unfold dh_addrs, pair_addrs at 1, B; solve_Permutation|done|].
  intros p1 h1 (Hp1 & L1 & K1). rec_simpl. set (k1 := k <| kr_ourCurrentDHKeys := _ |>).
  set (kv1 := kv <| ourCurrentDHKeys := DhKeyPair (kp_pub (ourCurrentDHKeys kv)) (Some x) |>).
  assert (keys_step k h k1 kv1 h1) as S1.
  { apply NoDup_app in HD1 as (HDk & _). unfold B in K1. eapply step_dh; try done; cbn; [split; cbn; [framed|done]|framed..|].
    eapply local_perm; [|exact L1]. unfold dh_addrs, k1, B. rec_simpl. unfold pair_addrs at 2. cbn. solve_Permutation. }
  destruct (local_frame _ _ _ _ _ (proj2 S1) HD2) as [HD3 K2]; [by eapply int_at_present|].
  pose proof (proj1 S1) as Hk1. cbn [pr_pub pr_priv].
  wp_spec (set_number_spec h1 k1 kv1 (pr_pub (kr_ourCurrentDHKeys k)) pub gx (ptr_addrs p1 ++ B));
    [exact Hk1|exact HD3|unfold dh_addrs, k1, B; rec_simpl; unfold pair_addrs at 1; cbn; solve_Permutation|by eapply int_at_frame|].
  intros p2 h2 (Hp2 & L2 & K3). apply wp_ret. eapply keys_step_trans; [exact S1|]. apply NoDup_app in HD3 as (HDk & _).
  pose proof Hk1 as [_ _ [_ Hcx1] Hprev1 Htc1 Htp1 _ _ _]. cbn in Hcx1, Hprev1, Htc1, Htp1. unfold B in K3.
  eapply step_dh; [exact Hk1|exact HDk|..]; try done; cbn; [split; cbn; [done|framed]|framed..|].
  eapply local_perm; [|exact L2]. unfold dh_addrs, k1, B. rec_simpl. unfold pair_addrs at 2. cbn. solve_Permutation.
Qed.

(** Moving MAC keys from the history to the keys to reveal. *)
Lemma forget_step h k kv f g : keys_at h k kv -> NoDup (keys_addrs k) -> (forall u uv, usage_at h u uv -> f u = g uv) ->
  exists keys items keysv itemsv, forgetMACKeys ur_receivingKey f (kr_macKeyHistory k) = Done (keys, items) /\
    forgetMACKeys mku_receivingKey g (macKeyHistory kv) = Done (keysv, itemsv) /\
    keys_step k h (k <| kr_macKeyHistory := items |> <| kr_oldMACKeys := kr_oldMACKeys k ++ keys |>)
      (kv <| macKeyHistory := itemsv |> <| oldMACKeys := oldMACKeys kv ++ keysv |>) h.
Proof.
  intros Hk HD Hfg. pose proof Hk as [_ _ _ _ _ _ _ HU HO].
  destruct (forgetMACKeys_related h _ _ f g HU Hfg) as (keys & items & keysv & itemsv & E1 & E2 & F1 & F2 & HP).
  exists keys, items, keysv, itemsv. split; [done|]. split; [done|]. apply step_macs; try done; [by apply Forall2_app|].
  assert (usages_addrs (kr_macKeyHistory k) ++ views_addrs (kr_oldMACKeys k) ≡ₚ usages_addrs items ++ views_addrs (kr_oldMACKeys k ++ keys)) as Hp
    by (rewrite HP; unfold views_addrs; rewrite map_app, concat_app; solve_Permutation).
  eapply local_perm; [exact Hp|]. apply local_refl. unfold keys_addrs in HD. rewrite !NoDup_app in HD. rewrite NoDup_app. tauto.
Qed.

Lemma mem_revealOur_spec h k kv : keys_at h k kv -> NoDup (keys_addrs k) -> exists kv', revealMACKeysForOurPreviousKeyID kv = Done kv' /\
  wp (mem_revealMACKeysForOurPreviousKeyID k) h (fun k' h' => keys_step k h k' kv' h').
Proof.
  intros Hk HD. destruct (forget_step h k kv (fun u => ur_ourKeyID u =? u32 (kr_ourKeyID k - 1))
    (fun u => mku_ourKeyID u =? u32 (ourKeyID kv - 1)) Hk HD) as (keys & items & keysv & itemsv & E1 & E2 & HS).
  { intros u uv (-> & _). by rewrite (at_ourKeyID _ _ _ Hk). }
  unfold revealMACKeysForOurPreviousKeyID, forgetMACKeysForOurKey. rewrite E2. eexists. split; [reflexivity|].
  unfold mem_revealMACKeysForOurPreviousKeyID. rewrite E1. eapply wp_bind, wp_glift; [reflexivity|]. by apply wp_ret.
Qed.

Lemma mem_revealTheir_spec h k kv : keys_at h k kv -> NoDup (keys_addrs k) -> exists kv', revealMACKeysForTheirPreviousKeyID kv = Done kv' /\
  wp (mem_revealMACKeysForTheirPreviousKeyID k) h (fun k' h' => keys_step k h k' kv' h').
Proof.
  intros Hk HD. destruct (forget_step h k kv (fun u => ur_theirKeyID u =? u32 (kr_theirKeyID k - 1))
    (fun u => mku_theirKeyID u =? u32 (theirKeyID kv - 1)) Hk HD) as (keys & items & keysv & itemsv & E1 & E2 & HS).
  { intros u uv (_ & -> & _). by rewrite (at_theirKeyID _ _ _ Hk). }
  unfold revealMACKeysForTheirPreviousKeyID, forgetMACKeysForTheirKey. rewrite E2. eexists. split; [reflexivity|].
  unfold mem_revealMACKeysForTheirPreviousKeyID. rewrite E1. eapply wp_bind, wp_glift; [reflexivity|]. by apply wp_ret.
Qed.

Lemma mem_rotateOurKeys_spec h k kv id r : keys_at h k kv -> NoDup (keys_addrs k) ->
  exists err kv' r', rotateOurKeys kv id r = Done (err, kv', r') /\
    wp (mem_rotateOurKeys k id r) h (fun x h' => x.1.1 = err /\ x.2 = r' /\ keys_step k h x.1.2 kv' h').
Proof.
  intros Hk HD. unfold rotateOurKeys, mem_rotateOurKeys. rewrite (at_ourKeyID _ _ _ Hk). destruct (id =? ourKeyID kv).
  - destruct (mem_revealOur_spec h k kv Hk HD) as (kv1 & -> & HW). unfold mbind at 1, go_bind, mret, go_ret.
    destruct (generateNewDHKeyPair kv1 r) as [[err kv'] r'] eqn:E. eexists _, _, _. split; [reflexivity|].
    wp_spec HW. intros k1 h1 S1. pose proof S1 as [Hk1 (_ & HD1 & _)].
    eapply wp_mono; [by apply mem_generateNewDHKeyPair_spec|]. rewrite E. intros x h' (? & ? & S2). split_and!; try done.
    by eapply keys_step_trans.
  - eexists _, _, _. split; [reflexivity|]. apply wp_ret. split_and!; try done. by apply keys_step_refl.
Qed.

(** The peer's next number, which no other reference shares, replaces the current one. *)
Lemma mem_rotateTheirKey_spec h k kv id y yv : keys_at h k kv -> NoDup (ptr_addrs y ++ keys_addrs k) -> int_at h y (Some yv) ->
  exists kv', rotateTheirKey kv id yv = Done kv' /\
    wp (mem_rotateTheirKey k id y) h (fun k' h' => keys_at h' k' kv' /\ local (ptr_addrs y ++ keys_addrs k) (keys_addrs k') h h').
Proof.
  intros Hk HD Hy. pose proof HD as (_ & _ & HDk)%NoDup_app. unfold rotateTheirKey, mem_rotateTheirKey.
  rewrite (at_theirKeyID _ _ _ Hk). destruct (id =? theirKeyID kv).
  2:{ eexists. split; [reflexivity|]. apply wp_ret. split; [done|]. eapply (local_drop _ _ (ptr_addrs y)), local_perm; [|by apply local_refl]. solve_Permutation. }
  destruct (mem_revealTheir_spec h k kv Hk HDk) as (kv1 & -> & HW). eexists. split; [reflexivity|].
  wp_spec HW. intros k1 h1 S1. pose proof S1 as [Hk1 L1]. apply wp_ret.
  destruct (local_within (keys_addrs k) (keys_addrs k1) (ptr_addrs y) (ptr_addrs y ++ keys_addrs k) (ptr_addrs y ++ keys_addrs k1) h h1
    ltac:(solve_Permutation) ltac:(solve_Permutation) L1 HD) as [W K]; [by eapply int_at_present|]. split.
  - destruct Hk1. constructor; try done; cbn; [congruence|by eapply int_at_frame].
  - eapply (local_drop _ _ (ptr_addrs (kr_theirPreviousDHPubKey k1))), local_perm; [|exact W]. unfold keys_addrs, dh_addrs. rec_simpl. solve_Permutation.
Qed.

Lemma mem_rotateKeys_spec h k kv recipient sender y r : keys_at h k kv -> NoDup (keys_addrs k) ->
  exists err kv' r', rotateKeys kv recipient sender y r = Done (err, kv', r') /\
    wp (mem_rotateKeys k recipient sender y r) h (fun x h' => x.1.1 = err /\ x.2 = r' /\ keys_step k h x.1.2 kv' h').
Proof.
  intros Hk HD. pose proof (newInt_spec y h) as HN. apply wp_inv in HN as (p & h0 & EN & Hp & L0).
  destruct (local_alloc _ _ _ _ L0 HD (keys_at_present _ _ _ Hk)) as [W0 K0]. pose proof (keys_at_frame _ _ _ _ Hk K0) as Hk0.
  pose proof W0 as (_ & HD0 & _). unfold rotateKeys, mem_rotateKeys.
  destruct (mem_rotateOurKeys_spec h0 k kv recipient r Hk0 HD) as (err & kv1 & r1 & -> & HW). unfold mbind at 1, go_bind.
  apply wp_inv in HW as ([[err' k1] r1'] & h1 & ER & E1 & E2 & Hk1 & L1). cbn in E1, E2, Hk1, L1. subst err' r1'.
  destruct (local_within (keys_addrs k) (keys_addrs k1) (ptr_addrs p) (ptr_addrs p ++ keys_addrs k) (ptr_addrs p ++ keys_addrs k1) h0 h1
    ltac:(solve_Permutation) ltac:(solve_Permutation) L1 HD0) as [W1 K1]; [by eapply int_at_present|].
  pose proof (local_trans _ _ _ _ _ _ W0 W1) as W. destruct err as [e|].
  - eexists _, _, _. split; [reflexivity|]. wp_run EN. wp_run ER. apply wp_ret. split_and!; try done. split; [done|].
    eapply (local_drop _ _ (ptr_addrs p)), local_perm; [|exact W]. cbn. solve_Permutation.
  - pose proof W1 as (_ & HD1 & _).
    destruct (mem_rotateTheirKey_spec h1 k1 kv1 sender p y Hk1 HD1 (int_at_frame _ _ _ _ Hp K1)) as (kv2 & -> & HW2).
    eexists _, _, _. split; [reflexivity|]. wp_run EN. wp_run ER. wp_spec HW2. intros k2 h2 [Hk2 L2]. apply wp_ret.
    split_and!; try done. split; [done|]. by eapply local_trans.
Qed.

Lemma load_int_sim h p o : int_at h p o -> load_int p h = match o with Some z => Done (z, h) | None => Panicked NilDeref end.
Proof. destruct p, o; try done. simpl. intros Hp. by rewrite Hp. Qed.

(** The session keys of a pair of identifiers; the same panic when a key is missing. *)
Lemma mem_sessionKeysFor_spec h k kv our their v res kv' : keys_at h k kv -> NoDup (keys_addrs k) ->
  sessionKeysFor kv our their v = Done (res, kv') ->
  wp (mem_sessionKeysFor k our their v) h (fun x h' => x.1 = res /\ keys_step k h x.2 kv' h').
Proof.
  intros Hk HD. pose proof Hk as [Eo Et [Hcp Hcx] [Hpp Hpx] Htc Htp _ HU HO]. unfold sessionKeysFor, mem_sessionKeysFor, mem_pickOurKeys, pickOurKeys.
  assert (forall e, Done (@Err sessionKeys e, kv) = Done (res, kv') ->
    wp (mret (@Err sessionKeys e, k)) h (fun x h' => x.1 = res /\ keys_step k h x.2 kv' h')) as Herr.
  { intros e [= <- <-]. apply wp_ret. split; [done|]. by apply keys_step_refl. }
  rewrite Eo. destruct (_ || _); [apply Herr|]. unfold mem_pickTheirKey, pickTheirKey. rewrite Et.
  assert (forall op ou opv ouv tp tpv, int_at h op opv -> int_at h ou ouv -> int_at h tp tpv ->
    (priv ← deref opv; pub ← deref ouv; their' ← deref tpv;
     mret (Ok (calculateDHSessionKeys priv pub their' v), kv <| macKeyHistory := addKeys (macKeyHistory kv) our their (receivingMACKey (calculateDHSessionKeys priv pub their' v)) |>))
      = Done (res, kv') ->
    wp (priv ← load_int op; pub ← load_int ou; their' ← load_int tp;
        key ← newBytes (receivingMACKey (calculateDHSessionKeys priv pub their' v));
        mret (Ok (calculateDHSessionKeys priv pub their' v), k <| kr_macKeyHistory := kr_macKeyHistory k ++ [UsageRef our their key] |>)) h
      (fun x h' => x.1 = res /\ keys_step k h x.2 kv' h')) as Hok.
  { intros op ou [priv|] [pub|] tp [tz|] H1 H2 H3; try done. cbn. intros [= <- <-].
    wp_run (load_int_sim _ _ _ H1). wp_run (load_int_sim _ _ _ H2). wp_run (load_int_sim _ _ _ H3).
    wp_spec newBytes_spec. intros key h' (Hb & L & _). apply wp_ret. split; [done|]. cbn [snd].
    pose proof (keys_at_present _ _ _ Hk) as HP.
    assert (NoDup (usages_addrs (kr_macKeyHistory k) ++ views_addrs (kr_oldMACKeys k))) as HDm
      by (unfold keys_addrs in HD; rewrite !NoDup_app in HD; rewrite NoDup_app; tauto).
    destruct (local_alloc _ _ _ _ L HDm) as [W K]; [eapply present_sub; [exact HP|unfold keys_addrs; solve_in]|].
    pose proof (step_macs h h' k kv (kr_macKeyHistory k ++ [UsageRef our their key])
      (addKeys (macKeyHistory kv) our their (receivingMACKey (calculateDHSessionKeys priv pub tz v))) (kr_oldMACKeys k) (oldMACKeys kv) Hk HD) as HS.
    destruct k, kv. apply HS.
    - unfold addKeys. cbn in *. apply Forall2_app; [framed|]. constructor; [|constructor]. by repeat split.
    - cbn in *. framed.
    - eapply local_perm; [|exact W]. unfold usages_addrs. rewrite map_app, concat_app. cbn. rewrite app_nil_r. solve_Permutation. }
  destruct (our =? ourKeyID kv); [|destruct (our =? u32 (ourKeyID kv - 1)); [|apply Herr]];
    (destruct (_ || _); [apply Herr|]; destruct (their =? theirKeyID kv); [by apply Hok|];
     destruct (their =? u32 (theirKeyID kv - 1)); [|apply Herr];
     destruct (kr_theirPreviousDHPubKey k), (theirPreviousDHPubKey kv); try done; [|apply Herr]; by apply Hok).
Qed.

Lemma NoDup_counters k : NoDup (keys_addrs k) -> NoDup (counters_addrs (kr_counterHistory k)).
Proof. unfold keys_addrs. rewrite !NoDup_app. tauto. Qed.

Lemma mem_checkMessageCounter_spec h k kv recipient sender ctr : keys_at h k kv -> NoDup (keys_addrs k) ->
  wp (mem_checkMessageCounter k recipient sender ctr) h (fun x h' => let '(e, kv') := checkMessageCounter kv recipient sender ctr in
    x.1 = e /\ keys_step k h x.2 kv' h').
Proof.
  intros Hk HD. pose proof (NoDup_counters _ HD) as HDc. unfold mem_checkMessageCounter, checkMessageCounter.
  wp_spec (mem_findCounterFor_spec h _ _ recipient sender (at_counters _ _ _ Hk) HDc). intros [b cs] h1.
  destruct (findCounterFor (counterHistory kv) recipient sender) as [i csv]. cbn [fst snd]. intros (F1 & Hb & L1).
  wp_run (load_counter_run h1 cs csv i b F1 Hb). destruct (ctr <=? _).
  - apply wp_ret. split; [done|]. cbn [snd]. by apply step_counters.
  - pose proof L1 as (_ & HD1 & _). wp_spec (fun c => store_counter_spec h1 cs csv i b c F1 HD1 Hb).
    intros _ h2 [F2 L2]. apply wp_ret. split; [done|]. cbn [snd]. apply step_counters; [done..|]. by eapply local_trans.
Qed.

Lemma mem_takeOurCounter_spec h k kv our their : keys_at h k kv -> NoDup (keys_addrs k) ->
  wp (mem_takeOurCounter k our their) h (fun x h' => x.1 = (takeOurCounter kv our their).1 /\ keys_step k h x.2 (takeOurCounter kv our their).2 h').
Proof.
  intros Hk HD. pose proof (NoDup_counters _ HD) as HDc. unfold mem_takeOurCounter, takeOurCounter.
  wp_spec (mem_findCounterFor_spec h _ _ our their (at_counters _ _ _ Hk) HDc). intros [b cs] h1.
  destruct (findCounterFor (counterHistory kv) our their) as [i csv]. cbn [fst snd]. intros (F1 & Hb & L1).
  wp_run (load_counter_run h1 cs csv i b F1 Hb). pose proof L1 as (_ & HD1 & _).
  wp_spec (fun c => store_counter_spec h1 cs csv i b c F1 HD1 Hb).
  intros _ h2 [F2 L2]. apply wp_ret. split; [done|]. cbn [snd]. apply step_counters; [done..|]. by eapply local_trans.
Qed.

End KeySpecs.

(** ** Specifications: the exchange *)

Lemma lookup_view_addrs v i : (i < vw_len v)%nat -> view_addrs v !! i = Some (vw_block v, (vw_off v + i)%nat).
Proof. intros Hi. unfold view_addrs. rewrite list_lookup_fmap, lookup_seq_lt by done. done. Qed.

Lemma length_view_addrs v : length (view_addrs v) = vw_len v.
Proof. unfold view_addrs. by rewrite length_map, length_seq. Qed.

Lemma view_addrs_sub v i j : (i <= j <= vw_len v)%nat -> view_addrs (subView v i j) = take (j - i) (drop i (view_addrs v)).
Proof.
  intros Hij. apply list_eq. intros n. destruct (decide (n < j - i)%nat) as [Hn|Hn].
  - rewrite lookup_view_addrs by (cbn; lia). rewrite lookup_take_lt, lookup_drop, lookup_view_addrs by lia. cbn. do 2 f_equal. lia.
  - rewrite !lookup_ge_None_2; [done|..]; rewrite ?length_take, ?length_drop, ?length_view_addrs; cbn; lia.
Qed.

Lemma bytes_at_length h v l : bytes_at h v l -> vw_len v = length l.
Proof. intros HF%Forall2_length. by rewrite length_view_addrs in HF. Qed.

(** A slice of a slice holds the slice of its bytes. *)
Lemma bytes_at_sub h v l i j : bytes_at h v l -> (i <= j <= length l)%nat -> bytes_at h (subView v i j) (take (j - i) (drop i l)).
Proof.
  intros Hb Hij. unfold bytes_at. rewrite view_addrs_sub by (rewrite (bytes_at_length _ _ _ Hb); lia). by apply Forall2_take, Forall2_drop.
Qed.

Lemma bytes_at_mid h v a b c i j : bytes_at h v (a ++ b ++ c) -> i = length a -> j = (i + length b)%nat -> bytes_at h (subView v i j) b.
Proof.
  intros Hb -> ->. assert (take (length a + length b - length a) (drop (length a) (a ++ b ++ c)) = b) as E
    by (rewrite drop_app_length, Nat.add_comm, Nat.add_sub; apply take_app_length).
  rewrite <- E at 2. apply bytes_at_sub; [done|]. rewrite !length_app. lia.
Qed.

Lemma NoDup_view v : NoDup (view_addrs v).
Proof. unfold view_addrs. apply NoDup_fmap_2; [intros i j [= E]; lia|apply NoDup_seq]. Qed.

(** Two windows that do not overlap. *)
Lemma subViews_apart v i j k n : (i <= j)%nat -> (j <= k)%nat -> (k <= n)%nat -> (n <= vw_len v)%nat ->
  view_addrs (subView v i j) ++ view_addrs (subView v k n) ⊆+ view_addrs v.
Proof.
  intros. assert (forall i j a, (i <= j <= vw_len v)%nat ->
    a ∈ view_addrs (subView v i j) <-> exists q, a = (vw_block v, (vw_off v + q)%nat) /\ (i <= q < j)%nat) as Hin.
  { intros i' j' a Hij. unfold view_addrs. rewrite list_elem_of_fmap. split.
    - intros (q & -> & Hq%elem_of_seq). cbn in *. exists (i' + q)%nat. split; [f_equal; lia|lia].
    - intros (q & -> & Hq). exists (q - i')%nat. cbn. split; [f_equal; lia|]. apply elem_of_seq. lia. }
  apply NoDup_submseteq.
  - apply NoDup_app. split; [apply NoDup_view|]. split; [|apply NoDup_view]. intros a. rewrite !Hin by lia.
    intros (q & -> & Hq) (q' & [= E] & Hq'). lia.
  - intros a. rewrite elem_of_app, !Hin by lia. unfold view_addrs. rewrite list_elem_of_fmap.
    intros [(q & -> & Hq)|(q & -> & Hq)]; exists q; (split; [done|]; apply elem_of_seq; lia).
Qed.

(** A step of the exchange without its key context. *)
Definition exchange_step (a : akeRef) (h : heap) (a' : akeRef) (av' : ake) (h' : heap) : Prop :=
  exchange_at h' a' av' /\ ar_keys a' = ar_keys a /\ local (exchange_addrs a) (exchange_addrs a') h h'.

(** New numbers and arrays [N] replace references of the exchange. *)
Lemma exchange_alloc h h' a av N : exchange_at h a av -> NoDup (exchange_addrs a) -> local [] N h h' ->
  exchange_at h' a av /\ local (exchange_addrs a) (N ++ exchange_addrs a) h h'.
Proof.
  intros He HD HL. destruct (local_alloc _ _ _ _ HL HD (exchange_at_present _ _ _ He)) as [W K]. split; [by eapply exchange_at_frame|done].
Qed.

Section ExchangeSpecs.
Context `{DHGroup} `{CryptoLaws}.

Lemma mem_setSecretExponent_spec h a av val : exchange_at h a av -> NoDup (exchange_addrs a) ->
  wp (mem_setSecretExponent a val) h (fun a' h' =>
    exchange_step a h a' (av <| ake_secretExponent := Some val |> <| ake_ourPublicValue := Some (modExp dh_g1 val) |>) h').
Proof.
  intros He HD. unfold mem_setSecretExponent. wp_spec newInt_spec. intros x h1 [Ix L1]. wp_run (load_int_run _ _ _ Ix).
  wp_spec newInt_spec. intros s h2 [Is L2]. wp_spec newInt_spec. intros p h3 [Ip L3].
  destruct (local_alloc _ _ _ _ L2 (proj1 (proj2 L1)) (int_at_present _ _ _ Ix)) as [W2 K2].
  pose proof (int_at_frame _ _ _ _ Ix K2) as Ix2.
  destruct (local_alloc _ _ _ _ L3 (proj1 (proj2 W2))) as [W3 K3]; [apply present_app; split; by eapply int_at_present|].
  rewrite kept_app in K3. destruct K3 as [K3s K3x]. pose proof (int_at_frame _ _ _ _ Ix2 K3x) as Ix3.
  wp_run (wipeBigInt_run _ _ (int_at_shaped _ _ _ Ix3)). apply wp_ret.
  assert (local (ptr_addrs p ++ ptr_addrs s ++ ptr_addrs x) (ptr_addrs p ++ ptr_addrs s) h3 (erase (ptr_addrs x) h3)) as W4
    by (apply local_erase; [solve_Permutation|by destruct W3 as (_ & ? & _)]).
  assert (kept (ptr_addrs p ++ ptr_addrs s) h3 (erase (ptr_addrs x) h3)) as K4
    by (apply kept_erase; destruct W3 as (_ & HD3 & _); by rewrite <- app_assoc).
  rewrite kept_app in K4. destruct K4 as [K4p K4s].
  assert (local [] (ptr_addrs p ++ ptr_addrs s) h (erase (ptr_addrs x) h3)) as L
    by (eapply local_trans; [exact L1|]; eapply local_trans; [exact W2|]; eapply local_trans; [exact W3|exact W4]).
  destruct (exchange_alloc _ _ _ _ _ He HD L) as [He' W]. split; [|split; [done|]].
  - destruct He'. constructor; try done; cbn; (eapply int_at_frame; [|eassumption]); [by eapply int_at_frame|done].
  - eapply (local_drop _ _ (ptr_addrs (ar_secretExponent a) ++ ptr_addrs (ar_ourPublicValue a))), local_perm; [|exact W].
    unfold exchange_addrs. rec_simpl. solve_Permutation.
Qed.

Lemma ExtractData_parts d rest data : ExtractData d = Some (rest, data) -> exists w, length w = 4%nat /\ d = w ++ data ++ rest.
Proof.
  unfold ExtractData, ExtractWord. destruct (Z.ltb_spec (len d) 4); [done|]. destruct (Z.ltb_spec (len (drop 4 d)) (DeserializeWord d)); [done|].
  intros [= <- <-]. exists (take 4 d). split; [rewrite length_take; unfold len in *; lia|]. by rewrite !take_drop.
Qed.

Lemma mem_processDHCommit_spec h a av msg m : exchange_at h a av -> NoDup (exchange_addrs a) -> dhCommit_deserialize msg = Ok m ->
  wp (mem_processDHCommit a msg) h (fun a' h' =>
    exchange_step a h a' (av <| ake_encryptedGx := dhc_encryptedGx m |> <| ake_xhashedGx := dhc_yhashedGx m |>) h').
Proof.
  intros He HD Em. unfold mem_processDHCommit. rewrite Em. wp_spec newBytes_spec. intros buf h' (Hb & L & Hl). apply wp_ret.
  unfold dhCommit_deserialize in Em. destruct (ExtractData msg) as [[rest gx]|] eqn:E1; [|done].
  destruct (ExtractData rest) as [[rest2 hg]|] eqn:E2; [|done]. injection Em as <-. cbn [dhc_encryptedGx dhc_yhashedGx].
  destruct (ExtractData_parts _ _ _ E1) as (w1 & Hw1 & ->). destruct (ExtractData_parts _ _ _ E2) as (w2 & Hw2 & ->).
  rewrite !length_app, Hw1, Hw2 in Hl.
  eapply local_sub in L; [|apply (subViews_apart buf 4 (4 + length gx) (8 + length gx) (8 + length gx + length hg)); lia].
  destruct (exchange_alloc _ _ _ _ _ He HD L) as [He' W]. split; [|split; [done|]].
  - destruct He'. constructor; try done; cbn [ar_encryptedGx ar_xhashedGx ake_encryptedGx ake_xhashedGx upd].
    + apply (bytes_at_mid h' buf w1 gx (w2 ++ hg ++ rest2)); lia || done.
    + apply (bytes_at_mid h' buf (w1 ++ gx ++ w2) hg rest2); rewrite ?length_app; try lia. by rewrite <- !app_assoc.
  - eapply (local_drop _ _ (view_addrs (ar_encryptedGx a) ++ view_addrs (ar_xhashedGx a))), local_perm; [|exact W].
    unfold exchange_addrs. rec_simpl. solve_Permutation.
Qed.
Ltac kept_by K := eapply kept_sub; [exact K|solve_in].

(** One more array beside the new addresses [N]. *)
Lemma newBytes_after N l h0 h : local [] N h0 h -> present N h ->
  wp (newBytes l) h (fun v h' => bytes_at h' v l /\ local [] (view_addrs v ++ N) h0 h' /\ present (view_addrs v ++ N) h' /\ kept N h h').
Proof.
  intros L P. eapply wp_mono; [apply newBytes_spec|]. intros v h' (Hb & L' & _).
  destruct (local_alloc _ _ _ _ L' (proj1 (proj2 L)) P) as [W K]. split_and!; [done|by eapply local_trans| |done].
  apply present_app. split; [unfold present; eapply shaped_present, bytes_at_shaped, Hb|by eapply present_kept].
Qed.

Lemma mem_calculateAKEKeys_spec h a av s v : exchange_at h a av -> NoDup (exchange_addrs a) ->
  wp (mem_calculateAKEKeys s v) h (fun ks h' =>
    exchange_step a h (a <| ar_revealKey := fst ks |> <| ar_sigKey := snd ks |>)
      (av <| ake_revealKey := snd (fst (calculateAKEKeys s v)) |> <| ake_sigKey := snd (calculateAKEKeys s v) |>) h').
Proof.
  intros He HD. unfold mem_calculateAKEKeys, calculateAKEKeys. cbn zeta. set (sb := AppendMPI [] s).
  wp_spec (newBytes_after [] (kdf 1 sb (hash2 v)) h h); [by apply local_refl, NoDup_nil_2|by intros ? ?%elem_of_nil|]. intros v1 h1 (B1 & L1 & P1 & _).
  wp_spec (newBytes_after _ (kdf 2 sb (hash2 v)) h h1 L1 P1). intros v2 h2 (B2 & L2 & P2 & K2).
  wp_spec (newBytes_after _ (kdf 3 sb (hash2 v)) h h2 L2 P2). intros v3 h3 (B3 & L3 & P3 & K3).
  wp_spec (newBytes_after _ (kdf 4 sb (hash2 v)) h h3 L3 P3). intros v4 h4 (B4 & L4 & P4 & K4).
  wp_spec (newBytes_after _ (kdf 5 sb (hash2 v)) h h4 L4 P4). intros v5 h5 (B5 & L5 & P5 & K5). apply wp_ret. cbn [fst snd].
  assert (length (kdf 1 sb (hash2 v)) = 32%nat) as H32 by apply hash2_length.
  pose proof (bytes_at_length _ _ _ B1) as Hl1. rewrite H32 in Hl1. rewrite Hl1.
  assert (bytes_at h5 v1 (kdf 1 sb (hash2 v))) as B1'.
  { eapply bytes_at_frame; [|kept_by K5]. eapply bytes_at_frame; [|kept_by K4]. eapply bytes_at_frame; [|kept_by K3].
    eapply bytes_at_frame; [exact B1|kept_by K2]. }
  assert (local [] ((view_addrs (subView v1 0 16) ++ view_addrs (subView v1 16 32)) ++ view_addrs v5 ++ view_addrs v4 ++ view_addrs v3 ++ view_addrs v2) h h5) as L.
  { eapply local_sub; [eapply local_perm; [|exact L5]|apply submseteq_app; [apply (subViews_apart v1 0 16 16 32); lia|reflexivity]].
    rewrite app_nil_r. solve_Permutation. }
  destruct (exchange_alloc _ _ _ _ _ He HD L) as [He' W]. split; [|split; [done|]].
  - destruct He'. constructor; try done; cbn [ar_revealKey ar_sigKey ake_revealKey ake_sigKey upd]; repeat split; cbn.
    + by apply (bytes_at_sub _ _ _ 0 16) in B1'; [|lia].
    + eapply bytes_at_frame; [|kept_by K5]. eapply bytes_at_frame; [|kept_by K4]. eapply bytes_at_frame; [exact B2|kept_by K3].
    + eapply bytes_at_frame; [|kept_by K5]. eapply bytes_at_frame; [exact B3|kept_by K4].
    + apply (bytes_at_sub _ _ _ 16 32) in B1'; [|lia]. rewrite take_ge in B1' by (rewrite length_drop; lia). done.
    + eapply bytes_at_frame; [exact B4|kept_by K5].
    + done.
  - eapply (local_drop _ _ (akeKeys_addrs (ar_revealKey a) ++ akeKeys_addrs (ar_sigKey a))), local_perm; [|exact W].
    unfold exchange_addrs. rec_simpl. unfold akeKeys_addrs at 3 4. cbn [akr_c akr_m1 akr_m2].
    repeat match goal with |- context [view_addrs ?x] => generalize (view_addrs x); intros ? end.
    generalize (akeKeys_addrs (ar_revealKey a)), (akeKeys_addrs (ar_sigKey a)). intros. solve_Permutation.
Qed.

Lemma mem_encryptedGx_spec h a av egx : exchange_at h a av -> NoDup (exchange_addrs a) ->
  wp (w ← newBytes egx; mret (a <| ar_encryptedGx := w |>)) h (fun a' h' => exchange_step a h a' (av <| ake_encryptedGx := egx |>) h').
Proof.
  intros He HD. wp_spec newBytes_spec. intros w h' (Hw & L & _). apply wp_ret.
  destruct (exchange_alloc _ _ _ _ _ He HD L) as [He' W]. split; [|split; [done|]].
  - destruct He'. by constructor.
  - eapply (local_drop _ _ (view_addrs (ar_encryptedGx a))), local_perm; [|exact W]. unfold exchange_addrs. rec_simpl. solve_Permutation.
Qed.

Lemma mem_theirValue_spec h a av gx : exchange_at h a av -> NoDup (exchange_addrs a) ->
  wp (p ← match gx with Some z => newInt z | None => mret None end; mret (a <| ar_theirPublicValue := p |>)) h (fun a' h' =>
    exchange_step a h a' (av <| ake_theirPublicValue := gx |>) h').
Proof.
  intros He HD. apply wp_bind.
  apply (wp_mono _ _ (fun p h' => int_at h' p gx /\ local [] (ptr_addrs p) h h')); [destruct gx; [apply newInt_spec|apply wp_ret; split; [done|apply local_refl, NoDup_nil_2]]|].
  intros p h' [Hp L]. apply wp_ret. destruct (exchange_alloc _ _ _ _ _ He HD L) as [He' W]. split; [|split; [done|]].
  - destruct He'. by constructor.
  - eapply (local_drop _ _ (ptr_addrs (ar_theirPublicValue a))), local_perm; [|exact W]. unfold exchange_addrs. rec_simpl. solve_Permutation.
Qed.

End ExchangeSpecs.

(** ** The refinement *)

Section Refinement.
Context `{DHGroup} `{CryptoLaws}.
Variable v : otrVersion.

(** The references of [m] denote the keys of the conversation [c], and no two
    of them share an address. *)
Record mem_ok (h : heap) (m : keyMemory) (c : Conversation) : Prop := {
  ok_version : c_version c = Some v;
  ok_Rand : km_Rand m = c_Rand c;
  ok_keys : keys_at h (km_keys m) (c_keys c);
  ok_ake : match km_ake m, c_ake c with Some a, Some av => ake_at h a av | None, None => True | _, _ => False end;
  ok_apart : NoDup (owned m) }.

Lemma ake_at_present h a av : ake_at h a av -> present (ake_addrs a) h.
Proof. intros [He Hk]. apply present_app. split; [by eapply exchange_at_present|by eapply keys_at_present]. Qed.

Lemma ake_at_frame h h' a av : ake_at h a av -> kept (ake_addrs a) h h' -> ake_at h' a av.
Proof. intros [He Hk] [K1 K2]%kept_app. split; [by eapply exchange_at_frame|by eapply keys_at_frame]. Qed.

(** A step of the session keys. *)
Lemma mem_ok_keys h h' m c k' kv' r c' : mem_ok h m c -> keys_step (km_keys m) h k' kv' h' ->
  c_version c' = Some v -> c_Rand c' = r -> c_keys c' = kv' -> c_ake c' = c_ake c -> mem_ok h' (KeyMemory k' (km_ake m) r) c'.
Proof.
  intros [Hv Hr Hk Ha HD] [Hk' L] Hv' <- <- Ea. unfold owned in HD.
  destruct (local_frame _ _ _ _ _ L HD) as [HD' K]; [destruct (km_ake m), (c_ake c); try done; [by eapply ake_at_present|by intros ? ?%elem_of_nil]|].
  constructor; try done. rewrite Ea. destruct (km_ake m), (c_ake c); try done. by eapply ake_at_frame.
Qed.

(** A step of the exchange. *)
Lemma mem_ok_ake h h' m c a a' av' c' : mem_ok h m c -> km_ake m = Some a -> ake_at h' a' av' -> local (ake_addrs a) (ake_addrs a') h h' ->
  c_version c' = Some v -> c_Rand c' = c_Rand c -> c_keys c' = c_keys c -> c_ake c' = Some av' -> mem_ok h' (m <| km_ake := Some a' |>) c'.
Proof.
  intros [Hv Hr Hk Ha HD] Ea Ha' L Hv' Er Ek Ea'. unfold owned in HD. rewrite Ea in HD. cbn in HD.
  rewrite Permutation_app_comm in HD. destruct (local_frame _ _ _ _ _ L HD) as [HD' K]; [by eapply keys_at_present|].
  constructor; [done|cbn; congruence|rewrite Ek; by eapply keys_at_frame|by rewrite Ea'|].
  unfold owned. cbn. by rewrite Permutation_app_comm.
Qed.

Lemma ake_step_exchange h h' a av a' av' : ake_at h a av -> NoDup (ake_addrs a) -> exchange_step a h a' av' h' -> ake_keys av' = ake_keys av ->
  ake_at h' a' av' /\ local (ake_addrs a) (ake_addrs a') h h'.
Proof.
  intros [He Hk] HD (He' & Ek & L) Ev. unfold ake_addrs in *. rewrite Ek.
  destruct (local_within _ _ (keys_addrs (ar_keys a)) (exchange_addrs a ++ keys_addrs (ar_keys a)) (exchange_addrs a' ++ keys_addrs (ar_keys a)) _ _
    (reflexivity _) (reflexivity _) L HD) as [W K]; [by eapply keys_at_present|].
  split; [|done]. split; [done|]. rewrite Ek, Ev. by eapply keys_at_frame.
Qed.

Lemma ake_step_keys h h' a av k' kv' : ake_at h a av -> NoDup (ake_addrs a) -> keys_step (ar_keys a) h k' kv' h' ->
  ake_at h' (a <| ar_keys := k' |>) (av <| ake_keys := kv' |>) /\ local (ake_addrs a) (ake_addrs (a <| ar_keys := k' |>)) h h'.
Proof.
  intros [He Hk] HD (Hk' & L).
  destruct (local_within (keys_addrs (ar_keys a)) (keys_addrs k') (exchange_addrs a) (ake_addrs a) (ake_addrs (a <| ar_keys := k' |>)) _ _
    ltac:(unfold ake_addrs; solve_Permutation) ltac:(unfold ake_addrs; cbn; solve_Permutation) L HD) as [W K]; [by eapply exchange_at_present|].
  split; [|done]. split; [|done]. apply (exchange_at_frame _ h') in He; [|done]. by destruct He.
Qed.

Lemma mem_ok_has_ake h m c av : mem_ok h m c -> c_ake c = Some av -> exists a, km_ake m = Some a /\ ake_at h a av /\ NoDup (ake_addrs a).
Proof.
  intros [_ _ _ Ha HD] Ea. rewrite Ea in Ha. unfold owned in HD. destruct (km_ake m) as [a|]; [|done].
  exists a. cbn in HD. apply NoDup_app in HD as (_ & _ & HD). done.
Qed.

Lemma NoDup_exchange a : NoDup (ake_addrs a) -> NoDup (exchange_addrs a).
Proof. unfold ake_addrs. by intros (? & _)%NoDup_app. Qed.

Definition keeps_keys (c c' : Conversation) : Prop := c_version c' = c_version c /\ c_Rand c' = c_Rand c /\ c_keys c' = c_keys c.

(** A step of the exchange that one function takes. *)
Lemma sim_exchange h m c c' f av av' : mem_ok h m c -> c_ake c = Some av -> keeps_keys c c' -> c_ake c' = Some av' -> ake_keys av' = ake_keys av ->
  (forall a, exchange_at h a av -> NoDup (exchange_addrs a) -> wp (f a) h (fun a' h' => exchange_step a h a' av' h')) ->
  wp (a ← mem_theAke m; a' ← f a; mret (m <| km_ake := Some a' |>)) h (fun m' h' => mem_ok h' m' c').
Proof.
  intros Hok Ea (E1 & E2 & E3) E4 Ek Hf. destruct (mem_ok_has_ake _ _ _ _ Hok Ea) as (a & Em & Ha & HD). unfold mem_theAke. rewrite Em.
  eapply wp_bind, wp_glift; [reflexivity|]. wp_spec (Hf a (proj1 Ha) (NoDup_exchange _ HD)). intros a' h' HS. apply wp_ret.
  destruct (ake_step_exchange _ _ _ _ _ _ Ha HD HS Ek) as [Ha' L]. eapply mem_ok_ake; try done. rewrite E1. apply Hok.
Qed.

Lemma sim_akeKeys h m c c' f av kv' : mem_ok h m c -> c_ake c = Some av -> c' = c <| c_ake := Some (av <| ake_keys := kv' |>) |> ->
  (forall a, ake_at h a av -> NoDup (ake_addrs a) -> wp (f a (ar_keys a)) h (fun k' h' => keys_step (ar_keys a) h k' kv' h')) ->
  wp (a ← mem_theAke m; a' ← (k ← f a (ar_keys a); mret (a <| ar_keys := k |>)); mret (m <| km_ake := Some a' |>)) h (fun m' h' => mem_ok h' m' c').
Proof.
  intros Hok Ea -> Hf. destruct (mem_ok_has_ake _ _ _ _ Hok Ea) as (a & Em & Ha & HD). unfold mem_theAke. rewrite Em.
  eapply wp_bind, wp_glift; [reflexivity|]. apply wp_bind. wp_spec (Hf a Ha HD). intros k' h' HS. apply wp_ret, wp_ret.
  destruct (ake_step_keys _ _ _ _ _ _ Ha HD HS) as [Ha' L]. by eapply mem_ok_ake; [done|done|done|done|apply Hok|..].
Qed.

Lemma sim_keys h m c c' f kv' : mem_ok h m c -> c' = c <| c_keys := kv' |> ->
  (forall k, keys_at h k (c_keys c) -> NoDup (keys_addrs k) -> wp (f k) h (fun k' h' => keys_step k h k' kv' h')) ->
  wp (k ← f (km_keys m); mret (m <| km_keys := k |>)) h (fun m' h' => mem_ok h' m' c').
Proof.
  intros Hok -> Hf. pose proof Hok as [Hv Hr Hk _ HD]. unfold owned in HD. apply NoDup_app in HD as (HD & _).
  wp_spec (Hf _ Hk HD). intros k' h' HS. apply wp_ret. change (m <| km_keys := k' |>) with (KeyMemory k' (km_ake m) (km_Rand m)).
  by eapply mem_ok_keys.
Qed.

(** What no longer is referred to. *)
Lemma no_keys_at h : keys_at h no_keysRef empty_keys.
Proof. by constructor. Qed.

Lemma wiped_at h av : ake_at h wiped_akeRef (ake_wipe av).
Proof. split; [|apply no_keys_at]. constructor; try done; by repeat split; constructor. Qed.

Lemma sim_wipeAKE h m c : mem_ok h m c ->
  wp (mem_step v OpWipeAKE m) h (fun m' h' => mem_ok h' m' (c <| c_ake := ake_wipe <$> c_ake c |>)).
Proof.
  intros Hok. pose proof Hok as [Hv Hr Hk Ha HD]. cbn [mem_step]. destruct (c_ake c) as [av|] eqn:Ea, (km_ake m) as [a|] eqn:Em; try done.
  - destruct (mem_ok_has_ake _ _ _ _ Hok Ea) as (a' & E' & _ & HDa). simplify_eq. destruct Ha as [He Hka].
    wp_run (mem_ake_wipe_run a true h (exchange_at_shaped _ _ _ He) (fun _ => keys_at_shaped _ _ _ Hka)). apply wp_ret.
    eapply mem_ok_ake; [done|done|apply (wiped_at _ av)| |done..]. by apply local_erase.
  - apply wp_ret. constructor; try done. rewrite Em. done.
Qed.

Lemma NoDup_owned_keys h m c : mem_ok h m c -> NoDup (keys_addrs (km_keys m)).
Proof. intros [_ _ _ _ HD]. by apply NoDup_app in HD as (? & _). Qed.

(** A step that drops the exchange. *)
Lemma mem_ok_drop h m c c' r : mem_ok h m c -> c_version c' = Some v -> c_Rand c' = r -> c_keys c' = c_keys c -> c_ake c' = None ->
  mem_ok h (KeyMemory (km_keys m) None r) c'.
Proof.
  intros Hok Hv <- Ek Ea. pose proof (NoDup_owned_keys _ _ _ Hok) as HD. constructor; try done; cbn; rewrite ?Ea; try done.
  - rewrite Ek. apply Hok.
  - unfold owned. cbn. by rewrite app_nil_r.
Qed.

(** The end of an exchange wipes the old session and the exchange, and works on
    with the keys of the exchange. *)
Lemma mem_akeHasFinished_run h m c a av : mem_ok h m c -> c_ake c = Some av -> km_ake m = Some a ->
  let h1 := erase (exchange_addrs a ++ keys_addrs (km_keys m)) h in
  mem_akeHasFinished m a h = ('(_, keys, r) ← mem_generateNewDHKeyPair (ar_keys a) (km_Rand m); mret (KeyMemory keys (Some wiped_akeRef) r)) h1 /\
  keys_at h1 (ar_keys a) (ake_keys av) /\ NoDup (keys_addrs (ar_keys a)) /\
  forall x, x ∈ exchange_addrs a ++ keys_addrs (km_keys m) -> x ∉ keys_addrs (ar_keys a).
Proof.
  intros Hok Ea Em h1. pose proof Hok as [_ _ Hk Ha HD]. rewrite Ea, Em in Ha. destruct Ha as [He Hka].
  unfold owned in HD. rewrite Em in HD. cbn in HD. unfold ake_addrs in HD.
  assert (NoDup (keys_addrs (ar_keys a) ++ exchange_addrs a ++ keys_addrs (km_keys m))) as HD'
    by (eapply NoDup_Permutation_proper; [|exact HD]; solve_Permutation).
  pose proof (kept_erase _ _ h HD') as K. apply NoDup_app in HD' as (HDk & Hd & _). split_and!; [|by eapply keys_at_frame|done|].
  - unfold mem_akeHasFinished. step_done (mem_keys_wipe_run _ _ (keys_at_shaped _ _ _ Hk)).
    assert (exchange_shaped a (erase (keys_addrs (km_keys m)) h)) as Hs by (destruct (exchange_at_shaped _ _ _ He); split; by apply shaped_erase).
    step_done (mem_ake_wipe_run a false _ Hs (fun E : false = true => ltac:(discriminate E))). by rewrite app_nil_r, erase_app.
  - intros x Hx Hx'. by eapply Hd.
Qed.

Lemma sim_hasFinished h m c av c' : mem_ok h m c -> c_ake c = Some av -> c_version c' = c_version c -> c_ake c' = Some (ake_wipe av) ->
  c_keys c' = snd (fst (generateNewDHKeyPair (ake_keys av) (c_Rand c))) -> c_Rand c' = snd (generateNewDHKeyPair (ake_keys av) (c_Rand c)) ->
  wp (mem_step v OpHasFinished m) h (fun m' h' => mem_ok h' m' c').
Proof.
  intros Hok Ea Ev Ea' Ek Er. pose proof Hok as [Hv Hr _ _ _]. destruct (mem_ok_has_ake _ _ _ _ Hok Ea) as (a & Em & _ & _).
  destruct (mem_akeHasFinished_run h m c a av Hok Ea Em) as (ER & Hka & HDk & _).
  cbn [mem_step]. unfold mem_theAke. rewrite Em. eapply wp_bind, wp_glift; [reflexivity|]. unfold wp. rewrite ER.
  match goal with |- context [(?f ≫= ?g) ?h1] => change (wp (f ≫= g) h1 (fun m' h' => mem_ok h' m' c')) end.
  wp_spec (mem_generateNewDHKeyPair_spec _ _ _ (km_Rand m) Hka HDk). rewrite Hr.
  intros [[e k'] r'] h'. destruct (generateNewDHKeyPair (ake_keys av) (c_Rand c)) as [[err kv'] rv']. cbn in Ek, Er |- *.
  intros (_ & -> & Hk' & L). apply wp_ret. constructor; cbn; rewrite ?Ea', ?Ek; try done; [congruence| |].
  - apply wiped_at.
  - unfold owned. cbn. rewrite app_nil_r. by destruct L as (_ & ? & _).
Qed.

(** The bytes of an erased slice. *)
Lemma bytes_at_erase h A w l : bytes_at h w l -> (forall a, a ∈ view_addrs w -> a ∈ A) -> bytes_at (erase A h) w (zeroes (length l)).
Proof.
  unfold bytes_at. generalize (view_addrs w) as B. intros B HF. induction HF as [|a b B l Ha _ IH]; intros HA; cbn; constructor.
  - rewrite erase_lookup, decide_True, Ha by (apply HA; set_solver). done.
  - apply IH. intros x Hx. apply HA. set_solver.
Qed.

Lemma Forall2_erase h A ws ls : Forall2 (bytes_at h) ws ls -> (forall a, a ∈ views_addrs ws -> a ∈ A) ->
  Forall2 (bytes_at (erase A h)) ws (map (fun key => zeroes (length key)) ls).
Proof.
  intros HF. unfold views_addrs. induction HF as [|w l ws ls Hw _ IH]; intros HA; cbn; constructor.
  - apply bytes_at_erase; [done|]. intros a Ha. apply HA. cbn. set_solver.
  - apply IH. intros a Ha. apply HA. cbn. set_solver.
Qed.

(** The references that are kept refer to the memory that is wiped. *)
Lemma mem_wipeAndKeepRevealKeys_spec h k kv : keys_at h k kv -> NoDup (keys_addrs k) ->
  wp (mem_wipeAndKeepRevealKeys k) h (fun k' h' => kr_oldMACKeys k' = kr_oldMACKeys k /\ keys_step k h k' (wipeAndKeepRevealKeys kv) h').
Proof.
  intros Hk HD. unfold mem_wipeAndKeepRevealKeys. wp_run (mem_keys_wipe_run _ _ (keys_at_shaped _ _ _ Hk)). apply wp_ret.
  split; [done|]. split.
  - constructor; try done. cbn. apply Forall2_erase; [apply Hk|]. unfold keys_addrs. set_solver.
  - split; [|split].
    + intros a w Ha Hw. by rewrite erase_lookup, decide_False.
    + unfold keys_addrs in *. cbn. rewrite !NoDup_app in HD. tauto.
    + intros a Ha. left. unfold keys_addrs in *. cbn in Ha. set_solver.
Qed.

Lemma local_erase_within A A' B h : NoDup A' -> (forall a, a ∈ A' -> a ∈ A) -> (forall a, a ∈ B -> a ∈ A) -> local A A' h (erase B h).
Proof.
  intros HD H1' H2. split; [|split; [done|by left; apply H1']].
  intros a w Ha Hw. rewrite erase_lookup, decide_False; [done|]. intros Hb. by apply Ha, H2.
Qed.

Lemma int_at_erase h A p o : int_at h p o -> (forall a, a ∈ ptr_addrs p -> a ∈ A) -> int_at (erase A h) p ((fun _ => 0) <$> o).
Proof.
  unfold int_at. destruct p as [a|], o as [z|]; try done. cbn. intros Ha HA. rewrite erase_lookup, decide_True, Ha by (apply HA; set_solver). done.
Qed.

Lemma mem_wipeSessionKeys_run h k : shaped KInt (dh_addrs k) h ->
  mem_wipeSessionKeys k h = Done (k <| kr_ourCurrentDHKeys := no_pairRef |> <| kr_ourPreviousDHKeys := no_pairRef |>,
    erase (ptr_addrs (kr_theirCurrentDHPubKey k) ++ pair_addrs (kr_ourPreviousDHKeys k) ++ pair_addrs (kr_ourCurrentDHKeys k)) h).
Proof.
  unfold dh_addrs. rewrite !shaped_app. intros (S1 & S2 & S3 & _). unfold mem_wipeSessionKeys. step_done (dhKeyPair_wipe_run _ _ S1).
  step_done (dhKeyPair_wipe_run _ _ (shaped_erase _ _ (pair_addrs (kr_ourCurrentDHKeys k)) _ S2)).
  apply (shaped_erase _ _ (pair_addrs (kr_ourPreviousDHKeys k) ++ pair_addrs (kr_ourCurrentDHKeys k))) in S3. rewrite <- erase_app in S3.
  step_done (wipeBigInt_run _ _ S3). by rewrite !erase_app, <- app_assoc.
Qed.

Lemma mem_wipeSessionKeys_spec h k kv : keys_at h k kv -> NoDup (keys_addrs k) ->
  wp (mem_wipeSessionKeys k) h (fun k' h' =>
    keys_step k h k' (kv <| ourCurrentDHKeys := no_keys |> <| ourPreviousDHKeys := no_keys |>
                         <| theirCurrentDHPubKey := (fun _ => 0) <$> theirCurrentDHPubKey kv |>) h').
Proof.
  intros Hk HD. pose proof Hk as [Hid Htid Hcur Hprev Htc Htp _ _ _]. destruct (keys_at_shaped _ _ _ Hk) as (Hs & _).
  unfold wp. rewrite (mem_wipeSessionKeys_run h k Hs). pose proof (NoDup_dh _ HD) as HDd.
  eapply step_dh; try done; cbn.
  - apply int_at_erase; [done|]. intros a Ha. apply elem_of_app. by left.
  - eapply int_at_frame; [done|]. apply kept_erase. eapply NoDup_Permutation_proper; [|exact HDd]. unfold dh_addrs. solve_Permutation.
  - unfold dh_addrs in *. cbn. apply local_erase_within; [rewrite !NoDup_app in HDd; rewrite NoDup_app; tauto| |]; set_solver.
Qed.

Lemma sim_keepRevealKeys h m c c' av : mem_ok h m c -> c_ake c = Some av -> keeps_keys c c' ->
  c_ake c' = Some (wipeGX (av <| ake_keys := wipeAndKeepRevealKeys (ake_keys av) |>)) ->
  wp (mem_step v OpKeepRevealKeys m) h (fun m' h' => mem_ok h' m' c').
Proof.
  intros Hok Ea (E1 & E2 & E3) E4. destruct (mem_ok_has_ake _ _ _ _ Hok Ea) as (a & Em & Ha & HD). cbn [mem_step]. unfold mem_theAke. rewrite Em.
  eapply wp_bind, wp_glift; [reflexivity|]. pose proof Ha as [He Hk]. pose proof HD as HDk. apply NoDup_app in HDk as (_ & _ & HDk).
  apply wp_bind. wp_spec (mem_wipeAndKeepRevealKeys_spec _ _ _ Hk HDk). intros k' h1 [_ HS].
  destruct (ake_step_keys _ _ _ _ _ _ Ha HD HS) as [Ha1 L]. set (a1 := a <| ar_keys := k' |>) in *. pose proof Ha1 as [He1 Hk1].
  assert (shaped KByte (view_addrs (ar_encryptedGx a1) ++ view_addrs (ar_xhashedGx a1)) h1) as Hs
    by (destruct (exchange_at_shaped _ _ _ He1) as [_ Hs]; rewrite app_assoc, shaped_app in Hs; apply Hs).
  unfold wp at 1. rewrite (mem_wipeGX_run a1 h1 Hs). apply wp_ret.
  assert (NoDup (ake_addrs a1)) as HD1 by apply L. set (a2 := a1 <| ar_xhashedGx := no_view |> <| ar_encryptedGx := no_view |>).
  assert (kept (ake_addrs a2) h1 (erase (view_addrs (ar_encryptedGx a1) ++ view_addrs (ar_xhashedGx a1)) h1)) as K.
  { apply kept_erase. eapply NoDup_Permutation_proper; [|exact HD1]. unfold ake_addrs, exchange_addrs, a2. rec_simpl. cbn. solve_Permutation. }
  eapply (mem_ok_ake h _ m c a a2); [done|done| | |rewrite E1; apply Hok|done..].
  - unfold ake_addrs in K. apply kept_app in K as [K1 K2]. split; [|by eapply keys_at_frame].
    destruct He1 as [? ? ? ? _ _ ? ?]. unfold exchange_addrs in K1. rewrite !kept_app in K1. destruct K1 as (? & ? & ? & _ & _ & ? & ?).
    constructor; cbn; try done; try (by eapply int_at_frame); try (by eapply akeKeys_at_frame); by constructor.
  - eapply local_trans; [exact L|]. eapply local_erase; [|exact HD1]. unfold ake_addrs, exchange_addrs, a2. rec_simpl. cbn. solve_Permutation.
Qed.

Lemma processDisconnectedTLV_keys c : wlp processDisconnectedTLV c (fun _ c' =>
  c_version c' = c_version c /\ c_Rand c' = c_Rand c /\ c_keys c' = empty_keys /\ c_ake c' = None).
Proof.
  unfold processDisconnectedTLV, smp_wipe, signalSecurityEventIf, securityEvent. do 8 wlp_step.
  apply wlp_bind, wlp_logEvent. intros evs. by apply wlp_ret.
Qed.

Lemma theAke_None c : c_ake c = None -> theAke c = Panicked NilDeref.
Proof. intros Ea. unfold theAke. rewrite bind_gget. by rewrite Ea. Qed.

Lemma modAke_done f c c' : modAke f c = Done (tt, c') -> exists av, c_ake c = Some av /\ c' = c <| c_ake := Some (f av) |>.
Proof.
  destruct (c_ake c) as [av|] eqn:Ea.
  - rewrite (modAke_Some f c av Ea). intros [= <-]. by exists av.
  - unfold modAke, mbind, gom_bind. by rewrite (theAke_None c Ea).
Qed.

(** The step is one of [f], with the result left out. *)
Lemma void_done {A B} (f : M A) (b b' : B) c c' : (_ ← f; mret b) c = Done (b', c') -> exists r, f c = Done (r, c').
Proof. unfold mbind, gom_bind. destruct (f c) as [[r d]|]; [|done]. intros [= _ <-]. by exists r. Qed.

(** The keys of the exchange lie apart from the values [B] of the exchange. *)
Lemma NoDup_keys_values a B R : NoDup (ake_addrs a) -> exchange_addrs a ≡ₚ B ++ R -> NoDup (keys_addrs (ar_keys a) ++ B).
Proof.
  unfold ake_addrs. intros HD HP. rewrite HP, Permutation_app_comm, app_assoc in HD. by apply NoDup_app in HD as (? & _).
Qed.

Lemma sim_storeTheirKey h m c c' : mem_ok h m c -> conv_step OpStoreTheirKey c = Done (tt, c') ->
  wp (mem_step v OpStoreTheirKey m) h (fun m' h' => mem_ok h' m' c').
Proof.
  intros Hok E. cbn [conv_step] in E. unfold storeTheirKey in E. destruct (c_ake c) as [av|] eqn:Ea; [|unfold mbind, gom_bind in E; by rewrite (theAke_None c Ea) in E].
  rewrite (bind_done _ _ _ _ _ (theAke_Some c av Ea)) in E. unfold setTheirCurrentDHPubKey in E.
  destruct (ake_theirPublicValue av) as [z|] eqn:Ez; [|done]. rewrite (bind_glift _ ((ake_keys av) <| theirCurrentDHPubKey := Some z |>)) in E by done.
  rewrite (modAkeKeys_Some _ c av Ea) in E.
  eapply (sim_akeKeys h m c c' (fun a k => mem_setTheirCurrentDHPubKey k (ar_theirPublicValue a)) av); [done|done|by injection E as <-|].
  intros a [He Hk] HD. apply mem_setTheirCurrentDHPubKey_spec; [done| |destruct He; congruence].
  eapply NoDup_keys_values; [done|]. unfold exchange_addrs. rewrite (app_assoc (ptr_addrs (ar_secretExponent a))).
  rewrite Permutation_app_swap_app. reflexivity.
Qed.

Lemma sim_storeOurKeys h m c c' : mem_ok h m c -> conv_step OpStoreOurKeys c = Done (tt, c') ->
  wp (mem_step v OpStoreOurKeys m) h (fun m' h' => mem_ok h' m' c').
Proof.
  intros Hok E. cbn [conv_step] in E. unfold storeOurKeys in E. destruct (c_ake c) as [av|] eqn:Ea; [|unfold mbind, gom_bind in E; by rewrite (theAke_None c Ea) in E].
  rewrite (bind_done _ _ _ _ _ (theAke_Some c av Ea)) in E. unfold setOurCurrentDHKeys in E.
  destruct (ake_secretExponent av) as [x|] eqn:Ex; [|done]. destruct (ake_ourPublicValue av) as [gx|] eqn:Eg; [|done].
  rewrite (bind_glift _ ((ake_keys av) <| ourCurrentDHKeys := DhKeyPair (Some gx) (Some x) |>)) in E by done.
  rewrite (modAkeKeys_Some _ c av Ea) in E.
  eapply (sim_akeKeys h m c c' (fun a k => mem_setOurCurrentDHKeys k (ar_secretExponent a) (ar_ourPublicValue a)) av); [done|done|by injection E as <-|].
  intros a [He Hk] HD. apply mem_setOurCurrentDHKeys_spec; [done| |destruct He; congruence..].
  eapply NoDup_keys_values; [done|]. unfold exchange_addrs. by rewrite app_assoc.
Qed.

(** The steps that work on the exchange. *)
Definition ake_op (o : keyOp) : bool :=
  match o with
  | OpInitAKE | OpSetSecretExponent _ | OpRandomR _ | OpEncryptedGx _ | OpWipeAKE | OpForgetAKE | OpProcessDHCommit _ | OpTheirPublicValue _ | OpCalcAKEKeys _
  | OpStoreTheirKey | OpStoreOurKeys | OpKeyIDs _ _ | OpKeepRevealKeys | OpHasFinished => true
  | _ => false
  end.

Lemma sim_ake_op o h m c c' : ake_op o = true -> mem_ok h m c -> conv_step o c = Done (tt, c') -> wp (mem_step v o m) h (fun m' h' => mem_ok h' m' c').
Proof.
  intros Ho Hok E. pose proof (ok_version _ _ _ Hok) as Hv. destruct o; try discriminate Ho; clear Ho; cbn [conv_step] in E.
  - injection E as <-. pose proof Hok as [? ? ? ? HD]. apply wp_ret. constructor; try done; cbn.
    + split; [|apply no_keys_at]. by constructor; try done; repeat split; constructor.
    + pose proof (NoDup_owned_keys _ _ _ Hok). unfold owned. cbn. by rewrite app_nil_r.
  - apply modAke_done in E as (av & Ea & ->).
    by eapply (sim_exchange h m c _ (fun a => mem_setSecretExponent a val)); [done|done|done|done|done|]; intros; apply mem_setSecretExponent_spec.
  - apply modAke_done in E as (av & Ea & ->). eapply (sim_exchange h m c _ (fun a => mret (a <| ar_r := r |>))); [done|done|done|done|done|].
    intros a He HD. apply wp_ret. split; [by destruct He; constructor|]. split; [done|]. by apply local_refl.
  - apply modAke_done in E as (av & Ea & ->).
    by eapply (sim_exchange h m c _ (fun a => w ← newBytes egx; mret (a <| ar_encryptedGx := w |>))); [done|done|done|done|done|];
      intros; apply mem_encryptedGx_spec.
  - injection E as <-. by apply sim_wipeAKE.
  - injection E as <-. apply wp_ret. by eapply mem_ok_drop; [done|apply Hok|symmetry; apply Hok|..].
  - unfold processDHCommit in E. cbn [mem_step]. destruct (dhCommit_deserialize msg) as [d|] eqn:Ed; [|by injection E as <-; apply wp_ret].
    apply void_done in E as [r E]. apply void_done in E as [[] E]. apply modAke_done in E as (av & Ea & ->).
    by eapply (sim_exchange h m c _ (fun a => mem_processDHCommit a msg)); [done|done|done|done|done|]; intros; apply mem_processDHCommit_spec.
  - apply modAke_done in E as (av & Ea & ->).
    by eapply (sim_exchange h m c _ (fun a => p ← _; mret (a <| ar_theirPublicValue := p |>))); [done|done|done|done|done|]; intros; apply mem_theirValue_spec.
  - unfold calcAKEKeys in E. rewrite (bind_done _ _ _ v c) in E by (unfold theVersion; rewrite bind_gget, Hv; done).
    destruct (calculateAKEKeys s v) as [[ssid rk] sk] eqn:Ek. rewrite bind_gmod in E. apply modAke_done in E as (av & Ea & ->).
    eapply (sim_exchange h m c _ (fun a => ks ← mem_calculateAKEKeys s v; mret (a <| ar_revealKey := fst ks |> <| ar_sigKey := snd ks |>)));
      [done|exact Ea|done|done|done|].
    intros a He HD. wp_spec (mem_calculateAKEKeys_spec _ _ _ s v He HD). intros ks h'. rewrite Ek. intros HS. by apply wp_ret.
  - by eapply sim_storeTheirKey.
  - by eapply sim_storeOurKeys.
  - apply modAke_done in E as (av & Ea & ->).
    eapply (sim_akeKeys h m c _ (fun _ k => mret (k <| kr_ourKeyID := our |> <| kr_theirKeyID := their |>))); [done|done|done|].
    intros a [He Hk] HD. apply wp_ret. apply NoDup_app in HD as (_ & _ & HD). split; [|by apply local_refl]. by destruct Hk.
  - unfold mbind, gom_bind in E. destruct (modAkeKeys _ c) as [[[] d]|] eqn:E1; [|done]. apply modAke_done in E1 as (av & Ea & ->).
    apply modAke_done in E as (av1 & Ea1 & ->). injection Ea1 as <-. by eapply sim_keepRevealKeys.
  - apply void_done in E as [r E]. destruct (c_ake c) as [av|] eqn:Ea.
    + destruct (wlp_use _ _ _ _ _ (akeHasFinished_keys c av Ea) E) as (? & ? & ? & ?). by eapply sim_hasFinished.
    + unfold akeHasFinished, mbind, gom_bind in E. by rewrite (theAke_None c Ea) in E.
Qed.

(** A step of the code on the values is a step on the memory. *)
Lemma mem_step_sim o h m c c' : mem_ok h m c -> conv_step o c = Done (tt, c') -> wp (mem_step v o m) h (fun m' h' => mem_ok h' m' c').
Proof.
  intros Hok E. destruct (ake_op o) eqn:Ho; [by eapply sim_ake_op|]. pose proof Hok as [Hv Hr Hk Ha _].
  pose proof (NoDup_owned_keys _ _ _ Hok) as HDk.
  destruct o; try discriminate Ho; clear Ho; cbn [conv_step] in E.
  - apply void_done in E as [r E]. unfold conv_sessionKeys in E. destruct (sessionKeysFor _ _ _ _) as [[r' k']|] eqn:Es; [|done].
    eapply (sim_keys h m c _ (fun k => r ← mem_sessionKeysFor k our their v0; mret (snd r))); [done|by injection E as _ <-|].
    intros k Hk' HD. wp_spec (mem_sessionKeysFor_spec _ _ _ _ _ _ _ _ Hk' HD Es). intros x h' [_ HS]. by apply wp_ret.
  - apply void_done in E as [r E]. unfold conv_takeOurCounter in E. destruct (takeOurCounter _ _ _) as [ctr k'] eqn:Es.
    eapply (sim_keys h m c _ (fun k => r ← mem_takeOurCounter k our their; mret (snd r))); [done|by injection E as _ <-|].
    intros k Hk' HD. wp_spec (mem_takeOurCounter_spec _ _ _ our their Hk' HD). intros x h' [_ HS]. apply wp_ret. by rewrite Es in HS.
  - apply void_done in E as [r E]. injection E as _ <-.
    eapply (sim_keys h m c _ (fun k => mret (k <| kr_oldMACKeys := [] |>))); [done|done|]. intros k Hk' HD. apply wp_ret.
    split; [by destruct Hk'; constructor|]. apply (local_drop _ _ (views_addrs (kr_oldMACKeys k))).
    eapply local_perm; [|by apply local_refl]. unfold keys_addrs. cbn. rewrite app_nil_r, !app_assoc. done.
  - apply void_done in E as [r E]. unfold conv_checkMessageCounter in E. destruct (checkMessageCounter _ _ _ _) as [e k'] eqn:Es.
    eapply (sim_keys h m c _ (fun k => r ← mem_checkMessageCounter k _ _ _; mret (snd r))); [done|by injection E as _ <-|].
    intros k Hk' HD. wp_spec (mem_checkMessageCounter_spec _ _ _ (dm_recipientKeyID m0) (dm_senderKeyID m0) (be_decode (dm_topHalfCtr m0)) Hk' HD). intros x h'. rewrite Es. intros [_ HS]. by apply wp_ret.
  - apply void_done in E as [r E]. unfold conv_rotateKeys in E.
    destruct (mem_rotateKeys_spec h (km_keys m) (c_keys c) (dm_recipientKeyID m0) (dm_senderKeyID m0) (dm_y m0) (km_Rand m) Hk HDk) as (err & kv' & r' & Er & HW).
    rewrite <- Hr, Er in E. cbn [mem_step]. apply wp_bind. eapply wp_mono; [exact HW|].
    intros [[e k'] rr] h' (_ & E2 & HS). apply wp_ret. cbn in E2, HS. injection E as _ <-.
    change (m <| km_keys := k' |> <| km_Rand := rr |>) with (KeyMemory k' (km_ake m) rr). by eapply mem_ok_keys.
  - injection E as <-. cbn [mem_step]. wp_spec (mem_wipeSessionKeys_spec _ _ _ Hk HDk). intros k' h' HS. apply wp_ret.
    assert (mem_ok h (KeyMemory (km_keys m) None (km_Rand m)) (c <| c_ake := None |>)) as Hok' by (by eapply mem_ok_drop).
    eapply (mem_ok_keys h h' (KeyMemory (km_keys m) None (km_Rand m)) (c <| c_ake := None |>)); [exact Hok'|exact HS|done|by symmetry|done..].
  - apply void_done in E as [r E]. destruct (wlp_use _ _ _ _ _ (processDisconnectedTLV_keys c) E) as (E1 & E2 & E3 & E4).
    apply wp_ret. constructor; cbn; [congruence|congruence|rewrite E3; apply no_keys_at|by rewrite E4|apply NoDup_nil_2].
  - apply void_done in E as [r E]. unfold conv_randomInto, withRand in E. destruct (randomInto (c_Rand c) n) as [res rest] eqn:Er.
    injection E as _ <-. apply wp_ret. constructor; try done; [|apply Hok]. cbn. by rewrite Hr, Er.
Qed.

Lemma mem_steps_sim ops h m c c' : mem_ok h m c -> conv_steps ops c = Done (tt, c') ->
  wp (mem_steps v ops m) h (fun m' h' => mem_ok h' m' c').
Proof.
  revert h m c. induction ops as [|o ops IH]; intros h m c Hok E; cbn [conv_steps mem_steps] in *.
  - injection E as <-. by apply wp_ret.
  - unfold mbind, gom_bind in E. destruct (conv_step o c) as [[[] c1]|] eqn:E1; [|done].
    wp_spec (mem_step_sim o h m c c1 Hok E1). intros m1 h1 Hok1. by eapply IH.
Qed.

(** ** What a step wipes *)

(** The addresses at which nothing but zeroes is left. *)
Definition zeroed (A : list addr) (h : heap) : Prop := forall a, a ∈ A -> exists w, h !! a = Some (zero_word w).

(** The addresses a step wipes: of an exchange, all of them; of the session that
    a new one replaces, all of them; of a session that ends, those of the
    Diffie-Hellman keys; of a rotation of our keys, those of the previous pair. *)
Definition wiped_by (o : keyOp) (m : keyMemory) : list addr :=
  match o, km_ake m with
  | OpWipeAKE, Some a => ake_addrs a
  | OpKeepRevealKeys, Some a => keys_addrs (ar_keys a)
  | OpHasFinished, Some a => keys_addrs (km_keys m) ++ exchange_addrs a
  | OpEnd, _ =>
      pair_addrs (kr_ourCurrentDHKeys (km_keys m)) ++ pair_addrs (kr_ourPreviousDHKeys (km_keys m)) ++ ptr_addrs (kr_theirCurrentDHPubKey (km_keys m))
  | OpRotateKeys dm, _ =>
      if dm_recipientKeyID dm =? kr_ourKeyID (km_keys m) then
        match fst (randSizedMPI (km_Rand m) 40) with Ok _ => pair_addrs (kr_ourPreviousDHKeys (km_keys m)) | Err _ => [] end
      else []
  | _, _ => []
  end.

Lemma zeroed_erase A B h : present A h -> (forall a, a ∈ A -> a ∈ B) -> zeroed A (erase B h).
Proof. intros HP HB a Ha. rewrite erase_lookup, decide_True by auto. destruct (HP a Ha) as [w ->]. by exists w. Qed.

Lemma zeroed_local A B B' h h' : zeroed A h -> local B B' h h' -> (forall a, a ∈ A -> a ∉ B) -> zeroed A h'.
Proof. intros HZ (K & _) Hd a Ha. destruct (HZ a Ha) as [w Hw]. exists w. apply K; auto. Qed.

Lemma mem_generateNewDHKeyPair_erases k r h priv : shaped KInt (pair_addrs (kr_ourPreviousDHKeys k)) h -> fst (randSizedMPI r 40) = Ok priv ->
  wlp (mem_generateNewDHKeyPair k r) h (fun x h' => x.1.1 = None /\ zeroed (pair_addrs (kr_ourPreviousDHKeys k)) h').
Proof.
  intros Hs Hr. unfold mem_generateNewDHKeyPair. destruct (randSizedMPI r 40) as [res r']. cbn in Hr. subst res.
  pose proof (shaped_present _ _ _ Hs) as HP. set (A := pair_addrs (kr_ourPreviousDHKeys k)) in *.
  pose proof (newInt_spec priv h) as HN. apply wp_inv in HN as (p1 & h1 & EN & _ & (K1 & _)). apply wlp_bind. unfold wlp at 1. rewrite EN.
  assert (kept A h h1) as KA by (intros a Ha; destruct (HP a Ha) as [w Hw]; rewrite Hw; apply K1; [set_solver|done]).
  assert (shaped KInt A h1) as Hs1 by (intros a Ha; rewrite KA by done; auto).
  apply wlp_bind. unfold wlp at 1. rewrite (dhKeyPair_wipe_run _ _ Hs1). fold A.
  pose proof (newInt_spec (modExp dh_g1 priv) (erase A h1)) as HN. apply wp_inv in HN as (p2 & h2 & EN2 & _ & L2).
  apply wlp_bind. unfold wlp at 1. rewrite EN2. apply wlp_ret. split; [done|]. eapply zeroed_local; [|exact L2|set_solver].
  apply zeroed_erase; [|done]. intros a Ha. rewrite KA by done. auto.
Qed.

Lemma mem_rotateKeys_erases h k kv recipient sender y r priv : keys_at h k kv -> NoDup (keys_addrs k) ->
  recipient = kr_ourKeyID k -> fst (randSizedMPI r 40) = Ok priv ->
  wlp (mem_rotateKeys k recipient sender y r) h (fun _ h' => zeroed (pair_addrs (kr_ourPreviousDHKeys k)) h').
Proof.
  intros Hk HD -> Hr. unfold mem_rotateKeys, mem_rotateOurKeys. rewrite Z.eqb_refl.
  pose proof (newInt_spec y h) as HN. apply wp_inv in HN as (p & h0 & EN & _ & L0). apply wlp_bind. unfold wlp at 1. rewrite EN.
  destruct (local_alloc _ _ _ _ L0 HD (keys_at_present _ _ _ Hk)) as [_ K0].
  destruct (keys_at_shaped _ _ _ (keys_at_frame _ _ _ _ Hk K0)) as (Hs & _).
  apply wlp_bind. unfold mem_revealMACKeysForOurPreviousKeyID. apply wlp_bind, wlp_bind, wlp_glift. intros [keys items] _. apply wlp_ret.
  set (k1 := k <| kr_macKeyHistory := items |> <| kr_oldMACKeys := kr_oldMACKeys k ++ keys |>).
  assert (shaped KInt (pair_addrs (kr_ourPreviousDHKeys k1)) h0) as Hs1 by (intros a Ha; apply Hs; unfold dh_addrs; cbn in Ha; set_solver).
  eapply wlp_mono; [exact (mem_generateNewDHKeyPair_erases k1 r h0 priv Hs1 Hr)|]. intros [[err k2] r2] h2 [Herr HZ]. cbn in Herr. subst err.
  cbn iota. unfold mem_rotateTheirKey. apply wlp_bind. destruct (_ =? _); [|by repeat apply wlp_ret].
  unfold mem_revealMACKeysForTheirPreviousKeyID. apply wlp_bind, wlp_bind, wlp_glift. intros [keys' items'] _. by repeat apply wlp_ret.
Qed.

(** Every word a step wipes holds zero after it. *)
Lemma mem_step_erases o h m c : mem_ok h m c -> wlp (mem_step v o m) h (fun _ h' => zeroed (wiped_by o m) h').
Proof.
  intros Hok. pose proof Hok as [Hv Hr Hk Ha _]. pose proof (NoDup_owned_keys _ _ _ Hok) as HDk.
  assert (forall f, wlp f h (fun (_ : keyMemory) h' => zeroed [] h')) as Hnil by (intros f; apply wlp_any; by intros ? ? ? ?%elem_of_nil).
  unfold wiped_by. destruct o; try (destruct (km_ake m); apply Hnil); cbn [mem_step].
  - destruct (km_ake m) as [a|] eqn:Em; [|apply Hnil]. destruct (c_ake c) as [av|]; [|done]. destruct Ha as [He Hka]. apply wlp_bind. unfold wlp at 1.
    rewrite (mem_ake_wipe_run a true h (exchange_at_shaped _ _ _ He) (fun _ => keys_at_shaped _ _ _ Hka)). apply wlp_ret.
    apply zeroed_erase; [|done]. by apply (ake_at_present h a av).
  - destruct (km_ake m) as [a|] eqn:Em; [|apply Hnil]. destruct (c_ake c) as [av|]; [|done]. destruct Ha as [He Hka].
    unfold mem_theAke. rewrite Em. apply wlp_bind, wlp_glift. intros ? [= <-]. apply wlp_bind, wlp_bind.
    unfold mem_wipeAndKeepRevealKeys. apply wlp_bind. unfold wlp at 1. rewrite (mem_keys_wipe_run _ _ (keys_at_shaped _ _ _ Hka)). apply wlp_ret.
    set (a1 := a <| ar_keys := _ |>). destruct (exchange_at_shaped _ _ _ He) as [_ Hs]. rewrite app_assoc, shaped_app in Hs. destruct Hs as [Hs _].
    unfold wlp at 1. rewrite (mem_wipeGX_run a1 _ (shaped_erase _ _ (keys_addrs (ar_keys a)) _ Hs)). apply wlp_ret. rewrite erase_app.
    apply zeroed_erase; [by eapply keys_at_present|]. intros x Hx. apply elem_of_app. by right.
  - destruct (km_ake m) as [a|] eqn:Em; [|apply Hnil]. destruct (c_ake c) as [av|] eqn:Ea; [|done]. destruct Ha as [He Hka].
    unfold mem_theAke. rewrite Em. apply wlp_bind, wlp_glift. intros ? [= <-].
    destruct (mem_akeHasFinished_run h m c a av Hok Ea Em) as (ER & Hk1 & HD1 & Hd). unfold wlp. rewrite ER.
    pose proof (mem_generateNewDHKeyPair_spec _ _ _ (km_Rand m) Hk1 HD1) as HG. apply wp_inv in HG as ([[e k'] r'] & h' & EG & HG).
    rewrite (bind_done _ _ _ _ _ EG). cbn. destruct (generateNewDHKeyPair _ _) as [[err kv'] rv']. destruct HG as (_ & _ & _ & L).
    eapply zeroed_local; [|exact L|by intros x Hx; apply Hd; rewrite elem_of_app in *; tauto]. apply zeroed_erase.
    + apply present_app. split; [by eapply keys_at_present|by eapply exchange_at_present].
    + intros x. rewrite !elem_of_app. tauto.
  - destruct (_ =? _) eqn:Eid; [|destruct (km_ake m); apply Hnil]. destruct (fst _) as [priv|] eqn:Er; [|destruct (km_ake m); apply Hnil].
    apply Z.eqb_eq in Eid. apply wlp_bind. eapply wlp_mono; [by eapply mem_rotateKeys_erases|]. intros [[e k'] r'] h' HZ.
    apply wlp_ret. by destruct (km_ake m).
  - destruct (keys_at_shaped _ _ _ Hk) as (Hs & _). apply wlp_bind. unfold wlp at 1. rewrite (mem_wipeSessionKeys_run h _ Hs). apply wlp_ret.
    set (P1 := pair_addrs _). set (P2 := pair_addrs _). set (T := ptr_addrs _).
    assert (zeroed (P1 ++ P2 ++ T) (erase (T ++ P2 ++ P1) h)) as HZ; [|by destruct (km_ake m)].
    apply zeroed_erase; [|by intros x; rewrite !elem_of_app; tauto]. eapply present_sub; [by eapply dh_present|]. unfold dh_addrs. solve_in.
Qed.

End Refinement.

(** The secret exponents a step stops referring to: being disconnected replaces
    both contexts, ending the conversation forgets the pending exchange. *)
Definition dropped_secrets (o : keyOp) (c : Conversation) : list Z :=
  let pending := option_list (c_ake c ≫= ake_secretExponent) in
  match o with
  | OpDisconnected => option_list (kp_priv (ourCurrentDHKeys (c_keys c))) ++ option_list (kp_priv (ourPreviousDHKeys (c_keys c))) ++ pending
  | OpEnd => pending
  | _ => []
  end.

Section Dropped.
Context `{DHGroup} `{CryptoLaws}.

(** The exponent of an exchange is apart from the keys of the session. *)
Lemma exchange_secret_apart v h m c a av x : mem_ok v h m c -> km_ake m = Some a -> c_ake c = Some av -> ake_secretExponent av = Some x ->
  exists b, b ∈ owned m /\ b ∉ keys_addrs (km_keys m) /\ h !! b = Some (WInt x).
Proof.
  intros [_ _ _ Ha HD] Em Ea Hx. rewrite Em, Ea in Ha. destruct Ha as [[Hs _ _ _ _ _ _ _] _]. rewrite Hx in Hs.
  unfold owned in *. rewrite Em in *. cbn in *. destruct (ar_secretExponent a) as [b|] eqn:Eb; [|done]. exists (b, 0%nat).
  assert ((b, 0%nat) ∈ ake_addrs a) as Hin by (unfold ake_addrs, exchange_addrs; rewrite Eb; apply elem_of_app; left; apply elem_of_app; left; apply list_elem_of_singleton; reflexivity).
  apply NoDup_app in HD as (_ & Hd & _). split_and!; [apply elem_of_app; by right|by intros Hk; eapply Hd|done].
Qed.

Lemma in_option_list {A} (o : option A) x : x ∈ option_list o <-> o = Some x.
Proof.
  destruct o as [y|]; cbn; [rewrite list_elem_of_singleton; split; congruence|]. split; [by intros ?%elem_of_nil|done].
Qed.

Lemma pair_secret h p kp x : pair_at h p kp -> kp_priv kp = Some x -> exists b, b ∈ pair_addrs p /\ h !! b = Some (WInt x).
Proof.
  intros [_ Hp] Ex. rewrite Ex in Hp. unfold pair_addrs. destruct (pr_priv p) as [b|]; [|done]. exists (b, 0%nat). split; [|done].
  apply elem_of_app. right. by apply list_elem_of_singleton.
Qed.

Lemma exchange_secret_owned v h m c x : mem_ok v h m c -> (c_ake c ≫= ake_secretExponent) = Some x ->
  exists b, b ∈ owned m /\ b ∉ keys_addrs (km_keys m) /\ h !! b = Some (WInt x).
Proof.
  intros Hok Hx. destruct (c_ake c) as [av|] eqn:Ea; [|done]. destruct (mem_ok_has_ake _ _ _ _ _ Hok Ea) as (a & Em & _ & _).
  by eapply exchange_secret_apart.
Qed.

Lemma drop_stays v o h1 m1 c1 m2 h2 x : mem_ok v h1 m1 c1 -> mem_step v o m1 h1 = Done (m2, h2) ->
  x ∈ dropped_secrets o c1 ->
  exists a, a ∈ owned m1 /\ a ∉ owned m2 /\ h2 !! a = Some (WInt x).
Proof.
  intros Hok Es Hx. unfold dropped_secrets in Hx. destruct o; try (by apply elem_of_nil in Hx); cbn [mem_step] in Es.
  - apply in_option_list in Hx. destruct (exchange_secret_owned _ _ _ _ _ Hok Hx) as (b & Hin & Hout & Hw). exists b. split; [done|].
    pose proof (mem_wipeSessionKeys_spec h1 (km_keys m1) _ (ok_keys _ _ _ _ Hok) (NoDup_owned_keys _ _ _ _ Hok)) as HS.
    apply wp_inv in HS as (k' & h' & ER & _ & (K & _ & N)). rewrite (bind_done _ _ _ _ _ ER) in Es. injection Es as <- <-.
    split; [|by apply K]. unfold owned. cbn. rewrite app_nil_r. intros Hb. destruct (N _ Hb); [done|congruence].
  - injection Es as <- <-. pose proof (ok_keys _ _ _ _ Hok) as Hk. rewrite !elem_of_app, !in_option_list in Hx.
    assert (exists b, b ∈ owned m1 /\ h1 !! b = Some (WInt x)) as (b & Hin & Hw); [|exists b; split_and!; [done|by intros ?%elem_of_nil|done]].
    destruct Hx as [Hx|[Hx|Hx]].
    + destruct (pair_secret _ _ _ _ (at_current _ _ _ Hk) Hx) as (b & Hb & Hw). exists b. split; [|done]. unfold owned, keys_addrs, dh_addrs. rewrite !elem_of_app. tauto.
    + destruct (pair_secret _ _ _ _ (at_previous _ _ _ Hk) Hx) as (b & Hb & Hw). exists b. split; [|done]. unfold owned, keys_addrs, dh_addrs. rewrite !elem_of_app. tauto.
    + destruct (exchange_secret_owned _ _ _ _ _ Hok Hx) as (b & Hin & _ & Hw). by exists b.
Qed.

End Dropped.

(** ** The properties *)

(** A conversation that has no keys yet, and the same in memory. *)
Definition no_keys_yet (v : otrVersion) (c : Conversation) : Prop := c_version c = Some v /\ c_keys c = empty_keys /\ c_ake c = None.

Definition no_memory (c : Conversation) : keyMemory := KeyMemory no_keysRef None (c_Rand c).

Section Properties.
Context `{DHGroup} `{CryptoLaws}.

Lemma no_memory_ok v c : no_keys_yet v c -> mem_ok v ∅ (no_memory c) c.
Proof. intros (Hv & Hk & Ha). constructor; cbn; rewrite ?Hk, ?Ha; try done; try apply no_keys_at. apply NoDup_nil_2. Qed.

(** C17: for every sequence of the steps in which a conversation changes its keys
    (starting, advancing, wiping and finishing an exchange, deriving session keys,
    counting, rotating, revealing, ending and being disconnected), the code on
    pointers, with its shared arrays and its zeroing, computes the values that the
    rest of the development works with.  It never fails where those do not, what
    it refers to afterwards are these values, and no two references share memory,
    so that wiping one key never damages another. *)
Theorem key_memory_refines v ops c c' : no_keys_yet v c -> conv_steps ops c = Done (tt, c') ->
  exists m' h', mem_steps v ops (no_memory c) ∅ = Done (m', h') /\
    keys_at h' (km_keys m') (c_keys c') /\
    match km_ake m', c_ake c' with Some a, Some av => ake_at h' a av | None, None => True | _, _ => False end /\
    NoDup (owned m').
Proof.
  intros Hc E. pose proof (mem_steps_sim v ops ∅ (no_memory c) c c' (no_memory_ok v c Hc) E) as HW.
  apply wp_inv in HW as (m' & h' & Em & [_ _ Hk Ha HD]). by exists m', h'.
Qed.

(** C18: after any sequence of steps, a step that wipes keys leaves nothing but
    zeroes in the memory that held them: wiping an exchange, all of its secrets;
    finishing one, every key of the session it replaces and every secret of the
    exchange; a rotation of our keys, the pair before the previous one; ending the
    conversation, both of our pairs. *)
Theorem retired_keys_erased v ops o c c1 c2 : no_keys_yet v c -> conv_steps ops c = Done (tt, c1) -> conv_step o c1 = Done (tt, c2) ->
  exists m1 h1 m2 h2, mem_steps v ops (no_memory c) ∅ = Done (m1, h1) /\ keys_at h1 (km_keys m1) (c_keys c1) /\
    mem_step v o m1 h1 = Done (m2, h2) /\ zeroed (wiped_by o m1) h2.
Proof.
  intros Hc E1 E2. pose proof (mem_steps_sim v ops ∅ (no_memory c) c c1 (no_memory_ok v c Hc) E1) as HW.
  apply wp_inv in HW as (m1 & h1 & Em & Hok). exists m1, h1. pose proof (mem_step_sim v o h1 m1 c1 c2 Hok E2) as HS.
  apply wp_inv in HS as (m2 & h2 & Es & _). exists m2, h2. split_and!; [done|apply Hok|done|].
  apply (wlp_use _ _ _ _ _ (mem_step_erases v o h1 m1 c1 Hok) Es).
Qed.

(** C35: two steps forget secret exponents without wiping them: being disconnected
    by the peer, those of our current and previous pair and that of a pending
    exchange; ending the conversation, that of a pending exchange.  After any
    sequence of steps, each of them still is in memory after such a step, at an
    address that the conversation does not refer to any more. *)
Theorem dropped_secrets_stay v ops o c c1 c2 x : no_keys_yet v c -> conv_steps ops c = Done (tt, c1) -> conv_step o c1 = Done (tt, c2) ->
  x ∈ dropped_secrets o c1 ->
  exists m1 h1 m2 h2 a, mem_steps v ops (no_memory c) ∅ = Done (m1, h1) /\ mem_step v o m1 h1 = Done (m2, h2) /\
    a ∈ owned m1 /\ a ∉ owned m2 /\ h2 !! a = Some (WInt x).
Proof.
  intros Hc E1 E2 Hx. pose proof (mem_steps_sim v ops ∅ (no_memory c) c c1 (no_memory_ok v c Hc) E1) as HW.
  apply wp_inv in HW as (m1 & h1 & Em & Hok). exists m1, h1. pose proof (mem_step_sim v o h1 m1 c1 c2 Hok E2) as HS.
  apply wp_inv in HS as (m2 & h2 & Es & _). exists m2, h2. destruct (drop_stays v o h1 m1 c1 m2 h2 x Hok Es Hx) as (a & ?). by exists a.
Qed.

End Properties.

(** ** Examples *)

Definition key_conversation : Conversation :=
  (new_conversation (Some otrV3) allowV3 [example_priv] (map z2b (map Z.of_nat (seq 1 160))) 0 10) <| c_ourCurrentKey := Some example_priv |>.

Definition exchange_ops : list keyOp :=
  [OpInitAKE; OpSetSecretExponent 5; OpTheirPublicValue (Some 4); OpCalcAKEKeys 9; OpStoreTheirKey; OpStoreOurKeys; OpKeyIDs 1 1].

Definition session_ops : list keyOp := exchange_ops ++ [OpHasFinished; OpSessionKeys 1 1 otrV3; OpTakeOurCounter 1 1].

Definition key_message : dataMsg :=
  DataMsg Byte.x00 1 2 4 (zeroes 7 ++ [Byte.x01]) [] [] [] None.

(** The conversation after some steps. *)
Definition key_state (ops : list keyOp) : Conversation :=
  match @conv_steps small_group toy_crypto ops key_conversation with Done (_, c) => c | Panicked _ => key_conversation end.

Lemma key_memory_refines_witness : exists m' h',
  @mem_steps small_group toy_crypto otrV3 (session_ops ++ [OpRotateKeys key_message]) (no_memory key_conversation) ∅ = Done (m', h') /\
  keys_at h' (km_keys m') (c_keys (key_state (session_ops ++ [OpRotateKeys key_message]))).
Proof.
  destruct (@key_memory_refines small_group toy_crypto toy_crypto_laws otrV3 (session_ops ++ [OpRotateKeys key_message]) key_conversation
    (key_state (session_ops ++ [OpRotateKeys key_message]))) as (m' & h' & Em & Hk & _).
  - split; [reflexivity|split; reflexivity].
  - vm_compute. reflexivity.
  - exists m', h'. split; [exact Em|exact Hk].
Defined.

Lemma retired_keys_erased_witness : exists m1 h1 m2 h2,
  @mem_steps small_group toy_crypto otrV3 session_ops (no_memory key_conversation) ∅ = Done (m1, h1) /\
  @mem_step small_group toy_crypto otrV3 (OpRotateKeys key_message) m1 h1 = Done (m2, h2) /\ zeroed (wiped_by (OpRotateKeys key_message) m1) h2 /\
  length (wiped_by (OpRotateKeys key_message) m1) = 2%nat.
Proof.
  destruct (@retired_keys_erased small_group toy_crypto toy_crypto_laws otrV3 session_ops (OpRotateKeys key_message) key_conversation
    (key_state session_ops) (key_state (session_ops ++ [OpRotateKeys key_message]))) as (m1 & h1 & m2 & h2 & Em & _ & Es & Hz).
  - split; [reflexivity|split; reflexivity].
  - vm_compute. reflexivity.
  - vm_compute. reflexivity.
  - exists m1, h1, m2, h2. split; [exact Em|]. split; [exact Es|]. split; [exact Hz|].
    assert (match @mem_steps small_group toy_crypto otrV3 session_ops (no_memory key_conversation) ∅ with
            | Done (m, _) => length (wiped_by (OpRotateKeys key_message) m) | Panicked _ => 0%nat end = 2%nat) as E by (vm_compute; reflexivity).
    rewrite Em in E. exact E.
Defined.

Lemma dropped_secrets_stay_witness : exists m1 h1 m2 h2 a x,
  @mem_steps small_group toy_crypto otrV3 session_ops (no_memory key_conversation) ∅ = Done (m1, h1) /\
  @mem_step small_group toy_crypto otrV3 OpDisconnected m1 h1 = Done (m2, h2) /\ a ∉ owned m2 /\ h2 !! a = Some (WInt x).
Proof.
  destruct (kp_priv (ourCurrentDHKeys (c_keys (key_state session_ops)))) as [x|] eqn:Ex; [|vm_compute in Ex; discriminate Ex].
  destruct (@dropped_secrets_stay small_group toy_crypto toy_crypto_laws otrV3 session_ops OpDisconnected key_conversation
    (key_state session_ops) (key_state (session_ops ++ [OpDisconnected])) x) as (m1 & h1 & m2 & h2 & a & Em & Es & _ & Hn & Hw).
  - split; [reflexivity|split; reflexivity].
  - vm_compute. reflexivity.
  - vm_compute. reflexivity.
  - unfold dropped_secrets. rewrite Ex. left.
  - exists m1, h1, m2, h2, a, x. split; [exact Em|]. split; [exact Es|]. split; [exact Hn|exact Hw].
Defined.
