(* ===== verification/Receive.v ===== *)
(** * The interface of a conversation: receive.go, send.go, query.go,
    whitespace.go, message_type.go, [potentialAuthError] of authenticate.go,
    debug.go, ssid.go

    [Receive] and [Send], and what they dispatch to.  [receiveUnit] calls
    itself on a completed sequence of fragments; the model bounds the depth of
    the calls, and a call beyond the bound is the stack overflow of the Go
    runtime. *)

From S2P Require Import Prelude GoLib Gotrax Policy Crypto KeyManagement Messages Smp Keys Conversation Fragmentation SmpMachine DataMessage Ake.

(** ** whitespace.go *)

Definition space : byte := z2b 32.
Definition tab : byte := z2b 9.

(** ["%08s"] of the binary digits, with blanks and tabs for them. *)
Definition convertToWhitespace (v : list byte) : list byte :=
  concat (map (fun b => map (fun d => if bool_decide (d = z2b 48) then space
                                      else if bool_decide (d = z2b 49) then tab else d)
                            (pad0 8 (format_base false 2 (b2z b)))) v).

Definition whitespaceTagHeader : list byte := convertToWhitespace (bs "OT").

Definition otrV2_whitespaceTag : list byte := convertToWhitespace (bs "2").
Definition otrV3_whitespaceTag : list byte := convertToWhitespace (bs "3").

Definition whitespaceTag (v : otrVersion) : list byte :=
  match v with otrV2 => otrV2_whitespaceTag | otrV3 => otrV3_whitespaceTag end.

Definition genWhitespaceTag (p : policies) : list byte :=
  whitespaceTagHeader ++ (if has p allowV2 then whitespaceTag otrV2 else [])
    ++ (if has p allowV3 then whitespaceTag otrV3 else []).

Definition appendWhitespaceTag (message : list byte) : M (list byte) :=
  c ← gget;
  if negb (has (c_Policies c) sendWhitespaceTag) || bool_decide (c_whitespaceState c = whitespaceRejected)
  then mret message
  else
    _ ← gmod (fun c => c <| c_whitespaceState := whitespaceSent |>);
    mret (message ++ genWhitespaceTag (c_Policies c)).

Definition nextAllWhite (data : list byte) : option (list byte * list byte) :=
  if len data <? 8 then None
  else if forallb (fun b => bool_decide (b = space) || bool_decide (b = tab)) (take 8 data)
  then Some (take 8 data, drop 8 data) else None.

(** The loop of [extractWhitespaceTag]: every round consumes eight bytes, so
    the length of the data bounds the rounds. *)
Fixpoint whitespaceLoop (fuel : nat) (data : list byte) (versions : Z) : list byte * Z :=
  match fuel with
  | O => (data, versions)
  | S f =>
      match nextAllWhite data with
      | None => (data, versions)
      | Some (aw, r) =>
          whitespaceLoop f r
            (if bool_decide (aw = whitespaceTag otrV3) then Z.lor versions (Z.shiftl 1 3)
             else if bool_decide (aw = whitespaceTag otrV2) then Z.lor versions (Z.shiftl 1 2)
             else versions)
      end
  end.

(** The plaintext without the tag, and the versions it offers. *)
Definition extractWhitespaceTag (message : list byte) : go (list byte * Z) :=
  let wsPos := Index message whitespaceTagHeader in
  currentData ← slice message (wsPos + len whitespaceTagHeader) (len message);
  let '(currentData, versions) := whitespaceLoop (length message) currentData 0 in
  head ← slice message 0 wsPos;
  mret (head ++ currentData, versions).

(** ** message_type.go *)

Inductive messageTypeGuess :=
  | msgGuessNotOTR | msgGuessTaggedPlaintext | msgGuessQuery | msgGuessDHCommit | msgGuessDHKey
  | msgGuessRevealSig | msgGuessSignature | msgGuessV1KeyExch | msgGuessData | msgGuessError
  | msgGuessFragment | msgGuessUnknown.

#[global] Instance messageTypeGuess_eq_dec : EqDecision messageTypeGuess.
Proof. solve_decision. Defined.

Definition guessMessageType (msg : list byte) : messageTypeGuess :=
  if HasPrefix msg (bs "?OTR") then
    if HasPrefix msg (bs "?OTR:AAMC") then msgGuessDHCommit
    else if HasPrefix msg (bs "?OTR:AAIC") then msgGuessDHCommit
    else if HasPrefix msg (bs "?OTR:AAMK") then msgGuessDHKey
    else if HasPrefix msg (bs "?OTR:AAIK") then msgGuessDHKey
    else if HasPrefix msg (bs "?OTR:AAMR") then msgGuessRevealSig
    else if HasPrefix msg (bs "?OTR:AAIR") then msgGuessRevealSig
    else if HasPrefix msg (bs "?OTR:AAMS") then msgGuessSignature
    else if HasPrefix msg (bs "?OTR:AAIS") then msgGuessSignature
    else if HasPrefix msg (bs "?OTR:AAED") then msgGuessData
    else if HasPrefix msg (bs "?OTR:AAID") then msgGuessData
    else if HasPrefix msg (bs "?OTR:AAMD") then msgGuessData
    else if HasPrefix msg (bs "?OTR?") then msgGuessQuery
    else if HasPrefix msg (bs "?OTRv") then msgGuessQuery
    else if HasPrefix msg (bs "?OTR:AAEK") then msgGuessV1KeyExch
    else if HasPrefix msg (bs "?OTR Error:") then msgGuessError
    else if HasPrefix msg (bs "?OTR|") then msgGuessFragment
    else if HasPrefix msg (bs "?OTR,") then msgGuessFragment
    else msgGuessUnknown
  else if negb (Index msg whitespaceTagHeader =? -1) then msgGuessTaggedPlaintext
  else msgGuessNotOTR.

(** ** query.go *)

Definition isQueryMessage (msg : list byte) : bool := HasPrefix msg queryMarker.

(** [strconv.Atoi] of one character. *)
Definition digitOf (b : byte) : option Z := if (48 <=? b2z b) && (b2z b <=? 57) then Some (b2z b - 48) else None.

Definition parseOTRQueryMessage (msg : list byte) : list Z :=
  if HasPrefix msg queryMarker && (len queryMarker <? len msg) then
    let versions := drop (length queryMarker) msg in
    let '(ret, versions) :=
      match versions with
      | b :: rest => if bool_decide (b = z2b 63) then ([1], rest) else ([], versions)
      | [] => ([], versions)
      end in
    match versions with
    | b :: _ => if bool_decide (b = z2b 118) then ret ++ omap digitOf versions else ret
    | [] => ret
    end
  else [].

Definition extractVersionsFromQueryMessage (p : policies) (msg : list byte) : Z :=
  fold_left (fun versions v =>
    if (v =? 3) && has p allowV3 then Z.lor versions (Z.shiftl 1 3)
    else if (v =? 2) && has p allowV2 then Z.lor versions (Z.shiftl 1 2)
    else versions) (parseOTRQueryMessage msg) 0.

Definition timeoutLength : Z := 60 * secondNs.

Definition isWithinTimeToIgnoreQueryMessage (t now : Z) : bool := now <? t + timeoutLength.

Definition QueryMessage (c : Conversation) : list byte :=
  (bs "?OTRv" ++ (if has (c_Policies c) allowV2 then bs "2" else [])
     ++ (if has (c_Policies c) allowV3 then bs "3" else []))
  ++ (if bool_decide (c_friendlyQueryMessage c = []) then bs "?" else bs "? " ++ c_friendlyQueryMessage c).

Definition SetFriendlyQueryMessage (msg : list byte) : M unit := gmod (fun c => c <| c_friendlyQueryMessage := msg |>).

(** ** ssid.go *)

Definition hexBytes (upper : bool) (l : list byte) : list byte :=
  concat (map (fun b => pad0 2 (format_base upper 16 (b2z b))) l).

Definition SecureSessionID (c : Conversation) : list (list byte) * Z :=
  ([hexBytes false (take 4 (c_ssid c)); hexBytes false (drop 4 (c_ssid c))], if c_sentRevealSig c then 0 else 1).

(** ** debug.go *)

Definition debugString : list byte := bs "?OTR!".

Definition SetDebug (d : bool) : M unit := gmod (fun c => c <| c_debug := d |>).

Definition otrOffer (c : Conversation) : list byte :=
  match c_whitespaceState c with
  | whitespaceNotSent => bs "NOT"
  | whitespaceSent => if IsEncrypted c then bs "ACCEPTED" else bs "SENT"
  | whitespaceRejected => bs "REJECTED"
  end.

Definition msgState_identityString (m : msgState) : list byte :=
  match m with plainText => bs "PLAINTEXT" | encrypted => bs "ENCRYPTED" | finished => bs "FINISHED" end.
Definition msgState_identity (m : msgState) : Z := match m with plainText => 0 | encrypted => 1 | finished => 2 end.

Definition authState_identity (s : authState) : Z :=
  match s with
  | authStateNone => 0 | authStateAwaitingDHKey => 1 | authStateAwaitingRevealSig => 2 | authStateAwaitingSig _ => 3
  end.

Definition authState_identityString (s : authState) : list byte :=
  match s with
  | authStateNone => bs "NONE" | authStateAwaitingDHKey => bs "AWAITING_DHKEY"
  | authStateAwaitingRevealSig => bs "AWAITING_REVEALSIG" | authStateAwaitingSig _ => bs "AWAITING_SIG"
  end.

Definition smpState_identity (s : smpState) : Z :=
  match s with
  | smpStateExpect1 => 0 | smpStateExpect2 => 2 | smpStateExpect3 => 3 | smpStateExpect4 => 4
  | smpStateWaitingForSecret _ => 1
  end.

Definition smpState_identityString (s : smpState) : list byte :=
  match s with
  | smpStateExpect1 => bs "EXPECT1" | smpStateExpect2 => bs "EXPECT2" | smpStateExpect3 => bs "EXPECT3"
  | smpStateExpect4 => bs "EXPECT4" | smpStateWaitingForSecret _ => bs "EXPECT1_WQ"
  end.

Definition newline : list byte := [z2b 10].
Definition decimal (n : Z) : list byte := format_base false 10 n.
Definition HEX8 (n : Z) : list byte := pad0 8 (format_base true 16 n).

Section Interface.
Context `{DHGroup} `{Crypto}.

Definition dumpAKE (c : Conversation) (a : ake) : go (list byte) :=
  k ← deref (c_theirKey c);
  v ← deref (c_version c);
  mret (bs "  Auth info:" ++ newline
    ++ bs "    State: " ++ decimal (authState_identity (ake_state a))
    ++ bs " (" ++ authState_identityString (ake_state a) ++ bs ")" ++ newline
    ++ bs "    Our keyid:   " ++ decimal (ourKeyID (c_keys c)) ++ newline
    ++ bs "    Their keyid: " ++ decimal (theirKeyID (c_keys c)) ++ newline
    ++ bs "    Their fingerprint: " ++ hexBytes true (Fingerprint k) ++ newline
    ++ bs "    Proto version = " ++ decimal (protocolVersion v) ++ newline).

Definition dumpSMP (c : Conversation) : list byte :=
  bs "  SM state:" ++ newline
    ++ (match smp_state (c_smp c) with
        | Some s => bs "    Next expected: " ++ decimal (smpState_identity s)
                      ++ bs " (" ++ smpState_identityString s ++ bs ")" ++ newline
        | None => []
        end)
    ++ bs "    Received_Q: " ++ (match smp_question (c_smp c) with Some _ => bs "1" | None => bs "0" end) ++ newline.

Definition dump (c : Conversation) : go (list byte) :=
  v ← deref (c_version c);
  auth ← match c_ake c with None => mret (bs "  Auth info: NULL" ++ newline) | Some a => dumpAKE c a end;
  mret (bs "Context:" ++ newline ++ newline
    ++ bs "  Our instance:   " ++ HEX8 (c_ourInstanceTag c) ++ newline
    ++ bs "  Their instance: " ++ HEX8 (c_theirInstanceTag c) ++ newline ++ newline
    ++ bs "  Msgstate: " ++ decimal (msgState_identity (c_msgState c))
    ++ bs " (" ++ msgState_identityString (c_msgState c) ++ bs ")" ++ newline ++ newline
    ++ bs "  Protocol version: " ++ decimal (protocolVersion v) ++ newline
    ++ bs "  OTR offer: " ++ otrOffer c ++ newline ++ newline
    ++ auth ++ newline ++ dumpSMP c).

(** ** Starting the key exchange *)

Definition potentialAuthError (toSend : list (list byte)) (err : option error) : M (list (list byte) * option error) :=
  _ ← match err with Some e => messageEventWithError MessageEventSetupError e | None => mret tt end;
  mret (toSend, err).

(** [potentialAuthError(compactMessagesWithHeader(ts), err)] on the result of
    [sendDHCommit]. *)
Definition startAKE : M (list (list byte) * option error) :=
  ts ← sendDHCommit;
  match ts with
  | Ok t => potentialAuthError (compactMessagesWithHeader [Some t]) None
  | Err e => potentialAuthError (compactMessagesWithHeader [None]) (Some e)
  end.

Definition receiveQueryMessage (msg : list byte) : M (list (list byte) * option error) :=
  c ← gget;
  r ← commitToVersionFrom (extractVersionsFromQueryMessage (c_Policies c) msg);
  match r with
  | Err e => mret ([], Some e)
  | Ok _ =>
      c ← gget;
      if (IsEncrypted c && isWithinTimeToIgnoreQueryMessage (c_lastMessageStateChange c) (env_now c))
         || match c_ake c with Some a => isWithinTimeToIgnoreQueryMessage (ake_lastStateChange a) (env_now c) | None => false end
      then mret ([], None)
      else startAKE
  end.

Definition startAKEFromWhitespaceTag (versions : Z) : M (list (list byte) * option error) :=
  r ← commitToVersionFrom versions;
  match r with Err e => mret ([], Some e) | Ok _ => startAKE end.

(** ** receive.go *)

(** What the handlers of one message return: the plaintext, the messages to
    encode and the error. *)
Definition handled : Type := option (list byte) * list (list byte) * option error.

Definition processWhitespaceTag (message : list byte) : M handled :=
  pv ← glift (extractWhitespaceTag message);
  let '(plain, versions) := pv : list byte * Z in
  c ← gget;
  if negb (has (c_Policies c) whitespaceStartAKE) then mret (Some plain, [], None)
  else
    r ← startAKEFromWhitespaceTag versions;
    mret (Some plain, fst r, snd r).

Definition withoutPotentialSpaceStart (msg : list byte) : list byte :=
  match msg with b :: rest => if bool_decide (b = space) then rest else msg | [] => msg end.

Definition receiveErrorMessage (message : list byte) : M handled :=
  msg ← glift (slice message (len errorMarker) (len message));
  c ← gget;
  let toSend := if has (c_Policies c) errorStartAKE then [QueryMessage c] else [] in
  _ ← (if IsEncrypted c then updateMayRetransmitTo retransmitWithPrefix else mret tt);
  _ ← messageEventWithMessage MessageEventReceivedMessageGeneralError (withoutPotentialSpaceStart msg);
  mret (None, toSend, None).

Fixpoint encodeAndCombine (toSend : list (list byte)) : M (list (list byte)) :=
  match toSend with
  | [] => mret []
  | ts :: rest => f ← fragEncode ts; fs ← encodeAndCombine rest; mret (f ++ fs)
  end.

Definition toSendEncoded (h : handled) : M handled :=
  let '(plain, toSend, err) := h in
  match err, toSend with
  | None, (_ :: _) :: _ => vms ← encodeAndCombine toSend; mret (plain, vms, err)
  | _, _ => mret (plain, [], err)
  end.

Definition checkPlaintextPolicies (plain : option (list byte)) : M unit :=
  _ ← gmod (fun c => if bool_decide (c_whitespaceState c = whitespaceSent)
                     then c <| c_whitespaceState := whitespaceRejected |> else c);
  c ← gget;
  if negb (bool_decide (c_msgState c = plainText)) || has (c_Policies c) requireEncryption
  then messageEventWithMessage MessageEventReceivedMessageUnencrypted (default [] plain)
  else mret tt.

Definition receivePlaintext (message : list byte) : M handled :=
  _ ← checkPlaintextPolicies (Some message); mret (Some message, [], None).

Definition receiveTaggedPlaintext (message : list byte) : M handled :=
  h ← processWhitespaceTag message;
  _ ← checkPlaintextPolicies (fst (fst h)); mret h.

Definition removeOTRMsgEnvelope (msg : list byte) : go (list byte) := slice msg (len msgMarker) (len msg - 1).

Definition decode (encoded : list byte) : go (result (list byte)) :=
  encoded ← removeOTRMsgEnvelope encoded;
  mret (match b64decode encoded with Some msg => Ok msg | None => Err errInvalidOTRMessage end).

Definition notifyDataMessageError (err : error) : M unit :=
  if bool_decide (err = errMessageNotInPrivate) then mret tt
  else if isConflict err then
    _ ← messageEvent MessageEventReceivedMessageUnreadable [];
    generatePotentialErrorMessage ErrorCodeMessageUnreadable
  else
    _ ← messageEvent MessageEventReceivedMessageMalformed [];
    generatePotentialErrorMessage ErrorCodeMessageMalformed.

Definition receiveDataMessage (messageHeader messageBody : list byte) : M handled :=
  o ← processDataMessage messageHeader messageBody;
  h ← maybeHeartbeat o;
  _ ← match snd h with Some e => notifyDataMessageError e | None => mret tt end;
  mret h.

Definition receiveAKEMessage (msgType : Z) (messageBody : list byte) : M handled :=
  r ← processAKE msgType messageBody;
  r ← potentialAuthError (fst r) (snd r);
  mret (None, fst r, snd r).

Definition receiveDecoded (message : list byte) : M handled :=
  r ← checkVersion message;
  match r with
  | Err e => mret (None, [], Some e)
  | Ok _ =>
      p ← parseMessageHeader message;
      match p with
      | Err e => mret (None, [], if bool_decide (e = errReceivedMessageForOtherInstance) then None else Some e)
      | Ok (messageHeader, messageBody) =>
          match messageHeader !! 2%nat with
          | None => fun _ => Panicked IndexOutOfRange
          | Some t =>
              if b2z t =? msgTypeData then receiveDataMessage messageHeader messageBody
              else receiveAKEMessage (b2z t) messageBody
          end
      end
  end.

Definition receiveEncoded (message : list byte) : M handled :=
  d ← glift (decode message);
  match d with Err e => mret (None, [], Some e) | Ok decodedMessage => receiveDecoded decodedMessage end.

Definition withInjectionsPlain (h : handled) : M handled :=
  let '(plain, vms, err) := h in vms ← withInjects vms; mret (plain, vms, err).

(** The end of [receiveUnit], after the switch. *)
Definition finishUnit (forget : bool) (h : handled) : M handled :=
  _ ← (if forget then gmod (fun c => c <| c_fragmentationContext := forgetFragment |>) else mret tt);
  h ← toSendEncoded h;
  withInjectionsPlain h.

(** Without OTR the returned slice is the copy the deferred call zeroes. *)
Fixpoint receiveUnit (depth : nat) (m : list byte) (forgetFragments : bool) : M handled :=
  match depth with
  | O => fun _ => Panicked StackOverflow
  | S d =>
      c ← gget;
      if negb (isOTREnabled (c_Policies c)) then mret (Some (zeroes (length m)), [], None)
      else
        match guessMessageType m with
        | msgGuessError => h ← receiveErrorMessage m; withInjectionsPlain h
        | msgGuessQuery => r ← receiveQueryMessage m; finishUnit forgetFragments (None, fst r, snd r)
        | msgGuessTaggedPlaintext => h ← receiveTaggedPlaintext m; finishUnit forgetFragments h
        | msgGuessNotOTR => h ← receivePlaintext m; finishUnit forgetFragments h
        | msgGuessV1KeyExch => mret (None, [], Some errUnsupportedOTRVersion)
        | msgGuessFragment =>
            fe ← receiveFragment (c_fragmentationContext c) m;
            _ ← gmod (fun c => c <| c_fragmentationContext := fst fe |>);
            if fragmentsFinished (fst fe)
            then h ← receiveUnit d (frag (fst fe)) false; withInjectionsPlain h
            else finishUnit false (None, [], snd fe)
        | msgGuessUnknown =>
            _ ← messageEvent MessageEventReceivedMessageUnrecognized [];
            finishUnit forgetFragments (None, [], None)
        | msgGuessDHCommit | msgGuessDHKey | msgGuessRevealSig | msgGuessSignature | msgGuessData =>
            h ← receiveEncoded m; finishUnit forgetFragments h
        end
  end.

(** [Receive], on a stack that holds [depth] calls of [receiveUnit]. *)
Definition Receive (depth : nat) (m : list byte) : M handled := receiveUnit depth m true.

(** ** send.go *)

Definition sendMessageOnPlaintext (message : list byte) (t : trace) : M (list (list byte) * option error) :=
  c ← gget;
  if has (c_Policies c) requireEncryption then
    _ ← messageEvent MessageEventEncryptionRequired t;
    _ ← updateLastSent;
    _ ← updateMayRetransmitTo retransmitExact;
    _ ← lastMessage message t;
    mret ([QueryMessage c], None)
  else
    m ← appendWhitespaceTag message;
    mret ([m], None).

Definition sendMessageOnEncrypted (message : list byte) : M (list (list byte) * option error) :=
  r ← createSerializedDataMessage message messageFlagNormal [];
  match r with
  | Ok (result, _) => mret (result, None)
  | Err e =>
      _ ← messageEvent MessageEventEncryptionError [];
      _ ← generatePotentialErrorMessage ErrorCodeEncryptionError;
      mret ([], Some e)
  end.

Definition withInjections (r : list (list byte) * option error) : M (list (list byte) * option error) :=
  vms ← withInjects (fst r); mret (vms, snd r).

Definition Send (m : list byte) (t : trace) : M (list (list byte) * option error) :=
  c ← gget;
  if negb (isOTREnabled (c_Policies c)) then mret ([m], None)
  else if c_debug c && negb (Index m debugString =? -1) then
    text ← glift (dump c);
    _ ← gmod (fun c => c <| env_events := env_events c ++ [EvDump text] |>);
    mret ([], None)
  else
    match c_msgState c with
    | plainText => r ← sendMessageOnPlaintext m t; withInjections r
    | encrypted => r ← sendMessageOnEncrypted m; withInjections r
    | finished =>
        _ ← messageEvent MessageEventConnectionEnded [];
        withInjections ([], Some (newOtrError "cannot send message because secure conversation has finished"))
    end.

End Interface.
