(* ===== verification/Session.v ===== *)
(** * A private session between two conversations

    The contract of an established session: whatever the order in which two
    peers send and receive, as long as the network delivers each direction in
    order, every text arrives exactly once, in order and unchanged, across all
    key rotations.  [half] relates the keys of a sender, the keys of its
    receiver and the messages under way between them; [linked] puts both
    directions together with the two conversations. *)

From stdpp Require Import sorting.
From S2P Require Import Prelude GoLib Gotrax Policy Crypto KeyManagement Messages Smp Keys Conversation Fragmentation SmpMachine DataMessage Ake Receive.

(** ** The network *)

(** A message under way: the keys it names, its counter, the text it carries
    and its bytes. *)
Record flight := Flight {
  fl_sender : Z; fl_recipient : Z; fl_ctr : Z; fl_text : list byte; fl_wire : list byte }.

Definition flights_of (s r : Z) (q : list flight) : list flight :=
  List.filter (fun f => (fl_sender f =? s) && (fl_recipient f =? r)) q.

Definition text_ok (t : list byte) : Prop := (Byte.x00 ∉ t) /\ len t < 2 ^ 31.

(** What happens between two peers: a text is sent, the next message of one
    direction is delivered, time passes. *)
Inductive action :=
  | SendA (text : list byte)
  | SendB (text : list byte)
  | DeliverA
  | DeliverB
  | Tick (duration : Z).

(** Two conversations, the messages between them, the texts each of them has
    been given, and the errors they reported. *)
Record network := Network {
  net_a : Conversation; net_b : Conversation;
  net_ab : list (list byte); net_ba : list (list byte);
  got_a : list (list byte); got_b : list (list byte);
  net_errors : list error }.

#[export] Instance network_eta : Eta network := fun r =>
  Network (net_a r) (net_b r) (net_ab r) (net_ba r) (got_a r) (got_b r) (net_errors r).

Definition sentByA (acts : list action) : list (list byte) :=
  omap (fun act => match act with SendA m => Some m | _ => None end) acts.
Definition sentByB (acts : list action) : list (list byte) :=
  omap (fun act => match act with SendB m => Some m | _ => None end) acts.

Section Network.
Context `{DHGroup} `{Crypto}.

Definition net_step (w : network) (act : action) : go network :=
  match act with
  | SendA m =>
      r ← Send m [] (net_a w);
      let '((ws, err), a') := r : list (list byte) * option error * Conversation in
      mret (w <| net_a := a' |> <| net_ab := net_ab w ++ ws |> <| net_errors := net_errors w ++ option_list err |>)
  | SendB m =>
      r ← Send m [] (net_b w);
      let '((ws, err), b') := r : list (list byte) * option error * Conversation in
      mret (w <| net_b := b' |> <| net_ba := net_ba w ++ ws |> <| net_errors := net_errors w ++ option_list err |>)
  | DeliverA =>
      match net_ba w with
      | [] => mret w
      | m :: ms =>
          r ← Receive 1 m (net_a w);
          let '((plain, ws, err), a') := r : handled * Conversation in
          mret (w <| net_a := a' |> <| net_ba := ms |> <| net_ab := net_ab w ++ ws |>
                  <| got_a := got_a w ++ option_list plain |> <| net_errors := net_errors w ++ option_list err |>)
      end
  | DeliverB =>
      match net_ab w with
      | [] => mret w
      | m :: ms =>
          r ← Receive 1 m (net_b w);
          let '((plain, ws, err), b') := r : handled * Conversation in
          mret (w <| net_b := b' |> <| net_ab := ms |> <| net_ba := net_ba w ++ ws |>
                  <| got_b := got_b w ++ option_list plain |> <| net_errors := net_errors w ++ option_list err |>)
      end
  | Tick t => mret (w <| net_a := (net_a w) <| env_now := env_now (net_a w) + t |> |>
                      <| net_b := (net_b w) <| env_now := env_now (net_b w) + t |> |>)
  end.

Fixpoint net_run (acts : list action) (w : network) : go network :=
  match acts with
  | [] => mret w
  | act :: acts' => w' ← net_step w act; net_run acts' w'
  end.

End Network.

Section Keys.
Context `{DHGroup}.

Definition pubKey (x : Z) : Z := modExp dh_g1 x.
Definition keyPair (x : Z) : dhKeyPair := DhKeyPair (Some (pubKey x)) (Some x).

(** One direction: [x] are the secret exponents of the sender by key
    identifier, [n] bounds the messages so far. *)
Record half (n : Z) (x : Z -> Z) (kS kR : keyManagementContext) (q : list flight) : Prop := {
  h_our : 2 <= ourKeyID kS <= n + 2;
  h_cur : ourCurrentDHKeys kS = keyPair (x (ourKeyID kS));
  h_prev : ourPreviousDHKeys kS = keyPair (x (ourKeyID kS - 1));
  h_their : 1 <= theirKeyID kR /\ ourKeyID kS - 1 <= theirKeyID kR <= ourKeyID kS;
  h_tcur : theirCurrentDHPubKey kR = Some (pubKey (x (theirKeyID kR)));
  h_tprev : 2 <= theirKeyID kR -> theirPreviousDHPubKey kR = Some (pubKey (x (theirKeyID kR - 1)));
  h_flights : Forall (fun f => 1 <= fl_sender f /\ theirKeyID kR - 1 <= fl_sender f <= ourKeyID kS - 1 /\
                               1 <= fl_recipient f /\ ourKeyID kR - 1 <= fl_recipient f <= theirKeyID kS) q;
  h_order : StronglySorted (fun f g => fl_sender f <= fl_sender g /\ fl_recipient f <= fl_recipient g) q;
  h_counters s r : StronglySorted Z.lt
    (theirCounterOf kR r s :: map fl_ctr (flights_of s r q) ++ [Z.max 1 (ourCounterOf kS s r)]);
  h_bound s r : 0 <= ourCounterOf kS s r <= n + 1 }.

(** What sending under the keys [our] and [their] changes. *)
Definition after_send (k k' : keyManagementContext) (our their : Z) : Prop :=
  ourKeyID k' = ourKeyID k /\ theirKeyID k' = theirKeyID k /\
  ourCurrentDHKeys k' = ourCurrentDHKeys k /\ ourPreviousDHKeys k' = ourPreviousDHKeys k /\
  theirCurrentDHPubKey k' = theirCurrentDHPubKey k /\ theirPreviousDHPubKey k' = theirPreviousDHPubKey k /\
  (forall o t, theirCounterOf k' o t = theirCounterOf k o t) /\
  (forall o t, ourCounterOf k' o t =
     if (o =? our) && (t =? their) then u64 (nextCounter k our their + 1) else ourCounterOf k o t).

(** What receiving a message changes: [x] are the exponents of its sender and
    [y] those of the receiver. *)
Definition after_receive (x y : Z -> Z) (k k' : keyManagementContext) (f : flight) : Prop :=
  (forall o t, ourCounterOf k' o t = ourCounterOf k o t) /\
  (forall o t, theirCounterOf k' o t =
     if (o =? fl_recipient f) && (t =? fl_sender f) then fl_ctr f else theirCounterOf k o t) /\
  (if fl_recipient f =? ourKeyID k
   then ourKeyID k' = ourKeyID k + 1 /\ ourPreviousDHKeys k' = ourCurrentDHKeys k /\
        ourCurrentDHKeys k' = keyPair (y (ourKeyID k + 1))
   else ourKeyID k' = ourKeyID k /\ ourPreviousDHKeys k' = ourPreviousDHKeys k /\
        ourCurrentDHKeys k' = ourCurrentDHKeys k) /\
  (if fl_sender f =? theirKeyID k
   then theirKeyID k' = theirKeyID k + 1 /\ theirPreviousDHPubKey k' = theirCurrentDHPubKey k /\
        theirCurrentDHPubKey k' = Some (pubKey (x (fl_sender f + 1)))
   else theirKeyID k' = theirKeyID k /\ theirPreviousDHPubKey k' = theirPreviousDHPubKey k /\
        theirCurrentDHPubKey k' = theirCurrentDHPubKey k).

(** ** Lemmas on one direction *)

Lemma flights_of_app s r q q' : flights_of s r (q ++ q') = flights_of s r q ++ flights_of s r q'.
Proof. apply List.filter_app. Qed.

Lemma sorted_snoc {A} (R : relation A) l a : StronglySorted R (l ++ [a]) <-> StronglySorted R l /\ Forall (fun b => R b a) l.
Proof.
  induction l as [|b l IH]; simpl; [split; repeat constructor|].
  rewrite !StronglySorted_cons, IH, Forall_app, !Forall_cons, Forall_nil. clear IH. tauto.
Qed.

Lemma nextCounter_max k our their : 0 <= ourCounterOf k our their -> nextCounter k our their = Z.max 1 (ourCounterOf k our their).
Proof. intros. unfold nextCounter. split_cmp; lia. Qed.

Lemma half_mono n n' x kS kR q : half n x kS kR q -> n <= n' -> half n' x kS kR q.
Proof. intros [] Hn. constructor; try done; intros; try lia. specialize (h_bound0 s r). lia. Qed.

(** The sender's side of a send. *)
Lemma half_send n x kS kS' kR q f :
  half n x kS kR q -> n + 2 < 2 ^ 64 ->
  fl_sender f = ourKeyID kS - 1 -> fl_recipient f = theirKeyID kS -> fl_ctr f = nextCounter kS (fl_sender f) (fl_recipient f) ->
  1 <= theirKeyID kS -> ourKeyID kR - 1 <= theirKeyID kS ->
  after_send kS kS' (fl_sender f) (fl_recipient f) ->
  half (n + 1) x kS' kR (q ++ [f]).
Proof.
  intros Hh Hn Hs Hr Hc Ht1 Ht2 (Eo & Et & Ec & Ep & _ & _ & _ & Eoc). destruct Hh.
  constructor; rewrite ?Eo, ?Et, ?Ec, ?Ep; try done; try lia.
  - apply Forall_app. split; [done|]. constructor; [|done]. lia.
  - apply sorted_snoc. split; [done|]. eapply Forall_impl; [exact h_flights0|]. simpl. lia.
  - intros s r. rewrite flights_of_app, map_app, Eoc. specialize (h_counters0 s r).
    specialize (h_bound0 s r). unfold flights_of at 2. cbn [List.filter].
    rewrite (Z.eqb_sym (fl_sender f)), (Z.eqb_sym (fl_recipient f)).
    destruct ((s =? fl_sender f) && (r =? fl_recipient f)) eqn:E; [|by rewrite app_nil_r].
    apply andb_true_iff in E as [->%Z.eqb_eq ->%Z.eqb_eq].
    rewrite nextCounter_max in * by lia. unfold u64. rewrite Z.mod_small by lia.
    cbn [map]. rewrite Hc, app_comm_cons. apply sorted_snoc. split; [done|].
    rewrite app_comm_cons in h_counters0. apply sorted_snoc in h_counters0 as [_ Hlt].
    rewrite app_comm_cons. apply Forall_app. split; [|constructor; [lia|done]].
    eapply Forall_impl; [exact Hlt|]. simpl. lia.
  - intros s r. rewrite Eoc. specialize (h_bound0 s r).
    destruct ((s =? fl_sender f) && (r =? fl_recipient f)) eqn:E; [|lia].
    apply andb_true_iff in E as [->%Z.eqb_eq ->%Z.eqb_eq].
    rewrite nextCounter_max by lia. unfold u64. rewrite Z.mod_small by lia. lia.
Qed.

(** The other direction does not notice a send. *)
Lemma half_sent n x kS kR kR' q our their :
  half n x kS kR q -> after_send kR kR' our their -> half (n + 1) x kS kR' q.
Proof.
  intros Hh (Eo & Et & _ & _ & Ec & Ep & Etc & _). destruct Hh.
  constructor; rewrite ?Eo, ?Et, ?Ec, ?Ep; try done; try lia.
  - intros s r. by rewrite Etc.
  - intros s r. specialize (h_bound0 s r). lia.
Qed.

(** The receiver's side of a delivery. *)
Lemma half_receive n x y kS kR kR' f q :
  half n x kS kR (f :: q) -> after_receive x y kR kR' f -> half (n + 1) x kS kR' q.
Proof.
  intros Hh (Eoc & Etc & Hown & Htheir). destruct Hh.
  apply Forall_cons in h_flights0 as [Hf Hq]. apply StronglySorted_cons in h_order0 as [Hle Hsort].
  assert (Forall (fun g => 1 <= fl_sender g /\ theirKeyID kR' - 1 <= fl_sender g <= ourKeyID kS - 1 /\
                           1 <= fl_recipient g /\ ourKeyID kR' - 1 <= fl_recipient g <= theirKeyID kS) q) as Hq'.
  { rewrite Forall_forall in Hq, Hle |- *. intros g Hg. specialize (Hq g Hg). specialize (Hle g Hg). simpl in *.
    destruct (Z.eqb_spec (fl_sender f) (theirKeyID kR)), (Z.eqb_spec (fl_recipient f) (ourKeyID kR)); lia. }
  constructor; try done; try lia.
  - destruct (Z.eqb_spec (fl_sender f) (theirKeyID kR)); lia.
  - destruct (Z.eqb_spec (fl_sender f) (theirKeyID kR)) as [E|]; destruct Htheir as (Ei & Ep & Ec); rewrite Ei, Ec; [|done].
    by rewrite E.
  - destruct (Z.eqb_spec (fl_sender f) (theirKeyID kR)) as [E|]; destruct Htheir as (Ei & Ep & Ec); rewrite Ei, Ep; [|done].
    intros _. by replace (theirKeyID kR + 1 - 1) with (theirKeyID kR) by lia.
  - intros s r. specialize (h_counters0 s r). rewrite Etc. cbn [flights_of List.filter] in h_counters0.
    rewrite (Z.eqb_sym (fl_sender f)), (Z.eqb_sym (fl_recipient f)), andb_comm in h_counters0.
    destruct ((r =? fl_recipient f) && (s =? fl_sender f)); [|done].
    apply StronglySorted_inv in h_counters0 as [Hss _]. exact Hss.
  - intros s r. specialize (h_bound0 s r). lia.
Qed.

(** The receiver's own keys after a delivery: it rotates only once its peer
    knows its newest key. *)
Lemma half_received n x y kS kR kS' f q q' :
  half n x kS kR q -> half n y kR kS (f :: q') -> after_receive y x kS kS' f -> half (n + 1) x kS' kR q.
Proof.
  intros Hh Hh' (Eoc & Etc & Hown & Htheir). destruct Hh.
  apply h_flights in Hh' as Hf'. apply Forall_cons in Hf' as [Hf _].
  assert (theirKeyID kS <= theirKeyID kS') as Hmono by (destruct (Z.eqb_spec (fl_sender f) (theirKeyID kS)); lia).
  assert (Forall (fun g => 1 <= fl_sender g /\ theirKeyID kR - 1 <= fl_sender g <= ourKeyID kS' - 1 /\
                           1 <= fl_recipient g /\ ourKeyID kR - 1 <= fl_recipient g <= theirKeyID kS') q) as Hq'.
  { eapply Forall_impl; [exact h_flights0|]. intros g Hg. simpl in *.
    destruct (Z.eqb_spec (fl_recipient f) (ourKeyID kS)); lia. }
  destruct (Z.eqb_spec (fl_recipient f) (ourKeyID kS)) as [E|]; destruct Hown as (Ei & Ep & Ec).
  - constructor; rewrite ?Ei, ?Ep, ?Ec; try done; try lia.
    + by replace (ourKeyID kS + 1 - 1) with (ourKeyID kS) by lia.
    + by rewrite Ei in Hq'.
    + intros s r. by rewrite Eoc.
    + intros s r. rewrite Eoc. specialize (h_bound0 s r). lia.
  - constructor; rewrite ?Ei, ?Ep, ?Ec; try done; try lia.
    + by rewrite Ei in Hq'.
    + intros s r. by rewrite Eoc.
    + intros s r. rewrite Eoc. specialize (h_bound0 s r). lia.
Qed.

End Keys.

(** ** The two conversations *)

Section Conversations.
Context `{DHGroup} `{CryptoLaws}.
Variable v : otrVersion.

(** The random bytes a conversation reads for its keys [i], [i+1], ... *)
Definition tape (x : Z -> Z) (i : Z) (m : nat) : list byte :=
  concat (map (fun j => be_encode 40 (x j)) (seqZ i (Z.of_nat m))).

(** What the session needs of a conversation besides the keys; [n] messages
    are behind it and [m] new keys are on its tape. *)
Record peer (n : Z) (m : nat) (x : Z -> Z) (c : Conversation) : Prop := {
  p_state : c_msgState c = encrypted;
  p_version : c_version c = Some v;
  p_macs : macs_ok n (c_keys c);
  p_tape : c_Rand c = tape x (ourKeyID (c_keys c) + 1) m }.

(** Both know each other's instance tag. *)
Definition tags_synced (a b : Conversation) : Prop :=
  v = otrV3 ->
  minValidInstanceTag <= c_ourInstanceTag a < 2 ^ 32 /\ minValidInstanceTag <= c_ourInstanceTag b < 2 ^ 32 /\
  c_theirInstanceTag a = c_ourInstanceTag b /\ c_theirInstanceTag b = c_ourInstanceTag a.

Definition dataHeader (c : Conversation) : list byte :=
  headerOf v (c_ourInstanceTag c) (c_theirInstanceTag c) msgTypeData.

(** The data message a flight is made of. *)
Definition flightMessage (hdr : list byte) (x y : Z -> Z) (old : list macKey) (flag : Z) (f : flight) : dataMsg :=
  let s := fl_sender f in
  let r := fl_recipient f in
  let ctr := be_encode 8 (fl_ctr f) in
  let ks := calculateDHSessionKeys (x s) (pubKey (x s)) (pubKey (y r)) v in
  dataMsg_sign (DataMsg (z2b flag) s r (pubKey (x (s + 1))) ctr
                  (plainDataMsg_encrypt (PlainDataMsg (fl_text f) []) (sendingAESKey ks) ctr) [] old None)
    (sendingMACKey ks) hdr v.

Definition flight_ok (hdr : list byte) (x y : Z -> Z) (f : flight) : Prop :=
  exists old flag, fl_wire f = hdr ++ dataMsg_serialize (flightMessage hdr x y old flag f) v /\
    Forall (fun key => length key = 20%nat) old /\ len (concat old) < 2 ^ 32 /\
    text_ok (fl_text f) /\ 1 <= fl_ctr f < 2 ^ 64.

Record linked (n : Z) (ma mb : nat) (x y : Z -> Z) (a b : Conversation) (ab ba : list flight) : Prop := {
  l_a : peer n ma x a;
  l_b : peer n mb y b;
  l_ab : half n x (c_keys a) (c_keys b) ab;
  l_ba : half n y (c_keys b) (c_keys a) ba;
  l_tags : tags_synced a b;
  l_wires_ab : Forall (flight_ok (dataHeader a) x y) ab;
  l_wires_ba : Forall (flight_ok (dataHeader b) y x) ba }.

Lemma linked_sym n ma mb x y a b ab ba : linked n ma mb x y a b ab ba -> linked n mb ma y x b a ba ab.
Proof. intros []. constructor; try done. intros Hv. specialize (l_tags0 Hv). tauto. Qed.

(** The group is fit for the wire format, and the exponents are 40 bytes. *)
Variable N : Z.
Hypothesis N_bound : 0 <= N < 2 ^ 24.
Definition group_fits : Prop := 0 < dh_p < 256 ^ Z.of_nat 1000.
Hypothesis p_fits : group_fits.

Lemma group_nz : dh_p <> 0.
Proof. destruct p_fits. lia. Qed.

Definition exponents_ok (x : Z -> Z) : Prop := forall i, 0 <= x i < 256 ^ Z.of_nat 40.

(** No public key of one peer is one of the other: the keys tell the two ends
    apart. *)
Definition keys_apart (x y : Z -> Z) : Prop :=
  forall i j, 1 <= i <= N + 3 -> 1 <= j <= N + 3 -> pubKey (x i) <> pubKey (y j).

Lemma keys_apart_sym x y : keys_apart x y -> keys_apart y x.
Proof. intros Ha i j Hi Hj E. by apply (Ha j i Hj Hi). Qed.

Lemma pubKey_mpi x : mpi_ok (pubKey x).
Proof.
  unfold mpi_ok, pubKey. rewrite modExp_spec by apply group_nz. destruct p_fits.
  pose proof (Z.mod_pos_bound (dh_g1 ^ x) dh_p). split; [lia|].
  assert (length (Bytes (dh_g1 ^ x mod dh_p)) <= 1000)%nat by (apply length_Bytes; lia).
  unfold len. lia.
Qed.

Lemma tape_step x i m : exponents_ok x ->
  randSizedMPI (tape x i (S m)) 40 = (Ok (x i), tape x (i + 1) m).
Proof.
  intros Hx. unfold tape. rewrite seqZ_cons by lia. cbn [map concat].
  replace (Z.pred (Z.of_nat (S m))) with (Z.of_nat m) by lia. replace (Z.succ i) with (i + 1) by lia.
  unfold randSizedMPI, randomInto. rewrite length_app, length_be_encode.
  destruct (Nat.leb_spec 40 (40 + length (concat (map (fun j => be_encode 40 (x j)) (seqZ (i + 1) (Z.of_nat m)))))); [|lia].
  rewrite take_app_length', drop_app_length' by (by rewrite length_be_encode).
  unfold SetBytes. by rewrite be_decode_encode_small.
Qed.

Lemma tags_synced_ok a b : tags_synced a b -> tags_ok v a b.
Proof.
  intros Ht. destruct v eqn:E; [done|]. destruct (Ht E) as (Ha & Hb & Hta & Htb).
  split; [done|]. rewrite Hta, Htb. split; [by right|by right].
Qed.

(** The keys both ends look up for a message under way. *)
Lemma pickOur_at n x kS kR q id :
  half n x kS kR q -> n <= N -> ourKeyID kS - 1 <= id <= ourKeyID kS ->
  pickOurKeys kS id = Ok (Some (x id), Some (pubKey (x id))).
Proof.
  intros [] Hn Hid. unfold pickOurKeys, u32. rewrite Z.mod_small by lia.
  destruct (Z.eqb_spec id 0); [lia|]. destruct (Z.eqb_spec (ourKeyID kS) 0); [lia|].
  destruct (Z.eqb_spec id (ourKeyID kS)) as [->|]; simpl; [by rewrite h_cur0|].
  destruct (Z.eqb_spec id (ourKeyID kS - 1)) as [->|]; [|lia]. by rewrite h_prev0.
Qed.

Lemma pickTheir_at n x kS kR q id :
  half n x kS kR q -> n <= N -> 1 <= id -> theirKeyID kR - 1 <= id <= theirKeyID kR ->
  pickTheirKey kR id = Ok (Some (pubKey (x id))).
Proof.
  intros [] Hn Hid Hid'. unfold pickTheirKey, u32. rewrite Z.mod_small by lia.
  destruct (Z.eqb_spec id 0); [lia|]. destruct (Z.eqb_spec (theirKeyID kR) 0); [lia|].
  destruct (Z.eqb_spec id (theirKeyID kR)) as [->|]; simpl; [by rewrite h_tcur0|].
  destruct (Z.eqb_spec id (theirKeyID kR - 1)) as [->|]; [|lia]. rewrite h_tprev0 by lia. done.
Qed.

Lemma after_send_sentKeys k our their ks : after_send k (sentKeys k our their ks) our their.
Proof.
  unfold sentKeys. destruct (takeOurCounter k our their) as [ctr k'] eqn:E.
  destruct (takeOurCounter_spec _ _ _ _ _ E) as (Hctr & Ho & Ht & Ek).
  assert (ctr = nextCounter k our their) as Ec by done. rewrite Ec in Ho. rewrite Ek. simpl. by split_and!.
Qed.

Lemma macs_ok_send n k our their priv pub theirs :
  macs_ok n k -> macs_ok (n + 1) (sentKeys k our their (calculateDHSessionKeys priv pub theirs v)).
Proof.
  intros (Hh & Ho & Hn). unfold sentKeys, macs_ok, addKeys. simpl. split_and!; [|done|].
  - apply Forall_app. split; [done|]. constructor; [|done]. apply length_receivingMACKey.
  - autorewrite with len. pose proof (len_nonneg (oldMACKeys k)). lia.
Qed.

Lemma len_concat_macs (l : list macKey) : Forall (fun key => length key = 20%nat) l -> len (concat l) = 20 * len l.
Proof. induction 1 as [|key l Hk _ IH]; [done|]. simpl. rewrite len_app, len_cons, IH. unfold len at 1. lia. Qed.

(** One end sends a text. *)
Lemma linked_send n ma mb x y a b ab ba text flag :
  linked n ma mb x y a b ab ba -> n < N -> text_ok text ->
  exists dm extra a' f, genDataMsgWithFlag text flag [] a = Done (Ok (dm, extra), a') /\
    fl_text f = text /\ fl_wire f = dataHeader a ++ dataMsg_serialize dm v /\
    a' = a <| c_keys := c_keys a' |> <| c_resend := c_resend a' |> /\
    linked (n + 1) ma mb x y a' b (ab ++ [f]) ba.
Proof.
  intros [[Hst Hver Hmacs Htape] Hb Hab Hba Htags Hwab Hwba] Hn Htext.
  set (k := c_keys a) in *. set (s := ourKeyID k - 1). set (r := theirKeyID k).
  set (ks := calculateDHSessionKeys (x s) (pubKey (x s)) (pubKey (y r)) v).
  pose proof (h_our _ _ _ _ _ Hab) as Hour. pose proof (h_their _ _ _ _ _ Hba) as Htheir. fold k r in Htheir.
  assert (u32 (ourKeyID k - 1) = s) as Hs by (unfold u32, s; rewrite Z.mod_small; lia).
  pose proof (genDataMsgWithFlag_run a v (x s) (pubKey (x s)) (pubKey (y r)) (pubKey (x (ourKeyID k))) text flag []) as Hrun.
  cbn zeta in Hrun. fold k in Hrun. rewrite Hs in Hrun. fold r ks in Hrun.
  set (f0 := Flight s r (nextCounter k s r) text (dataHeader a ++ dataMsg_serialize (sentMessage v k (dataHeader a) ks s r (pubKey (x (ourKeyID k))) flag (PlainDataMsg text [])) v)).
  exists (sentMessage v k (dataHeader a) ks s r (pubKey (x (ourKeyID k))) flag (PlainDataMsg text [])), (extraKey ks), (sentState a s r ks text), f0.
  split; [apply Hrun; clear Hrun; try done|].
  - intros Hv3. destruct (Htags Hv3) as (Ht & _). unfold minValidInstanceTag in Ht. lia.
  - eapply pickOur_at; [exact Hab|lia|unfold s; lia].
  - eapply pickTheir_at; [exact Hba|lia|fold r; lia|fold r; lia].
  - by rewrite (h_cur _ _ _ _ _ Hab).
  - split; [done|]. split; [done|]. split; [done|].
    pose proof (after_send_sentKeys k s r ks) as Has.
    constructor.
    + constructor; [done|done| |].
      * change (c_keys (sentState a s r ks text)) with (sentKeys k s r ks). by apply macs_ok_send.
      * change (c_keys (sentState a s r ks text)) with (sentKeys k s r ks). destruct Has as [-> _]. exact Htape.
    + destruct Hb as [? ? (Hh & Ho & Hl) ?]. constructor; try done. split_and!; try done. lia.
    + change (c_keys (sentState a s r ks text)) with (sentKeys k s r ks).
      eapply half_send; [exact Hab|lia|done|done|done|fold r; lia|fold r; lia|exact Has].
    + change (c_keys (sentState a s r ks text)) with (sentKeys k s r ks). by eapply half_sent.
    + done.
    + apply Forall_app. split; [exact Hwab|]. constructor; [|done].
      exists (oldMACKeys k), flag. unfold flightMessage. cbn [fl_sender fl_recipient fl_ctr fl_text fl_wire f0].
      replace (s + 1) with (ourKeyID k) by (unfold s; lia). split; [done|].
      destruct Hmacs as (_ & Ho & Hl). split; [done|]. pose proof (len_nonneg (macKeyHistory k)).
      rewrite len_concat_macs by done. split; [lia|]. split; [done|].
      pose proof (h_bound _ _ _ _ _ Hab s r) as Hbd. fold k in Hbd. rewrite nextCounter_max; lia.
    + exact Hwba.
Qed.

Lemma flightMessage_ok hdr x y old flag f :
  0 <= fl_sender f < 2 ^ 32 -> 0 <= fl_recipient f < 2 ^ 32 -> 1 <= fl_ctr f < 2 ^ 64 -> text_ok (fl_text f) ->
  Forall (fun key => length key = 20%nat) old -> len (concat old) < 2 ^ 32 ->
  let dm := flightMessage hdr x y old flag f in
  let ks := calculateDHSessionKeys (x (fl_sender f)) (pubKey (x (fl_sender f))) (pubKey (y (fl_recipient f))) v in
  dataMsg_deserialize (dataMsg_serialize dm v) v = Done (Ok dm) /\ checkSign dm (sendingMACKey ks) hdr v = None.
Proof.
  intros Hs Hr Hc [Hnul Hlen] Hold Hol. unfold flightMessage. apply signed_deserializes; [|done|done|done].
  set (ks := calculateDHSessionKeys _ _ _ _).
  unfold dataMsg_ok. cbn [dm_senderKeyID dm_recipientKeyID dm_y dm_topHalfCtr dm_encryptedMsg].
  split; [done|]. split; [done|]. split; [apply pubKey_mpi|]. split; [apply length_be_encode|].
  rewrite be_decode_encode_small by (change (256 ^ Z.of_nat 8) with (2 ^ 64); lia). split; [lia|].
  pose proof (len_plainDataMsg_encrypt (fl_text f) (sendingAESKey ks) (be_encode 8 (fl_ctr f))). lia.
Qed.

(** The receiver's keys after the counter check, the derivation of the session
    keys and the rotation. *)
Lemma received_keys n x y k k1 f priv pub theirs m rand :
  macs_ok n k -> exponents_ok y -> 0 <= ourKeyID k < 2 ^ 32 - 1 -> 0 <= theirKeyID k < 2 ^ 32 - 1 ->
  checkMessageCounter k (fl_recipient f) (fl_sender f) (fl_ctr f) = (None, k1) ->
  rand = tape y (ourKeyID k + 1) (S m) ->
  let key := receivingMACKey (calculateDHSessionKeys priv pub theirs v) in
  let k2 := k1 <| macKeyHistory := addKeys (macKeyHistory k) (fl_recipient f) (fl_sender f) key |> in
  exists k3 m', rotateKeys k2 (fl_recipient f) (fl_sender f) (pubKey (x (fl_sender f + 1))) rand =
      Done (None, k3, tape y (ourKeyID k3 + 1) m') /\ (m <= m')%nat /\
    after_receive x y k k3 f /\ macs_ok (n + 1) k3.
Proof.
  intros (Hh & Ho & Hn) Hy Hour Htheir Hck -> key k2.
  destruct (checkMessageCounter_spec _ _ _ _ _ _ Hck) as (_ & Htc & Hoc & Ek).
  assert (macs_ok (n + 1) k2) as Hm2.
  { unfold k2, macs_ok, addKeys. rewrite Ek. simpl. split_and!; [|done|].
    - apply Forall_app. split; [done|]. constructor; [apply length_receivingMACKey|done].
    - autorewrite with len. lia. }
  destruct (rotateKeys_run (n + 1) k2 (fl_recipient f) (fl_sender f) (pubKey (x (fl_sender f + 1)))
             (tape y (ourKeyID k + 1) (S m)) (y (ourKeyID k + 1)) (tape y (ourKeyID k + 1 + 1) m) Hm2) as
    (k3 & rand' & Hrot & Hm3 & Hch & Hown & Hth).
  { intros _. by apply tape_step. }
  assert (ourKeyID k2 = ourKeyID k /\ theirKeyID k2 = theirKeyID k) as [Eo Et] by (unfold k2; by rewrite Ek).
  assert (forall o t, ourCounterOf k3 o t = ourCounterOf k o t) as Hoc3
    by (intros; by rewrite <- Hoc, !ourCounterOf_eq, Hch).
  assert (forall o t, theirCounterOf k3 o t = if (o =? fl_recipient f) && (t =? fl_sender f) then fl_ctr f
                                              else theirCounterOf k o t) as Htc3.
  { intros. rewrite theirCounterOf_eq, Hch. change (counterHistory k2) with (counterHistory k1).
    rewrite <- theirCounterOf_eq, Htc. by rewrite andb_true_r. }
  assert (after_receive x y k k3 f) as Har.
  { split; [done|]. split; [done|]. rewrite Eo in Hown. rewrite Et in Hth. unfold u32 in *. split.
    - unfold k2 in Hown. rewrite Ek in Hown. simpl in Hown.
      destruct (fl_recipient f =? ourKeyID k); [|tauto]. rewrite Z.mod_small in Hown by lia. tauto.
    - unfold k2 in Hth. rewrite Ek in Hth. simpl in Hth.
      destruct (fl_sender f =? theirKeyID k); [|tauto]. rewrite Z.mod_small in Hth by lia. tauto. }
  destruct Har as (Ha1 & Ha2 & Ha3 & Ha4).
  exists k3, (if fl_recipient f =? ourKeyID k then m else S m). split; [|split; [|done]].
  - rewrite Hrot. do 2 f_equal. rewrite Eo in Hown.
    destruct (fl_recipient f =? ourKeyID k); destruct Hown as (_ & _ & _ & ->); destruct Ha3 as (-> & _); done.
  - clear. destruct (fl_recipient f =? ourKeyID k); [reflexivity|apply Nat.le_succ_diag_r].
Qed.

(** The conversation after the message [f], its keys being [k3]. *)
Definition receivedState (y : Z -> Z) (f : flight) (b : Conversation) (k3 : keyManagementContext) (mb : nat) : Conversation :=
  (heartbeatLogged (fl_text f) b) <| c_keys := k3 |> <| c_Rand := tape y (ourKeyID k3 + 1) mb |>.

Lemma linked_received n ma mb mb' x y a b f ab ba k3 :
  linked n ma mb x y a b (f :: ab) ba -> after_receive x y (c_keys b) k3 f -> macs_ok (n + 1) k3 ->
  linked (n + 1) ma mb' x y a (receivedState y f b k3 mb') ab ba.
Proof.
  intros [Ha [Hst Hver Hmacs Htape] Hab Hba Htags Hwab Hwba] Har Hm3. apply Forall_cons in Hwab as [_ Hwab].
  unfold receivedState, heartbeatLogged. constructor.
  - destruct Ha as [? ? (Hh & Ho & Hl) ?]. constructor; try done. split_and!; try done. lia.
  - constructor; [rec_simpl; by destruct (bool_decide _), (c_messageEventHandler b)..|exact Hm3|done].
  - by eapply half_receive.
  - by eapply half_received.
  - intros Hv. specialize (Htags Hv). by destruct (bool_decide _), (c_messageEventHandler b).
  - done.
  - match goal with |- Forall (flight_ok (dataHeader ?c) _ _) _ => replace (dataHeader c) with (dataHeader b); [done|] end.
    unfold dataHeader. by destruct (bool_decide _), (c_messageEventHandler b).
Qed.

(** The other end receives the next message. *)
Lemma linked_receive n ma mb x y a b f ab ba :
  linked n ma (S mb) x y a b (f :: ab) ba -> n < N ->
  exponents_ok x -> exponents_ok y -> keys_apart x y ->
  exists body b' mb', fl_wire f = dataHeader a ++ body /\
    processDataMessage (dataHeader a) body b = Done ((plaintextOf (fl_text f), None, None), b') /\
    b' = (heartbeatLogged (fl_text f) b) <| c_keys := c_keys b' |> <| c_Rand := c_Rand b' |> /\
    (mb <= mb')%nat /\ linked (n + 1) ma mb' x y a b' ab ba.
Proof.
  intros Hlinked Hn Hx Hy Hapart. pose proof Hlinked as [Ha [Hst Hver Hmacs Htape] Hab Hba Htags Hwab Hwba].
  apply Forall_cons in Hwab as [(old & flag & Hwire & Hold & Hol & Htext & Hctr) Hwab].
  pose proof (h_flights _ _ _ _ _ Hab) as Hfl. apply Forall_cons in Hfl as [Hf _].
  pose proof (h_their _ _ _ _ _ Hab) as Hth1. pose proof (h_their _ _ _ _ _ Hba) as Hth2.
  pose proof (h_our _ _ _ _ _ Hab) as Ho1. pose proof (h_our _ _ _ _ _ Hba) as Ho2.
  set (k := c_keys b) in *. set (s := fl_sender f) in *. set (r := fl_recipient f) in *.
  set (dm := flightMessage (dataHeader a) x y old flag f) in *.
  destruct (flightMessage_ok (dataHeader a) x y old flag f) as [Hdes Hsign]; try done; try (fold s r; lia).
  fold dm s r in Hdes, Hsign. set (ks := calculateDHSessionKeys (x s) _ _ v) in Hsign.
  set (ks' := calculateDHSessionKeys (y r) (pubKey (y r)) (pubKey (x s)) v).
  destruct (sessionKeys_agree (x s) (y r) v) as (Haes & _ & Hmac & _); [apply group_nz|apply Hx|apply Hy|apply Hapart; lia|].
  fold (pubKey (x s)) (pubKey (y r)) ks ks' in Haes, Hmac.
  assert (theirCounterOf k r s < fl_ctr f) as Hlt.
  { pose proof (h_counters _ _ _ _ _ Hab s r) as Hss. unfold flights_of in Hss. cbn [List.filter] in Hss.
    fold s r in Hss. rewrite !Z.eqb_refl in Hss. cbn [andb map app] in Hss.
    apply StronglySorted_inv in Hss as [_ Hss]. by inversion Hss. }
  destruct (checkMessageCounter k r s (fl_ctr f)) as [err k1] eqn:Hck.
  assert (err = None) as -> by (destruct (checkMessageCounter_spec _ _ _ _ _ _ Hck) as [Hiff _]; by apply Hiff).
  destruct (received_keys n x y k k1 f (y r) (pubKey (y r)) (pubKey (x s)) mb (c_Rand b)) as
    (k3 & mb' & Hrot & Hmb & Har & Hm3); try done; try lia.
  fold r s ks' in Hrot.
  set (b1 := b <| c_keys := k1 <| macKeyHistory := addKeys (macKeyHistory k) r s (receivingMACKey ks') |> |>).
  assert (processDataMessageWithRawErrors (dataHeader a) (dataMsg_serialize dm v) b =
    afterDecryption dm (pad (PlainDataMsg (fl_text f) [])) ks' v b1) as Hacc.
  { apply (accept_dataMsg b v (dataHeader a) (dataMsg_serialize dm v) dm k1 (y r) (pubKey (y r)) (pubKey (x s))); try done.
    - change (dm_topHalfCtr dm) with (be_encode 8 (fl_ctr f)).
      rewrite be_decode_encode_small by (change (256 ^ Z.of_nat 8) with (2 ^ 64); lia). exact Hck.
    - eapply pickOur_at; [exact Hba|lia|]. change (dm_recipientKeyID dm) with r. fold k. lia.
    - eapply pickTheir_at; [exact Hab|lia| |]; change (dm_senderKeyID dm) with s; fold k; lia.
    - fold ks'. by rewrite <- Hmac.
    - fold ks'. rewrite <- Haes. apply plainDataMsg_decrypts; [|apply len_sendingAESKey].
      split; [apply Htext|constructor]. }
  set (b' := receivedState y f b k3 mb').
  exists (dataMsg_serialize dm v), b', mb'. split; [done|]. split; [|split; [done|split; [done|by eapply linked_received]]].
  assert (processDataMessageWithRawErrors (dataHeader a) (dataMsg_serialize dm v) b =
          Done ((plaintextOf (fl_text f), None, None), b')) as E.
  { rewrite Hacc. rewrite (afterDecryption_text dm (fl_text f) ks' v b1 k3 _ Hrot). unfold b', b1, receivedState, heartbeatLogged.
    clear. destruct (bool_decide _); [|done]. rec_simpl. by destruct (c_messageEventHandler b). }
  unfold processDataMessage. step_done E. by destruct (_ =? _).
Qed.

(** ** [Send] and [Receive] *)

(** The session reads these fields of a conversation. *)
Definition session_view (c : Conversation) :=
  (c_msgState c, c_version c, c_keys c, c_Rand c, (c_ourInstanceTag c, c_theirInstanceTag c)).

Lemma linked_frame n ma mb x y a b a' ab ba :
  linked n ma mb x y a b ab ba -> session_view a' = session_view a -> linked n ma mb x y a' b ab ba.
Proof.
  intros [[] Hb Hab Hba Ht Hwab Hwba] [= E1 E2 E3 E4 E5 E6].
  constructor; unfold dataHeader, tags_synced in *; rewrite ?E3, ?E5, ?E6; try done.
  constructor; by rewrite ?E1, ?E2, ?E3, ?E4.
Qed.

Lemma linked_mono n n' ma mb x y a b ab ba :
  linked n ma mb x y a b ab ba -> n <= n' -> linked n' ma mb x y a b ab ba.
Proof.
  intros [[? ? (? & ? & ?) ?] [? ? (? & ? & ?) ?] Hab Hba Ht Hwab Hwba] Hn.
  constructor; try done; try (by eapply half_mono); constructor; try done; split_and!; try done; lia.
Qed.

(** A conversation with the policies and settings of a plain channel: OTR is
    enabled, messages are not fragmented, nothing waits to be injected. *)
Record ready (c : Conversation) : Prop := {
  r_otr : isOTREnabled (c_Policies c) = true;
  r_debug : c_debug c = false;
  r_fragments : c_fragmentSize c = 0;
  r_injections : c_injections c = [] }.

Definition ready_view (c : Conversation) := (c_Policies c, c_debug c, c_fragmentSize c, c_injections c).

Lemma ready_frame c c' : ready c -> ready_view c' = ready_view c -> ready c'.
Proof. intros [] [= E1 E2 E3 E4]. constructor; by rewrite ?E1, ?E2, ?E3, ?E4. Qed.

Lemma dataHeader_bytes c : exists rest, dataHeader c = [Byte.x00; z2b (protocolVersion v); Byte.x03] ++ rest.
Proof. unfold dataHeader, headerOf. destruct v; [by exists []|]. unfold AppendWord. rewrite <- app_assoc. by eexists. Qed.

Lemma decode_encode m : decode (encode m) = Done (Ok m).
Proof.
  unfold decode, removeOTRMsgEnvelope, encode.
  assert (slice ((msgMarker ++ b64encode m) ++ bs ".") (len msgMarker) (len ((msgMarker ++ b64encode m) ++ bs ".") - 1)
          = Done (b64encode m)) as ->; [|go_simpl; by rewrite b64decode_encode].
  pose proof (len_nonneg (b64encode m)). change (len msgMarker) with 5.
  rewrite !len_app. change (len msgMarker) with 5. change (len (bs ".")) with 1.
  rewrite slice_ok by (rewrite ?len_app; change (len msgMarker) with 5; change (len (bs ".")) with 1; lia).
  rewrite <- app_assoc, drop_app_len by done. rewrite take_app_len; [done|]. unfold len. lia.
Qed.

Lemma guess_data c body : guessMessageType (encode (dataHeader c ++ body)) = msgGuessData.
Proof.
  destruct (dataHeader_bytes c) as [rest ->]. unfold encode. rewrite <- app_assoc. by destruct v.
Qed.

Lemma fragEncode_whole c m : c_fragmentSize c = 0 -> fragEncode m c = Done ([encode m], c).
Proof. intros Hf. unfold fragEncode, fragment. step_state. rewrite Hf, orb_true_r. done. Qed.

Lemma withInjects_none c vms : c_injections c = [] -> exists c', withInjects vms c = Done (vms, c') /\
  session_view c' = session_view c /\ ready_view c' = ready_view c.
Proof.
  intros Hi. unfold withInjects. step_state. rewrite Hi, app_nil_r. eexists. split; [reflexivity|].
  split; [done|]. unfold ready_view. rec_simpl. by rewrite Hi.
Qed.

Lemma linked_Send n ma mb x y a b ab ba text t :
  linked n ma mb x y a b ab ba -> n < N -> text_ok text -> ready a ->
  exists f a', Send text t a = Done (([encode (fl_wire f)], None), a') /\
    fl_text f = text /\ ready a' /\ linked (n + 1) ma mb x y a' b (ab ++ [f]) ba.
Proof.
  intros Hl Hn Htext Hr. destruct (linked_send _ _ _ _ _ _ _ _ _ text messageFlagNormal Hl Hn Htext)
    as (dm & extra & a1 & f & Hgen & Hft & Hfw & Ea1 & Hl1).
  pose proof (l_a _ _ _ _ _ _ _ _ _ Hl) as Hpa. pose proof (l_tags _ _ _ _ _ _ _ _ _ Hl) as Htags.
  assert (ready_view a1 = ready_view a /\ c_version a1 = c_version a /\ dataHeader a1 = dataHeader a /\
          c_ourInstanceTag a1 = c_ourInstanceTag a) as (Erv & Ev & Eh & Eo) by (rewrite Ea1; done).
  assert (ready a1) as Hr1 by (by eapply ready_frame).
  set (a2 := a1 <| c_lastSent := env_now a1 |>).
  destruct (withInjects_none a2 [encode (fl_wire f)] (r_injections _ Hr1)) as (a3 & Hwi & Esv & Erv3).
  exists f, a3. split; [|split; [done|split]].
  - unfold Send. step_state. rewrite (r_otr _ Hr), (r_debug _ Hr). cbn [negb andb]. rewrite (p_state _ _ _ _ Hpa).
    assert (sendMessageOnEncrypted text a = Done (([encode (fl_wire f)], None), a2)) as Es.
    { unfold sendMessageOnEncrypted.
      assert (createSerializedDataMessage text messageFlagNormal [] a = Done (Ok ([encode (fl_wire f)], extra), a2)) as Ec; [|by step_done Ec].
      unfold createSerializedDataMessage. step_done Hgen.
      assert (c_version a1 = Some v) as Hv1 by (rewrite Ev; apply Hpa).
      step_done (theVersion_Some a1 v Hv1).
      assert (v = otrV3 -> c_ourInstanceTag a1 <> 0) as Ht1
        by (intros E3; rewrite Eo; destruct (Htags E3) as (Hmin & _); unfold minValidInstanceTag in Hmin; lia).
      step_done (wrapMessageHeader_ready v a1 msgTypeData (dataMsg_serialize dm v) Hv1 Ht1).
      unfold updateLastSent. rewrite bind_gmod. fold a2. cbn [fst snd].
      fold (dataHeader a1). rewrite Eh, <- Hfw.
      step_done (fragEncode_whole a2 (fl_wire f) (r_fragments _ Hr1)). done. }
    step_done Es. unfold withInjections. cbn [fst snd]. by step_done Hwi.
  - by eapply ready_frame.
  - eapply linked_frame; [exact Hl1|]. by rewrite Esv.
Qed.

Lemma learnTag_synced a b : tags_synced a b -> learnTag v a b = b.
Proof.
  intros Ht. unfold learnTag. destruct v eqn:E; [done|]. destruct (Ht E) as (_ & _ & _ & Hb).
  rewrite <- Hb. by destruct b.
Qed.

(** The reader of a data message gets to its handler. *)
Lemma receiveDecoded_data a b body :
  c_version b = Some v -> tags_synced a b ->
  receiveDecoded (dataHeader a ++ body) b = receiveDataMessage (dataHeader a) body b.
Proof.
  intros Hv Ht. destruct (dataHeader_bytes a) as [rest Eh]. unfold receiveDecoded.
  assert (checkVersion (dataHeader a ++ body) b = Done (Ok tt, b)) as Ec.
  { unfold checkVersion. rewrite Eh.
    replace (([Byte.x00; z2b (protocolVersion v); Byte.x03] ++ rest) ++ body)
      with (SerializeShort (protocolVersion v) ++ (Byte.x03 :: rest) ++ body) by (by destruct v).
    rewrite ExtractShort_Serialize by (by destruct v).
    step_done (commitToVersionFrom_committed b v (versionBit (protocolVersion v)) Hv).
    step_done (theVersion_Some b v Hv). by rewrite Z.eqb_refl. }
  step_done Ec.
  pose proof (parseMessageHeader_accepts v a b msgTypeData body Hv (tags_synced_ok a b Ht)) as Ep.
  cbn zeta in Ep. fold (dataHeader a) in Ep. rewrite (learnTag_synced a b Ht) in Ep.
  step_done Ep. rewrite Eh. done.
Qed.

(** A heartbeat is sent when nothing was for a minute. *)
Lemma linked_heartbeat n ma mb x y a b ab ba plain :
  linked n ma mb x y a b ab ba -> n < N -> ready a ->
  exists hb a', potentialHeartbeat plain a = Done (Ok (fl_wire <$> hb), a') /\
    Forall (fun g => fl_text g = []) (option_list hb) /\ ready a' /\
    linked (n + 1) ma mb x y a' b (ab ++ option_list hb) ba.
Proof.
  intros Hl Hn Hr.
  assert (forall m, m a = Done (Ok (fl_wire <$> None), a) -> exists hb a', m a = Done (Ok (fl_wire <$> hb), a') /\
    Forall (fun g => fl_text g = []) (option_list hb) /\ ready a' /\
    linked (n + 1) ma mb x y a' b (ab ++ option_list hb) ba) as Hnone.
  { intros m Hm. exists None, a. rewrite app_nil_r. split; [done|]. split; [constructor|]. split; [done|].
    eapply linked_mono; [exact Hl|lia]. }
  unfold potentialHeartbeat. destruct plain as [plain|]; [|by apply Hnone].
  step_state. destruct (c_lastSent a <? env_now a - heartbeatInterval); cbn [negb]; [|by apply Hnone]. clear Hnone.
  destruct (linked_send _ _ _ _ _ _ _ _ _ [] messageFlagIgnoreUnreadable Hl Hn)
    as (dm & extra & a1 & f & Hgen & Hft & Hfw & Ea1 & Hl1); [by split; [apply not_elem_of_nil|]|].
  pose proof (l_a _ _ _ _ _ _ _ _ _ Hl) as Hpa. pose proof (l_tags _ _ _ _ _ _ _ _ _ Hl) as Htags.
  assert (ready_view a1 = ready_view a /\ c_version a1 = c_version a /\ dataHeader a1 = dataHeader a /\
          c_ourInstanceTag a1 = c_ourInstanceTag a) as (Erv & Ev & Eh & Eo) by (rewrite Ea1; done).
  step_done Hgen.
  assert (c_version a1 = Some v) as Hv1 by (rewrite Ev; apply Hpa).
  step_done (theVersion_Some a1 v Hv1).
  assert (v = otrV3 -> c_ourInstanceTag a1 <> 0) as Ht1
    by (intros E3; rewrite Eo; destruct (Htags E3) as (Hmin & _); unfold minValidInstanceTag in Hmin; lia).
  step_done (wrapMessageHeader_ready v a1 msgTypeData (dataMsg_serialize dm v) Hv1 Ht1).
  unfold updateLastSent. rewrite bind_gmod. cbn [fst snd]. fold (dataHeader a1). rewrite Eh, <- Hfw.
  set (a2 := a1 <| c_lastSent := env_now a1 |>).
  exists (Some f).
  assert (exists a3, messageEvent MessageEventLogHeartbeatSent [] a2 = Done (tt, a3) /\
            session_view a3 = session_view a1 /\ ready_view a3 = ready_view a1) as (a3 & Hev & Esv & Erv3).
  { unfold messageEvent, logEvent. eexists. split; [reflexivity|]. cbn beta. by destruct (c_messageEventHandler a2). }
  exists a3. split; [by step_done Hev|]. split; [by constructor|]. split.
  - eapply ready_frame; [|exact Erv3]. by eapply ready_frame.
  - by eapply linked_frame.
Qed.

Lemma linked_Receive n ma mb x y a b f ab ba d :
  linked n ma (S mb) x y a b (f :: ab) ba -> n + 1 < N ->
  exponents_ok x -> exponents_ok y -> keys_apart x y -> ready b ->
  exists hb b' mb', Receive (S d) (encode (fl_wire f)) b =
      Done ((plaintextOf (fl_text f), map (fun g => encode (fl_wire g)) hb, None), b') /\
    Forall (fun g => fl_text g = []) hb /\ (mb <= mb')%nat /\ ready b' /\
    linked (n + 2) ma mb' x y a b' ab (ba ++ hb).
Proof.
  intros Hl Hn Hx Hy Hapart Hr.
  destruct (linked_receive _ _ _ _ _ _ _ _ _ _ Hl ltac:(lia) Hx Hy Hapart)
    as (body & b1 & mb' & Hw & Hproc & Eb1 & Hmb & Hl1).
  assert (ready_view b1 = ready_view b) as Erv1.
  { rewrite Eb1. unfold heartbeatLogged. by destruct (bool_decide _), (c_messageEventHandler b). }
  assert (ready b1) as Hr1 by (by eapply ready_frame).
  destruct (linked_heartbeat _ _ _ _ _ _ _ _ _ (plaintextOf (fl_text f)) (linked_sym _ _ _ _ _ _ _ _ _ Hl1) ltac:(lia) Hr1)
    as (hb & b2 & Hhb & Hempty & Hr2 & Hl2).
  replace (n + 1 + 1) with (n + 2) in Hl2 by lia. apply linked_sym in Hl2.
  assert (receiveDataMessage (dataHeader a) body b =
          Done ((plaintextOf (fl_text f), map fl_wire (option_list hb), None), b2)) as Hrecv.
  { unfold receiveDataMessage. step_done Hproc.
    assert (maybeHeartbeat (plaintextOf (fl_text f), None, None) b1 =
            Done ((plaintextOf (fl_text f), map fl_wire (option_list hb), None), b2)) as Em; [|by step_done Em].
    unfold maybeHeartbeat. step_done Hhb. by destruct hb. }
  set (b3 := b2 <| c_fragmentationContext := forgetFragment |>).
  destruct (withInjects_none b3 (map (fun g => encode (fl_wire g)) (option_list hb)) (r_injections _ Hr2)) as (b4 & Hwi & Esv & Erv).
  exists (option_list hb), b4, mb'. split; [|split; [done|split; [done|split]]].
  - unfold Receive. cbn [receiveUnit]. step_state. rewrite (r_otr _ Hr). cbn [negb]. rewrite Hw, guess_data.
    assert (receiveEncoded (encode (dataHeader a ++ body)) b =
            Done ((plaintextOf (fl_text f), map fl_wire (option_list hb), None), b2)) as He.
    { unfold receiveEncoded. rewrite (bind_glift _ _ _ _ (decode_encode _)).
      rewrite receiveDecoded_data; [done|apply Hl|apply Hl]. }
    step_done He. unfold finishUnit. cbn [fst snd]. rewrite bind_gmod. fold b3.
    assert (toSendEncoded (plaintextOf (fl_text f), map fl_wire (option_list hb), None) b3 =
            Done ((plaintextOf (fl_text f), map (fun g => encode (fl_wire g)) (option_list hb), None), b3)) as Ht.
    { destruct hb as [g|]; [|done]. change (option_list (Some g)) with [g]. unfold toSendEncoded. cbn [map].
      assert (exists c l, fl_wire g = c :: l) as (c & l & Eg).
      { apply l_wires_ba in Hl2 as Hwb. apply Forall_app in Hwb as [_ Hwb]. apply Forall_cons in Hwb as [(old & flag & Eg & _) _].
        destruct (dataHeader_bytes b2) as [rest Er]. rewrite Eg, Er. by do 2 eexists. }
      assert (encodeAndCombine [fl_wire g] b3 = Done ([encode (fl_wire g)], b3)) as Ec
        by (cbn [encodeAndCombine]; by step_done (fragEncode_whole b3 (fl_wire g) (r_fragments _ Hr2))).
      rewrite Eg in *. by step_done Ec. }
    step_done Ht. unfold withInjectionsPlain. by step_done Hwi.
  - eapply ready_frame; [|exact Erv]. by eapply ready_frame.
  - apply linked_sym. eapply linked_frame; [by apply linked_sym|]. by rewrite Esv.
Qed.

(** ** The network *)

(** The texts under way; heartbeats carry none. *)
Definition texts (q : list flight) : list (list byte) := omap (fun f => plaintextOf (fl_text f)) q.

Definition wires (q : list flight) : list (list byte) := map (fun f => encode (fl_wire f)) q.

(** The invariant of the network: [sa] and [sb] are the texts sent so far, and
    each peer has at least [m] keys left on its tape. *)
Definition net_inv (n : Z) (m : nat) (x y : Z -> Z) (sa sb : list (list byte)) (w : network) : Prop :=
  exists ma mb ab ba, linked n ma mb x y (net_a w) (net_b w) ab ba /\ (m <= ma)%nat /\ (m <= mb)%nat /\
    ready (net_a w) /\ ready (net_b w) /\ net_ab w = wires ab /\ net_ba w = wires ba /\
    sa = got_b w ++ texts ab /\ sb = got_a w ++ texts ba /\ net_errors w = [].

Definition action_ok (act : action) : Prop :=
  match act with SendA t | SendB t => text_ok t /\ t <> [] | _ => True end.

Lemma texts_app q q' : texts (q ++ q') = texts q ++ texts q'.
Proof. apply omap_app. Qed.

Lemma wires_app q q' : wires (q ++ q') = wires q ++ wires q'.
Proof. apply map_app. Qed.

Lemma texts_empty q : Forall (fun f => fl_text f = []) q -> texts q = [].
Proof. induction 1 as [|f q Hf _ IH]; [done|]. unfold texts in *. cbn. by rewrite Hf. Qed.

Lemma texts_one f : fl_text f <> [] -> texts [f] = [fl_text f].
Proof. intros Hf. unfold texts. cbn. unfold plaintextOf. by rewrite bool_decide_false. Qed.

Lemma texts_cons f q : texts (f :: q) = option_list (plaintextOf (fl_text f)) ++ texts q.
Proof. unfold texts. cbn. by destruct (plaintextOf (fl_text f)). Qed.

(** The network seen from the other side. *)
Definition swap (w : network) : network :=
  Network (net_b w) (net_a w) (net_ba w) (net_ab w) (got_b w) (got_a w) (net_errors w).

Definition swap_action (act : action) : action :=
  match act with
  | SendA m => SendB m | SendB m => SendA m | DeliverA => DeliverB | DeliverB => DeliverA | Tick t => Tick t
  end.

Lemma swap_swap w : swap (swap w) = w.
Proof. by destruct w. Qed.

Lemma net_step_swap w act : net_step (swap w) (swap_action act) = (w' ← net_step w act; mret (swap w')).
Proof.
  destruct act; cbn [net_step swap_action swap net_a net_b net_ab net_ba]; go_simpl.
  - by destruct (Send text [] (net_a w)) as [[[? ?] ?]|].
  - by destruct (Send text [] (net_b w)) as [[[? ?] ?]|].
  - destruct (net_ba w); [done|]. by destruct (Receive 1 _ (net_a w)) as [[[[? ?] ?] ?]|].
  - destruct (net_ab w); [done|]. by destruct (Receive 1 _ (net_b w)) as [[[[? ?] ?] ?]|].
  - done.
Qed.

Lemma net_inv_swap n m x y sa sb w : net_inv n m x y sa sb w -> net_inv n m y x sb sa (swap w).
Proof.
  intros (ma & mb & ab & ba & Hl & Hma & Hmb & Hra & Hrb & Eab & Eba & Esa & Esb & Ee).
  exists mb, ma, ba, ab. split; [by apply linked_sym|]. done.
Qed.

(** One action from the left peer, or a delivery to the right one. *)
Lemma net_step_left n m x y sa sb w act :
  net_inv n (S m) x y sa sb w -> n + 1 < N -> exponents_ok x -> exponents_ok y -> keys_apart x y ->
  action_ok act -> match act with SendA _ | DeliverB | Tick _ => True | _ => False end ->
  exists w', net_step w act = Done w' /\ net_inv (n + 2) m x y (sa ++ sentByA [act]) sb w'.
Proof.
  intros (ma & mb & ab & ba & Hl & Hma & Hmb & Hra & Hrb & Eab & Eba & Esa & Esb & Ee) Hn Hx Hy Hapart Hok Hact.
  destruct act as [t|t| | |t]; try done; cbn [net_step].
  - destruct Hok as [Htext Hne].
    destruct (linked_Send _ _ _ _ _ _ _ _ _ t [] Hl ltac:(lia) Htext Hra) as (f & a' & Hs & Hft & Hra' & Hl').
    rewrite Hs. go_simpl. eexists. split; [reflexivity|].
    exists ma, mb, (ab ++ [f]), ba. split; [apply (linked_mono _ (n + 2)) in Hl'; [exact Hl'|lia]|].
    split; [lia|]. split; [lia|]. split; [done|]. split; [done|].
    split; [by rewrite wires_app, <- Eab|]. split; [done|].
    split; [rewrite Esa, texts_app, texts_one by (by rewrite Hft); by rewrite Hft, <- app_assoc|].
    split; [done|]. cbn. by rewrite Ee.
  - destruct ab as [|f ab].
    + rewrite Eab. cbn [wires map]. eexists. split; [reflexivity|].
      exists ma, mb, [], ba. split; [by apply (linked_mono n); [|lia]|]. rewrite app_nil_r. split_and!; try done; lia.
    + rewrite Eab. cbn [wires map]. destruct mb as [|mb]; [lia|].
      destruct (linked_Receive _ _ _ _ _ _ _ _ _ _ 0 Hl Hn Hx Hy Hapart Hrb) as (hb & b' & mb' & Hr & Hhb & Hmb' & Hrb' & Hl').
      rewrite Hr. go_simpl. eexists. split; [reflexivity|].
      exists ma, mb', ab, (ba ++ hb). split; [done|]. split; [lia|]. split; [lia|]. split; [done|]. split; [done|].
      split; [done|]. split; [by rewrite wires_app, <- Eba|].
      split; [rewrite Esa, texts_cons, app_assoc; apply app_nil_r|].
      split; [by rewrite texts_app, (texts_empty hb Hhb), (app_nil_r (texts ba))|]. cbn. by rewrite Ee.
  - eexists. split; [reflexivity|]. exists ma, mb, ab, ba.
    split; [|split; [lia|]; split; [lia|]; split; [by apply (ready_frame (net_a w))|]; split; [by apply (ready_frame (net_b w))|];
              change (sentByA [Tick t]) with (@nil (list byte)); by rewrite app_nil_r].
    apply (linked_mono n); [|lia]. apply (linked_frame n ma mb x y (net_a w)); [|done].
    apply linked_sym. apply (linked_frame n mb ma y x (net_b w)); [by apply linked_sym|done].
Qed.

Lemma net_step_inv n m x y sa sb w act :
  net_inv n (S m) x y sa sb w -> n + 1 < N -> exponents_ok x -> exponents_ok y -> keys_apart x y -> action_ok act ->
  exists w', net_step w act = Done w' /\ net_inv (n + 2) m x y (sa ++ sentByA [act]) (sb ++ sentByB [act]) w'.
Proof.
  intros Hi Hn Hx Hy Hapart Hok.
  destruct act as [t|t| | |t].
  1, 4, 5: change (sentByB _) with (@nil (list byte)); rewrite (app_nil_r sb); by apply (net_step_left n m x y sa sb w).
  - destruct (net_step_left n m y x sb sa (swap w) (SendA t)) as (w' & Hs & Hi'); try done;
      [by apply net_inv_swap|by apply keys_apart_sym|].
    change (SendA t) with (swap_action (SendB t)) in Hs. rewrite net_step_swap in Hs.
    destruct (net_step w (SendB t)) as [w0|]; [|done]. exists w0. split; [done|].
    injection Hs as <-. apply net_inv_swap in Hi'. rewrite swap_swap in Hi'.
    change (sentByA [SendB t]) with (@nil (list byte)). by rewrite app_nil_r.
  - destruct (net_step_left n m y x sb sa (swap w) DeliverB) as (w' & Hs & Hi'); try done;
      [by apply net_inv_swap|by apply keys_apart_sym|].
    change DeliverB with (swap_action DeliverA) in Hs. rewrite net_step_swap in Hs.
    destruct (net_step w DeliverA) as [w0|]; [|done]. exists w0. split; [done|].
    injection Hs as <-. apply net_inv_swap in Hi'. rewrite swap_swap in Hi'.
    change (sentByA [DeliverA]) with (@nil (list byte)). change (sentByB [DeliverA]) with (@nil (list byte)). rewrite !app_nil_r.
    change (sentByA [DeliverB]) with (@nil (list byte)) in Hi'. by rewrite app_nil_r in Hi'.
Qed.

Lemma net_run_inv acts : forall n x y sa sb w,
  net_inv n (length acts) x y sa sb w -> n + 2 * len acts <= N -> exponents_ok x -> exponents_ok y -> keys_apart x y ->
  Forall action_ok acts ->
  exists w', net_run acts w = Done w' /\
    net_inv (n + 2 * len acts) 0 x y (sa ++ sentByA acts) (sb ++ sentByB acts) w'.
Proof.
  induction acts as [|act acts IH]; intros n x y sa sb w Hi Hn Hx Hy Hapart Hok.
  - exists w. change (sentByA []) with (@nil (list byte)). change (sentByB []) with (@nil (list byte)).
    change (len (@nil action)) with 0. rewrite !app_nil_r. by replace (n + 2 * 0) with n by lia.
  - apply Forall_cons in Hok as [Ha Hok]. rewrite len_cons in *. pose proof (len_nonneg acts).
    destruct (net_step_inv n (length acts) x y sa sb w act) as (w1 & Hs & Hi1); try done; [lia|].
    destruct (IH (n + 2) x y _ _ w1 Hi1) as (w' & Hr & Hi'); try done; [lia|].
    exists w'. cbn [net_run]. rewrite Hs. go_simpl. split; [done|].
    replace (n + 2 * (1 + len acts)) with (n + 2 + 2 * len acts) by lia.
    rewrite <- !app_assoc in Hi'. by destruct act.
Qed.

End Conversations.

(** ** Theorems *)

(** C3: An established session is a reliable channel in both directions.  Two
    peers, [x] and [y] being the secret exponents they draw (of 40 bytes, no public
    value of one being one of the other's, in a group whose values have at most
    1000 bytes), go through any fewer than 2^23 actions: a peer sends a text that is
    not empty, holds no zero byte and is shorter than 2^31 bytes, the oldest message
    under way in one direction is delivered, or time passes and heartbeats are
    sent, in any interleaving.  Messages are not fragmented, debugging is off and
    nothing waits to be injected.  Then no call fails or panics, the texts each peer
    has been given are a prefix of those the other sent, and all of them once
    nothing is under way, across every rotation of the keys. *)
Theorem session_delivers `{DHGroup} `{CryptoLaws} v acts x y w :
  2 * len acts < 2 ^ 24 -> group_fits -> exponents_ok x -> exponents_ok y -> keys_apart (2 * len acts) x y ->
  Forall action_ok acts -> net_inv v 0 (length acts) x y [] [] w ->
  exists w', net_run acts w = Done w' /\ net_errors w' = [] /\
    (exists late, sentByA acts = got_b w' ++ late /\ (net_ab w' = [] -> late = [])) /\
    (exists late, sentByB acts = got_a w' ++ late /\ (net_ba w' = [] -> late = [])).
Proof.
  intros Hn Hfit Hx Hy Hapart Hok Hi. pose proof (len_nonneg acts).
  destruct (net_run_inv v (2 * len acts) ltac:(lia) Hfit acts 0 x y [] [] w Hi ltac:(lia) Hx Hy Hapart Hok)
    as (w' & Hr & ma & mb & ab & ba & _ & _ & _ & _ & _ & Eab & Eba & Esa & Esb & Ee).
  exists w'. split; [done|]. split; [done|]. split.
  - exists (texts ab). split; [done|]. rewrite Eab. by destruct ab.
  - exists (texts ba). split; [done|]. rewrite Eba. by destruct ba.
Qed.

(** Two peers right after a key exchange, in the small group: all exponents of
    the first are 1, all those of the second 2. *)
Definition example_keys (own theirs : Z) : keyManagementContext :=
  KeyManagementContext 2 1 (@keyPair small_group own) (@keyPair small_group own)
    (Some (@pubKey small_group theirs)) None [] [] [].

Definition example_peer (tag theirTag own theirs : Z) (m : nat) : Conversation :=
  (new_conversation (Some otrV3) allowV3 [] (tape (fun _ => own) 3 m) 0 0)
    <| c_msgState := encrypted |> <| c_keys := example_keys own theirs |>
    <| c_ourInstanceTag := tag |> <| c_theirInstanceTag := theirTag |>.

Definition example_network (m : nat) : network :=
  Network (example_peer 0x1234 0x5678 1 2 m) (example_peer 0x5678 0x1234 2 1 m) [] [] [] [] [].

Definition example_actions : list action :=
  [SendA (bs "hello"); SendA (bs "there"); DeliverB; SendB (bs "hi"); Tick (61 * secondNs);
   DeliverB; DeliverA; DeliverA; SendA (bs "bye"); DeliverB; DeliverB].

Lemma example_half own theirs : @half small_group 0 (fun _ => own) (example_keys own theirs) (example_keys theirs own) [].
Proof.
  constructor; [cbn; lia|done|done|cbn; lia|done|cbn; lia|constructor|constructor| |]; intros s r; cbn; [repeat constructor|lia].
Qed.

Lemma example_peer_ok tag theirTag own theirs m :
  @peer otrV3 0 m (fun _ => own) (example_peer tag theirTag own theirs m).
Proof. constructor; [done|done| |done]. split_and!; [apply List.Forall_nil|apply List.Forall_nil|vm_compute; congruence]. Qed.

Lemma session_delivers_witness : exists w',
  @net_run small_group toy_crypto example_actions (example_network (length example_actions)) = Done w' /\ net_errors w' = [] /\
  (exists late, sentByA example_actions = got_b w' ++ late /\ (net_ab w' = [] -> late = [])).
Proof.
  destruct (@session_delivers small_group toy_crypto toy_crypto_laws otrV3 example_actions (fun _ => 1) (fun _ => 2)
              (example_network (length example_actions))) as (w' & Hr & He & Ha & _).
  - reflexivity.
  - split; vm_compute; reflexivity.
  - intros i. split; vm_compute; congruence.
  - intros i. split; vm_compute; congruence.
  - intros i j _ _. vm_compute. congruence.
  - repeat constructor; first [concrete_notin|vm_compute; congruence].
  - exists (length example_actions), (length example_actions), [], [].
    split; [|repeat split; reflexivity].
    constructor; [apply example_peer_ok|apply example_peer_ok|apply example_half|apply example_half| |constructor|constructor].
    intros _. vm_compute. intuition congruence.
  - exists w'. split; [exact Hr|]. split; [exact He|exact Ha].
Defined.
