(* ===== verification/AkeExchange.v ===== *)
(** * The key exchange between two honest peers

    The four messages of the exchange, from the commitment of one peer to the
    signature of the other, delivered between two conversations: both end up
    encrypted, with the same session id, each with the other's long-term key,
    and with the keys of an established session. *)

From S2P Require Import Prelude GoLib Gotrax Policy Crypto KeyManagement Messages Smp Keys Conversation Fragmentation SmpMachine DataMessage Ake Receive Session.

Section Exchange.
Context `{DHGroup} `{CryptoLaws} (valid : dsa_PrivateKey -> Prop) `{!DsaLaws valid}.
Variable v : otrVersion.

(** ** The encrypted signature *)

Lemma fixedSize_16 key : len key = 16 -> fixedSize (keyLength v) key = key.
Proof. intros Hk. unfold fixedSize. rewrite Hk. by destruct v. Qed.

Lemma encrypted_or_zero_run key data c : len key = 16 -> 16 <= len data ->
  encrypted_or_zero key data c = Done (XORKeyStream key (zeroes 16) data, c).
Proof.
  intros Hk Hd. unfold encrypted_or_zero, encrypt.
  rewrite slice_ok by (rewrite ?len_zeroes; unfold len in *; lia). go_simpl.
  unfold counterEncipher. by rewrite Hk.
Qed.

Lemma decrypt_run key data : len key = 16 -> decrypt key (XORKeyStream key (zeroes 16) data) = Ok data.
Proof. intros Hk. unfold decrypt, counterEncipher. rewrite Hk. simpl. by rewrite XORKeyStream_involutive. Qed.

(** A key pair whose public part fits the wire format and whose signatures
    verify. *)
Definition goodKey (sk : PrivateKey) : Prop :=
  public_ok (sk_DSAPublicKey sk) /\ len (DSAPublicKey_serialize (sk_DSAPublicKey sk)) < 2 ^ 31 /\
  dsa_pub (sk_PrivateKey sk) = sk_DSAPublicKey sk /\ valid (sk_PrivateKey sk).

(** Signing [hashed] succeeds on the reader [rnd] and leaves [rnd'] of it. *)
Definition signs (sk : PrivateKey) (hashed rnd rnd' : list byte) : Prop :=
  exists r s, dsa_sign (sk_PrivateKey sk) hashed rnd = (Ok (r, s), rnd').

(** What is signed: the exchanged values with the key and its identifier. *)
Definition signedHash (key : akeKeys) (our their : Z) (sk : PrivateKey) (id : Z) : list byte :=
  sumHMAC (akeKeys_m1 key) (appendAll our their (PublicKey_of sk) id) v.

Lemma Sign_run sk rnd rnd' mb : goodKey sk -> signs sk mb rnd rnd' ->
  exists sig, Sign sk rnd mb = Done (Ok sig, rnd') /\ len sig = 40 /\
    forall addr, Verify (PublicKeyAt addr (sk_DSAPublicKey sk)) mb sig = ([], true).
Proof.
  intros (_ & _ & Hpub & Hv) (r & s & Hrs).
  destruct (dsa_sign_range _ _ _ _ _ _ Hv Hrs) as [Hr Hss].
  pose proof (Sign_layout _ _ _ _ _ _ Hrs Hr Hss) as HS. eexists. split; [exact HS|].
  assert (forall addr, len (be_encode 20 r ++ be_encode 20 s) = 40 /\
     Verify (PublicKeyAt addr (sk_DSAPublicKey sk)) mb ((be_encode 20 r ++ be_encode 20 s) ++ []) = ([], true)) as Hver
    by (intros addr; by eapply Sign_verifies).
  rewrite app_nil_r in Hver. split; [apply (Hver 0)|]. intros addr. apply Hver.
Qed.

(** The ciphertext [esig] holds the key of [sk], the identifier [id] and a
    valid signature of the exchanged values. *)
Definition signed_ok (key : akeKeys) (our their : Z) (sk : PrivateKey) (id : Z) (esig : list byte) : Prop :=
  exists sig, esig = XORKeyStream (akeKeys_c key) (zeroes 16)
                (DSAPublicKey_serialize (sk_DSAPublicKey sk) ++ SerializeWord id ++ sig) /\ len sig = 40 /\
    forall addr, Verify (PublicKeyAt addr (sk_DSAPublicKey sk)) (signedHash key our their sk id) sig = ([], true).

Lemma generateEncryptedSignature_run c a sk key our their rnd' :
  c_version c = Some v -> c_ake c = Some a -> c_ourCurrentKey c = Some sk ->
  ake_ourPublicValue a = Some our -> ake_theirPublicValue a = Some their -> len (akeKeys_c key) = 16 ->
  goodKey sk -> signs sk (signedHash key our their sk (ourKeyID (ake_keys a))) (c_Rand c) rnd' ->
  exists esig, generateEncryptedSignature key c = Done (Ok (AppendData [] esig), c <| c_Rand := rnd' |>) /\
    len esig < 2 ^ 32 /\ signed_ok key our their sk (ourKeyID (ake_keys a)) esig.
Proof.
  intros Hv Ha Hk Ho Ht Hkey Hgood Hsig. set (id := ourKeyID (ake_keys a)).
  set (mb := signedHash key our their sk id).
  destruct (Sign_run sk (c_Rand c) rnd' mb Hgood Hsig) as (sig & HS & Hl & Hver).
  set (data := DSAPublicKey_serialize (sk_DSAPublicKey sk) ++ SerializeWord id ++ sig).
  exists (XORKeyStream (akeKeys_c key) (zeroes 16) data).
  assert (len (SerializeWord id) = 4) as Hw by (unfold SerializeWord; by autorewrite with len).
  assert (len data = len (DSAPublicKey_serialize (sk_DSAPublicKey sk)) + 44) as Hd by (unfold data; rewrite !len_app, Hw; lia).
  pose proof (len_nonneg (DSAPublicKey_serialize (sk_DSAPublicKey sk))) as Hnn.
  split; [|split; [unfold len; rewrite length_XORKeyStream; fold (len data); destruct Hgood as (_ & Hb & _); lia|]].
  2:{ exists sig. split; [done|]. split; [done|exact Hver]. }
  unfold generateEncryptedSignature. step_done (theAke_Some c a Ha). step_state. rewrite Ho, Ht, Hk.
  rewrite (bind_glift _ our _ _ eq_refl), (bind_glift _ their _ _ eq_refl), (bind_glift _ sk _ _ eq_refl).
  step_done (theVersion_Some c v Hv). fold id. fold (signedHash key our their sk id). fold mb.
  assert (calcXb key mb c = Done (Ok (XORKeyStream (akeKeys_c key) (zeroes 16) data), c <| c_Rand := rnd' |>)) as Hx; [|by step_done Hx].
  unfold calcXb. step_state. rewrite Hk, (bind_glift _ sk _ _ eq_refl). step_done (theAke_Some c a Ha).
  set (c1 := c <| c_Rand := rnd' |>).
  assert (withRand (fun rand => Sign sk rand mb) c = Done (Ok sig, c1)) as Hsg by (unfold withRand; by rewrite HS).
  step_done Hsg. step_done (theVersion_Some c1 v Hv). rewrite fixedSize_16 by done. fold id.
  assert ((AppendWord (PublicKey_serialize (PublicKey_of sk)) id ++ sig) = data) as ->
    by (unfold data, AppendWord; by rewrite <- app_assoc).
  step_done (encrypted_or_zero_run (akeKeys_c key) data c1 Hkey ltac:(lia)). done.
Qed.

Lemma len_sumHMAC key data : len (sumHMAC key data v) = 32.
Proof. unfold sumHMAC, hmac, len. by rewrite hash2_length. Qed.

(** The key the signature names, stored at a fresh address. *)
Definition learnKey (sk : PrivateKey) (c : Conversation) : Conversation :=
  c <| c_theirKey := Some (PublicKeyAt (env_fresh c) (sk_DSAPublicKey sk)) |> <| env_fresh := env_fresh c + 1 |>.

Lemma processEncryptedSig_run c a sk key our their id esig :
  c_version c = Some v -> c_ake c = Some a -> ake_theirPublicValue a = Some our -> ake_ourPublicValue a = Some their ->
  len (akeKeys_c key) = 16 -> goodKey sk -> 0 <= id < 2 ^ 32 -> signed_ok key our their sk id esig ->
  processEncryptedSig esig (take 20 (sumHMAC (akeKeys_m2 key) (AppendData [] esig) v)) key c =
  Done (Ok tt, (learnKey sk c) <| c_ake := Some (a <| ake_keys := (ake_keys a) <| theirKeyID := id |> |>) |>).
Proof.
  intros Hv Ha Ht Ho Hkey Hgood Hid (sig & -> & Hl & Hver). set (esig := XORKeyStream _ _ _).
  unfold processEncryptedSig. step_done (theVersion_Some c v Hv).
  assert (verifyEncryptedSignatureMAC esig (take 20 (sumHMAC (akeKeys_m2 key) (AppendData [] esig) v)) key v = Done None) as Hm.
  { unfold verifyEncryptedSignatureMAC.
    destruct (truncate_mac v (sumHMAC (akeKeys_m2 key) (AppendData [] esig) v)) as [-> _]; [rewrite len_sumHMAC; lia|].
    go_simpl. by rewrite bool_decide_true. }
  rewrite (bind_glift _ _ _ _ Hm). rewrite fixedSize_16 by done. unfold esig. rewrite decrypt_run by done.
  set (c1 := learnKey sk c).
  assert (parseTheirKey (DSAPublicKey_serialize (sk_DSAPublicKey sk) ++ SerializeWord id ++ sig) c = Done (Ok (sig, id), c1)) as Hp.
  { unfold parseTheirKey. step_state. rewrite ParsePublicKey_serialize by apply Hgood. step_state.
    by rewrite ExtractWord_Serialize. }
  step_done Hp. cbn [fst snd].
  set (mb := signedHash key our their sk id).
  assert (expectedMessageHMAC id key c1 = Done (mb, c1)) as He.
  { unfold expectedMessageHMAC. step_done (theAke_Some c1 a Ha). step_state. rewrite Ht, Ho.
    rewrite (bind_glift _ our _ _ eq_refl), (bind_glift _ their _ _ eq_refl), (bind_glift _ (PublicKeyAt (env_fresh c) (sk_DSAPublicKey sk)) _ _ eq_refl).
    by step_done (theVersion_Some c1 v Hv). }
  step_done He.
  assert (checkedSignatureVerification mb sig c1 = Done (Ok tt, c1)) as Hc.
  { unfold checkedSignatureVerification. step_state.
    rewrite (bind_glift _ (PublicKeyAt (env_fresh c) (sk_DSAPublicKey sk)) _ _ eq_refl). fold mb in Hver. by rewrite Hver. }
  step_done Hc. by step_done (modAkeKeys_Some (fun k => k <| theirKeyID := id |>) c1 a Ha).
Qed.

(** ** The commitment *)

Definition gxBytes (x : Z) : list byte := AppendMPI [] (pubKey x).
Definition encryptedGx (x : Z) (r : list byte) : list byte := XORKeyStream r (zeroes 16) (gxBytes x).
Definition header (c : Conversation) (t : Z) : list byte := headerOf v (c_ourInstanceTag c) (c_theirInstanceTag c) t.

(** A secret exponent of 40 bytes whose public value is a group element with
    enough bytes to be encrypted. *)
Definition exponent_ok (x : Z) : Prop :=
  0 <= x < 256 ^ Z.of_nat 40 /\ mpi_ok (pubKey x) /\ 16 <= len (gxBytes x) < 2 ^ 32 /\ isGroupElement (pubKey x) = true.

(** The exchange of the initiator after its commitment. *)
Definition committed (x : Z) (r : list byte) : ake :=
  Ake (Some x) (Some (pubKey x)) None r (encryptedGx x r) [] no_akeKeys no_akeKeys authStateAwaitingDHKey empty_keys 0.

Lemma randMPI_run c x rest : 0 <= x < 256 ^ Z.of_nat 40 -> c_Rand c = be_encode 40 x ++ rest ->
  conv_randMPI 40 c = Done (Ok x, c <| c_Rand := rest |>).
Proof.
  intros Hx Hr. unfold conv_randMPI, randSizedMPI, randomInto. rewrite Hr, length_app, length_be_encode.
  destruct (Nat.leb_spec 40 (40 + length rest)); [|lia].
  rewrite take_app_length', drop_app_length' by (by rewrite length_be_encode).
  unfold SetBytes. by rewrite be_decode_encode_small.
Qed.

Lemma randomInto_run c (r rest : list byte) : length r = 16%nat -> c_Rand c = r ++ rest ->
  conv_randomInto 16 c = Done (Ok r, c <| c_Rand := rest |>).
Proof.
  intros Hl Hr. unfold conv_randomInto, randomInto. rewrite Hr, length_app, Hl.
  destruct (Nat.leb_spec 16 (16 + length rest)); [|lia].
  by rewrite take_app_length', drop_app_length' by done.
Qed.

Lemma sendDHCommit_run c x r tag rest rest' :
  c_version c = Some v -> exponent_ok x -> length r = 16%nat ->
  c_Rand c = be_encode 40 x ++ r ++ rest -> takes_tag v (c_ourInstanceTag c) tag rest rest' ->
  sendDHCommit c = Done (Ok (headerOf v tag (c_theirInstanceTag c) msgTypeDHCommit ++ dhCommit_serialize (DhCommit (encryptedGx x r) (hash2 v (gxBytes x)))),
                         c <| c_Rand := rest' |> <| c_ourInstanceTag := tag |> <| c_ake := Some (committed x r) |>).
Proof.
  intros Hv (Hx & _ & Hlen & _) Hr Hrand Htag. unfold sendDHCommit, wipeAke. step_state.
  set (c0 := c <| c_Rand := rest |>).
  assert (forall c1, c_version c1 = Some v -> c_Rand c1 = c_Rand c -> c1 <| c_ake := None |> <| c_Rand := rest |> = c0 <| c_ake := None |> ->
    dhCommitMessage c1 = Done (Ok (dhCommit_serialize (DhCommit (encryptedGx x r) (hash2 v (gxBytes x)))),
      c0 <| c_ake := Some ((committed x r) <| ake_state := authStateNone |>) |>)) as Hmsg.
  { intros c1 Hv1 Hr1 Ec1. unfold dhCommitMessage, initAKE. step_state.
    set (ci := c1 <| c_ake := Some initial_ake |>).
    rewrite (bind_done _ _ _ _ _ (modAkeKeys_Some _ ci initial_ake eq_refl)). cbn beta.
    set (c2 := ci <| c_ake := _ |>).
    assert (c_Rand c2 = be_encode 40 x ++ r ++ rest) as Hr2 by (rewrite <- Hrand; exact Hr1).
    step_done (randMPI_run c2 x _ Hx Hr2). unfold setSecretExponent.
    set (c3 := c2 <| c_Rand := r ++ rest |>).
    rewrite (bind_done _ _ _ _ _ (modAke_Some _ c3 _ eq_refl)). cbn beta. fold (pubKey x).
    set (c4 := c3 <| c_ake := _ |>).
    set (a4 := (initial_ake <| ake_secretExponent := Some x |> <| ake_ourPublicValue := Some (pubKey x) |>)).
    assert (readR c4 = Done (Ok tt, c4 <| c_Rand := rest |> <| c_ake := Some (a4 <| ake_r := r |>) |>)) as Hrd.
    { unfold readR. step_state. step_done (randomInto_run c4 r rest Hr eq_refl).
      set (c4' := c4 <| c_Rand := rest |>). by rewrite (bind_done _ _ _ _ _ (modAke_Some _ c4' a4 eq_refl)). }
    step_done Hrd. set (c5 := c4 <| c_Rand := rest |> <| c_ake := _ |>).
    step_done (theAke_Some c5 _ eq_refl). step_lift (pubKey x).
    assert (len r = 16) as Hlr by (unfold len; lia).
    assert (encrypted_or_zero r (AppendMPI [] (pubKey x)) c5 = Done (encryptedGx x r, c5)) as Hen
      by (apply (encrypted_or_zero_run r (gxBytes x) c5 Hlr (proj1 Hlen))).
    step_done Hen.
    rewrite (bind_done _ _ _ _ _ (modAke_Some _ c5 _ eq_refl)). cbn beta.
    set (c6 := c5 <| c_ake := _ |>).
    assert (serializeDHCommit (pubKey x) c6 = Done (dhCommit_serialize (DhCommit (encryptedGx x r) (hash2 v (gxBytes x))), c6)) as Hsc.
    { unfold serializeDHCommit. step_done (theAke_Some c6 _ eq_refl). by step_done (theVersion_Some c6 v Hv1). }
    step_done Hsc. unfold mret, gom_ret. do 2 f_equal.
    transitivity ((c1 <| c_ake := None |> <| c_Rand := rest |>) <| c_ake := Some ((committed x r) <| ake_state := authStateNone |>) |>); [done|].
    by rewrite Ec1. }
  set (cw := c <| c_ake := ake_wipe <$> c_ake c |> <| c_ake := None |>). step_done (Hmsg cw Hv eq_refl eq_refl).
  set (c1 := c0 <| c_ake := _ |>).
  step_done (wrapMessageHeader_takes v c1 msgTypeDHCommit (dhCommit_serialize (DhCommit (encryptedGx x r) (hash2 v (gxBytes x)))) tag rest' Hv Htag).
  set (c2 := c1 <| c_Rand := rest' |> <| c_ourInstanceTag := tag |>). by rewrite (bind_done _ _ _ _ _ (modAke_Some _ c2 _ eq_refl)).
Qed.

(** ** Dispatching *)

(** The handler of each of the four message types. *)
Definition handlerOf (t : Z) (msg : list byte) (h : authState -> M authOutcome) : Prop :=
  (t = msgTypeDHCommit /\ h = fun s => receiveDHCommitMessage s msg) \/
  (t = msgTypeDHKey /\ h = fun s => receiveDHKeyMessage s msg) \/
  (t = msgTypeRevealSig /\ h = fun s => receiveRevealSigMessage s msg) \/
  (t = msgTypeSig /\ h = fun s => receiveSigMessage s msg).

Lemma maybeRetransmit_none c : mayRetransmit (c_resend c) = noRetransmit -> maybeRetransmit c = Done (Ok [], c).
Proof.
  intros Hr. unfold maybeRetransmit, shouldRetransmit, resend_shouldRetransmit. step_state.
  rewrite Hr, bool_decide_false by (by intros []). by rewrite andb_false_r.
Qed.

Lemma runAuth_run h c a s' out err c1 a1 :
  c_ake c = Some a -> h (ake_state a) c = Done ((s', out, err), c1) -> c_ake c1 = Some a1 ->
  runAuth h c = Done ((out, err), c1 <| c_ake := Some (a1 <| ake_state := s' |>) |>).
Proof.
  intros Ha Hh Ha1. unfold runAuth. step_done (theAke_Some c a Ha). step_done Hh.
  by rewrite (bind_done _ _ _ _ _ (modAke_Some _ c1 a1 Ha1)).
Qed.

Lemma processAKE_run t h msg c c0 a s' out c1 a1 :
  handlerOf t msg h -> ensureAKE c = Done (tt, c0) -> c_ake c0 = Some a ->
  h (ake_state a) c0 = Done ((s', out, None), c1) -> c_ake c1 = Some a1 ->
  (t = msgTypeRevealSig \/ t = msgTypeSig -> mayRetransmit (c_resend c1) = noRetransmit) ->
  processAKE t msg c = Done ((compactMessagesWithHeader [out], None),
    c1 <| c_ake := Some (a1 <| ake_state := s' |> <| ake_lastStateChange := env_now c1 |>) |>).
Proof.
  intros Ht He Ha Hh Ha1 Hr. unfold processAKE. step_done He.
  pose proof (runAuth_run h c0 a s' out None c1 a1 Ha Hh Ha1) as Hrun.
  set (c2 := c1 <| c_ake := Some (a1 <| ake_state := s' |>) |>) in *.
  assert (t = msgTypeRevealSig \/ t = msgTypeSig -> maybeRetransmit c2 = Done (Ok [], c2)) as Hmr by (intros; apply maybeRetransmit_none; auto).
  match goal with |- (?m ≫= ?f) c0 = _ => assert (m c0 = Done (((out, None), []), c2)) as Hm end.
  { destruct Ht as [[-> Eh]|[[-> Eh]|[[-> Eh]|[-> Eh]]]]; subst h; cbn [Z.eqb msgTypeDHCommit msgTypeDHKey msgTypeRevealSig msgTypeSig Pos.eqb];
      step_done Hrun; try done; by step_done (Hmr ltac:(auto)). }
  step_done Hm. rewrite bind_gget. by rewrite (bind_done _ _ _ _ _ (modAke_Some _ c2 _ eq_refl)).
Qed.

(** ** The answer to the commitment *)

Definition idle (c : Conversation) : Prop :=
  match c_ake c with None => True | Some a => ake_state a = authStateNone end.

Definition answering (y : Z) (egx h : list byte) (now : Z) : ake :=
  Ake (Some y) (Some (pubKey y)) None (zeroes 16) egx h no_akeKeys no_akeKeys authStateAwaitingRevealSig empty_keys now.

Lemma ensureAKE_idle c : idle c -> exists c0 a, ensureAKE c = Done (tt, c0) /\ c_ake c0 = Some a /\ ake_state a = authStateNone /\
  forall z, c0 <| c_ake := z |> = c <| c_ake := z |>.
Proof.
  intros Hi. unfold ensureAKE, idle in *. step_state. destruct (c_ake c) as [a|] eqn:E.
  - exists c, a. done.
  - by eexists _, initial_ake.
Qed.

Lemma receiveDHCommit_run c y egx h tag rest rest' :
  c_version c = Some v -> idle c -> exponent_ok y ->
  c_Rand c = be_encode 40 y ++ rest -> takes_tag v (c_ourInstanceTag c) tag rest rest' -> len egx < 2 ^ 32 -> len h < 2 ^ 32 -> mayRetransmit (c_resend c) = noRetransmit ->
  processAKE msgTypeDHCommit (dhCommit_serialize (DhCommit egx h)) c =
  Done (([headerOf v tag (c_theirInstanceTag c) msgTypeDHKey ++ dhKey_serialize (DhKey (pubKey y))], None),
        c <| c_Rand := rest' |> <| c_ourInstanceTag := tag |> <| c_ake := Some (answering y egx h (env_now c)) |>).
Proof.
  intros Hv Hi (Hy & _) Hrand Htag Hle Hlh Hres. set (msg := dhCommit_serialize (DhCommit egx h)).
  destruct (ensureAKE_idle c Hi) as (c0 & a & He & Ha & Hst & Hc0).
  set (a1 := (answering y egx h 0) <| ake_state := authStateNone |>).
  set (w := headerOf v tag (c_theirInstanceTag c) msgTypeDHKey ++ dhKey_serialize (DhKey (pubKey y))).
  set (c1 := c <| c_Rand := rest' |> <| c_ourInstanceTag := tag |> <| c_ake := Some a1 |>).
  rewrite (processAKE_run msgTypeDHCommit (fun s => receiveDHCommitMessage s msg) msg c c0 a authStateAwaitingRevealSig (Some w) c1 a1);
    [done|by left|done|done| |done|done].
  rewrite Hst. cbn [receiveDHCommitMessage]. unfold receiveDHCommitNone, wipeAke. step_state.
  set (cw := c0 <| c_ake := ake_wipe <$> c_ake c0 |>).
  assert (dhKeyMessage cw = Done (Ok (dhKey_serialize (DhKey (pubKey y))),
    c <| c_Rand := rest |> <| c_ake := Some (initial_ake <| ake_secretExponent := Some y |> <| ake_ourPublicValue := Some (pubKey y) |>) |>)) as Hk.
  { unfold dhKeyMessage, initAKE. step_state.
    assert (cw <| c_ake := Some initial_ake |> = c <| c_ake := Some initial_ake |>) as -> by apply Hc0.
    set (c2 := c <| c_ake := Some initial_ake |>).
    step_done (randMPI_run c2 y rest Hy Hrand). unfold setSecretExponent. set (c3 := c2 <| c_Rand := rest |>).
    rewrite (bind_done _ _ _ _ _ (modAke_Some _ c3 _ eq_refl)). cbn beta. fold (pubKey y). set (c4 := c3 <| c_ake := _ |>).
    assert (serializeDHKey c4 = Done (dhKey_serialize (DhKey (pubKey y)), c4)) as Hs; [|by step_done Hs].
    unfold serializeDHKey. step_done (theAke_Some c4 _ eq_refl). by step_lift (pubKey y). }
  unfold tryA. step_done Hk. set (c5 := c <| c_Rand := rest |> <| c_ake := _ |>).
  step_done (wrapMessageHeader_takes v c5 msgTypeDHKey (dhKey_serialize (DhKey (pubKey y))) tag rest' Hv Htag).
  set (c6 := c5 <| c_Rand := rest' |> <| c_ourInstanceTag := tag |>).
  assert (processDHCommit msg c6 = Done (Ok tt, c1)) as Hp.
  { unfold processDHCommit, msg. rewrite dhCommit_roundtrip by done.
    by rewrite (bind_done _ _ _ _ _ (modAke_Some _ c6 _ eq_refl)). }
  step_done Hp. done.
Qed.

(** ** The revealed key *)

Definition akeSecrets (x y : Z) : list byte * akeKeys * akeKeys := calculateAKEKeys (modExp (pubKey y) x) v.
Definition ssidOf (x y : Z) : list byte := fst (fst (akeSecrets x y)).
Definition revealKeyOf (x y : Z) : akeKeys := snd (fst (akeSecrets x y)).
Definition sigKeyOf (x y : Z) : akeKeys := snd (akeSecrets x y).

Lemma revealKey_len x y : len (akeKeys_c (revealKeyOf x y)) = 16.
Proof. unfold revealKeyOf, akeSecrets, calculateAKEKeys, len. simpl. unfold kdf. by rewrite length_take, hash2_length. Qed.

Lemma sigKey_len x y : len (akeKeys_c (sigKeyOf x y)) = 16.
Proof. unfold sigKeyOf, akeSecrets, calculateAKEKeys, len. simpl. unfold kdf. by rewrite length_drop, hash2_length. Qed.

(** The keys a peer takes from the exchange into the session. *)
Definition exchangeKeys (our their x y : Z) : keyManagementContext :=
  KeyManagementContext our their (keyPair x) no_keys (Some (pubKey y)) None [] [] [].

Definition revealed (x y : Z) (r w : list byte) (now : Z) : ake :=
  Ake (Some x) (Some (pubKey x)) (Some (pubKey y)) r (encryptedGx x r) [] (revealKeyOf x y) (sigKeyOf x y)
    (authStateAwaitingSig w) (exchangeKeys 1 0 x y) now.

Definition revealSigBody (x y : Z) (r esig : list byte) : list byte :=
  AppendData [] r ++ AppendData [] esig ++ take 20 (sumHMAC (akeKeys_m2 (revealKeyOf x y)) (AppendData [] esig) v).

Lemma calcAKEKeys_run c a x y : c_version c = Some v -> c_ake c = Some a ->
  calcAKEKeys (modExp (pubKey y) x) c =
  Done (tt, c <| c_ssid := ssidOf x y |> <| c_ake := Some (a <| ake_revealKey := revealKeyOf x y |> <| ake_sigKey := sigKeyOf x y |>) |>).
Proof.
  intros Hv Ha. unfold calcAKEKeys. step_done (theVersion_Some c v Hv). fold (akeSecrets x y).
  unfold ssidOf, revealKeyOf, sigKeyOf. destruct (akeSecrets x y) as [[ssid rk] sgk]. step_state.
  set (c1 := c <| c_ssid := ssid |>). by rewrite (modAke_Some _ c1 a Ha).
Qed.

Lemma calcDHSharedSecret_run c a x y : c_ake c = Some a -> ake_theirPublicValue a = Some (pubKey y) ->
  ake_secretExponent a = Some x -> calcDHSharedSecret c = Done (modExp (pubKey y) x, c).
Proof.
  intros Ha Ht Hx. unfold calcDHSharedSecret. step_done (theAke_Some c a Ha). rewrite Ht, Hx.
  step_lift (pubKey y). by step_lift x.
Qed.

Lemma storeTheirKey_at c a gy : c_ake c = Some a -> ake_theirPublicValue a = Some gy ->
  storeTheirKey c = Done (tt, c <| c_ake := Some (a <| ake_keys := (ake_keys a) <| theirCurrentDHPubKey := Some gy |> |>) |>).
Proof.
  intros Ha Ht. unfold storeTheirKey. step_done (theAke_Some c a Ha). rewrite Ht.
  step_lift ((ake_keys a) <| theirCurrentDHPubKey := Some gy |>). by rewrite (modAkeKeys_Some _ c a Ha).
Qed.

Lemma storeOurKeys_at c a x : c_ake c = Some a -> ake_secretExponent a = Some x -> ake_ourPublicValue a = Some (pubKey x) ->
  storeOurKeys c = Done (tt, c <| c_ake := Some (a <| ake_keys := (ake_keys a) <| ourCurrentDHKeys := keyPair x |> |>) |>).
Proof.
  intros Ha Hx Ho. unfold storeOurKeys. step_done (theAke_Some c a Ha). rewrite Hx, Ho.
  step_lift ((ake_keys a) <| ourCurrentDHKeys := keyPair x |>). by rewrite (modAkeKeys_Some _ c a Ha).
Qed.

Lemma storeKeys_run {B} c a x y (f : M B) :
  c_ake c = Some a -> ake_theirPublicValue a = Some (pubKey y) -> ake_secretExponent a = Some x ->
  ake_ourPublicValue a = Some (pubKey x) ->
  (_ ← storeTheirKey; _ ← storeOurKeys; f) c =
  f (c <| c_ake := Some (a <| ake_keys := (ake_keys a) <| theirCurrentDHPubKey := Some (pubKey y) |> <| ourCurrentDHKeys := keyPair x |> |>) |>).
Proof.
  intros Ha Ht Hx Ho. step_done (storeTheirKey_at c a (pubKey y) Ha Ht).
  set (a1 := a <| ake_keys := _ |>). set (c1 := c <| c_ake := Some a1 |>).
  by step_done (storeOurKeys_at c1 a1 x eq_refl Hx Ho).
Qed.

(** What the two peers sign. *)
Definition initiatorHash (x y : Z) (sk : PrivateKey) : list byte := signedHash (revealKeyOf x y) (pubKey x) (pubKey y) sk 1.
Definition responderHash (x y : Z) (sk : PrivateKey) : list byte := signedHash (sigKeyOf x y) (pubKey y) (pubKey x) sk 1.

Lemma revealSigMessage_run c a x y r sk rnd' :
  c_version c = Some v -> c_ake c = Some a -> c_ourCurrentKey c = Some sk -> goodKey sk -> signs sk (initiatorHash x y sk) (c_Rand c) rnd' ->
  ake_theirPublicValue a = Some (pubKey y) -> ake_secretExponent a = Some x -> ake_ourPublicValue a = Some (pubKey x) ->
  ake_r a = r -> length r = 16%nat -> ourKeyID (ake_keys a) = 0 ->
  exists esig, len esig < 2 ^ 32 /\ signed_ok (revealKeyOf x y) (pubKey x) (pubKey y) sk 1 esig /\
    revealSigMessage c = Done (Ok (revealSigBody x y r esig),
      c <| c_Rand := rnd' |> <| c_ssid := ssidOf x y |>
        <| c_ake := Some (a <| ake_revealKey := revealKeyOf x y |> <| ake_sigKey := sigKeyOf x y |>
                            <| ake_keys := (ake_keys a) <| ourKeyID := 1 |> |>) |>).
Proof.
  intros Hv Ha Hk Hgood Hsig Ht Hx Ho Hr Hlr Hid. unfold revealSigMessage.
  step_done (calcDHSharedSecret_run c a x y Ha Ht Hx). step_done (calcAKEKeys_run c a x y Hv Ha).
  set (a1 := a <| ake_revealKey := revealKeyOf x y |> <| ake_sigKey := sigKeyOf x y |>).
  set (c1 := c <| c_ssid := ssidOf x y |> <| c_ake := Some a1 |>).
  rewrite (bind_done _ _ _ _ _ (modAkeKeys_Some _ c1 a1 eq_refl)). cbn beta.
  change (ourKeyID (ake_keys a1)) with (ourKeyID (ake_keys a)). rewrite Hid. change (u32 (0 + 1)) with 1.
  set (a2 := a1 <| ake_keys := _ |>). set (c2 := c1 <| c_ake := Some a2 |>).
  step_done (theAke_Some c2 a2 eq_refl).
  destruct (generateEncryptedSignature_run c2 a2 sk (revealKeyOf x y) (pubKey x) (pubKey y) rnd') as (esig & Hgen & Hl & Hok);
    try done; [apply revealKey_len|].
  exists esig. split; [done|]. split; [exact Hok|].
  change (ake_revealKey a2) with (revealKeyOf x y). step_done Hgen. set (c3 := c2 <| c_Rand := rnd' |>).
  step_done (theAke_Some c3 a2 eq_refl). step_done (theVersion_Some c3 v Hv).
  change (ake_r a2) with (ake_r a). rewrite Hr. change (ake_revealKey a2) with (revealKeyOf x y).
  destruct (revealSig_roundtrip v r esig (sumHMAC (akeKeys_m2 (revealKeyOf x y)) (AppendData [] esig) v)) as [Hser _];
    [done|done|rewrite len_sumHMAC; lia|].
  rewrite (bind_glift _ _ _ _ Hser). done.
Qed.

Lemma receiveDHKey_run c x y r sk rnd' :
  c_version c = Some v -> (v = otrV3 -> c_ourInstanceTag c <> 0) -> c_ake c = Some (committed x r) ->
  c_ourCurrentKey c = Some sk -> goodKey sk -> signs sk (initiatorHash x y sk) (c_Rand c) rnd' -> exponent_ok y -> length r = 16%nat ->
  mayRetransmit (c_resend c) = noRetransmit ->
  exists esig, len esig < 2 ^ 32 /\ signed_ok (revealKeyOf x y) (pubKey x) (pubKey y) sk 1 esig /\
    let w := header c msgTypeRevealSig ++ revealSigBody x y r esig in
    processAKE msgTypeDHKey (dhKey_serialize (DhKey (pubKey y))) c =
    Done (([w], None), c <| c_Rand := rnd' |> <| c_ssid := ssidOf x y |> <| c_sentRevealSig := true |>
                         <| c_ake := Some (revealed x y r w (env_now c)) |>).
Proof.
  intros Hv Htag Ha Hk Hgood Hsig (_ & Hmpi & _ & Hel) Hlr Hres.
  set (a1 := (committed x r) <| ake_theirPublicValue := Some (pubKey y) |>). set (c1 := c <| c_ake := Some a1 |>).
  destruct (revealSigMessage_run c1 a1 x y r sk rnd') as (esig & Hl & Hok & Hrun); try done.
  exists esig. split; [done|]. split; [done|]. cbn zeta.
  set (w := header c msgTypeRevealSig ++ revealSigBody x y r esig).
  set (c2 := c <| c_Rand := rnd' |> <| c_ssid := ssidOf x y |> <| c_sentRevealSig := true |>
               <| c_ake := Some ((revealed x y r w 0) <| ake_state := authStateAwaitingDHKey |>) |>).
  rewrite (processAKE_run msgTypeDHKey (fun s => receiveDHKeyMessage s (dhKey_serialize (DhKey (pubKey y))))
    (dhKey_serialize (DhKey (pubKey y))) c c (committed x r) (authStateAwaitingSig w) (Some w) c2
    ((revealed x y r w 0) <| ake_state := authStateAwaitingDHKey |>)); [done|by right; left| |done| |done|done].
  { unfold ensureAKE. step_state. by rewrite Ha. }
  cbn [receiveDHKeyMessage ake_state committed]. unfold receiveDHKeyAwaitingDHKey, tryA.
  assert (processDHKey (dhKey_serialize (DhKey (pubKey y))) c = Done (Ok false, c1)) as Hp.
  { unfold processDHKey. rewrite dhKey_roundtrip by done. cbn [dhk_gy]. rewrite Hel. cbn [negb].
    step_done (theAke_Some c _ Ha). cbn [ake_theirPublicValue committed].
    by rewrite (bind_done _ _ _ _ _ (modAke_Some _ c _ Ha)). }
  step_done Hp. step_done Hrun. set (c3 := c1 <| c_Rand := rnd' |> <| c_ssid := _ |> <| c_ake := _ |>).
  step_done (wrapMessageHeader_ready v c3 msgTypeRevealSig (revealSigBody x y r esig) Hv Htag).
  rewrite (storeKeys_run c3 _ x y _ eq_refl eq_refl eq_refl eq_refl). step_state. done.
Qed.

(** ** The end of the exchange *)

Hypothesis p_nz : dh_p <> 0.

Lemma akeSecrets_agree x y : 0 <= x -> 0 <= y -> akeSecrets y x = akeSecrets x y.
Proof. intros Hx Hy. unfold akeSecrets, pubKey. by rewrite modExp_comm. Qed.

(** The security event that reports the new session. *)
Definition secured (c : Conversation) : list event :=
  if c_securityEventHandler c
  then env_events c ++ [EvSecurity (if bool_decide (c_msgState c = encrypted) then StillSecure else GoneSecure)]
  else env_events c.

(** The keys of the new session: the exchanged ones and the next pair [x2]. *)
Definition sessionStart (x x2 y : Z) : keyManagementContext :=
  KeyManagementContext 2 1 (keyPair x2) (keyPair x) (Some (pubKey y)) None [] [] [].

Definition finishedExchange (a : ake) (x x2 y : Z) (rest : list byte) (c : Conversation) : Conversation :=
  c <| c_keys := sessionStart x x2 y |> <| c_ake := Some (ake_wipe a) |>
    <| c_lastMessageStateChange := env_now c |> <| c_msgState := encrypted |>
    <| c_Rand := rest |> <| env_events := secured c |>.

Lemma akeHasFinished_run c a sk their x x2 y rest :
  c_ake c = Some a -> ake_keys a = exchangeKeys 1 1 x y -> c_ourCurrentKey c = Some sk ->
  c_theirKey c = Some their -> IsSame (PublicKey_of sk) their = false ->
  0 <= x2 < 256 ^ Z.of_nat 40 -> c_Rand c = be_encode 40 x2 ++ rest ->
  akeHasFinished c = Done (None, finishedExchange a x x2 y rest c).
Proof.
  intros Ha Hks Hk Ht Hsame Hx Hr. unfold akeHasFinished, wipeAke. step_done (theAke_Some c a Ha). step_state.
  rec_simpl. rewrite Hk, Ht, Ha, Hks, (bind_glift _ sk _ _ eq_refl), Hsame. step_state. cbn [fmap option_fmap option_map].
  set (c1 := c <| c_keys := _ |> <| c_ake := _ |> <| c_lastMessageStateChange := _ |> <| c_msgState := _ |>).
  set (c2 := c1 <| c_keys := sessionStart x x2 y |> <| c_Rand := rest |>).
  assert (conv_generateNewDHKeyPair c1 = Done (None, c2)) as Hg.
  { unfold conv_generateNewDHKeyPair, generateNewDHKeyPair, randSizedMPI, randomInto.
    change (c_Rand c1) with (c_Rand c). rewrite Hr, length_app, length_be_encode.
    destruct (Nat.leb_spec 40 (40 + length rest)); [|lia].
    rewrite take_app_length', drop_app_length' by (by rewrite length_be_encode).
    unfold SetBytes. by rewrite be_decode_encode_small. }
  step_done Hg. unfold signalSecurityEventIf, securityEvent, logEvent.
  unfold finishedExchange, secured. destruct (bool_decide (c_msgState c = encrypted)); cbn [negb]; step_state;
    change (c_securityEventHandler c2) with (c_securityEventHandler c); by destruct (c_securityEventHandler c) eqn:Es.
Qed.

(** ** The signatures *)

Definition sigBody (x y : Z) (esig : list byte) : list byte :=
  AppendData [] esig ++ take 20 (sumHMAC (akeKeys_m2 (sigKeyOf x y)) (AppendData [] esig) v).

Lemma processRevealSig_run c x y r sk esig now :
  c_version c = Some v -> c_ake c = Some (answering y (encryptedGx x r) (hash2 v (gxBytes x)) now) ->
  exponent_ok x -> exponent_ok y -> goodKey sk -> length r = 16%nat ->
  len esig < 2 ^ 32 -> signed_ok (revealKeyOf x y) (pubKey x) (pubKey y) sk 1 esig ->
  processRevealSig (revealSigBody x y r esig) c =
  Done (Ok tt, (learnKey sk c) <| c_ssid := ssidOf x y |> <| c_ake := Some (
    Ake (Some y) (Some (pubKey y)) (Some (pubKey x)) (zeroes 16) (encryptedGx x r) (hash2 v (gxBytes x))
      (revealKeyOf x y) (sigKeyOf x y) authStateAwaitingRevealSig (empty_keys <| theirKeyID := 1 |>) now) |>).
Proof.
  intros Hv Ha (Hx & Hmpi & _ & Hel) (Hy & _) Hgood Hr Hl Hok. unfold processRevealSig. step_done (theVersion_Some c v Hv).
  destruct (revealSig_roundtrip v r esig (sumHMAC (akeKeys_m2 (revealKeyOf x y)) (AppendData [] esig) v)) as [_ Hde];
    [done|done|rewrite len_sumHMAC; lia|].
  unfold revealSigBody. rewrite Hde. step_done (theAke_Some c _ Ha). cbn [rs_r rs_encryptedSig rs_macSig ake_encryptedGx ake_xhashedGx answering].
  unfold encryptedGx at 1. rewrite decrypt_run by (unfold len; lia). unfold checkDecryptedGx. rewrite bool_decide_true by done.
  assert (extractGx (gxBytes x) = (Some (pubKey x), None)) as ->.
  { unfold extractGx, gxBytes. rewrite <- (app_nil_r (AppendMPI [] (pubKey x))), ExtractMPI_Append by done. simpl. by rewrite Hel. }
  rewrite (bind_done _ _ _ _ _ (modAke_Some _ c _ Ha)). cbn beta.
  set (a1 := (answering y (encryptedGx x r) (hash2 v (gxBytes x)) now) <| ake_theirPublicValue := Some (pubKey x) |>).
  set (c1 := c <| c_ake := Some a1 |>). step_done (calcDHSharedSecret_run c1 a1 y x eq_refl eq_refl eq_refl).
  step_done (calcAKEKeys_run c1 a1 y x Hv eq_refl). unfold ssidOf, revealKeyOf, sigKeyOf.
  rewrite (akeSecrets_agree x y) by lia. fold (ssidOf x y) (revealKeyOf x y) (sigKeyOf x y).
  set (a2 := a1 <| ake_revealKey := revealKeyOf x y |> <| ake_sigKey := sigKeyOf x y |>).
  set (c2 := c1 <| c_ssid := ssidOf x y |> <| c_ake := Some a2 |>). step_done (theAke_Some c2 a2 eq_refl).
  change (ake_revealKey a2) with (revealKeyOf x y).
  by step_done (processEncryptedSig_run c2 a2 sk (revealKeyOf x y) (pubKey x) (pubKey y) 1 esig Hv eq_refl eq_refl eq_refl
    (revealKey_len x y) Hgood ltac:(lia) Hok).
Qed.

Lemma sigMessage_run c a x y sk rnd' :
  c_version c = Some v -> c_ake c = Some a -> c_ourCurrentKey c = Some sk -> goodKey sk -> signs sk (responderHash x y sk) (c_Rand c) rnd' ->
  ake_theirPublicValue a = Some (pubKey x) -> ake_ourPublicValue a = Some (pubKey y) -> ake_sigKey a = sigKeyOf x y ->
  ourKeyID (ake_keys a) = 0 ->
  exists esig, len esig < 2 ^ 32 /\ signed_ok (sigKeyOf x y) (pubKey y) (pubKey x) sk 1 esig /\
    sigMessage c = Done (Ok (sigBody x y esig),
      c <| c_Rand := rnd' |> <| c_ake := Some (a <| ake_keys := (ake_keys a) <| ourKeyID := 1 |> |>) |>).
Proof.
  intros Hv Ha Hk Hgood Hsig Ht Ho Hkey Hid. unfold sigMessage.
  rewrite (bind_done _ _ _ _ _ (modAkeKeys_Some _ c a Ha)). cbn beta. rewrite Hid. change (u32 (0 + 1)) with 1.
  set (a2 := a <| ake_keys := _ |>). set (c2 := c <| c_ake := Some a2 |>). step_done (theAke_Some c2 a2 eq_refl).
  destruct (generateEncryptedSignature_run c2 a2 sk (sigKeyOf x y) (pubKey y) (pubKey x) rnd') as (esig & Hgen & Hl & Hok);
    try done; [apply sigKey_len|].
  exists esig. split; [done|]. split; [exact Hok|].
  change (ake_sigKey a2) with (ake_sigKey a). rewrite Hkey. step_done Hgen. set (c3 := c2 <| c_Rand := rnd' |>).
  step_done (theAke_Some c3 a2 eq_refl). step_done (theVersion_Some c3 v Hv).
  change (ake_sigKey a2) with (ake_sigKey a). rewrite Hkey.
  destruct (sig_roundtrip v esig (sumHMAC (akeKeys_m2 (sigKeyOf x y)) (AppendData [] esig) v)) as [Hser _];
    [done|rewrite len_sumHMAC; lia|].
  rewrite (bind_glift _ _ _ _ Hser). done.
Qed.

(** The conversation of the responder when it has the revealed signature. *)
Definition responded (a : ake) (skA : PrivateKey) (x y y2 : Z) (rest : list byte) (c : Conversation) : Conversation :=
  finishedExchange a y y2 x rest ((learnKey skA c) <| c_ssid := ssidOf x y |> <| c_sentRevealSig := false |>).

Definition signing (x y : Z) (r : list byte) (now : Z) : ake :=
  Ake (Some y) (Some (pubKey y)) (Some (pubKey x)) (zeroes 16) (encryptedGx x r) (hash2 v (gxBytes x))
    (revealKeyOf x y) (sigKeyOf x y) authStateAwaitingRevealSig (exchangeKeys 1 1 y x) now.

Lemma responded_eq a1 a1' a skA x y y2 rest rnd c :
  finishedExchange a y y2 x rest ((learnKey skA c) <| c_ssid := ssidOf x y |> <| c_ake := Some a1 |> <| c_Rand := rnd |> <| c_ake := Some a1' |> <| c_ake := Some a |> <| c_sentRevealSig := false |>)
  = responded a skA x y y2 rest c.
Proof. unfold responded, finishedExchange, secured, learnKey. conv_eq. Qed.

Lemma receiveRevealSigAwaiting_run c x y y2 r skA skB esig now rest :
  c_version c = Some v -> (v = otrV3 -> c_ourInstanceTag c <> 0) ->
  c_ake c = Some (answering y (encryptedGx x r) (hash2 v (gxBytes x)) now) ->
  exponent_ok x -> exponent_ok y -> 0 <= y2 < 256 ^ Z.of_nat 40 -> goodKey skA -> length r = 16%nat ->
  len esig < 2 ^ 32 -> signed_ok (revealKeyOf x y) (pubKey x) (pubKey y) skA 1 esig ->
  c_ourCurrentKey c = Some skB -> goodKey skB -> sk_addr skB <> env_fresh c ->
  signs skB (responderHash x y skB) (c_Rand c) (be_encode 40 y2 ++ rest) ->
  exists esig', len esig' < 2 ^ 32 /\ signed_ok (sigKeyOf x y) (pubKey y) (pubKey x) skB 1 esig' /\
    receiveRevealSigAwaiting (revealSigBody x y r esig) c =
    Done ((authStateNone, Some (header c msgTypeSig ++ sigBody x y esig'), None), responded (signing x y r now) skA x y y2 rest c).
Proof.
  intros Hv Htag Ha Hox Hoy Hy2 HgA Hr Hl Hok Hk HgB Haddr Hsig.
  pose proof (processRevealSig_run c x y r skA esig now Hv Ha Hox Hoy HgA Hr Hl Hok) as Hp.
  set (a1 := Ake _ _ _ _ _ _ _ _ _ _ _) in Hp. set (c1 := (learnKey skA c) <| c_ssid := _ |> <| c_ake := Some a1 |>) in Hp.
  destruct (sigMessage_run c1 a1 x y skB (be_encode 40 y2 ++ rest)) as (esig' & Hl' & Hok' & Hrun); try done.
  exists esig'. split; [done|]. split; [done|]. unfold receiveRevealSigAwaiting, tryA. step_done Hp. step_done Hrun.
  set (a1' := a1 <| ake_keys := (ake_keys a1) <| ourKeyID := 1 |> |>).
  set (c2 := c1 <| c_Rand := be_encode 40 y2 ++ rest |> <| c_ake := Some a1' |>).
  step_done (wrapMessageHeader_ready v c2 msgTypeSig (sigBody x y esig') Hv Htag).
  rewrite (storeKeys_run c2 a1' y x _ eq_refl eq_refl eq_refl eq_refl). step_state.
  change (a1' <| ake_keys := _ |>) with (signing x y r now).
  set (c3 := c2 <| c_ake := _ |> <| c_sentRevealSig := false |>).
  assert (akeHasFinished c3 = Done (None, responded (signing x y r now) skA x y y2 rest c)) as Hfin.
  { rewrite (akeHasFinished_run c3 (signing x y r now) skB (PublicKeyAt (env_fresh c) (sk_DSAPublicKey skA)) y y2 x rest
      eq_refl eq_refl Hk eq_refl ltac:(by apply Z.eqb_neq) Hy2 eq_refl).
    by rewrite <- (responded_eq a1 a1' (signing x y r now) skA x y y2 rest (be_encode 40 y2 ++ rest) c). }
  step_done Hfin. done.
Qed.

Lemma receiveRevealSig_run c x y y2 r skA skB esig now rest :
  c_version c = Some v -> (v = otrV3 -> c_ourInstanceTag c <> 0) ->
  c_ake c = Some (answering y (encryptedGx x r) (hash2 v (gxBytes x)) now) ->
  exponent_ok x -> exponent_ok y -> 0 <= y2 < 256 ^ Z.of_nat 40 -> goodKey skA -> length r = 16%nat ->
  len esig < 2 ^ 32 -> signed_ok (revealKeyOf x y) (pubKey x) (pubKey y) skA 1 esig ->
  c_ourCurrentKey c = Some skB -> goodKey skB -> sk_addr skB <> env_fresh c ->
  signs skB (responderHash x y skB) (c_Rand c) (be_encode 40 y2 ++ rest) -> mayRetransmit (c_resend c) = noRetransmit ->
  exists esig' a, len esig' < 2 ^ 32 /\ signed_ok (sigKeyOf x y) (pubKey y) (pubKey x) skB 1 esig' /\
    processAKE msgTypeRevealSig (revealSigBody x y r esig) c =
    Done (([header c msgTypeSig ++ sigBody x y esig'], None),
      (responded (signing x y r now) skA x y y2 rest c) <| c_ake := Some a |>).
Proof.
  intros Hv Htag Ha Hox Hoy Hy2 HgA Hr Hl Hok Hk HgB Haddr Hsig Hres.
  destruct (receiveRevealSigAwaiting_run c x y y2 r skA skB esig now rest) as (esig' & Hl' & Hok' & Hrun); try done.
  eexists esig', _. split; [done|]. split; [done|].
  eapply (processAKE_run msgTypeRevealSig (fun s => receiveRevealSigMessage s (revealSigBody x y r esig))
    (revealSigBody x y r esig) c c _ authStateNone (Some (header c msgTypeSig ++ sigBody x y esig'))
    (responded (signing x y r now) skA x y y2 rest c) (ake_wipe (signing x y r now)));
    [by right; right; left| |exact Ha|exact Hrun|done|intros _; exact Hres].
  unfold ensureAKE. step_state. by rewrite Ha.
Qed.

Lemma processSig_run c x y r sk esig w now :
  c_version c = Some v -> c_ake c = Some (revealed x y r w now) -> goodKey sk ->
  len esig < 2 ^ 32 -> signed_ok (sigKeyOf x y) (pubKey y) (pubKey x) sk 1 esig ->
  processSig (sigBody x y esig) c =
  Done (Ok tt, (learnKey sk c) <| c_ake := Some ((revealed x y r w now) <| ake_keys := exchangeKeys 1 1 x y |>) |>).
Proof.
  intros Hv Ha Hgood Hl Hok. unfold processSig, sigBody.
  destruct (sig_roundtrip v esig (sumHMAC (akeKeys_m2 (sigKeyOf x y)) (AppendData [] esig) v)) as [_ Hde];
    [done|rewrite len_sumHMAC; lia|].
  rewrite Hde. step_done (theAke_Some c _ Ha). cbn [sig_encryptedSig sig_macSig ake_sigKey revealed].
  by step_done (processEncryptedSig_run c _ sk (sigKeyOf x y) (pubKey y) (pubKey x) 1 esig Hv Ha eq_refl eq_refl
    (sigKey_len x y) Hgood ltac:(lia) Hok).
Qed.

Lemma receiveSig_run c x x2 y r skA skB esig w now rest :
  c_version c = Some v -> c_ake c = Some (revealed x y r w now) -> goodKey skB ->
  len esig < 2 ^ 32 -> signed_ok (sigKeyOf x y) (pubKey y) (pubKey x) skB 1 esig ->
  c_ourCurrentKey c = Some skA -> sk_addr skA <> env_fresh c -> 0 <= x2 < 256 ^ Z.of_nat 40 ->
  c_Rand c = be_encode 40 x2 ++ rest -> mayRetransmit (c_resend c) = noRetransmit ->
  exists a, processAKE msgTypeSig (sigBody x y esig) c =
    Done (([], None), (finishedExchange a x x2 y rest (learnKey skB c))
      <| c_ake := Some ((ake_wipe a) <| ake_state := authStateNone |> <| ake_lastStateChange := env_now c |>) |>).
Proof.
  intros Hv Ha HgB Hl Hok Hk Haddr Hx2 Hr Hres.
  pose proof (processSig_run c x y r skB esig w now Hv Ha HgB Hl Hok) as Hp.
  set (a1 := (revealed x y r w now) <| ake_keys := exchangeKeys 1 1 x y |>) in Hp. exists a1.
  set (c1 := (learnKey skB c) <| c_ake := Some a1 |>) in Hp.
  rewrite (processAKE_run msgTypeSig (fun s => receiveSigMessage s (sigBody x y esig)) (sigBody x y esig) c c
    (revealed x y r w now) authStateNone None (finishedExchange a1 x x2 y rest c1) (ake_wipe a1));
    [done|by right; right; right| |done| |done|done].
  { unfold ensureAKE. step_state. by rewrite Ha. }
  cbn [receiveSigMessage ake_state revealed]. unfold receiveSigAwaiting, tryA. step_done Hp.
  assert (storeTheirKey c1 = Done (tt, c1)) as Hst.
  { unfold storeTheirKey. step_done (theAke_Some c1 a1 eq_refl). by step_lift (exchangeKeys 1 1 x y). }
  step_done Hst.
  by step_done (akeHasFinished_run c1 a1 skA (PublicKeyAt (env_fresh c) (sk_DSAPublicKey skB)) x x2 y rest eq_refl eq_refl Hk eq_refl
    ltac:(by apply Z.eqb_neq) Hx2 Hr).
Qed.

End Exchange.
