(* ===== verification/EndToEnd.v ===== *)
(** * From the query to the private channel

    Two conversations that share nothing but a network: one receives the
    other's query message, they negotiate the version, run the key exchange and
    use the session.  The messages go through [Receive] and [Send] as an
    application would pass them. *)

From S2P Require Import Prelude GoLib Gotrax Policy Crypto KeyManagement Messages Smp Keys Conversation Fragmentation SmpMachine DataMessage Ake Receive Session AkeExchange.

(** ** Version negotiation *)

(** The highest version two policies have in common. *)
Definition best_version (p q : policies) : option otrVersion :=
  if has p allowV3 && has q allowV3 then Some otrV3
  else if has p allowV2 && has q allowV2 then Some otrV2
  else None.

(** The bits of the versions two policies have in common. *)
Definition common_versions (p q : policies) : Z :=
  Z.lor (if has p allowV2 && has q allowV2 then 4 else 0) (if has p allowV3 && has q allowV3 then 8 else 0).

Definition committedTo (v : otrVersion) (sk : PrivateKey) (c : Conversation) : Conversation :=
  c <| c_version := Some v |> <| c_ourCurrentKey := Some sk |>.

(** Offered [versions], the conversation settles on [v] with the key [sk]. *)
Definition speaks (v : otrVersion) (sk : PrivateKey) (versions : Z) (c : Conversation) : Prop :=
  match c_version c with
  | Some v' => v' = v /\ c_ourCurrentKey c = Some sk
  | None => keyForVersion (c_ourKeys c) (protocolVersion v) = Some sk /\
      match v with
      | otrV3 => has (c_Policies c) allowV3 && (0 <? Z.land versions 8) = true
      | otrV2 => has (c_Policies c) allowV2 && (0 <? Z.land versions 4) = true /\
                 has (c_Policies c) allowV3 && (0 <? Z.land versions 8) = false
      end
  end.

Lemma commitToVersionFrom_run v sk versions c :
  speaks v sk versions c -> commitToVersionFrom versions c = Done (Ok tt, committedTo v sk c).
Proof.
  unfold speaks, commitToVersionFrom, committedTo. intros Hs. step_state.
  change (Z.shiftl 1 3) with 8. change (Z.shiftl 1 2) with 4. destruct (c_version c) as [v'|] eqn:Ev.
  - destruct Hs as [-> Hk]. rewrite <- Ev, <- Hk. by destruct c.
  - destruct Hs as [Hk Hb]. destruct v.
    + destruct Hb as [-> ->]. unfold setKeyMatchingVersion. step_state.
      set (c1 := c <| c_version := Some otrV2 |>). step_done (theVersion_Some c1 otrV2 eq_refl).
      change (c_ourKeys c1) with (c_ourKeys c). by rewrite Hk.
    + rewrite Hb. unfold setKeyMatchingVersion. step_state.
      set (c1 := c <| c_version := Some otrV3 |>). step_done (theVersion_Some c1 otrV3 eq_refl).
      change (c_ourKeys c1) with (c_ourKeys c). by rewrite Hk.
Qed.

Lemma parse_versions rest : parseOTRQueryMessage (bs "?OTRv" ++ rest) = omap digitOf rest.
Proof.
  unfold parseOTRQueryMessage. change (bs "?OTRv" ++ rest) with (queryMarker ++ z2b 118 :: rest).
  rewrite HasPrefix_app, len_app, len_cons. pose proof (len_nonneg rest).
  destruct (Z.ltb_spec (len queryMarker) (len queryMarker + (1 + len rest))); [|lia]. by rewrite drop_app_length.
Qed.

Lemma parse_QueryMessage b :
  parseOTRQueryMessage (QueryMessage b) =
  (if has (c_Policies b) allowV2 then [2] else []) ++ (if has (c_Policies b) allowV3 then [3] else [])
  ++ omap digitOf (c_friendlyQueryMessage b).
Proof.
  unfold QueryMessage. rewrite <- !app_assoc, parse_versions, !omap_app. f_equal; [by destruct (has _ allowV2)|].
  f_equal; [by destruct (has _ allowV3)|]. destruct (c_friendlyQueryMessage b) as [|d l] eqn:E; [done|].
  by rewrite bool_decide_false.
Qed.

(** A friendly text without digits leaves the offer as the policies have it. *)
Lemma extractVersions_QueryMessage p b : omap digitOf (c_friendlyQueryMessage b) = [] ->
  extractVersionsFromQueryMessage p (QueryMessage b) = common_versions p (c_Policies b).
Proof.
  intros Hd. unfold extractVersionsFromQueryMessage, common_versions. rewrite parse_QueryMessage, Hd.
  by destruct (has (c_Policies b) allowV2), (has (c_Policies b) allowV3), (has p allowV2), (has p allowV3).
Qed.

Lemma commit_common v sk p q c :
  best_version p q = Some v -> c_version c = None -> c_Policies c = p ->
  keyForVersion (c_ourKeys c) (protocolVersion v) = Some sk -> speaks v sk (common_versions p q) c.
Proof.
  unfold best_version, common_versions, speaks. intros Hb -> -> Hk. split; [done|].
  destruct (has p allowV3) eqn:E3, (has q allowV3), (has p allowV2), (has q allowV2); simplify_eq/=; done.
Qed.

(** The version of a message is the only one it offers. *)
Lemma commit_offered v sk p c :
  best_version p (c_Policies c) = Some v -> c_version c = None ->
  keyForVersion (c_ourKeys c) (protocolVersion v) = Some sk -> speaks v sk (versionBit (protocolVersion v)) c.
Proof.
  unfold best_version, speaks. intros Hb -> Hk. split; [done|].
  destruct (has p allowV3), (has (c_Policies c) allowV3), (has p allowV2), (has (c_Policies c) allowV2); simplify_eq/=; done.
Qed.

(** ** One message through [Receive] *)

(** What [receiveUnit] does to the conversation around the handler. *)
Definition settle (c : Conversation) : Conversation :=
  c <| c_fragmentationContext := forgetFragment |> <| c_injections := [] |>.

Definition akeType (t : Z) : Prop := t ∈ [msgTypeDHCommit; msgTypeDHKey; msgTypeRevealSig; msgTypeSig].

Section Exchange.
Context `{DHGroup} `{CryptoLaws} (valid : dsa_PrivateKey -> Prop) `{!DsaLaws valid}.
Variable v : otrVersion.

Lemma headerOf_bytes our their t : exists rest,
  headerOf v our their t = [Byte.x00; z2b (protocolVersion v); z2b t] ++ rest.
Proof. unfold headerOf. destruct v; [by exists []|]. unfold AppendWord. rewrite <- app_assoc. by eexists. Qed.

(** The first bytes of an encoded message tell its type. *)
Lemma guess_ake our their t body : akeType t ->
  guessMessageType (encode (headerOf v our their t ++ body)) ∈ [msgGuessDHCommit; msgGuessDHKey; msgGuessRevealSig; msgGuessSignature].
Proof.
  intros Ht. destruct (headerOf_bytes our their t) as [rest ->]. unfold encode. rewrite <- app_assoc.
  unfold akeType in Ht. repeat (apply elem_of_cons in Ht as [->|Ht]); [| | | |by apply elem_of_nil in Ht];
    destruct v; vm_compute; repeat constructor.
Qed.

Lemma encodeAndCombine_whole c ws : c_fragmentSize c = 0 -> encodeAndCombine ws c = Done (map encode ws, c).
Proof.
  intros Hf. induction ws as [|w ws IH]; [done|]. cbn [encodeAndCombine map].
  step_done (fragEncode_whole c w Hf). by step_done IH.
Qed.

Lemma finishUnit_run c plain ws :
  c_fragmentSize c = 0 -> c_injections c = [] -> Forall (fun w => w <> []) ws ->
  finishUnit true (plain, ws, None) c = Done ((plain, map encode ws, None), settle c).
Proof.
  intros Hf Hi Hw. unfold finishUnit. step_state. set (c1 := c <| c_fragmentationContext := forgetFragment |>).
  assert (toSendEncoded (plain, ws, None) c1 = Done ((plain, map encode ws, None), c1)) as Ht.
  { unfold toSendEncoded. destruct Hw as [|[|b w] ws Hb Hws]; [done|done|].
    by step_done (encodeAndCombine_whole c1 ((b :: w) :: ws) Hf). }
  step_done Ht. unfold withInjectionsPlain.
  assert (withInjects (map encode ws) c1 = Done (map encode ws, settle c)) as Hwi; [|by step_done Hwi].
  unfold withInjects. step_state. assert (c_injections c1 = []) as -> by exact Hi. by rewrite app_nil_r.
Qed.

Lemma Receive_ake d a b sk t body ws b1 :
  akeType t -> speaks v sk (versionBit (protocolVersion v)) b -> tags_ok v a b -> isOTREnabled (c_Policies b) = true ->
  processAKE t body (learnTag v a (committedTo v sk b)) = Done ((ws, None), b1) ->
  c_fragmentSize b1 = 0 -> c_injections b1 = [] -> Forall (fun w => w <> []) ws ->
  Receive (S d) (encode (header v a t ++ body)) b = Done ((None, map encode ws, None), settle b1).
Proof.
  intros Ht Hs Htag Hotr Hp Hf Hi Hw. unfold Receive. cbn [receiveUnit]. step_state. rewrite Hotr. cbn [negb].
  set (b0 := committedTo v sk b) in *.
  assert (receiveEncoded (encode (header v a t ++ body)) b = Done ((None, ws, None), b1)) as He.
  { unfold receiveEncoded. rewrite (bind_glift _ _ _ _ (decode_encode _)). unfold receiveDecoded, header.
    destruct (headerOf_bytes (c_ourInstanceTag a) (c_theirInstanceTag a) t) as [rest Eh].
    assert (checkVersion (headerOf v (c_ourInstanceTag a) (c_theirInstanceTag a) t ++ body) b = Done (Ok tt, b0)) as Ec.
    { unfold checkVersion. rewrite Eh.
      replace (([Byte.x00; z2b (protocolVersion v); z2b t] ++ rest) ++ body)
        with (SerializeShort (protocolVersion v) ++ (z2b t :: rest) ++ body) by (by destruct v).
      rewrite ExtractShort_Serialize by (by destruct v). step_done (commitToVersionFrom_run v sk _ b Hs).
      fold b0. step_done (theVersion_Some b0 v eq_refl). by rewrite Z.eqb_refl. }
    step_done Ec.
    pose proof (parseMessageHeader_accepts v a b0 t body eq_refl Htag) as Ep. cbn zeta in Ep. step_done Ep.
    assert (headerOf v (c_ourInstanceTag a) (c_theirInstanceTag a) t !! 2%nat = Some (z2b t)) as -> by (by rewrite Eh).
    assert (b2z (z2b t) = t /\ (t =? msgTypeData) = false) as [-> ->].
    { unfold akeType in Ht. repeat (apply elem_of_cons in Ht as [->|Ht]); [done..|by apply elem_of_nil in Ht]. }
    unfold receiveAKEMessage. by step_done Hp. }
  assert (forall f : M handled, (f = (h ← receiveEncoded (encode (header v a t ++ body)); finishUnit true h)) ->
    f b = Done ((None, map encode ws, None), settle b1)) as Hend.
  { intros f ->. step_done He. by apply finishUnit_run. }
  pose proof (guess_ake (c_ourInstanceTag a) (c_theirInstanceTag a) t body Ht) as Hg. fold (header v a t) in Hg.
  repeat (apply elem_of_cons in Hg as [->|Hg]); [by apply Hend..|by apply elem_of_nil in Hg].
Qed.

(** ** The five messages *)

Lemma learnTag_eq c b : learnTag v c b =
  b <| c_theirInstanceTag := match v with otrV2 => c_theirInstanceTag b | otrV3 => c_ourInstanceTag c end |>.
Proof. destruct v; [by destruct b|done]. Qed.

Lemma committedTo_eq sk c : c_version c = Some v -> c_ourCurrentKey c = Some sk -> committedTo v sk c = c.
Proof. intros Hv Hk. unfold committedTo. rewrite <- Hv, <- Hk. by destruct c. Qed.

(** What stays the same while a peer goes through the exchange. *)
Record stage (sk : PrivateKey) (c : Conversation) : Prop := {
  s_version : c_version c = Some v;
  s_key : c_ourCurrentKey c = Some sk;
  s_good : goodKey valid sk;
  s_addr : sk_addr sk <> env_fresh c;
  s_ready : ready c;
  s_quiet : mayRetransmit (c_resend c) = noRetransmit;
  s_tag : v = otrV3 -> minValidInstanceTag <= c_ourInstanceTag c < 2 ^ 32 }.

Definition stage_view (c : Conversation) :=
  (c_version c, c_ourCurrentKey c, env_fresh c, ready_view c, c_resend c, c_ourInstanceTag c).

Lemma stage_frame sk c c' : stage sk c -> stage_view c' = stage_view c -> stage sk c'.
Proof.
  intros [] [= E1 E2 E3 E4 E5 E6 E7 E8 E9]. constructor; rewrite ?E1, ?E2, ?E3, ?E8, ?E9; try done.
  eapply ready_frame; [done|]. unfold ready_view. by rewrite E4, E5, E6, E7.
Qed.

Lemma ready_settle c : ready c -> ready_view (settle c) = ready_view c.
Proof. intros Hr. unfold ready_view, settle. rec_simpl. by rewrite (r_injections _ Hr). Qed.

Lemma stage_tag sk c : stage sk c -> v = otrV3 -> c_ourInstanceTag c <> 0.
Proof. intros Hs E. pose proof (s_tag _ _ Hs E). unfold minValidInstanceTag in *. lia. Qed.

Lemma stage_speaks sk versions c : stage sk c -> speaks v sk versions c.
Proof. intros []. unfold speaks. by rewrite s_version0. Qed.

(** A message of the exchange at a peer that knows its version. *)
Lemma Receive_stage d a b sk t body ws b1 :
  akeType t -> stage sk b -> tags_ok v a b ->
  processAKE t body (learnTag v a b) = Done ((ws, None), b1) -> ready b1 -> Forall (fun w => w <> []) ws ->
  Receive (S d) (encode (header v a t ++ body)) b = Done ((None, map encode ws, None), settle b1).
Proof.
  intros Ht Hs Htag Hp Hr Hw. apply (Receive_ake d a b sk); try done; [by apply stage_speaks|apply Hs| |apply Hr|apply Hr].
  rewrite committedTo_eq; [done|apply Hs|apply Hs].
Qed.

Lemma header_nonempty c t body : header v c t ++ body <> [].
Proof. unfold header. destruct (headerOf_bytes (c_ourInstanceTag c) (c_theirInstanceTag c) t) as [rest ->]. done. Qed.

Definition commitBody (x : Z) (r : list byte) : list byte :=
  dhCommit_serialize (DhCommit (encryptedGx x r) (hash2 v (gxBytes x))).

(** A conversation nothing has happened to yet, which will use [sk] for [v].  In
    version 3 it has no instance tag yet or a valid one. *)
Record newcomer (sk : PrivateKey) (c : Conversation) : Prop := {
  n_version : c_version c = None;
  n_key : keyForVersion (c_ourKeys c) (protocolVersion v) = Some sk;
  n_good : goodKey valid sk;
  n_addr : sk_addr sk <> env_fresh c;
  n_ready : ready c;
  n_quiet : mayRetransmit (c_resend c) = noRetransmit;
  n_ake : c_ake c = None;
  n_state : c_msgState c = plainText;
  n_tag : v = otrV3 -> c_ourInstanceTag c = 0 \/ minValidInstanceTag <= c_ourInstanceTag c < 2 ^ 32;
  n_theirs : c_theirInstanceTag c = 0 }.

Lemma newcomer_stage sk c c' tag rnd rest : newcomer sk c -> takes_tag v (c_ourInstanceTag c) tag rnd rest ->
  stage_view c' = stage_view ((committedTo v sk c) <| c_ourInstanceTag := tag |>) -> stage sk c'.
Proof.
  intros [] Ht E. eapply stage_frame; [|exact E]. constructor; try done; [by eapply ready_frame|].
  intros Ev. rewrite Ev in Ht. eapply takes_tag_range; [exact Ht|by apply n_tag0].
Qed.

(** The query starts the exchange. *)
Lemma query_step d a b sk x r tag rnd rest :
  newcomer sk a -> best_version (c_Policies a) (c_Policies b) = Some v -> omap digitOf (c_friendlyQueryMessage b) = [] ->
  exponent_ok x -> length r = 16%nat -> c_Rand a = be_encode 40 x ++ r ++ rnd -> takes_tag v (c_ourInstanceTag a) tag rnd rest ->
  exists a', Receive (S d) (QueryMessage b) a = Done ((None, [encode (header v a' msgTypeDHCommit ++ commitBody x r)], None), a') /\
    stage sk a' /\ c_ake a' = Some (committed x r) /\ c_Rand a' = rest /\ c_theirInstanceTag a' = 0.
Proof.
  intros Ha Hbest Hd Hx Hr Hrand Htag. set (a0 := committedTo v sk a).
  set (a1 := a0 <| c_Rand := rest |> <| c_ourInstanceTag := tag |> <| c_ake := Some (committed x r) |>).
  pose proof (n_ready _ _ Ha) as Hra. assert (ready a1) as Hr1 by (by eapply ready_frame).
  assert (stage sk (settle a1)) as Hs1.
  { eapply newcomer_stage; [exact Ha|exact Htag|]. unfold stage_view. by rewrite ready_settle. }
  exists (settle a1). split; [|split_and!; try done; apply Ha]. unfold Receive. cbn [receiveUnit]. step_state. rewrite (r_otr _ Hra). cbn [negb].
  assert (guessMessageType (QueryMessage b) = msgGuessQuery) as ->
    by (unfold QueryMessage; by destruct (has (c_Policies b) allowV2), (has (c_Policies b) allowV3)).
  set (w := header v a1 msgTypeDHCommit ++ commitBody x r).
  assert (receiveQueryMessage (QueryMessage b) a = Done (([w], None), a1)) as Hq.
  { unfold receiveQueryMessage. step_state. rewrite extractVersions_QueryMessage by done.
    step_done (commitToVersionFrom_run v sk _ a (commit_common v sk _ _ a Hbest (n_version _ _ Ha) eq_refl (n_key _ _ Ha))). fold a0. step_state.
    assert (IsEncrypted a0 = false) as -> by (unfold IsEncrypted; apply bool_decide_false; cbn; by rewrite (n_state _ _ Ha)).
    assert (c_ake a0 = None) as -> by apply Ha. cbn [andb orb]. unfold startAKE.
    pose proof (sendDHCommit_run v a0 x r tag rnd rest eq_refl Hx Hr Hrand Htag) as Hsend.
    fold a1 in Hsend. fold (commitBody x r) in Hsend. change (headerOf v tag (c_theirInstanceTag a0) msgTypeDHCommit) with (header v a1 msgTypeDHCommit) in Hsend.
    fold w in Hsend. step_done Hsend. unfold compactMessagesWithHeader. cbn [omap list_omap id]. done. }
  step_done Hq. cbn [fst snd].
  rewrite finishUnit_run; [done|apply Hr1|apply Hr1|]. constructor; [apply header_nonempty|constructor].
Qed.

Definition keyBody (y : Z) : list byte := dhKey_serialize (DhKey (pubKey y)).

Lemma encryptedGx_len x r : exponent_ok x -> len (encryptedGx x r) < 2 ^ 32.
Proof. intros (_ & _ & Hl & _). unfold encryptedGx, len. rewrite length_XORKeyStream. apply Hl. Qed.

Lemma hash2_len data : len (hash2 v data) < 2 ^ 32.
Proof. unfold len. rewrite hash2_length. lia. Qed.

(** The commitment is answered. *)
Lemma commit_step d a b sk x y r p tag rnd rest :
  newcomer sk b -> best_version p (c_Policies b) = Some v -> tags_ok v a b ->
  exponent_ok x -> exponent_ok y -> c_Rand b = be_encode 40 y ++ rnd -> takes_tag v (c_ourInstanceTag b) tag rnd rest ->
  exists b' now, Receive (S d) (encode (header v a msgTypeDHCommit ++ commitBody x r)) b =
      Done ((None, [encode (header v b' msgTypeDHKey ++ keyBody y)], None), b') /\
    stage sk b' /\ c_ake b' = Some (answering y (encryptedGx x r) (hash2 v (gxBytes x)) now) /\ c_Rand b' = rest /\
    (v = otrV3 -> c_theirInstanceTag b' = c_ourInstanceTag a).
Proof.
  intros Hb Hbest Htag Hx Hy Hrand Htake. set (b0 := learnTag v a (committedTo v sk b)).
  assert (b0 = (committedTo v sk b) <| c_theirInstanceTag := c_theirInstanceTag b0 |>) as E0
    by (unfold b0; rewrite learnTag_eq; done).
  assert (c_version b0 = Some v /\ c_Rand b0 = be_encode 40 y ++ rnd /\ idle b0 /\ takes_tag v (c_ourInstanceTag b0) tag rnd rest /\
    mayRetransmit (c_resend b0) = noRetransmit) as (Hv0 & Hrand0 & Hidle0 & Htake0 & Hq0).
  { rewrite E0. split_and!; try done; [unfold idle; cbn; by rewrite (n_ake _ _ Hb)|apply Hb]. }
  pose proof (receiveDHCommit_run v b0 y (encryptedGx x r) (hash2 v (gxBytes x)) tag rnd rest Hv0
    Hidle0 Hy Hrand0 Htake0 (encryptedGx_len x r Hx) (hash2_len _) Hq0) as Hp.
  set (b1 := b0 <| c_Rand := rest |> <| c_ourInstanceTag := tag |> <| c_ake := _ |>) in Hp.
  assert (ready b1) as Hr1 by (eapply ready_frame; [apply Hb|]; unfold b1; rewrite E0; done).
  exists (settle b1), (env_now b0). split; [|split; [|split; [done|split; [done|]]]].
  - apply (Receive_ake d a b sk msgTypeDHCommit (commitBody x r) [header v b1 msgTypeDHKey ++ keyBody y] b1); try done.
    + unfold akeType. rewrite !elem_of_cons. auto.
    + eapply commit_offered; [exact Hbest|apply Hb|apply Hb].
    + apply Hb.
    + apply Hr1.
    + apply Hr1.
    + constructor; [apply header_nonempty|constructor].
  - eapply newcomer_stage; [exact Hb|exact Htake|]. unfold stage_view. rewrite ready_settle by done. unfold b1. rewrite E0. done.
  - intros E. change (c_theirInstanceTag b0 = c_ourInstanceTag a). unfold b0. by rewrite learnTag_eq, E.
Qed.

(** The key is answered with the revealed commitment. *)
Lemma key_step d a b sk x y r rnd' :
  stage sk a -> tags_ok v b a -> c_ake a = Some (committed x r) -> signs sk (initiatorHash v x y sk) (c_Rand a) rnd' ->
  exponent_ok y -> length r = 16%nat ->
  exists a' esig w now, len esig < 2 ^ 32 /\ signed_ok v (revealKeyOf v x y) (pubKey x) (pubKey y) sk 1 esig /\
    Receive (S d) (encode (header v b msgTypeDHKey ++ keyBody y)) a =
      Done ((None, [encode (header v a' msgTypeRevealSig ++ revealSigBody v x y r esig)], None), a') /\
    stage sk a' /\ c_ake a' = Some (revealed v x y r w now) /\ c_Rand a' = rnd' /\ c_ssid a' = ssidOf v x y /\
    c_ourInstanceTag a' = c_ourInstanceTag a /\ (v = otrV3 -> c_theirInstanceTag a' = c_ourInstanceTag b).
Proof.
  intros Hs Htag Hake Hsig Hy Hr. set (a0 := learnTag v b a).
  assert (stage sk a0) as Hs0 by (eapply stage_frame; [exact Hs|]; unfold a0; rewrite learnTag_eq; done).
  assert (c_Rand a0 = c_Rand a /\ c_ake a0 = c_ake a /\ c_ourInstanceTag a0 = c_ourInstanceTag a) as (Hrand0 & Hake0 & Hour0) by (unfold a0; rewrite learnTag_eq; done).
  rewrite <- Hrand0 in Hsig. rewrite <- Hake0 in Hake.
  destruct (receiveDHKey_run valid v a0 x y r sk rnd' (s_version _ _ Hs0) (stage_tag _ _ Hs0) Hake (s_key _ _ Hs0) (s_good _ _ Hs0)
    Hsig Hy Hr (s_quiet _ _ Hs0)) as (esig & Hl & Hok & Hp). cbn zeta in Hp.
  set (w := header v a0 msgTypeRevealSig ++ revealSigBody v x y r esig) in Hp.
  set (a1 := a0 <| c_Rand := rnd' |> <| c_ssid := _ |> <| c_sentRevealSig := _ |> <| c_ake := _ |>) in Hp.
  assert (ready a1) as Hr1 by (eapply ready_frame; [apply Hs0|done]).
  exists (settle a1), esig, w, (env_now a0). split; [done|]. split; [done|]. split; [|split; [|split; [done|split; [done|split; [done|split; [exact Hour0|]]]]]].
  - apply (Receive_stage d b a sk msgTypeDHKey (keyBody y) [w] a1); try done.
    + unfold akeType. rewrite !elem_of_cons. auto.
    + constructor; [apply header_nonempty|constructor].
  - eapply stage_frame; [exact Hs0|]. unfold stage_view. by rewrite ready_settle.
  - intros E. change (c_theirInstanceTag a0 = c_ourInstanceTag b). unfold a0. by rewrite learnTag_eq, E.
Qed.

(** A peer at the end of the exchange: [x] is the exponent it exchanged, [x2]
    the next one, [y] its peer's. *)
Record joined (skTheirs : PrivateKey) (x x2 y : Z) (rest ssid : list byte) (c : Conversation) : Prop := {
  j_state : c_msgState c = encrypted;
  j_version : c_version c = Some v;
  j_keys : c_keys c = sessionStart x x2 y;
  j_rand : c_Rand c = rest;
  j_ready : ready c;
  j_ssid : c_ssid c = ssid;
  j_their : pk_key <$> c_theirKey c = Some (sk_DSAPublicKey skTheirs) }.

Lemma ready_ake c a : ready c -> ready (c <| c_ake := a |>).
Proof. intros Hr. by eapply ready_frame. Qed.

Lemma header_tags c c' t : c_ourInstanceTag c = c_ourInstanceTag c' -> c_theirInstanceTag c = c_theirInstanceTag c' ->
  header v c t = header v c' t.
Proof. unfold header. by intros -> ->. Qed.

Lemma header_settle c a t : header v (settle (c <| c_ake := a |>)) t = header v c t.
Proof. done. Qed.

(** The state that matters at the end survives storing the exchange. *)
Lemma joined_settle skTheirs x x2 y rest ssid c a : joined skTheirs x x2 y rest ssid c ->
  joined skTheirs x x2 y rest ssid (settle (c <| c_ake := a |>)).
Proof.
  intros []. constructor; try done. eapply ready_frame; [exact j_ready0|].
  change (ready_view (settle (c <| c_ake := a |>))) with (ready_view (settle c)). by apply ready_settle.
Qed.

Hypothesis p_nz : dh_p <> 0.

(** The revealed commitment is checked and answered with the signature. *)
Lemma reveal_step d a b skA skB x y y2 r esig now rest :
  stage skB b -> tags_ok v a b -> c_ake b = Some (answering y (encryptedGx x r) (hash2 v (gxBytes x)) now) ->
  exponent_ok x -> exponent_ok y -> 0 <= y2 < 256 ^ Z.of_nat 40 -> goodKey valid skA -> length r = 16%nat ->
  len esig < 2 ^ 32 -> signed_ok v (revealKeyOf v x y) (pubKey x) (pubKey y) skA 1 esig ->
  signs skB (responderHash v x y skB) (c_Rand b) (be_encode 40 y2 ++ rest) -> (v = otrV3 -> c_theirInstanceTag b = c_ourInstanceTag a) ->
  exists b' esig', len esig' < 2 ^ 32 /\ signed_ok v (sigKeyOf v x y) (pubKey y) (pubKey x) skB 1 esig' /\
    Receive (S d) (encode (header v a msgTypeRevealSig ++ revealSigBody v x y r esig)) b =
      Done ((None, [encode (header v b' msgTypeSig ++ sigBody v x y esig')], None), b') /\
    joined skA y y2 x rest (ssidOf v x y) b' /\ c_ourInstanceTag b' = c_ourInstanceTag b /\
    (v = otrV3 -> c_theirInstanceTag b' = c_ourInstanceTag a).
Proof.
  intros Hs Htag Hake Hx Hy Hy2 HgA Hr Hl Hok Hsig Htheirs.
  assert (learnTag v a b = b) as El.
  { rewrite learnTag_eq. transitivity (b <| c_theirInstanceTag := c_theirInstanceTag b |>); [|by destruct b].
    f_equal. destruct v; [done|by rewrite Htheirs]. }
  destruct (receiveRevealSig_run valid v p_nz b x y y2 r skA skB esig now rest (s_version _ _ Hs) (stage_tag _ _ Hs) Hake Hx Hy Hy2
    HgA Hr Hl Hok (s_key _ _ Hs) (s_good _ _ Hs) (s_addr _ _ Hs) Hsig (s_quiet _ _ Hs)) as (esig' & ake & Hl' & Hok' & Hp).
  set (b1 := responded v (signing v x y r now) skA x y y2 rest b) in Hp.
  assert (ready b1) as Hr1 by (eapply ready_frame; [apply Hs|done]).
  assert (joined skA y y2 x rest (ssidOf v x y) b1) as Hj by (constructor; try done; apply Hs).
  assert (forall t, header v (settle (b1 <| c_ake := Some ake |>)) t = header v b t) as Eh.
  { intros t. rewrite header_settle. apply header_tags; done. }
  exists (settle (b1 <| c_ake := Some ake |>)), esig'. rewrite Eh. split; [done|]. split; [done|].
  split; [|split; [by apply joined_settle|split; [done|exact Htheirs]]].
  apply (Receive_stage d a b skB msgTypeRevealSig (revealSigBody v x y r esig) [header v b msgTypeSig ++ sigBody v x y esig'] (b1 <| c_ake := Some ake |>)); [|done|done| | |].
  - unfold akeType. rewrite !elem_of_cons. auto.
  - rewrite El. exact Hp.
  - apply ready_ake, Hr1.
  - constructor; [apply header_nonempty|constructor].
Qed.

(** The signature ends the exchange. *)
Lemma sig_step d a b skA skB x x2 y r esig w now rest :
  stage skA a -> tags_ok v b a -> c_ake a = Some (revealed v x y r w now) -> c_ssid a = ssidOf v x y ->
  0 <= x2 < 256 ^ Z.of_nat 40 -> goodKey valid skB ->
  len esig < 2 ^ 32 -> signed_ok v (sigKeyOf v x y) (pubKey y) (pubKey x) skB 1 esig ->
  c_Rand a = be_encode 40 x2 ++ rest -> (v = otrV3 -> c_theirInstanceTag a = c_ourInstanceTag b) ->
  exists a', Receive (S d) (encode (header v b msgTypeSig ++ sigBody v x y esig)) a = Done ((None, [], None), a') /\
    joined skB x x2 y rest (ssidOf v x y) a' /\ c_ourInstanceTag a' = c_ourInstanceTag a /\
    (v = otrV3 -> c_theirInstanceTag a' = c_ourInstanceTag b).
Proof.
  intros Hs Htag Hake Hssid Hx2 HgB Hl Hok Hrand Htheirs.
  assert (learnTag v b a = a) as El.
  { rewrite learnTag_eq. transitivity (a <| c_theirInstanceTag := c_theirInstanceTag a |>); [|by destruct a].
    f_equal. destruct v; [done|by rewrite Htheirs]. }
  destruct (receiveSig_run valid v a x x2 y r skA skB esig w now rest (s_version _ _ Hs) Hake HgB Hl Hok
    (s_key _ _ Hs) (s_addr _ _ Hs) Hx2 Hrand (s_quiet _ _ Hs)) as (ake & Hp).
  set (a1 := finishedExchange ake x x2 y rest (learnKey skB a)) in Hp.
  assert (ready a1) as Hr1 by (eapply ready_frame; [apply Hs|done]).
  assert (joined skB x x2 y rest (ssidOf v x y) a1) as Hj by (constructor; try done; apply Hs).
  match type of Hp with _ = Done (_, ?c) => set (a2 := c) in Hp end.
  exists (settle a2). split; [|split; [by apply joined_settle|split; [done|exact Htheirs]]].
  apply (Receive_stage d b a skA msgTypeSig (sigBody v x y esig) [] a2); [|done|done| | |constructor].
  - unfold akeType. rewrite !elem_of_cons. auto.
  - rewrite El. exact Hp.
  - apply ready_ake, Hr1.
Qed.

(** ** The whole exchange *)

Lemma tape_cons x i m : tape x i (S m) = be_encode 40 (x i) ++ tape x (i + 1) m.
Proof.
  unfold tape. rewrite seqZ_cons by lia. cbn [map concat].
  by replace (Z.pred (Z.of_nat (S m))) with (Z.of_nat m) by lia; replace (Z.succ i) with (i + 1) by lia.
Qed.

(** The random bytes of the two, in the order they are read: the exponent, the
    nonce of the initiator, the instance tag if there is none yet, what the
    signature of the exchanged values takes, and the exponents of later keys. *)
Definition initiator_draws (skA : PrivateKey) (x y : Z -> Z) (r : list byte) (m : nat) (a : Conversation) : Prop :=
  exists rnd tag rnd', c_Rand a = be_encode 40 (x 1) ++ r ++ rnd /\ takes_tag v (c_ourInstanceTag a) tag rnd rnd' /\
    signs skA (initiatorHash v (x 1) (y 1) skA) rnd' (tape x 2 (S m)).
Definition responder_draws (skB : PrivateKey) (x y : Z -> Z) (m : nat) (b : Conversation) : Prop :=
  exists rnd tag rnd', c_Rand b = be_encode 40 (y 1) ++ rnd /\ takes_tag v (c_ourInstanceTag b) tag rnd rnd' /\
    signs skB (responderHash v (x 1) (y 1) skB) rnd' (tape y 2 (S m)).

Lemma deliverA_run a b ab m ms ga gb es plain ws err a' : Receive 1 m a = Done ((plain, ws, err), a') ->
  net_step (Network a b ab (m :: ms) ga gb es) DeliverA =
  Done (Network a' b (ab ++ ws) ms (ga ++ option_list plain) gb (es ++ option_list err)).
Proof. intros Hr. cbn [net_step net_ba net_a]. by rewrite Hr. Qed.

Lemma deliverB_run a b m ms ba ga gb es plain ws err b' : Receive 1 m b = Done ((plain, ws, err), b') ->
  net_step (Network a b (m :: ms) ba ga gb es) DeliverB =
  Done (Network a b' ms (ba ++ ws) ga (gb ++ option_list plain) (es ++ option_list err)).
Proof. intros Hr. cbn [net_step net_ab net_b]. by rewrite Hr. Qed.

Lemma net_run_step act acts w w' : net_step w act = Done w' -> net_run (act :: acts) w = net_run acts w'.
Proof. intros Hs. cbn [net_run]. by rewrite Hs. Qed.

Lemma net_run_app acts acts' w w' : net_run acts w = Done w' -> net_run (acts ++ acts') w = net_run acts' w'.
Proof.
  revert w. induction acts as [|act acts IH]; intros w Hr; [by injection Hr as ->|].
  cbn [net_run app] in *. destruct (net_step w act) as [w1|]; [by apply IH|done].
Qed.

Definition handshake : list action := [DeliverA; DeliverB; DeliverA; DeliverB; DeliverA].

Lemma half_start x y : half 0 x (sessionStart (x 1) (x 2) (y 1)) (sessionStart (y 1) (y 2) (x 1)) [].
Proof.
  constructor; [cbn; lia|done|done|cbn; lia|done|cbn; lia|constructor|constructor| |]; intros s r; cbn; [repeat constructor|lia].
Qed.

Lemma joined_peer skT x y m ssid c :
  joined skT (x 1) (x 2) (y 1) (tape x 3 m) ssid c -> peer v 0 m x c.
Proof.
  intros []. constructor; [done|done| |]; rewrite j_keys0; [|done].
  split_and!; [constructor|constructor|vm_compute; congruence].
Qed.

Lemma exchange_run skA skB x y r m a b :
  newcomer skA a -> newcomer skB b -> best_version (c_Policies a) (c_Policies b) = Some v ->
  omap digitOf (c_friendlyQueryMessage b) = [] -> exponents_ok x -> exponents_ok y ->
  exponent_ok (x 1) -> exponent_ok (y 1) -> length r = 16%nat ->
  initiator_draws skA x y r m a -> responder_draws skB x y m b ->
  exists a' b', net_run handshake (Network a b [] [QueryMessage b] [] [] []) = Done (Network a' b' [] [] [] [] []) /\
    joined skB (x 1) (x 2) (y 1) (tape x 3 m) (ssidOf v (x 1) (y 1)) a' /\
    joined skA (y 1) (y 2) (x 1) (tape y 3 m) (ssidOf v (x 1) (y 1)) b' /\ tags_synced v a' b'.
Proof.
  intros Ha Hb Hbest Hd Hex Hey Hx Hy Hr (rndA & tagA & rndA' & HrA & HtA & HsA) (rndB & tagB & rndB' & HrB & HtB & HsB). rewrite tape_cons in HsA, HsB.
  destruct (query_step 0 a b skA (x 1) r tagA rndA rndA') as (a1 & R1 & S1 & K1 & T1 & G1); try done.
  destruct (commit_step 0 a1 b skB (x 1) (y 1) r (c_Policies a) tagB rndB rndB') as (b1 & now & R2 & S2 & K2 & T2 & G2); [done|done| |done..|].
  { unfold tags_ok. destruct v eqn:E; [done|]. split; [by apply (s_tag _ _ S1)|]. split; [by left|left; apply Hb]. }
  assert (tags_ok v b1 a1) as Tg1.
  { unfold tags_ok. destruct v eqn:E; [done|]. split; [by apply (s_tag _ _ S2)|]. split; [|by left].
    right. rewrite G2 by done. split; [by apply (s_tag _ _ S1)|done]. }
  destruct (key_step 0 a1 b1 skA (x 1) (y 1) r (be_encode 40 (x 2) ++ tape x 3 m))
    as (a2 & esig & w & now2 & L3 & O3 & R3 & S3 & K3 & T3 & I3 & U3 & G3); [done|done|done|by rewrite T1|done|done|].
  assert (tags_synced v a2 b1) as Y1.
  { intros E. split; [by apply (s_tag _ _ S3)|]. split; [by apply (s_tag _ _ S2)|]. split; [by apply G3|]. by rewrite G2, U3. }
  assert (tags_synced v b1 a2) as Y2 by (intros E; specialize (Y1 E); tauto).
  destruct (reveal_step 0 a2 b1 skA skB (x 1) (y 1) (y 2) r esig now (tape y 3 m))
    as (b2 & esig' & L4 & O4 & R4 & J4 & U4 & G4);
    [done|by apply tags_synced_ok|done|done|done|apply Hey|apply S3|done|done|done|by rewrite T2|intros E; by destruct (Y1 E) as (_ & _ & _ & ->)|].
  destruct (sig_step 0 a2 b2 skA skB (x 1) (x 2) (y 1) r esig' w now2 (tape x 3 m)) as (a3 & R5 & J5 & U5 & G5);
    [done| |done|done|apply Hex|apply S2|done|done|done|intros E; by rewrite U4, G3|].
  { apply tags_synced_ok. intros E. rewrite U4, G4 by done. specialize (Y1 E). intuition congruence. }
  exists a3, b2. split; [|split; [done|split; [done|]]].
  - unfold handshake. rewrite (net_run_step _ _ _ _ (deliverA_run _ _ _ _ _ _ _ _ _ _ _ _ R1)). cbn [app option_list].
    rewrite (net_run_step _ _ _ _ (deliverB_run _ _ _ _ _ _ _ _ _ _ _ _ R2)). cbn [app option_list].
    rewrite (net_run_step _ _ _ _ (deliverA_run _ _ _ _ _ _ _ _ _ _ _ _ R3)). cbn [app option_list].
    rewrite (net_run_step _ _ _ _ (deliverB_run _ _ _ _ _ _ _ _ _ _ _ _ R4)). cbn [app option_list].
    by rewrite (net_run_step _ _ _ _ (deliverA_run _ _ _ _ _ _ _ _ _ _ _ _ R5)).
  - intros E. rewrite U5, U4, G4, G5, U4 by done. specialize (Y1 E). intuition congruence.
Qed.

Lemma exchange_inv skA skB x y m a b :
  joined skB (x 1) (x 2) (y 1) (tape x 3 m) (ssidOf v (x 1) (y 1)) a ->
  joined skA (y 1) (y 2) (x 1) (tape y 3 m) (ssidOf v (x 1) (y 1)) b -> tags_synced v a b ->
  net_inv v 0 m x y [] [] (Network a b [] [] [] [] []).
Proof.
  intros Ja Jb Ht. exists m, m, [], []. split; [|split_and!; try done; [apply Ja|apply Jb]].
  constructor; [by eapply joined_peer|by eapply joined_peer| | |done|constructor|constructor];
    cbn [net_a net_b]; rewrite (j_keys _ _ _ _ _ _ _ Ja), (j_keys _ _ _ _ _ _ _ Jb); apply half_start.
Qed.

End Exchange.

(** ** Theorems *)

(** C2: The key exchange establishes a session.  Two conversations nothing has
    happened to yet (with a valid DSA key each, at least one version in common, an
    instance tag or none, no fragmentation, debugging off, nothing to inject or
    retransmit) run it when one is given the other's query message, whose friendly
    text has no digits, and the network delivers the four messages that follow.
    Their random sources hold what the code reads, in its order: an exponent whose
    public value is a group element long enough to be encrypted, the nonce, the
    instance tag of a peer without one, bytes on which the DSA signature of the
    exchanged values succeeds, and the next exponents.  Then no call fails or
    panics, nothing is left to deliver, both are encrypted in the highest common
    version, they agree on the session id, each has the public key of the other,
    and their keys are those of a fresh session. *)
Theorem ake_establishes_session `{DHGroup} `{CryptoLaws} valid `{!DsaLaws valid} v skA skB x y r m a b :
  dh_p <> 0 -> newcomer valid v skA a -> newcomer valid v skB b -> best_version (c_Policies a) (c_Policies b) = Some v ->
  omap digitOf (c_friendlyQueryMessage b) = [] -> exponents_ok x -> exponents_ok y ->
  exponent_ok (x 1) -> exponent_ok (y 1) -> length r = 16%nat ->
  initiator_draws v skA x y r m a -> responder_draws v skB x y m b ->
  exists w', net_run handshake (Network a b [] [QueryMessage b] [] [] []) = Done w' /\
    net_errors w' = [] /\ net_ab w' = [] /\ net_ba w' = [] /\
    IsEncrypted (net_a w') = true /\ IsEncrypted (net_b w') = true /\
    c_version (net_a w') = Some v /\ c_version (net_b w') = Some v /\
    c_ssid (net_a w') = c_ssid (net_b w') /\
    pk_key <$> c_theirKey (net_a w') = Some (sk_DSAPublicKey skB) /\
    pk_key <$> c_theirKey (net_b w') = Some (sk_DSAPublicKey skA) /\
    net_inv v 0 m x y [] [] w'.
Proof.
  intros Hp Ha Hb Hbest Hd Hex Hey Hx Hy Hr HdA HdB.
  destruct (exchange_run valid v Hp skA skB x y r m a b) as (a' & b' & Hrun & Ja & Jb & Ht); try done.
  exists (Network a' b' [] [] [] [] []). pose proof (exchange_inv v skA skB x y m a' b' Ja Jb Ht) as Hi.
  destruct Ja, Jb. split_and!; try done; unfold IsEncrypted; cbn [net_a net_b]; try (by apply bool_decide_true). congruence.
Qed.

(** C1: End to end.  Two conversations nothing has happened to yet (with a valid
    DSA key each, a version in common, an instance tag or none, no fragmentation,
    debugging off, nothing to inject or retransmit, a friendly text without
    digits, and random sources that hold what the code reads: usable exponents, a
    nonce, missing tags, bytes on which the signatures succeed) start from a query
    message, exchange keys and then go through any fewer than 2^23
    actions: a peer sends a text, the oldest message under way in one direction is
    delivered, or time passes, in any interleaving.  If the texts are not empty,
    hold no zero byte and are shorter than 2^31 bytes, the group's values have at
    most 1000 bytes, and no public value drawn by one peer is drawn by the other,
    then no call fails or panics, each text arrives once, in order and unchanged,
    and all of them have arrived once nothing is under way. *)
Theorem otr_end_to_end `{DHGroup} `{CryptoLaws} valid `{!DsaLaws valid} v skA skB x y r acts a b :
  group_fits -> newcomer valid v skA a -> newcomer valid v skB b -> best_version (c_Policies a) (c_Policies b) = Some v ->
  omap digitOf (c_friendlyQueryMessage b) = [] -> exponents_ok x -> exponents_ok y ->
  exponent_ok (x 1) -> exponent_ok (y 1) -> length r = 16%nat ->
  initiator_draws v skA x y r (length acts) a -> responder_draws v skB x y (length acts) b ->
  2 * len acts < 2 ^ 24 -> keys_apart (2 * len acts) x y -> Forall action_ok acts ->
  exists w', net_run (handshake ++ acts) (Network a b [] [QueryMessage b] [] [] []) = Done w' /\ net_errors w' = [] /\
    (exists late, sentByA acts = got_b w' ++ late /\ (net_ab w' = [] -> late = [])) /\
    (exists late, sentByB acts = got_a w' ++ late /\ (net_ba w' = [] -> late = [])).
Proof.
  intros Hfit Ha Hb Hbest Hd Hex Hey Hx Hy Hr HdA HdB Hn Hapart Hok. pose proof (len_nonneg acts).
  destruct (exchange_run valid v ltac:(destruct Hfit; lia) skA skB x y r (length acts) a b) as (a' & b' & Hrun & Ja & Jb & Ht); try done.
  destruct (net_run_inv v (2 * len acts) ltac:(lia) Hfit acts 0 x y [] [] _ (exchange_inv v skA skB x y _ a' b' Ja Jb Ht)
    ltac:(lia) Hex Hey Hapart Hok) as (w' & Hr' & ma & mb & ab & ba & _ & _ & _ & _ & _ & Eab & Eba & Esa & Esb & Ee).
  exists w'. rewrite (net_run_app _ _ _ _ Hrun). split; [done|]. split; [done|]. split.
  - exists (texts ab). split; [done|]. rewrite Eab. by destruct ab.
  - exists (texts ba). split; [done|]. rewrite Eba. by destruct ba.
Qed.

(** Two newcomers in a group whose values are long enough to be encrypted: all
    exponents of the first are 100, all those of the second 101.  Each draws its
    instance tag, the first of them after one that is too small; their signatures
    draw one byte. *)
Definition mersenne_group : DHGroup := {| dh_p := 2 ^ 127 - 1; dh_q := 127; dh_g1 := 2 |}.

Definition example_keypair (addr y : Z) : PrivateKey :=
  let pub := DsaPublicKey (Some 23) (Some 11) (Some 2) (Some y) in PrivateKeyAt addr pub (DsaPrivateKey pub (Some 3)).

Definition example_newcomer (sk : PrivateKey) (draws : list byte) : Conversation :=
  new_conversation None (allowV2 + allowV3) [sk] draws 0 10.

Definition example_a (m : nat) : Conversation := example_newcomer (example_keypair 1 8)
  (be_encode 40 100 ++ zeroes 16 ++ be_encode 4 0x12 ++ be_encode 4 0x1234 ++ Byte.x07 :: tape (fun _ => 100) 2 (S m)).
Definition example_b (m : nat) : Conversation := example_newcomer (example_keypair 2 9)
  (be_encode 40 101 ++ be_encode 4 0x5678 ++ Byte.x07 :: tape (fun _ => 101) 2 (S m)).

Lemma example_a_ok m : newcomer (fun _ => True) otrV3 (example_keypair 1 8) (example_a m).
Proof.
  constructor; try done; [|by left].
  split; [|split; [|split; done]]; [by exists 23, 11, 2, 8|done].
Qed.

Lemma example_b_ok m : newcomer (fun _ => True) otrV3 (example_keypair 2 9) (example_b m).
Proof.
  constructor; try done; [|by left].
  split; [|split; [|split; done]]; [by exists 23, 11, 2, 9|done].
Qed.

Lemma example_draws m :
  @initiator_draws mersenne_group toy_crypto otrV3 (example_keypair 1 8) (fun _ => 100) (fun _ => 101) (zeroes 16) m (example_a m) /\
  @responder_draws mersenne_group toy_crypto otrV3 (example_keypair 2 9) (fun _ => 100) (fun _ => 101) m (example_b m).
Proof.
  split; eexists _, _, _; (split; [reflexivity|split; [reflexivity|]]); do 2 eexists; reflexivity.
Qed.

Lemma example_exponents : @exponent_ok mersenne_group 100 /\ @exponent_ok mersenne_group 101.
Proof. split; repeat split; vm_compute; congruence. Qed.

Lemma ake_establishes_session_witness : exists w',
  @net_run mersenne_group toy_crypto handshake (Network (example_a 0) (example_b 0) [] [QueryMessage (example_b 0)] [] [] []) = Done w' /\
  IsEncrypted (net_a w') = true /\ IsEncrypted (net_b w') = true /\ c_ssid (net_a w') = c_ssid (net_b w').
Proof.
  destruct (@ake_establishes_session mersenne_group toy_crypto toy_crypto_laws (fun _ => True) toy_dsa_laws otrV3
    (example_keypair 1 8) (example_keypair 2 9) (fun _ => 100) (fun _ => 101) (zeroes 16) 0 (example_a 0) (example_b 0))
    as (w' & Hr & _ & _ & _ & Ea & Eb & _ & _ & Es & _).
  - vm_compute; congruence.
  - apply example_a_ok.
  - apply example_b_ok.
  - reflexivity.
  - reflexivity.
  - intros i. split; vm_compute; congruence.
  - intros i. split; vm_compute; congruence.
  - exact (proj1 example_exponents).
  - exact (proj2 example_exponents).
  - reflexivity.
  - exact (proj1 (example_draws 0)).
  - exact (proj2 (example_draws 0)).
  - exists w'. split_and!; assumption.
Defined.

Lemma otr_end_to_end_witness : exists w',
  @net_run mersenne_group toy_crypto (handshake ++ example_actions)
    (Network (example_a (length example_actions)) (example_b (length example_actions)) [] [QueryMessage (example_b (length example_actions))] [] [] []) = Done w' /\
  net_errors w' = [] /\
  (exists late, sentByA example_actions = got_b w' ++ late /\ (net_ab w' = [] -> late = [])).
Proof.
  destruct (@otr_end_to_end mersenne_group toy_crypto toy_crypto_laws (fun _ => True) toy_dsa_laws otrV3
    (example_keypair 1 8) (example_keypair 2 9) (fun _ => 100) (fun _ => 101) (zeroes 16) example_actions
    (example_a (length example_actions)) (example_b (length example_actions))) as (w' & Hr & He & Ha & _).
  - split; vm_compute; reflexivity.
  - apply example_a_ok.
  - apply example_b_ok.
  - reflexivity.
  - reflexivity.
  - intros i. split; vm_compute; congruence.
  - intros i. split; vm_compute; congruence.
  - exact (proj1 example_exponents).
  - exact (proj2 example_exponents).
  - reflexivity.
  - exact (proj1 (example_draws _)).
  - exact (proj2 (example_draws _)).
  - reflexivity.
  - intros i j _ _. vm_compute. congruence.
  - repeat constructor; first [concrete_notin|vm_compute; congruence].
  - exists w'. split; [exact Hr|]. split; [exact He|exact Ha].
Defined.
