(* ===== verification/Privacy.v ===== *)
(** * What a session guarantees against the network

    Properties of single operations against arbitrary input: what must be true
    of a message before its text is delivered, what a forged message can and
    cannot change, and what is sent when no session is established. *)

From S2P Require Import Prelude GoLib Gotrax Policy Crypto KeyManagement Messages Smp Keys Conversation Fragmentation SmpMachine DataMessage Ake Receive Session.

Section Receiving.
Context `{DHGroup} `{Crypto}.

(** The session keys a message names, with the state of the keys after its
    counter was checked. *)
Definition messageKeys (c : Conversation) (dm : dataMsg) (v : otrVersion) (ks : sessionKeys) : Prop :=
  exists k', sessionKeysFor (snd (checkMessageCounter (c_keys c) (dm_recipientKeyID dm) (dm_senderKeyID dm) (be_decode (dm_topHalfCtr dm))))
               (dm_recipientKeyID dm) (dm_senderKeyID dm) v = Done (Ok ks, k').

(** The message [msg] under [header] is authentic and fresh for [c], and its
    text is [text]. *)
Definition authentic (c : Conversation) (header msg text : list byte) : Prop :=
  c_msgState c = encrypted /\
  exists v dm ks p, c_version c = Some v /\ dataMsg_deserialize msg v = Done (Ok dm) /\
    theirCounterOf (c_keys c) (dm_recipientKeyID dm) (dm_senderKeyID dm) < be_decode (dm_topHalfCtr dm) /\
    messageKeys c dm v ks /\
    dm_authenticator dm = hmac (hash v) (receivingMACKey ks) (header ++ default [] (dm_serializeUnsignedCache dm)) /\
    plainDataMsg_decrypt (receivingAESKey ks) (dm_topHalfCtr dm) (dm_encryptedMsg dm) = Ok p /\ pd_message p = text.

Lemma afterDecryption_plain dm p ks v c :
  wlp (afterDecryption dm p ks v) c (fun o _ => fst (fst o) = plaintextOf (pd_message p)).
Proof.
  unfold afterDecryption. wlp_step. apply wlp_any. intros _ c1. wlp_step. apply wlp_any. intros err c2.
  destruct err as [e|]; [by wlp_step|]. wlp_step. apply wlp_any. intros [[|t tlvs]|e] c3; [by wlp_step| |by wlp_step].
  wlp_step. apply wlp_any. intros [dx|e] c4; [|by wlp_step]. wlp_step. apply wlp_any. intros [w|e] c5; by wlp_step.
Qed.

Lemma checkSign_None dm key header v : checkSign dm key header v = None ->
  dm_authenticator dm = hmac (hash v) key (header ++ default [] (dm_serializeUnsignedCache dm)).
Proof. unfold checkSign. by case_bool_decide. Qed.

(** The raw outcome: a text is delivered only if the message is authentic. *)
Lemma processData_plain header msg c :
  wlp (processDataMessageWithRawErrors header msg) c (fun o _ =>
    forall text, fst (fst o) = Some text -> authentic c header msg text).
Proof.
  unfold processDataMessageWithRawErrors. wlp_step. wlp_step. destruct (IsEncrypted c) eqn:Eenc; cbn [negb].
  2:{ wlp_step. apply wlp_any. intros _ c1. by wlp_step. }
  apply bool_decide_eq_true in Eenc. wlp_step. apply wlp_intro. intros v c1 Ev.
  unfold theVersion in Ev. destruct (c_version c) as [v'|] eqn:Evc; [|by rewrite bind_gget, Evc in Ev].
  rewrite bind_gget, Evc in Ev. injection Ev as -> <-.
  wlp_step. apply wlp_glift. intros dm Edm. destruct dm as [dm|e]; [|by wlp_step].
  wlp_step. apply wlp_intro. intros err c2 Ecc. unfold conv_checkMessageCounter in Ecc.
  destruct (checkMessageCounter _ _ _ _) as [err' k2] eqn:Ek. injection Ecc as -> <-.
  destruct err as [e|]; [by wlp_step|]. apply checkMessageCounter_spec in Ek as Hspec. destruct Hspec as [Hctr _].
  wlp_step. apply wlp_intro. intros [ks|e] c3 Eks; [|by wlp_step].
  unfold conv_sessionKeys in Eks. destruct (sessionKeysFor _ _ _ _) as [[r k3]|] eqn:Esk; [|done]. injection Eks as -> <-.
  destruct (checkSign dm (receivingMACKey ks) header v) as [e|] eqn:Ecs; [by wlp_step|].
  eapply wlp_mono; [apply afterDecryption_plain|]. intros o c4 -> text Htext.
  unfold plaintextOf in Htext. case_bool_decide as Hne; [done|]. injection Htext as Htext.
  destruct (plainDataMsg_decrypt _ _ _) as [p|e] eqn:Edec; [|done]. split; [done|].
  exists v, dm, ks, p. split_and!; try done; [by apply Hctr| |by apply checkSign_None].
  exists k3. by rewrite Ek.
Qed.

End Receiving.

(** C8: No text without authentication.  When [processDataMessage] hands out a
    text, the conversation was encrypted, the message parses, its counter is
    larger than every counter accepted before under the pair of keys it names,
    its authenticator is the MAC of the header and the body under those keys,
    and the text is the decryption of its payload. *)
Theorem delivered_text_is_authentic `{DHGroup} `{Crypto} header msg c text toSend err c' :
  processDataMessage header msg c = Done ((Some text, toSend, err), c') -> authentic c header msg text.
Proof.
  unfold processDataMessage. intros Hp.
  pose proof (processData_plain header msg c) as Hw. unfold wlp in Hw.
  cbn zeta in Hp. unfold mbind, gom_bind in Hp.
  destruct (processDataMessageWithRawErrors header msg c) as [[[[plain ts] e] c1]|]; [|done].
  injection Hp as -> _ _ _. by apply Hw.
Qed.

(** A session in the small group: the peer [session_b] has the message
    with the text [hello] of its peer before it. *)
Definition session_a : Conversation := example_peer 0x1234 0x5678 1 2 1.
Definition session_b : Conversation := example_peer 0x5678 0x1234 2 1 1.
Definition session_header : list byte := headerOf otrV3 0x1234 0x5678 msgTypeData.
Definition session_message (flag : Z) (n : nat) : list byte :=
  match (fix send (n : nat) : M (result (dataMsg * list byte)) :=
           match n with
           | O => @genDataMsgWithFlag small_group toy_crypto (bs "hello") flag []
           | S n' => _ ← @genDataMsg small_group toy_crypto (bs "before") []; send n'
           end) n session_a with
  | Done (Ok (dm, _), _) => dataMsg_serialize dm otrV3
  | _ => []
  end.

Lemma delivered_text_is_authentic_witness :
  @authentic small_group toy_crypto session_b session_header (session_message 0 0) (bs "hello").
Proof.
  eapply (@delivered_text_is_authentic small_group toy_crypto). vm_compute. reflexivity.
Defined.

Section Forgery.
Context `{DHGroup} `{Crypto}.

Lemma sessionKeysFor_counters k our their v r k' our' their' :
  sessionKeysFor k our their v = Done (r, k') -> theirCounterOf k' our' their' = theirCounterOf k our' their'.
Proof.
  unfold sessionKeysFor. intros Hs. rewrite !theirCounterOf_eq.
  destruct (pickOurKeys k our) as [[[p|] [q|]]|]; destruct (pickTheirKey k their) as [[t|]|];
    revert Hs; unfold deref; go_simpl; intros Hs; by simplify_eq/=.
Qed.

(** The counter is stored before the authenticator is checked. *)
Lemma processData_counter header msg c v dm :
  c_msgState c = encrypted -> c_version c = Some v -> dataMsg_deserialize msg v = Done (Ok dm) ->
  theirCounterOf (c_keys c) (dm_recipientKeyID dm) (dm_senderKeyID dm) < be_decode (dm_topHalfCtr dm) ->
  forall ks, messageKeys c dm v ks -> checkSign dm (receivingMACKey ks) header v <> None ->
  exists e c', processDataMessageWithRawErrors header msg c = Done ((None, None, Some e), c') /\
    c_msgState c' = encrypted /\ c_version c' = Some v /\
    theirCounterOf (c_keys c') (dm_recipientKeyID dm) (dm_senderKeyID dm) = be_decode (dm_topHalfCtr dm).
Proof.
  intros Henc Hv Hde Hlt ks (k' & Hks) Hsign.
  unfold processDataMessageWithRawErrors. step_state. unfold IsEncrypted. rewrite bool_decide_true by done. cbn [negb].
  step_done (theVersion_Some c v Hv). rewrite (bind_glift _ _ _ _ Hde).
  destruct (checkMessageCounter _ _ _ _) as [err k1] eqn:Ek. cbn [snd] in Hks.
  apply checkMessageCounter_spec in Ek as Hspec. destruct Hspec as (Hctr & Hall & _).
  assert (err = None) as -> by (by apply Hctr).
  set (c1 := c <| c_keys := k1 |>).
  assert (conv_checkMessageCounter dm c = Done (None, c1)) as E1 by (unfold conv_checkMessageCounter; by rewrite Ek).
  step_done E1. set (c2 := c1 <| c_keys := k' |>).
  assert (conv_sessionKeys (dm_recipientKeyID dm) (dm_senderKeyID dm) v c1 = Done (Ok ks, c2)) as E2
    by (unfold conv_sessionKeys; change (c_keys c1) with k1; by rewrite Hks).
  step_done E2. destruct (checkSign dm (receivingMACKey ks) header v) as [e|]; [|done].
  exists e, c2. split; [done|]. split; [done|]. split; [done|]. change (c_keys c2) with k'.
  rewrite (sessionKeysFor_counters _ _ _ _ _ _ _ _ Hks), Hall, !Z.eqb_refl. by rewrite bool_decide_true.
Qed.

(** A message whose counter is not above the stored one is refused. *)
Lemma processData_regressed header msg c v dm :
  c_msgState c = encrypted -> c_version c = Some v -> dataMsg_deserialize msg v = Done (Ok dm) ->
  be_decode (dm_topHalfCtr dm) <= theirCounterOf (c_keys c) (dm_recipientKeyID dm) (dm_senderKeyID dm) ->
  exists c', processDataMessageWithRawErrors header msg c =
    Done ((None, None, Some (newOtrConflictError "counter regressed")), c').
Proof.
  intros Henc Hv Hde Hle.
  unfold processDataMessageWithRawErrors. step_state. unfold IsEncrypted. rewrite bool_decide_true by done. cbn [negb].
  step_done (theVersion_Some c v Hv). rewrite (bind_glift _ _ _ _ Hde). exists (c <| c_keys := snd (checkMessageCounter
    (c_keys c) (dm_recipientKeyID dm) (dm_senderKeyID dm) (be_decode (dm_topHalfCtr dm))) |>).
  assert (conv_checkMessageCounter dm c = Done (Some (newOtrConflictError "counter regressed"), c <| c_keys := snd (checkMessageCounter
    (c_keys c) (dm_recipientKeyID dm) (dm_senderKeyID dm) (be_decode (dm_topHalfCtr dm))) |>)) as E1; [|by step_done E1].
  unfold conv_checkMessageCounter, theirCounterOf, checkMessageCounter in *.
  destruct (findCounterFor _ _ _) as [i cs]. destruct (Z.leb_spec (be_decode (dm_topHalfCtr dm)) (kpc_theirCounter (counterAt cs i))); [done|lia].
Qed.

End Forgery.

(** C33: A forged message blocks genuine ones.  A data message with a bad
    authenticator is refused, but the counter it carries has already been
    stored: every later message under the same pair of keys whose counter is
    not larger is refused as a replay, however genuine.  Whoever can put a
    message on the network can thus silence a peer until its keys rotate. *)
Theorem forged_counter_blocks `{DHGroup} `{Crypto} header msg c v dm ks :
  c_msgState c = encrypted -> c_version c = Some v -> dataMsg_deserialize msg v = Done (Ok dm) ->
  theirCounterOf (c_keys c) (dm_recipientKeyID dm) (dm_senderKeyID dm) < be_decode (dm_topHalfCtr dm) ->
  messageKeys c dm v ks -> checkSign dm (receivingMACKey ks) header v <> None ->
  exists e c', processDataMessageWithRawErrors header msg c = Done ((None, None, Some e), c') /\
    forall header' msg' dm', dataMsg_deserialize msg' v = Done (Ok dm') ->
      dm_recipientKeyID dm' = dm_recipientKeyID dm -> dm_senderKeyID dm' = dm_senderKeyID dm ->
      be_decode (dm_topHalfCtr dm') <= be_decode (dm_topHalfCtr dm) ->
      exists c'', processDataMessageWithRawErrors header' msg' c' =
        Done ((None, None, Some (newOtrConflictError "counter regressed")), c'').
Proof.
  intros Henc Hv Hde Hlt Hks Hsign.
  destruct (processData_counter header msg c v dm Henc Hv Hde Hlt ks Hks Hsign) as (e & c' & Hp & Henc' & Hv' & Hctr).
  exists e, c'. split; [done|]. intros header' msg' dm' Hde' Er Es Hle.
  apply (processData_regressed header' msg' c' v dm'); [done|done|done|]. by rewrite Er, Es, Hctr.
Qed.

(** The genuine message with the last byte of its authenticator changed, and a
    counter far ahead. *)
Definition forged_message : list byte :=
  let dm := DataMsg (z2b 0) 1 1 (@pubKey small_group 1) (be_encode 8 1000) (bs "junk") (zeroes 20) [] None in
  dataMsg_serialize dm otrV3.

Lemma forged_counter_blocks_witness : exists e c',
  @processDataMessageWithRawErrors small_group toy_crypto session_header forged_message session_b = Done ((None, None, Some e), c') /\
  exists c'', @processDataMessageWithRawErrors small_group toy_crypto session_header (session_message 0 0) c' =
    Done ((None, None, Some (newOtrConflictError "counter regressed")), c'').
Proof.
  destruct (@forged_counter_blocks small_group toy_crypto session_header forged_message session_b otrV3
    (match dataMsg_deserialize forged_message otrV3 with Done (Ok dm) => dm | _ => DataMsg (z2b 0) 0 0 0 [] [] [] [] None end)
    (@calculateDHSessionKeys small_group toy_crypto 2 4 2 otrV3)) as (e & c' & Hp & Hlater).
  - reflexivity.
  - reflexivity.
  - vm_compute. reflexivity.
  - vm_compute. reflexivity.
  - eexists. vm_compute. reflexivity.
  - vm_compute. congruence.
  - exists e, c'. split; [exact Hp|]. eapply Hlater; vm_compute; [reflexivity|reflexivity|reflexivity|congruence].
Defined.

(** ** Retransmission *)

Section Retransmission.
Context `{DHGroup} `{CryptoLaws}.

(** A conversation that can send: the keys its messages name are known. *)
Record sending (v : otrVersion) (our their priv pub theirs y : Z) (hdr : list byte) (c : Conversation) : Prop := {
  snd_state : c_msgState c = encrypted;
  snd_version : c_version c = Some v;
  snd_tag : v = otrV3 -> c_ourInstanceTag c <> 0;
  snd_our : our = u32 (ourKeyID (c_keys c) - 1);
  snd_their : their = theirKeyID (c_keys c);
  snd_ourKeys : pickOurKeys (c_keys c) our = Ok (Some priv, Some pub);
  snd_theirKey : pickTheirKey (c_keys c) their = Ok (Some theirs);
  snd_next : kp_pub (ourCurrentDHKeys (c_keys c)) = Some y;
  snd_header : hdr = headerOf v (c_ourInstanceTag c) (c_theirInstanceTag c) msgTypeData }.

Lemma sentKeys_view k our their ks : dhKeys (sentKeys k our their ks) = dhKeys k.
Proof. unfold sentKeys, takeOurCounter. by destruct (findCounterFor _ _ _). Qed.

Lemma sending_frame v our their priv pub theirs y hdr c c' :
  sending v our their priv pub theirs y hdr c -> dhKeys (c_keys c') = dhKeys (c_keys c) ->
  (c_msgState c', c_version c', c_ourInstanceTag c', c_theirInstanceTag c') =
  (c_msgState c, c_version c, c_ourInstanceTag c, c_theirInstanceTag c) ->
  sending v our their priv pub theirs y hdr c'.
Proof.
  intros [] [= E1 E2 E3 E4 E5 E6] [= E7 E8 E9 E10].
  unfold pickOurKeys, pickTheirKey in *.
  constructor; unfold pickOurKeys, pickTheirKey; rewrite ?E1, ?E2, ?E3, ?E4, ?E5, ?E6, ?E7, ?E8, ?E9, ?E10; done.
Qed.

(** [w] carries [text], encrypted and signed with the session keys. *)
Definition carries (v : otrVersion) (our their priv pub theirs y : Z) (hdr text w : list byte) : Prop :=
  exists k, w = hdr ++ dataMsg_serialize (sentMessage v k hdr (calculateDHSessionKeys priv pub theirs v) our their y
                                           messageFlagNormal (PlainDataMsg text [])) v.

Lemma retransmitLoop_run v our their priv pub theirs y hdr resending msgs : forall c,
  sending v our their priv pub theirs y hdr c -> retransmitting (c_resend c) = true ->
  exists ws c', retransmitLoop msgs resending c = Done (Ok (map Some ws), c') /\
    Forall2 (fun m w => carries v our their priv pub theirs y hdr
      (if resending : bool then resendMessageTransformer c (mr_m m) else mr_m m) w) msgs ws /\
    c_messageEventHandler c' = c_messageEventHandler c /\ resend_messages (c_resend c') = resend_messages (c_resend c).
Proof.
  induction msgs as [|m msgs IH]; intros c Hs Hre; [by exists [], c; split; [done|split; [constructor|]]|].
  pose proof Hs as []. cbn [retransmitLoop]. step_state.
  set (text := if resending : bool then resendMessageTransformer c (mr_m m) else mr_m m).
  pose proof (genDataMsgWithFlag_run c v priv pub theirs y text messageFlagNormal []) as Hg. cbn zeta in Hg.
  rewrite <- snd_our0, <- snd_their0, <- snd_header0 in Hg. specialize (Hg snd_state0 snd_version0 snd_tag0 snd_ourKeys0 snd_theirKey0 snd_next0).
  set (ks := calculateDHSessionKeys priv pub theirs v) in Hg. set (c1 := sentState c our their ks text) in Hg.
  unfold genDataMsg. step_done Hg. step_done (theVersion_Some c1 v snd_version0). cbn [fst].
  step_done (wrapMessageHeader_ready v c1 msgTypeData (dataMsg_serialize (sentMessage v (c_keys c) hdr ks our their y messageFlagNormal
    (PlainDataMsg text [])) v) snd_version0 snd_tag0).
  assert (c_resend c1 = (c_resend c) <| mayRetransmit := noRetransmit |>) as Er
    by (unfold c1, sentState, sentResend; rec_simpl; by rewrite Hre).
  assert (sending v our their priv pub theirs y hdr c1) as Hs1 by (eapply sending_frame; [done|apply sentKeys_view|done]).
  destruct (IH c1 Hs1) as (ws & c' & Hl & Hall & Hev & Hmsgs); [by rewrite Er|].
  step_done Hl. fold (headerOf v (c_ourInstanceTag c) (c_theirInstanceTag c) msgTypeData).
  change (c_ourInstanceTag c1) with (c_ourInstanceTag c). change (c_theirInstanceTag c1) with (c_theirInstanceTag c).
  rewrite <- snd_header0. eexists (_ :: ws), c'. split; [reflexivity|]. split; [|by rewrite Hev, Hmsgs, Er].
  constructor; [by exists (c_keys c)|]. eapply Forall2_impl; [exact Hall|]. intros m' w'.
  unfold resendMessageTransformer. by rewrite Er.
Qed.

Lemma resentEvents_run ev msgs : forall c, exists evs, resentEvents ev msgs c = Done (tt, c <| env_events := env_events c ++ evs |>).
Proof.
  induction msgs as [|m msgs IH]; intros c; cbn [resentEvents].
  - exists []. rewrite app_nil_r. by destruct c.
  - unfold messageEvent, logEvent at 1. rewrite bind_gmod.
    destruct (IH (if c_messageEventHandler c then c <| env_events := env_events c ++ [EvMessage ev [] None (mr_opaque m)] |> else c)) as [evs ->].
    destruct (c_messageEventHandler c); [|by exists evs]. exists ([EvMessage ev [] None (mr_opaque m)] ++ evs).
    by rewrite app_assoc.
Qed.

End Retransmission.

(** C29: Retransmission.  Once a session is established, a conversation that may
    retransmit sends every message it has pending, in order, each encrypted and
    signed with the keys of the session (with the prefix of the transformer
    when it follows an error message), and nothing stays pending.  The session
    it does this in need not be the one the messages were written for. *)
Theorem retransmit_sends_pending `{DHGroup} `{CryptoLaws} v our their priv pub theirs y hdr c :
  sending v our their priv pub theirs y hdr c -> shouldRetransmit c = true ->
  exists ws c', maybeRetransmit c = Done (Ok (map Some ws), c') /\
    Forall2 (fun m w => carries v our their priv pub theirs y hdr
      (if bool_decide (mayRetransmit (c_resend c) = retransmitWithPrefix) then resendMessageTransformer c (mr_m m) else mr_m m) w)
      (resend_messages (c_resend c)) ws /\
    resend_messages (c_resend c') = [].
Proof.
  intros Hs Hsh. unfold maybeRetransmit. step_state. rewrite Hsh. cbn [negb]. unfold retransmit, modResend. step_state.
  set (c1 := c <| c_resend := _ |> <| c_resend := _ |>).
  assert (sending v our their priv pub theirs y hdr c1) as Hs1 by (by eapply sending_frame).
  set (resending := bool_decide _). destruct (retransmitLoop_run v our their priv pub theirs y hdr resending (pending (c_resend c)) c1 Hs1)
    as (ws & c2 & Hl & Hall & _ & Hm); [done|].
  step_done Hl. destruct (resentEvents_run (if resending then MessageEventMessageResent else MessageEventMessageSent) (pending (c_resend c)) c2) as [evs Hev].
  step_done Hev. unfold updateLastSent. step_state. eexists ws, _. split; [reflexivity|]. split; [exact Hall|]. exact Hm.
Qed.

(** A session with one message pending after an error message. *)
Definition session_pending : Conversation :=
  session_a <| c_resend := ResendContext retransmitWithPrefix None false [MessageToResend (bs "hello") []] |>.

Lemma retransmit_sends_pending_witness : exists ws c',
  @maybeRetransmit small_group toy_crypto session_pending = Done (Ok (map Some ws), c') /\ length ws = 1%nat.
Proof.
  destruct (@retransmit_sends_pending small_group toy_crypto toy_crypto_laws otrV3 1 1 1 2 4 2 session_header session_pending)
    as (ws & c' & Hr & Hall & _).
  - constructor; vm_compute; congruence.
  - vm_compute. reflexivity.
  - exists ws, c'. split; [exact Hr|]. apply Forall2_length in Hall. exact (eq_sym Hall).
Defined.

(** ** Sending without a session *)

Lemma sendMessageOnPlaintext_run `{DHGroup} `{Crypto} m t c : has (c_Policies c) requireEncryption = true ->
  exists c', sendMessageOnPlaintext m t c = Done (([QueryMessage c], None), c') /\
    c_msgState c' = c_msgState c /\ c_injections c' = c_injections c /\ mayRetransmit (c_resend c') = retransmitExact /\
    (retransmitting (c_resend c) = false -> resend_messages (c_resend c') = resend_messages (c_resend c) ++ [MessageToResend m t]).
Proof.
  intros Hreq. unfold sendMessageOnPlaintext. step_state. rewrite Hreq.
  unfold messageEvent, logEvent, updateLastSent, updateMayRetransmitTo, lastMessage, later, modResend. step_state.
  eexists. split; [reflexivity|].
  destruct (c_messageEventHandler c); (split; [done|split; [done|]]); rec_simpl; cbn [retransmitting upd mayRetransmit resend_messages];
    by destruct (retransmitting (c_resend c)).
Qed.

(** C30: Nothing leaks without a session.  Let the policies allow some version
    (otherwise [Send] passes every text through) and debugging be off.  While there
    is no session and encryption is required, or after the peer ended the session,
    [Send] puts nothing on the wire but the query message and what was waiting to
    be injected: with encryption required it queues the text (unless a
    retransmission is under way) to be sent exactly as it is; after the end it
    reports an error. *)
Theorem send_without_session `{DHGroup} `{Crypto} m t c :
  isOTREnabled (c_Policies c) = true -> c_debug c = false -> c_msgState c <> encrypted ->
  (c_msgState c = plainText -> has (c_Policies c) requireEncryption = true) ->
  exists ws err c', Send m t c = Done ((ws, err), c') /\
    (forall w, w ∈ ws -> w = QueryMessage c \/ w ∈ c_injections c) /\ c_msgState c' = c_msgState c /\
    (c_msgState c = plainText -> err = None /\ mayRetransmit (c_resend c') = retransmitExact /\
       (retransmitting (c_resend c) = false -> resend_messages (c_resend c') = resend_messages (c_resend c) ++ [MessageToResend m t])) /\
    (c_msgState c = finished -> err = Some (newOtrError "cannot send message because secure conversation has finished")).
Proof.
  intros Hotr Hdbg Hst Hreq. unfold Send. step_state. rewrite Hotr, Hdbg. cbn [negb andb].
  destruct (c_msgState c) eqn:Es; [|done|].
  - destruct (sendMessageOnPlaintext_run m t c (Hreq eq_refl)) as (c1 & Hs & Em & Ei & Er & Hq). step_done Hs.
    unfold withInjections, withInjects. step_state. eexists _, _, _. split; [reflexivity|]. cbn [fst snd].
    split; [|split; [by rewrite <- Es, <- Em|split; [|done]]].
    + intros w Hw. apply elem_of_app in Hw as [->%list_elem_of_singleton|Hw]; [by left|right; by rewrite <- Ei].
    + intros _. split; [done|]. by split.
  - unfold messageEvent, logEvent, withInjections, withInjects. step_state. eexists _, _, _. split; [reflexivity|]. cbn [fst snd app].
    destruct (c_messageEventHandler c); (split; [auto|]); by split.
Qed.

Definition session_required : Conversation :=
  (new_conversation None (allowV3 + requireEncryption) [] [] 0 0) <| c_injections := [bs "?OTR Error: later"] |>.

Lemma send_without_session_witness : exists ws err c', @Send small_group toy_crypto (bs "secret") [] session_required = Done ((ws, err), c') /\
  resend_messages (c_resend c') = [MessageToResend (bs "secret") []] /\ forall w, w ∈ ws -> w = QueryMessage session_required \/ w ∈ c_injections session_required.
Proof.
  destruct (@send_without_session small_group toy_crypto (bs "secret") [] session_required) as (ws & err & c' & Hs & Hw & _ & Hq & _).
  - reflexivity.
  - reflexivity.
  - discriminate.
  - reflexivity.
  - exists ws, err, c'. destruct (Hq eq_refl) as (_ & _ & Hm). split; [exact Hs|]. split; [exact (Hm eq_refl)|exact Hw].
Defined.

(** C31: The peer's disconnect ends the session.  If the policies allow some
    version and debugging is off, the TLV is answered with nothing; the keys, the
    SMP state and any key exchange under way are gone; in the state this leaves
    every data message is refused and [Send] returns an error and puts nothing on
    the wire but what was waiting to be injected. *)
Theorem disconnect_ends_session `{DHGroup} `{Crypto} t key c :
  tlvType t = tlvTypeDisconnected -> isOTREnabled (c_Policies c) = true -> c_debug c = false ->
  exists c', processTLVs [t] key c = Done (Ok [], c') /\
    c_msgState c' = finished /\ c_keys c' = empty_keys /\ c_smp c' = empty_smp /\ c_ake c' = None /\
    (forall header msg, exists c'', processDataMessageWithRawErrors header msg c' = Done ((None, None, Some errMessageNotInPrivate), c'')) /\
    (forall m tr, exists err c'', Send m tr c' = Done ((c_injections c, Some err), c'')).
Proof.
  intros Ht Hotr Hdbg. cbn [processTLVs]. unfold handleTLV. rewrite Ht. cbn [Z.eqb tlvTypeDisconnected tlvTypePadding Pos.eqb].
  assert (exists c', processDisconnectedTLV c = Done (Ok None, c') /\
    (c_msgState c' = finished /\ c_keys c' = empty_keys /\ c_smp c' = empty_smp /\ c_ake c' = None) /\
    c_Policies c' = c_Policies c /\ c_debug c' = c_debug c /\ c_injections c' = c_injections c) as (c' & Hd & Hst & Ep & Ed & Ei).
  { unfold processDisconnectedTLV, smp_wipe, signalSecurityEventIf, securityEvent, logEvent. step_state.
    destruct (IsEncrypted c); step_state; (eexists; split; [reflexivity|]); [|done].
    cbn beta. match goal with |- context [if ?b then _ else _] => destruct b end; done. }
  exists c'. split; [by step_done Hd|]. destruct Hst as (Es & Ek & Esmp & Eake). split_and!; try done.
  - intros header msg. unfold processDataMessageWithRawErrors. step_state. unfold IsEncrypted. rewrite bool_decide_false by (by rewrite Es).
    cbn [negb]. unfold messageEvent, logEvent. step_state. by eexists.
  - intros m tr. unfold Send. step_state. rewrite Ep, Ed, Hotr, Hdbg, Es. cbn [negb andb].
    unfold messageEvent, logEvent, withInjections, withInjects. step_state. cbn [fst snd app]. rewrite <- Ei.
    by destruct (c_messageEventHandler c'); do 2 eexists.
Qed.

Lemma disconnect_ends_session_witness : exists c',
  @processTLVs small_group toy_crypto [Tlv tlvTypeDisconnected 0 []] [] session_b = Done (Ok [], c') /\
  c_keys c' = empty_keys /\ exists err c'', @Send small_group toy_crypto (bs "late") [] c' = Done (([], Some err), c'').
Proof.
  destruct (@disconnect_ends_session small_group toy_crypto (Tlv tlvTypeDisconnected 0 []) [] session_b)
    as (c' & Hp & _ & Hk & _ & _ & _ & Hs); [reflexivity..|].
  exists c'. split; [exact Hp|]. split; [exact Hk|]. exact (Hs (bs "late") []).
Defined.

(** ** The history of a conversation *)

Section History.
Context `{DHGroup} `{CryptoLaws}.

Lemma createSerialized_run v our their priv pub theirs y hdr m flag tlvs c :
  sending v our their priv pub theirs y hdr c -> c_fragmentSize c = 0 ->
  exists w extra c', createSerializedDataMessage m flag tlvs c = Done (Ok ([encode w], extra), c') /\
    c_resend c' = sentResend (c_resend c) m /\ c_lastSent c' = env_now c' /\ sending v our their priv pub theirs y hdr c' /\
    (env_now c', ready_view c') = (env_now c, ready_view c).
Proof.
  intros Hs Hf. pose proof Hs as []. pose proof (genDataMsgWithFlag_run c v priv pub theirs y m flag tlvs) as Hg. cbn zeta in Hg.
  rewrite <- snd_our0, <- snd_their0 in Hg. specialize (Hg snd_state0 snd_version0 snd_tag0 snd_ourKeys0 snd_theirKey0 snd_next0).
  unfold createSerializedDataMessage. set (c1 := sentState _ _ _ _ _) in Hg. step_done Hg.
  step_done (theVersion_Some c1 v snd_version0). cbn [fst snd].
  match goal with |- context [wrapMessageHeader _ ?b] =>
    step_done (wrapMessageHeader_ready v c1 msgTypeData b snd_version0 snd_tag0) end.
  unfold updateLastSent. step_state. set (c2 := c1 <| c_lastSent := env_now c1 |>).
  match goal with |- context [fragEncode ?b] => step_done (fragEncode_whole c2 b Hf) end.
  eexists _, _, c2. split; [reflexivity|]. split_and!; try done. eapply sending_frame; [exact Hs|apply sentKeys_view|done].
Qed.

(** A user who sends several texts. *)
Fixpoint send_all (ms : list (list byte)) : M (list error) :=
  match ms with
  | [] => mret []
  | m :: ms' => r ← Send m []; errs ← send_all ms'; mret (option_list (snd r) ++ errs)
  end.

Lemma Send_run v our their priv pub theirs y hdr m t c : sending v our their priv pub theirs y hdr c -> ready c ->
  retransmitting (c_resend c) = false ->
  exists ws c', Send m t c = Done ((ws, None), c') /\ sending v our their priv pub theirs y hdr c' /\ ready c' /\
    c_resend c' = (c_resend c) <| mayRetransmit := noRetransmit |> <| resend_messages := resend_messages (c_resend c) ++ [MessageToResend m []] |> /\
    (c_lastSent c', env_now c') = (env_now c, env_now c).
Proof.
  intros Hs Hr Hre. destruct (createSerialized_run v our their priv pub theirs y hdr m messageFlagNormal [] c Hs (r_fragments _ Hr))
    as (w & extra & c0 & Hc & Eres & Els & Hs0 & Evw). injection Evw as En Epol Edbg Ef Einj.
  unfold sentResend in Eres. rewrite Hre in Eres. exists [encode w], (c0 <| c_injections := [] |>).
  split; [|split; [by eapply sending_frame|split; [|split; [exact Eres|by rec_simpl; rewrite Els, En]]]].
  - unfold Send. step_state. rewrite (r_otr _ Hr), (r_debug _ Hr), (snd_state _ _ _ _ _ _ _ _ _ Hs). cbn [negb andb].
    assert (sendMessageOnEncrypted m c = Done (([encode w], None), c0)) as Hm by (unfold sendMessageOnEncrypted; by step_done Hc).
    step_done Hm. unfold withInjections. cbn [fst snd].
    assert (withInjects [encode w] c0 = Done ([encode w], c0 <| c_injections := [] |>)) as Hi; [|by step_done Hi].
    unfold withInjects. step_state. by rewrite Einj, (r_injections _ Hr).
  - destruct Hr. constructor; rec_simpl; congruence.
Qed.

Lemma send_all_run v our their priv pub theirs y hdr ms : forall c, sending v our their priv pub theirs y hdr c -> ready c ->
  retransmitting (c_resend c) = false -> ms <> [] ->
  exists c', send_all ms c = Done ([], c') /\ sending v our their priv pub theirs y hdr c' /\ ready c' /\
    resend_messages (c_resend c') = resend_messages (c_resend c) ++ map (fun m => MessageToResend m []) ms /\
    (c_lastSent c', env_now c') = (env_now c, env_now c).
Proof.
  induction ms as [|m ms IH]; intros c Hs Hr Hre Hne; [done|]. cbn [send_all map].
  destruct (Send_run v our their priv pub theirs y hdr m [] c Hs Hr Hre) as (ws & c1 & E1 & Hs1 & Hr1 & Er1 & Et1). step_done E1.
  destruct ms as [|m' ms]; [by exists c1; rewrite Er1|].
  destruct (IH c1 Hs1 Hr1) as (c' & E & Hs' & Hr' & Em & Et); [by rewrite Er1|done|]. step_done E. exists c'.
  split_and!; try done; [|by rewrite Et; injection Et1 as _ ->].
  rewrite Em, Er1. cbn [resend_messages upd]. by rewrite <- app_assoc.
Qed.

Lemma receive_error_run text c : ready c -> c_msgState c = encrypted ->
  exists h c', Receive 1 (errorMarker ++ text) c = Done (h, c') /\
    c_resend c' = (c_resend c) <| mayRetransmit := retransmitWithPrefix |> /\ c_lastSent c' = c_lastSent c.
Proof.
  intros Hr Est. assert (exists h c2, receiveErrorMessage (errorMarker ++ text) c = Done (h, c2) /\
    c_resend c2 = (c_resend c) <| mayRetransmit := retransmitWithPrefix |> /\ c_lastSent c2 = c_lastSent c)
    as ([[plain toSend] err] & c2 & He & Eres2 & Els2).
  { unfold receiveErrorMessage. rewrite (bind_glift _ text); [|by apply slice_suffix].
    step_state. unfold IsEncrypted. rewrite bool_decide_true by done. unfold updateMayRetransmitTo, modResend, messageEventWithMessage, logEvent.
    step_state. do 2 eexists. split; [reflexivity|]. by destruct (c_messageEventHandler _). }
  eexists _, (c2 <| c_injections := [] |>). split; [|done].
  unfold Receive. cbn [receiveUnit]. step_state. rewrite (r_otr _ Hr). cbn [negb].
  assert (guessMessageType (errorMarker ++ text) = msgGuessError) as -> by done. step_done He. done.
Qed.

End History.

(** C32: An error message arms the retransmission of everything sent.  Let a
    user send any texts in a session that can send (messages are not fragmented,
    debugging is off, nothing waits to be injected, no retransmission is under
    way).  A message that starts with [?OTR Error:], which anyone can put on the
    network, then finds all of these texts in the queue of messages to resend,
    after those that were there, and marks the whole queue for retransmission
    with the prefix: an exchange that finishes less than sixty seconds after the
    last text finds it armed, a later one does not. *)
Theorem error_message_rearms_history `{DHGroup} `{CryptoLaws} v our their priv pub theirs y hdr ms text c :
  sending v our their priv pub theirs y hdr c -> ready c -> retransmitting (c_resend c) = false -> ms <> [] ->
  exists c1 h c2, send_all ms c = Done ([], c1) /\ Receive 1 (errorMarker ++ text) c1 = Done (h, c2) /\
    mayRetransmit (c_resend c2) = retransmitWithPrefix /\
    resend_messages (c_resend c2) = resend_messages (c_resend c) ++ map (fun m => MessageToResend m []) ms /\
    forall now, shouldRetransmit (c2 <| env_now := now |>) = (now - env_now c <? resendInterval).
Proof.
  intros Hs Hr Hre Hne. destruct (send_all_run v our their priv pub theirs y hdr ms c Hs Hr Hre Hne) as (c1 & E1 & Hs1 & Hr1 & Em1 & Et1).
  destruct (receive_error_run text c1 Hr1 (snd_state _ _ _ _ _ _ _ _ _ Hs1)) as (h & c2 & E2 & Er2 & El2).
  exists c1, h, c2. injection Et1 as Els En. rewrite Er2. split_and!; try done. intros now.
  unfold shouldRetransmit, resend_shouldRetransmit. rec_simpl. rewrite Er2, El2, Els. cbn [resend_messages mayRetransmit upd].
  rewrite Em1, len_app, (bool_decide_true (retransmitWithPrefix <> noRetransmit)) by done.
  assert (0 < len (map (fun m => MessageToResend m []) ms)) by (destruct ms; [done|]; cbn [map]; rewrite len_cons; pose proof (len_nonneg (map (fun m => MessageToResend m []) ms)); lia).
  pose proof (len_nonneg (resend_messages (c_resend c))). destruct (Z.ltb_spec 0 (len (resend_messages (c_resend c)) + len (map (fun m => MessageToResend m []) ms))); [|lia].
  cbn [andb]. destruct (Z.ltb_spec (now - resendInterval) (env_now c)), (Z.ltb_spec (now - env_now c) resendInterval); (done || lia).
Qed.

Lemma error_message_rearms_history_witness : exists c1 h c2,
  @send_all small_group toy_crypto [bs "hello"; bs "again"] session_a = Done ([], c1) /\
  @Receive small_group toy_crypto 1 (errorMarker ++ bs " x") c1 = Done (h, c2) /\ shouldRetransmit (c2 <| env_now := env_now session_a |>) = true.
Proof.
  destruct (@error_message_rearms_history small_group toy_crypto toy_crypto_laws otrV3 1 1 1 2 4 2 session_header [bs "hello"; bs "again"] (bs " x") session_a)
    as (c1 & h & c2 & Hs & Hr & _ & _ & Hsh).
  - constructor; vm_compute; congruence.
  - constructor; reflexivity.
  - reflexivity.
  - discriminate.
  - exists c1, h, c2. split; [exact Hs|]. split; [exact Hr|]. rewrite (Hsh (env_now session_a)). reflexivity.
Defined.
