(* ===== verification/Interface.v ===== *)
(** * Properties of the interface: what [Receive] makes of any text

    Version negotiation, the whitespace tag, and the two ways in which
    [receiveUnit] loses or never returns a message. *)

From S2P Require Import Prelude GoLib Gotrax Policy Crypto KeyManagement Messages Smp Keys Conversation Fragmentation SmpMachine DataMessage Ake Receive Session AkeExchange EndToEnd.

(** ** The nested fragment *)

Definition nested_payload : list byte := bs "?OTR|x".
Definition session_b3 : Conversation := example_peer 0x5678 0 2 1 1.
Definition nested_fragment : list byte := bs "?OTR|00000100|00000000,00001,00001,?OTR|x,".

Section Nested.
Context `{DHGroup} `{Crypto}.

(** The payload is not a fragment, so the context stays complete and the same
    payload is handled again. *)
Lemma nested_loops d : forall c,
  c_version c = Some otrV3 -> isOTREnabled (c_Policies c) = true ->
  c_fragmentationContext c = FragmentationContext nested_payload 1 1 ->
  receiveUnit d nested_payload false c = Panicked StackOverflow.
Proof.
  induction d as [|d IH]; intros c Hv Hotr Hctx; [done|].
  cbn [receiveUnit]. step_state. rewrite Hotr. cbn [negb].
  change (guessMessageType nested_payload) with msgGuessFragment. cbv iota.
  assert (receiveFragment (c_fragmentationContext c) nested_payload c =
          Done ((FragmentationContext nested_payload 1 1, Some errInvalidFragment), c)) as Hf.
  { unfold receiveFragment, parseFragmentPrefix, resolveVersionFromFragment.
    assert (commitToVersionFrom (versionBit (versionFromFragment nested_payload)) c = Done (Ok tt, c)) as Hc
      by (by apply (commitToVersionFrom_committed c otrV3)).
    match goal with |- (?m ≫= _) c = _ => assert (m c = Done ((nested_payload, false, false), c)) as Hp end.
    { step_done Hc. by step_done (theVersion_Some c otrV3 Hv). }
    step_done Hp. by rewrite Hctx. }
  step_done Hf. step_state. cbn [fst fragmentsFinished currentIndex currentLen frag Z.ltb Z.eqb Z.compare Pos.eqb andb].
  unfold mbind, gom_bind. by rewrite IH.
Qed.

End Nested.

(** C37: One message crashes the process.  A single fragment (1 of 1) whose
    payload looks like a fragment but is none completes a sequence;
    [receiveUnit] then calls itself on the payload, which leaves the completed
    sequence in place and so is handled again, without end: however deep the
    stack, the call overflows it.  Nothing about the message is authenticated. *)
Theorem nested_fragment_overflows `{DHGroup} `{Crypto} d c :
  c_version c = Some otrV3 -> isOTREnabled (c_Policies c) = true ->
  c_theirInstanceTag c = 0 \/ c_theirInstanceTag c = 0x100 ->
  Receive d nested_fragment c = Panicked StackOverflow.
Proof.
  intros Hv Hotr Htag. destruct d as [|d]; [done|]. unfold Receive. cbn [receiveUnit]. step_state. rewrite Hotr. cbn [negb].
  change (guessMessageType nested_fragment) with msgGuessFragment. cbv iota.
  set (c1 := c <| c_theirInstanceTag := 0x100 |>).
  assert (receiveFragment (c_fragmentationContext c) nested_fragment c =
          Done ((FragmentationContext nested_payload 1 1, None), c1)) as Hf.
  { unfold receiveFragment. unfold parseFragmentPrefix, resolveVersionFromFragment.
    assert (commitToVersionFrom (versionBit (versionFromFragment nested_fragment)) c = Done (Ok tt, c)) as Hc
      by (by apply (commitToVersionFrom_committed c otrV3)).
    match goal with |- (?m ≫= _) c = _ => assert (m c = Done ((bs "00001,00001,?OTR|x,", false, true), c1)) as Hp end.
    { step_done Hc. step_done (theVersion_Some c otrV3 Hv). cbn [version_parseFragmentPrefix]. unfold otrV3_parseFragmentPrefix.
      change (len nested_fragment <? 23) with false. cbv iota.
      change (Split (default [] (head (Split (take 23 nested_fragment) comma))) bar) with [bs "?OTR"; bs "00000100"; bs "00000000"].
      cbv iota. change (parseItag (bs "00000100")) with (@Ok Z 0x100). change (parseItag (bs "00000000")) with (@Ok Z 0). cbv iota.
      set (s := c <| c_ourInstanceTag := 0x100 |> <| c_theirInstanceTag := 0 |>).
      assert (tags_ok otrV3 s c) as Ht by (split; [vm_compute; split; congruence|split; [by left|done]]).
      pose proof (verifyInstanceTags_accepts s c Ht) as Hver. change (c_ourInstanceTag s) with 0x100 in Hver.
      change (c_theirInstanceTag s) with 0 in Hver. by step_done Hver. }
    step_done Hp. done. }
  step_done Hf. step_state. cbn [fst fragmentsFinished currentIndex currentLen frag Z.ltb Z.eqb Z.compare Pos.eqb andb].
  unfold mbind, gom_bind. by rewrite nested_loops.
Qed.

Lemma nested_fragment_overflows_witness :
  @Receive small_group toy_crypto 1000 nested_fragment session_b3 = Panicked StackOverflow.
Proof. apply (@nested_fragment_overflows small_group toy_crypto); [reflexivity|reflexivity|left; reflexivity]. Defined.

(** Without OTR, [receiveUnit] returns the slice that its deferred call zeroes:
    the text is lost. *)
Lemma disabled_otr_loses_text `{DHGroup} `{Crypto} d m c :
  isOTREnabled (c_Policies c) = false ->
  exists plain, Receive (S d) m c = Done ((Some plain, [], None), c) /\ (plain = m <-> Forall (fun b => b = Byte.x00) m).
Proof.
  intros Hotr. exists (zeroes (length m)). split.
  - unfold Receive. cbn [receiveUnit]. step_state. by rewrite Hotr.
  - induction m as [|b m IH]; simpl; [split; [constructor|done]|]. rewrite Forall_cons. split.
    + intros [= <- E]. split; [done|]. by apply IH.
    + intros [-> E]. change (Byte.x00 :: zeroes (length m) = Byte.x00 :: m). f_equal. by apply IH.
Qed.

(** ** The whitespace tag *)

Definition white (b : byte) : bool := bool_decide (b = space) || bool_decide (b = tab).

(** A text after which the tag is found where it was put: it holds no tag
    header and does not end in white space. *)
Definition untagged (text : list byte) : Prop :=
  Index text whitespaceTagHeader = -1 /\ forall b, last text = Some b -> white b = false.

Lemma header_white : forallb white whitespaceTagHeader = true.
Proof. done. Qed.

Lemma Index_range s sep : -1 <= Index s sep.
Proof.
  induction s as [|b s IH]; cbn [Index]; [destruct (HasPrefix [] sep); lia|].
  destruct (HasPrefix (b :: s) sep); [lia|]. destruct (Index s sep =? -1); lia.
Qed.

Lemma Index_none_cons b s sep : Index (b :: s) sep = -1 -> HasPrefix (b :: s) sep = false /\ Index s sep = -1.
Proof.
  cbn [Index]. pose proof (Index_range s sep). destruct (HasPrefix (b :: s) sep); [done|].
  destruct (Z.eqb_spec (Index s sep) (-1)); [done|lia].
Qed.

Lemma Index_here s sep : HasPrefix s sep = true -> Index s sep = 0.
Proof. intros Hp. destruct s; cbn [Index]; by rewrite Hp. Qed.

(** A text that ends in a black byte and does not start with the white
    separator does not start with it when more follows. *)
Lemma HasPrefix_black t sep rest : t <> [] -> (forall b, last t = Some b -> white b = false) ->
  forallb white sep = true -> HasPrefix t sep = false -> HasPrefix (t ++ rest) sep = false.
Proof.
  intros Hne Hlast Hw Hp. apply not_true_is_false. intros Ht. apply HasPrefix_true in Ht as [r Hr].
  destruct (decide (length sep <= length t)%nat) as [Hle|Hlt].
  - apply not_true_iff_false in Hp. apply Hp. apply HasPrefix_true. exists (drop (length sep) t).
    assert (take (length sep) (t ++ rest) = sep) as E by (rewrite Hr; by rewrite take_app_length).
    rewrite take_app_le in E by done. rewrite <- E at 1. by rewrite take_drop.
  - destruct (last t) as [b|] eqn:El; [|by apply last_None in El]. specialize (Hlast b eq_refl).
    apply last_Some in El as [t' ->]. rewrite length_app in Hlt. cbn [length] in Hlt.
    assert (sep !! length t' = Some b) as Hb.
    { assert ((sep ++ r) !! length t' = Some b) as Hb'
        by (rewrite <- Hr, <- app_assoc; cbn [app]; by rewrite list_lookup_middle).
      by rewrite lookup_app_l in Hb' by lia. }
    rewrite forallb_forall in Hw. rewrite (Hw b) in Hlast; [done|]. apply list_elem_of_In. by apply list_elem_of_lookup_2 in Hb.
Qed.

Lemma Index_black text sep rest : forallb white sep = true ->
  Index text sep = -1 -> (forall b, last text = Some b -> white b = false) -> Index (text ++ sep ++ rest) sep = len text.
Proof.
  intros Hw. induction text as [|b text IH]; intros Hi Hl.
  - change (Index (sep ++ rest) sep = 0). apply Index_here, HasPrefix_app.
  - apply Index_none_cons in Hi as [Hp Hi]. rewrite len_cons. cbn [app Index].
    pose proof (HasPrefix_black (b :: text) sep (sep ++ rest) ltac:(done) Hl Hw Hp) as Hf. cbn [app] in Hf. rewrite Hf.
    assert (forall b', last text = Some b' -> white b' = false) as Hl'
      by (intros b' Hb; apply Hl; by destruct text).
    rewrite IH by done. pose proof (len_nonneg text). destruct (Z.eqb_spec (len text) (-1)); lia.
Qed.

(** C28: The whitespace tag round trip: for a text that holds no tag header and
    does not end in a blank or a tab, the receiver of the text with the tag of the
    sender's policies appended gets the text back and reads the versions those
    policies allow. *)
Theorem whitespace_tag_roundtrip text p : untagged text ->
  extractWhitespaceTag (text ++ genWhitespaceTag p) =
  Done (text, Z.lor (if has p allowV2 then 4 else 0) (if has p allowV3 then 8 else 0)).
Proof.
  intros [Hi Hl]. unfold extractWhitespaceTag, genWhitespaceTag.
  rewrite Index_black by done. set (tags := (if has p allowV2 then _ else _) ++ _).
  assert (length tags <= length (text ++ whitespaceTagHeader ++ tags))%nat as Hlen by (rewrite !length_app; lia).
  rewrite (app_assoc text), (slice_suffix _ _ (len text + len whitespaceTagHeader)); [|by rewrite len_app|done]. go_simpl. rewrite <- app_assoc.
  assert (forall n, (length tags <= n)%nat -> whitespaceLoop n tags 0 =
    ([], Z.lor (if has p allowV2 then 4 else 0) (if has p allowV3 then 8 else 0))) as Hloop.
  { intros n Hn. unfold tags in *. destruct (has p allowV2), (has p allowV3);
      match type of Hn with (?l <= n)%nat => let k := eval vm_compute in l in change (k <= n)%nat in Hn end;
      destruct n as [|[|[|n]]]; try lia; reflexivity. }
  rewrite Hloop by done. rewrite slice_prefix by done. go_simpl. by rewrite app_nil_r.
Qed.

Lemma whitespace_tag_roundtrip_witness :
  extractWhitespaceTag (bs "hi there" ++ genWhitespaceTag (allowV2 + allowV3)) = Done (bs "hi there", 12).
Proof.
  apply (whitespace_tag_roundtrip (bs "hi there") (allowV2 + allowV3)). split; [reflexivity|].
  intros b Hb. vm_compute in Hb. injection Hb as <-. reflexivity.
Defined.

(** ** Version negotiation *)

Lemma commit_without_key v p q c : best_version p q = Some v -> c_version c = None -> c_Policies c = p -> c_ourKeys c = [] ->
  commitToVersionFrom (common_versions p q) c = Done (Err errNoKey, c <| c_version := Some v |>).
Proof.
  intros Hb Hv Hp Hk. unfold commitToVersionFrom. step_state. rewrite Hv, Hp.
  assert (setKeyMatchingVersion (c <| c_version := Some v |>) = Done (Err errNoKey, c <| c_version := Some v |>)) as Hs.
  { unfold setKeyMatchingVersion. step_state. set (c1 := c <| c_version := Some v |>). step_done (theVersion_Some c1 v eq_refl).
    change (c_ourKeys c1) with (c_ourKeys c). by rewrite Hk. }
  unfold best_version, common_versions in *.
  destruct (has p allowV3), (has q allowV3), (has p allowV2), (has q allowV2); simplify_eq/=; exact Hs.
Qed.

(** C27: Negotiation.  A conversation without a version that receives the query
    message of a peer whose friendly text has no digits commits to the highest
    version both policies allow, with the first of its keys; it reports an
    error and stays as it was when there is no such version. *)
Theorem query_negotiates_best a b : c_version a = None -> omap digitOf (c_friendlyQueryMessage b) = [] ->
  commitToVersionFrom (extractVersionsFromQueryMessage (c_Policies a) (QueryMessage b)) a =
  match best_version (c_Policies a) (c_Policies b), c_ourKeys a with
  | None, _ => Done (Err errUnsupportedOTRVersion, a)
  | Some v, sk :: _ => Done (Ok tt, committedTo v sk a)
  | Some v, [] => Done (Err errNoKey, a <| c_version := Some v |>)
  end.
Proof.
  intros Hv Hd. rewrite extractVersions_QueryMessage by done.
  destruct (best_version (c_Policies a) (c_Policies b)) as [v|] eqn:Hb; [destruct (c_ourKeys a) as [|sk ks] eqn:Ek|].
  - by apply commit_without_key.
  - apply commitToVersionFrom_run. eapply commit_common; try done. rewrite Ek. by destruct v.
  - unfold best_version, common_versions, commitToVersionFrom in *. step_state. rewrite Hv.
    by destruct (has (c_Policies a) allowV3), (has (c_Policies b) allowV3), (has (c_Policies a) allowV2), (has (c_Policies b) allowV2).
Qed.

Lemma query_negotiates_best_witness :
  commitToVersionFrom (extractVersionsFromQueryMessage (c_Policies (example_a 0)) (QueryMessage (example_b 0))) (example_a 0) =
  Done (Ok tt, committedTo otrV3 (example_keypair 1 8) (example_a 0)).
Proof. apply (query_negotiates_best (example_a 0) (example_b 0)); reflexivity. Defined.

(** Digits after the question mark that ends the version list count as
    versions: a peer that allows only version 2 appears to offer version 3. *)
Lemma query_digits_count : exists b, has (c_Policies b) allowV3 = false /\
  Z.land (extractVersionsFromQueryMessage (allowV2 + allowV3) (QueryMessage b)) 8 = 8.
Proof. exists ((new_conversation None allowV2 [] [] 0 0) <| c_friendlyQueryMessage := bs "see room 3" |>). done. Qed.

(** ** Instance tags *)

Lemma malformedMessage_tags c : wp malformedMessage c (fun _ c' => c_theirInstanceTag c' = c_theirInstanceTag c).
Proof.
  unfold malformedMessage, messageEvent, logEvent, generatePotentialErrorMessage, injectMessage. do 4 wp_step.
  destruct (c_messageEventHandler c); rec_simpl; by destruct (c_errorMessageHandler c).
Qed.

Lemma other_instance c t our : c_theirInstanceTag c <> 0 -> c_theirInstanceTag c <> t -> minValidInstanceTag <= t ->
  our = 0 \/ minValidInstanceTag <= our -> exists c', verifyInstanceTags t our c = Done (Err errReceivedMessageForOtherInstance, c').
Proof.
  intros H0 Hne Ht Ho. unfold verifyInstanceTags, minValidInstanceTag in *. step_state.
  apply Z.eqb_neq in H0, Hne. rewrite H0. assert ((0 <? our) && (our <? 256) = false) as -> by (destruct Ho as [->|]; [done|]; split_cmp; done || lia).
  destruct (Z.ltb_spec t 256); [lia|]. step_state. rewrite Hne, orb_true_r. unfold messageEvent, logEvent. step_state. by eexists.
Qed.

(** an invalid sender tag sticks.  A conversation that does not know its
    peer's tag yet stores the tag of the first message it sees before it checks
    that tag: a message with a sender tag below the smallest valid one is
    refused as malformed, and from then on every message with a valid tag is
    refused as meant for another instance. *)
Theorem invalid_tag_sticks c their : c_theirInstanceTag c = 0 -> 0 < their < minValidInstanceTag ->
  exists c', verifyInstanceTags their 0 c = Done (Err errInvalidOTRMessage, c') /\
    forall t our, minValidInstanceTag <= t -> our = 0 \/ minValidInstanceTag <= our ->
      exists c'', verifyInstanceTags t our c' = Done (Err errReceivedMessageForOtherInstance, c'').
Proof.
  intros H0 Ht. set (c1 := c <| c_theirInstanceTag := their |>).
  destruct (wp_inv _ _ _ (malformedMessage_tags c1)) as ([] & c2 & Hm & Htag). exists c2. split.
  - unfold verifyInstanceTags. step_state. rewrite H0. change (0 =? 0) with true. change ((0 <? 0) && _) with false. cbv iota.
    destruct (Z.ltb_spec their minValidInstanceTag); [|lia]. fold c1. by step_done Hm.
  - intros t our Hv Ho. change (c_theirInstanceTag c1) with their in Htag. apply other_instance; (lia || done).
Qed.

Lemma invalid_tag_sticks_witness : exists c' c'',
  verifyInstanceTags 1 0 (example_b 0) = Done (Err errInvalidOTRMessage, c') /\
  verifyInstanceTags 0x1234 0x5678 c' = Done (Err errReceivedMessageForOtherInstance, c'').
Proof.
  destruct (invalid_tag_sticks (example_b 0) 1) as (c' & H1 & H2); [reflexivity|vm_compute; split; reflexivity|].
  destruct (H2 0x1234 0x5678) as [c'' H3]; [vm_compute; congruence|right; vm_compute; congruence|]. exists c', c''. split; [exact H1|exact H3].
Defined.
