(* ===== verification/AkeSafety.v ===== *)
(** * What the key exchange guarantees against the network

    The handlers of the key exchange against arbitrary messages: the states they
    move between, what must have been verified before a conversation becomes
    encrypted, and that they never panic; [AkeKeys] puts them together.  Two
    theorems show what goes wrong in [processAKE]: messages that drop the texts
    waiting to be sent, and a simultaneous start that stalls. *)

From S2P Require Import Prelude GoLib Gotrax Policy Crypto KeyManagement Messages Smp Keys Conversation Fragmentation SmpMachine DataMessage Ake Receive Session AkeExchange EndToEnd.

(** ** The automaton *)

(** The state of the exchange without the message it may hold. *)
Inductive authTag := TagNone | TagAwaitingDHKey | TagAwaitingRevealSig | TagAwaitingSig.

Definition tagOf (s : authState) : authTag :=
  match s with
  | authStateNone => TagNone
  | authStateAwaitingDHKey => TagAwaitingDHKey
  | authStateAwaitingRevealSig => TagAwaitingRevealSig
  | authStateAwaitingSig _ => TagAwaitingSig
  end.

Definition akeTag (c : Conversation) : authTag :=
  match c_ake c with Some a => tagOf (ake_state a) | None => TagNone end.

(** The transitions of the protocol: [true] marks the two that end the exchange. *)
Inductive ake_transition : authTag -> Z -> authTag -> bool -> Prop :=
  | ake_stay s t : ake_transition s t s false
  | ake_drop s : ake_transition s msgTypeDHCommit TagNone false
  | ake_commit s : ake_transition s msgTypeDHCommit TagAwaitingRevealSig false
  | ake_key : ake_transition TagAwaitingDHKey msgTypeDHKey TagAwaitingSig false
  | ake_reveal : ake_transition TagAwaitingRevealSig msgTypeRevealSig TagNone true
  | ake_sig : ake_transition TagAwaitingSig msgTypeSig TagNone true.

Section Safety.
Context `{DHGroup} `{Crypto}.

(** ** Specifications of the parts of a handler *)

(** What the exchange reads of the conversation besides itself. *)
Definition core (c : Conversation) :=
  (c_version c, c_ourCurrentKey c, c_msgState c, c_theirKey c, c_ssid c, c_resend c, c_keys c).

Context (valid : dsa_PrivateKey -> Prop) `{!DsaLaws valid} `{!CryptoLaws}.
Variable v : otrVersion.

Lemma messageHeader_spec t c : c_version c = Some v ->
  wp (messageHeader t) c (fun _ c' => core c' = core c /\ c_ake c' = c_ake c).
Proof.
  intros Hv. unfold messageHeader. apply wp_bind. unfold wp at 1. rewrite (theVersion_Some c v Hv).
  destruct v; [done|]. apply wp_tryb. unfold wp at 1, generateInstanceTag.
  destruct (negb _); [done|]. by destruct (instanceTagLoop _ _) as [[tag|e] r].
Qed.

Lemma wrapMessageHeader_spec t m c : c_version c = Some v ->
  wp (wrapMessageHeader t m) c (fun _ c' => core c' = core c /\ c_ake c' = c_ake c).
Proof.
  intros Hv. unfold wrapMessageHeader. apply wp_tryb. eapply wp_mono; [by apply messageHeader_spec|].
  by intros [h|e] c'.
Qed.

Lemma Sign_total sk rnd mb : valid (sk_PrivateKey sk) -> exists r rnd', Sign sk rnd mb = Done (r, rnd') /\
  match r with Ok sig => len sig = 40 | Err _ => True end.
Proof.
  intros Hv. destruct (dsa_sign (sk_PrivateKey sk) mb rnd) as [[[r s]|e] rnd'] eqn:E.
  - destruct (dsa_sign_range _ _ _ _ _ _ Hv E) as [Hr Hs]. exists (Ok (be_encode 20 r ++ be_encode 20 s)), rnd'.
    split; [by apply Sign_layout|]. rewrite len_app. unfold len. by rewrite !length_be_encode.
  - exists (Err e), rnd'. unfold Sign. by rewrite E.
Qed.

Lemma generateEncryptedSignature_spec c a sk our their key :
  c_version c = Some v -> c_ake c = Some a -> c_ourCurrentKey c = Some sk -> valid (sk_PrivateKey sk) ->
  ake_ourPublicValue a = Some our -> ake_theirPublicValue a = Some their ->
  wp (generateEncryptedSignature key) c (fun _ c' => core c' = core c /\ c_ake c' = c_ake c).
Proof.
  intros Hv Ha Hk Hval Ho Ht. unfold generateEncryptedSignature, wp. step_done (theAke_Some c a Ha). step_state.
  rewrite Ho, Ht, Hk, (bind_glift _ our _ _ eq_refl), (bind_glift _ their _ _ eq_refl), (bind_glift _ sk _ _ eq_refl).
  step_done (theVersion_Some c v Hv). set (mb := sumHMAC _ _ v).
  match goal with |- match ?m c with _ => _ end => change (wp m c (fun _ c' => core c' = core c /\ c_ake c' = c_ake c)) end.
  apply wp_tryb. unfold calcXb, wp. step_state. rewrite Hk, (bind_glift _ sk _ _ eq_refl). step_done (theAke_Some c a Ha).
  destruct (Sign_total sk (c_Rand c) mb Hval) as (r & rnd' & HS & Hl). set (c1 := c <| c_Rand := rnd' |>).
  assert (withRand (fun rand => Sign sk rand mb) c = Done (r, c1)) as Hsg by (unfold withRand; by rewrite HS).
  step_done Hsg. destruct r as [sig|e]; [|done]. step_done (theVersion_Some c1 v Hv). unfold encrypted_or_zero, encrypt.
  set (data := AppendWord _ _ ++ sig).
  assert (slice (zeroes (length data)) 0 16 = Done (take 16 (zeroes (length data)))) as ->; [|done].
  rewrite slice_ok; [done|lia|]. rewrite len_zeroes. fold (len data). unfold data. rewrite len_app, Hl. pose proof (len_nonneg (AppendWord
    (PublicKey_serialize (PublicKey_of sk)) (ourKeyID (ake_keys a)))). lia.
Qed.

(** The version is known and a usable key is chosen. *)
Definition fit (c : Conversation) : Prop :=
  c_version c = Some v /\ exists sk, c_ourCurrentKey c = Some sk /\ valid (sk_PrivateKey sk).

Lemma fit_pair c c' : c_version c' = c_version c -> c_ourCurrentKey c' = c_ourCurrentKey c -> fit c -> fit c'.
Proof. unfold fit. by intros -> ->. Qed.

Lemma fit_core c c' : core c' = core c -> fit c -> fit c'.
Proof. intros [= E1 E2 _]. by apply fit_pair. Qed.

(** The secrets derived from the peer's value [gy] and our exponent [x]. *)
Definition derived (gy x : Z) : list byte * akeKeys * akeKeys := calculateAKEKeys (modExp gy x) v.

Lemma calcAKEKeys_at c a gy x : c_version c = Some v -> c_ake c = Some a ->
  calcAKEKeys (modExp gy x) c = Done (tt, c <| c_ssid := fst (fst (derived gy x)) |>
    <| c_ake := Some (a <| ake_revealKey := snd (fst (derived gy x)) |> <| ake_sigKey := snd (derived gy x) |>) |>).
Proof.
  intros Hv Ha. unfold calcAKEKeys. step_done (theVersion_Some c v Hv). fold (derived gy x).
  destruct (derived gy x) as [[ssid rk] sgk]. step_state. set (c1 := c <| c_ssid := ssid |>). by rewrite (modAke_Some _ c1 a Ha).
Qed.

Lemma calcDHSharedSecret_at c a gy x : c_ake c = Some a -> ake_theirPublicValue a = Some gy ->
  ake_secretExponent a = Some x -> calcDHSharedSecret c = Done (modExp gy x, c).
Proof.
  intros Ha Ht Hx. unfold calcDHSharedSecret. step_done (theAke_Some c a Ha). rewrite Ht, Hx. step_lift gy. by step_lift x.
Qed.

(** A core that differs in the session id only. *)
Definition core_with (ssid : list byte) (c : Conversation) :=
  (c_version c, c_ourCurrentKey c, c_msgState c, c_theirKey c, ssid, c_resend c, c_keys c).

Lemma core_with_core s c c' : core c' = core c -> core_with s c' = core_with s c.
Proof. unfold core_with. intros [=]. congruence. Qed.

Lemma revealSigMessage_spec c a x gy :
  fit c -> c_ake c = Some a -> ake_secretExponent a = Some x -> ake_ourPublicValue a = Some (pubKey x) ->
  ake_theirPublicValue a = Some gy ->
  wp revealSigMessage c (fun _ c' => core c' = core_with (fst (fst (derived gy x))) c /\
    exists k, c_ake c' = Some (a <| ake_revealKey := snd (fst (derived gy x)) |> <| ake_sigKey := snd (derived gy x) |> <| ake_keys := k |>)).
Proof.
  intros (Hv & sk & Hk & Hval) Ha Hx Ho Ht. unfold revealSigMessage. wp_run (calcDHSharedSecret_at c a gy x Ha Ht Hx).
  wp_run (calcAKEKeys_at c a gy x Hv Ha). set (a1 := a <| ake_revealKey := _ |> <| ake_sigKey := _ |>).
  set (c1 := c <| c_ssid := _ |> <| c_ake := _ |>).
  wp_run (modAkeKeys_Some (fun k => k <| ourKeyID := u32 (ourKeyID k + 1) |>) c1 a1 eq_refl).
  set (a2 := a1 <| ake_keys := _ |>). set (c2 := c1 <| c_ake := Some a2 |>). wp_run (theAke_Some c2 a2 eq_refl).
  wp_spec (generateEncryptedSignature_spec c2 a2 sk (pubKey x) gy (ake_revealKey a2)); try done.
  intros r c3 [Hc Hake]. assert (core c2 = core_with (fst (fst (derived gy x))) c) as Hc2 by done. rewrite Hc2 in Hc.
  destruct r as [esig|e]; [|apply wp_ret; split; [done|rewrite Hake; by eexists]].
  assert (c_ake c3 = Some a2) as Ha3 by (by rewrite Hake). assert (c_version c3 = Some v) as Hv3 by (injection Hc as -> _; done).
  wp_run (theAke_Some c3 a2 Ha3). wp_run (theVersion_Some c3 v Hv3).
  destruct (truncate_mac v (sumHMAC (akeKeys_m2 (ake_revealKey a2)) esig v)) as [Hs _]; [rewrite len_sumHMAC; lia|].
  unfold revealSig_serialize. cbn [rs_r rs_encryptedSig rs_macSig]. rewrite Hs.
  apply wp_bind, (wp_glift _ (AppendData [] (ake_r a2) ++ esig ++ take 20 (sumHMAC (akeKeys_m2 (ake_revealKey a2)) esig v))); [done|].
  apply wp_ret. split; [done|]. rewrite Ha3. by eexists.
Qed.

Lemma sigMessage_spec c a our their :
  fit c -> c_ake c = Some a -> ake_ourPublicValue a = Some our -> ake_theirPublicValue a = Some their ->
  wp sigMessage c (fun _ c' => core c' = core c /\
    exists id, c_ake c' = Some (a <| ake_keys := (ake_keys a) <| ourKeyID := id |> |>)).
Proof.
  intros (Hv & sk & Hk & Hval) Ha Ho Ht. unfold sigMessage.
  wp_run (modAkeKeys_Some (fun k => k <| ourKeyID := u32 (ourKeyID k + 1) |>) c a Ha).
  set (a2 := a <| ake_keys := _ |>). set (c2 := c <| c_ake := Some a2 |>). wp_run (theAke_Some c2 a2 eq_refl).
  wp_spec (generateEncryptedSignature_spec c2 a2 sk our their (ake_sigKey a2)); try done.
  intros r c3 [Hc Hake]. assert (core c2 = core c) as Hc2 by done. rewrite Hc2 in Hc.
  destruct r as [esig|e]; [|apply wp_ret; split; [done|rewrite Hake; by eexists]].
  assert (c_ake c3 = Some a2) as Ha3 by (by rewrite Hake). assert (c_version c3 = Some v) as Hv3 by (injection Hc as -> _; done).
  wp_run (theAke_Some c3 a2 Ha3). wp_run (theVersion_Some c3 v Hv3).
  destruct (truncate_mac v (sumHMAC (akeKeys_m2 (ake_sigKey a2)) esig v)) as [Hs _]; [rewrite len_sumHMAC; lia|].
  unfold sig_serialize. cbn [sig_encryptedSig sig_macSig]. rewrite Hs.
  apply wp_bind, (wp_glift _ (esig ++ take 20 (sumHMAC (akeKeys_m2 (ake_sigKey a2)) esig v))); [done|].
  apply wp_ret. split; [done|]. rewrite Ha3. by eexists.
Qed.

(** A core that differs in the peer's key only. *)
Definition core_their (k : option PublicKey) (c : Conversation) :=
  (c_version c, c_ourCurrentKey c, c_msgState c, k, c_ssid c, c_resend c, c_keys c).

Lemma ake_same_id a : a = a <| ake_keys := (ake_keys a) <| theirKeyID := theirKeyID (ake_keys a) |> |>.
Proof. by destruct a as [? ? ? ? ? ? ? ? ? [] ?]. Qed.

(** The key [k] signed the two values, under the MAC key of [keys]. *)
Definition signedBy (k : PublicKey) (keys : akeKeys) (their our : Z) : Prop :=
  exists id sig, Verify k (sumHMAC (akeKeys_m1 keys) (appendAll their our k id) v) sig = ([], true).

Lemma processEncryptedSig_spec c a their our esig mac keys :
  c_version c = Some v -> c_ake c = Some a -> ake_theirPublicValue a = Some their -> ake_ourPublicValue a = Some our ->
  wp (processEncryptedSig esig mac keys) c (fun r c' =>
    exists k id, core c' = core_their k c /\ c_ake c' = Some (a <| ake_keys := (ake_keys a) <| theirKeyID := id |> |>) /\
      match r with Ok _ => exists key, k = Some key /\ signedBy key keys their our | Err _ => True end).
Proof.
  intros Hv Ha Ht Ho. unfold processEncryptedSig.
  assert (exists k id, core c = core_their k c /\ c_ake c = Some (a <| ake_keys := (ake_keys a) <| theirKeyID := id |> |>) /\ True) as Hsame
    by (exists (c_theirKey c), (theirKeyID (ake_keys a)); rewrite <- ake_same_id; done).
  wp_run (theVersion_Some c v Hv). unfold verifyEncryptedSignatureMAC.
  destruct (truncate_mac v (sumHMAC (akeKeys_m2 keys) (AppendData [] esig) v)) as [-> _]; [rewrite len_sumHMAC; lia|].
  eapply wp_bind, wp_glift; [reflexivity|]. case_bool_decide; [|by apply wp_ret].
  destruct (decrypt _ esig) as [plain|e]; [|by apply wp_ret].
  destruct (ParsePublicKey (env_fresh c) plain) as [[rest ok1] pub] eqn:Ep.
  set (c1 := c <| c_theirKey := pub |> <| env_fresh := env_fresh c + 1 |>).
  assert (forall r, parseTheirKey plain c = Done (r, c1) -> exists k id, core c1 = core_their k c /\
     c_ake c1 = Some (a <| ake_keys := (ake_keys a) <| theirKeyID := id |> |>) /\ True) as Hsame1
    by (exists pub, (theirKeyID (ake_keys a)); rewrite <- ake_same_id; done).
  destruct (ExtractWord rest) as [[sig id]|] eqn:Ew; [destruct ok1|].
  2,3: assert (parseTheirKey plain c = Done (Err errCorruptEncryptedSignature, c1)) as Hp
         by (unfold parseTheirKey; step_state; rewrite Ep; step_state; by rewrite Ew);
       wp_run Hp; apply wp_ret, (Hsame1 _ Hp).
  assert (parseTheirKey plain c = Done (Ok (sig, id), c1)) as Hp
    by (unfold parseTheirKey; step_state; rewrite Ep; step_state; by rewrite Ew).
  wp_run Hp. cbn [fst snd].
  assert (exists key, pub = Some key) as [key ->].
  { unfold ParsePublicKey in Ep. destruct (ExtractShort plain) as [[? t]|]; [|done].
    destruct (t =? dsaKeyTypeValue); [|done]. destruct (DSAPublicKey_Parse _ _) as [[? ?] pk]. simplify_eq. eauto. }
  set (mb := sumHMAC (akeKeys_m1 keys) (appendAll their our key id) v).
  assert (expectedMessageHMAC id keys c1 = Done (mb, c1)) as He.
  { unfold expectedMessageHMAC. step_done (theAke_Some c1 a Ha). step_state. rewrite Ht, Ho.
    rewrite (bind_glift _ their _ _ eq_refl), (bind_glift _ our _ _ eq_refl), (bind_glift _ key _ _ eq_refl).
    by step_done (theVersion_Some c1 v Hv). }
  wp_run He. destruct (Verify key mb sig) as [rest' ok] eqn:Ever.
  assert (checkedSignatureVerification mb sig c1 = Done (if negb ok then Err (newOtrError "bad signature in encrypted signature")
    else if 0 <? len rest' then Err errCorruptEncryptedSignature else Ok tt, c1)) as Hc
    by (unfold checkedSignatureVerification; step_state; rewrite (bind_glift _ key _ _ eq_refl), Ever; done).
  wp_run Hc. destruct ok; cbn [negb]; [|apply wp_ret, (Hsame1 _ Hp)].
  destruct rest' as [|b rest']; [|].
  2:{ assert ((0 <? len (b :: rest')) = true) as -> by (apply Z.ltb_lt; rewrite len_cons; pose proof (len_nonneg rest'); lia).
      apply wp_ret, (Hsame1 _ Hp). }
  change (0 <? len []) with false. cbv iota. wp_run (modAkeKeys_Some (fun k => k <| theirKeyID := id |>) c1 a Ha).
  apply wp_ret. exists (Some key), id. split; [done|]. split; [done|]. exists key. split; [done|]. by exists id, sig.
Qed.

(** The values a successful check of a signature leaves in the exchange. *)
Definition checked (c : Conversation) (their our : Z) (keys : akeKeys) : Prop :=
  exists key, c_theirKey c = Some key /\ signedBy key keys their our.

Lemma processSig_spec c a their our msg :
  fit c -> c_ake c = Some a -> ake_theirPublicValue a = Some their -> ake_ourPublicValue a = Some our ->
  wp (processSig msg) c (fun r c' =>
    exists k id, core c' = core_their k c /\ c_ake c' = Some (a <| ake_keys := (ake_keys a) <| theirKeyID := id |> |>) /\
      match r with Ok _ => checked c' their our (ake_sigKey a) | Err _ => True end).
Proof.
  intros [Hv _] Ha Ht Ho. unfold processSig. destruct (sig_deserialize msg) as [m|e].
  2:{ apply wp_ret. exists (c_theirKey c), (theirKeyID (ake_keys a)). by rewrite <- ake_same_id. }
  wp_run (theAke_Some c a Ha). wp_spec (processEncryptedSig_spec c a their our); try done.
  intros r c' (k & id & Hc & Hake & Hr). apply wp_ret. exists k, id. split; [done|]. split; [done|].
  destruct r; [|done]. destruct Hr as (key & -> & Hs). exists key. split; [|done]. by injection Hc.
Qed.

(** The part of [processRevealSig] that sets the peer's value. *)
Definition with_their (gx : option Z) (a : ake) : ake := a <| ake_theirPublicValue := gx |>.

(** The outcome of [processRevealSig] for our exponent [x]. *)
Definition revealSig_post (c : Conversation) (x : Z) (r : result unit) (c' : Conversation) : Prop :=
  exists k ssid a', core c' = (c_version c, c_ourCurrentKey c, c_msgState c, k, ssid, c_resend c, c_keys c) /\
    c_ake c' = Some a' /\ ake_secretExponent a' = Some x /\ ake_ourPublicValue a' = Some (pubKey x) /\
    match r with
    | Ok _ => exists gx, ake_theirPublicValue a' = Some gx /\ isGroupElement gx = true /\ ssid = fst (fst (derived gx x)) /\
                ake_sigKey a' = snd (derived gx x) /\ checked c' gx (pubKey x) (snd (fst (derived gx x)))
    | Err _ => True
    end.

Lemma processRevealSig_spec c a x msg :
  fit c -> c_ake c = Some a -> ake_secretExponent a = Some x -> ake_ourPublicValue a = Some (pubKey x) ->
  wp (processRevealSig msg) c (revealSig_post c x).
Proof.
  intros [Hv _] Ha Hx Ho. unfold processRevealSig. wp_run (theVersion_Some c v Hv).
  assert (forall e : error, wp (mret (Err e) : M (result unit)) c (revealSig_post c x)) as Hstay.
  { intros e. apply wp_ret. by exists (c_theirKey c), (c_ssid c), a. }
  destruct (revealSig_deserialize msg v) as [m|e]; [|apply Hstay]. wp_run (theAke_Some c a Ha).
  destruct (decrypt (rs_r m) (ake_encryptedGx a)) as [plain|e]; [|apply Hstay].
  destruct (checkDecryptedGx _ _ _) as [e|]; [apply Hstay|]. clear Hstay.
  destruct (extractGx plain) as [gx err] eqn:Eg. wp_run (modAke_Some (with_their gx) c a Ha).
  set (a1 := with_their gx a). set (c1 := c <| c_ake := Some a1 |>).
  destruct err as [e|]; [apply wp_ret; by exists (c_theirKey c), (c_ssid c), a1|].
  assert (exists g, gx = Some g /\ isGroupElement g = true) as (g & -> & Hel).
  { unfold extractGx in Eg. destruct (ExtractMPI plain) as [[rest g]|]; [|done]. destruct (0 <? len rest); [done|].
    destruct (isGroupElement g) eqn:E; simplify_eq/=. eauto. }
  wp_run (calcDHSharedSecret_at c1 a1 g x eq_refl eq_refl Hx). wp_run (calcAKEKeys_at c1 a1 g x Hv eq_refl).
  set (a2 := a1 <| ake_revealKey := _ |> <| ake_sigKey := _ |>). set (c2 := c1 <| c_ssid := _ |> <| c_ake := Some a2 |>).
  wp_run (theAke_Some c2 a2 eq_refl). wp_spec (processEncryptedSig_spec c2 a2 g (pubKey x)); try done.
  intros r c' (k & id & Hc & Hake & Hr). apply wp_ret. eexists k, _, _. split; [exact Hc|]. split; [exact Hake|].
  split; [exact Hx|]. split; [exact Ho|]. destruct r; [|done]. destruct Hr as (key & -> & Hs).
  exists g. split_and!; try done. exists key. split; [by injection Hc|exact Hs].
Qed.

(** Telling a handler changes the log of events only. *)
Lemma logEvent_spec h e (b : bool) c :
  wp (if b then logEvent h e else mret tt) c (fun _ c' => exists evs, c' = c <| env_events := evs |>).
Proof.
  assert (exists evs, c = c <| env_events := evs |>) as Hsame by (exists (env_events c); by destruct c).
  destruct b; [|done]. unfold logEvent. apply wp_gmod. destruct (h c); [by eexists|done].
Qed.

(** What matters of a conversation when its exchange ends. *)
Definition end_view (c : Conversation) :=
  (c_msgState c, c_ake c, c_version c, c_ourCurrentKey c, c_theirKey c, c_ssid c, c_resend c).

Lemma akeHasFinished_spec c a sk : c_ake c = Some a -> c_ourCurrentKey c = Some sk ->
  wp akeHasFinished c (fun _ c' =>
    end_view c' = (encrypted, Some (ake_wipe a), c_version c, c_ourCurrentKey c, c_theirKey c, c_ssid c, c_resend c) /\
    theirCurrentDHPubKey (c_keys c') = theirCurrentDHPubKey (ake_keys a) /\
    (ourPreviousDHKeys (c_keys c') = ourCurrentDHKeys (ake_keys a) \/ ourCurrentDHKeys (c_keys c') = ourCurrentDHKeys (ake_keys a))).
Proof.
  intros Ha Hk. unfold akeHasFinished, wipeAke. wp_run (theAke_Some c a Ha). do 7 wp_step. rec_simpl. rewrite Ha.
  match goal with |- wp _ ?s _ => set (c1 := s) end.
  apply wp_bind, (wp_glift _ sk); [by rewrite Hk|]. wp_spec (logEvent_spec c_messageEventHandler). intros _ c2 [evs ->].
  apply wp_bind. unfold conv_generateNewDHKeyPair, wp at 1. unfold generateNewDHKeyPair.
  destruct (randSizedMPI _ _) as [[priv|e] rnd]; cbv iota beta;
    (unfold signalSecurityEventIf, securityEvent; wp_spec (logEvent_spec c_securityEventHandler); intros _ c3 [evs3 ->];
     wp_spec (logEvent_spec c_securityEventHandler); intros _ c4 [evs4 ->]; apply wp_ret; split; [done|]; split; [done|]);
    [by left|by right].
Qed.

(** ** The invariant *)

(** The values an exchange holds in each state; [ssid] is the session id of the
    conversation. *)
Definition exchange_ok (ssid : list byte) (s : authState) (a : ake) : Prop :=
  match s with
  | authStateNone => True
  | authStateAwaitingDHKey =>
      (exists x, ake_secretExponent a = Some x /\ ake_ourPublicValue a = Some (pubKey x)) /\
      (forall gy, ake_theirPublicValue a = Some gy -> isGroupElement gy = true)
  | authStateAwaitingRevealSig => exists x, ake_secretExponent a = Some x /\ ake_ourPublicValue a = Some (pubKey x)
  | authStateAwaitingSig _ =>
      exists x gy, ake_ourPublicValue a = Some (pubKey x) /\ ake_theirPublicValue a = Some gy /\ isGroupElement gy = true /\
        ake_sigKey a = snd (derived gy x) /\ ssid = fst (fst (derived gy x)) /\ ourCurrentDHKeys (ake_keys a) = keyPair x
  end.

(** The session was established with the holder of the key [c_theirKey]: that
    key signed the peer's Diffie-Hellman value of the session together with
    ours, under a MAC key derived from the two. *)
Definition authenticated (c : Conversation) : Prop :=
  exists k gy x keys, c_theirKey c = Some k /\ theirCurrentDHPubKey (c_keys c) = Some gy /\ isGroupElement gy = true /\
    (ourPreviousDHKeys (c_keys c) = keyPair x \/ ourCurrentDHKeys (c_keys c) = keyPair x) /\
    c_ssid c = fst (fst (derived gy x)) /\ (keys = snd (fst (derived gy x)) \/ keys = snd (derived gy x)) /\
    signedBy k keys gy (pubKey x).

(** What holds after a handler ran in state [s] on a message of type [t]. *)
Definition handler_post (c : Conversation) (s : authState) (t : Z) (o : authOutcome) (c' : Conversation) : Prop :=
  let '(s', _, _) := o in
  fit c' /\ c_resend c' = c_resend c /\
  exists a' fin, c_ake c' = Some a' /\ exchange_ok (c_ssid c') s' a' /\ ake_transition (tagOf s) t (tagOf s') fin /\
    (if fin : bool then c_msgState c' = encrypted /\ authenticated c' else c_msgState c' = c_msgState c /\ c_keys c' = c_keys c).

Lemma post_core c c' s t s' out err a' :
  fit c -> core c' = core c -> c_ake c' = Some a' -> exchange_ok (c_ssid c) s' a' -> ake_transition (tagOf s) t (tagOf s') false ->
  handler_post c s t (s', out, err) c'.
Proof.
  intros Hf Hc Ha He Ht. split; [by eapply fit_core|]. injection Hc as E1 E2 E3 E4 E5 E6 E7. split; [done|].
  exists a', false. by rewrite E5, E3, E7.
Qed.

Lemma dhKeyMessage_spec c : wp dhKeyMessage c (fun r c' => core c' = core c /\ exists a', c_ake c' = Some a' /\
  match r with Ok _ => exists y, ake_secretExponent a' = Some y /\ ake_ourPublicValue a' = Some (pubKey y) | Err _ => True end).
Proof.
  unfold dhKeyMessage, initAKE. do 3 wp_step. unfold wp at 1, conv_randMPI.
  destruct (randSizedMPI _ _) as [[y|e] rnd]; cbv iota beta; [|split; [done|by eexists]].
  match goal with |- wp _ ?s _ => set (c1 := s) end. unfold setSecretExponent.
  wp_run (modAke_Some (fun a => a <| ake_secretExponent := Some y |> <| ake_ourPublicValue := Some (modExp dh_g1 y) |>) c1 initial_ake eq_refl).
  set (a2 := initial_ake <| ake_secretExponent := _ |> <| ake_ourPublicValue := _ |>). set (c2 := c1 <| c_ake := Some a2 |>).
  assert (serializeDHKey c2 = Done (dhKey_serialize (DhKey (pubKey y)), c2)) as Hs.
  { unfold serializeDHKey. step_done (theAke_Some c2 a2 eq_refl). by step_lift (pubKey y). }
  wp_run Hs. apply wp_ret. split; [done|]. exists a2. split; [done|]. by exists y.
Qed.

Lemma processDHCommit_spec msg c a : c_ake c = Some a -> wp (processDHCommit msg) c (fun _ c' => core c' = core c /\
  exists egx h, c_ake c' = Some (a <| ake_encryptedGx := egx |> <| ake_xhashedGx := h |>)).
Proof.
  intros Ha. unfold processDHCommit. destruct (dhCommit_deserialize msg) as [m|e].
  - wp_run (modAke_Some (fun a => a <| ake_encryptedGx := dhc_encryptedGx m |> <| ake_xhashedGx := dhc_yhashedGx m |>) c a Ha).
    apply wp_ret. split; [done|]. by eexists _, _.
  - apply wp_ret. split; [done|]. exists (ake_encryptedGx a), (ake_xhashedGx a). rewrite Ha. by destruct a.
Qed.

Lemma receiveDHCommitNone_spec c s msg : fit c -> wp (receiveDHCommitNone msg) c (handler_post c s msgTypeDHCommit).
Proof.
  intros Hf. pose proof Hf as [Hv _]. unfold receiveDHCommitNone, wipeAke. do 2 wp_step.
  match goal with |- wp _ ?x _ => set (c0 := x) end. assert (core c0 = core c) as Hc0 by done.
  unfold tryA. wp_spec dhKeyMessage_spec. intros r c1 [Hc1 (a1 & Ha1 & Hr)]. rewrite Hc0 in Hc1.
  destruct r as [body|e]; [|apply wp_ret; by eapply post_core; [done|done|eassumption| |constructor]].
  assert (c_version c1 = Some v) as Hv1 by (injection Hc1 as -> _; done).
  wp_spec wrapMessageHeader_spec; [done|]. intros r c2 [Hc2 Ha2]. rewrite Hc1 in Hc2. rewrite Ha1 in Ha2.
  destruct r as [m|e]; [|apply wp_ret; by eapply post_core; [done|done|eassumption| |constructor]].
  wp_spec processDHCommit_spec; [done|]. intros r c3 [Hc3 (egx & h & Ha3)]. rewrite Hc2 in Hc3.
  destruct r as [[]|e]; apply wp_ret; (eapply post_core; [done|done|exact Ha3| |constructor]); done.
Qed.

Lemma receiveDHCommitAwaitingRevealSig_spec c a msg :
  fit c -> c_ake c = Some a -> exchange_ok (c_ssid c) authStateAwaitingRevealSig a ->
  wp (receiveDHCommitAwaitingRevealSig msg) c (handler_post c authStateAwaitingRevealSig msgTypeDHCommit).
Proof.
  intros Hf Ha (x & Hx & Ho). pose proof Hf as [Hv _]. unfold receiveDHCommitAwaitingRevealSig.
  wp_run (modAkeKeys_Some wipeAndKeepRevealKeys c a Ha). set (a1 := a <| ake_keys := _ |>). set (c1 := c <| c_ake := Some a1 |>).
  wp_run (modAke_Some wipeGX c1 a1 eq_refl). set (a2 := wipeGX a1). set (c2 := c1 <| c_ake := Some a2 |>).
  assert (core c2 = core c) as Hc2 by done. unfold tryA. wp_spec processDHCommit_spec; [done|].
  intros r c3 [Hc3 (egx & h & Ha3)]. rewrite Hc2 in Hc3. set (a3 := a2 <| ake_encryptedGx := egx |> <| ake_xhashedGx := h |>) in Ha3.
  assert (exchange_ok (c_ssid c) authStateAwaitingRevealSig a3) as Hok by (by exists x).
  destruct r as [[]|e]; [|apply wp_ret; eapply post_core; [done|done|eassumption|done|constructor]].
  assert (serializeDHKey c3 = Done (dhKey_serialize (DhKey (pubKey x)), c3)) as Hs.
  { unfold serializeDHKey. step_done (theAke_Some c3 a3 Ha3). change (ake_ourPublicValue a3) with (ake_ourPublicValue a).
    rewrite Ho. by step_lift (pubKey x). }
  wp_run Hs. wp_spec wrapMessageHeader_spec; [by injection Hc3 as -> _|]. intros r c4 [Hc4 Ha4].
  rewrite Hc3 in Hc4. rewrite Ha3 in Ha4. destruct r; apply wp_ret; (eapply post_core; [done|done|exact Ha4|exact Hok|constructor]).
Qed.

Lemma receiveDHCommitAwaitingDHKey_spec c a msg :
  fit c -> c_ake c = Some a -> exchange_ok (c_ssid c) authStateAwaitingDHKey a ->
  wp (receiveDHCommitAwaitingDHKey msg) c (handler_post c authStateAwaitingDHKey msgTypeDHCommit).
Proof.
  intros Hf Ha Hok. pose proof Hf as [Hv _]. pose proof Hok as [(x & Hx & Ho) _]. unfold receiveDHCommitAwaitingDHKey.
  assert (forall e, wp (mret (authStateAwaitingDHKey, None, Some e)) c (handler_post c authStateAwaitingDHKey msgTypeDHCommit)) as Hstay
    by (intros e; apply wp_ret; eapply post_core; [done|done|eassumption|done|constructor]).
  destruct (ExtractData msg) as [[newMsg ?]|]; [|apply Hstay]. destruct (ExtractData newMsg) as [[? theirs]|]; [|apply Hstay].
  wp_run (theAke_Some c a Ha). wp_run (theVersion_Some c v Hv). apply wp_bind, (wp_glift _ (pubKey x)); [by rewrite Ho|].
  destruct (Compare _ _ =? 1); [|by apply receiveDHCommitNone_spec].
  assert (serializeDHCommit (pubKey x) c = Done (dhCommit_serialize (DhCommit (ake_encryptedGx a) (hash2 v (AppendMPI [] (pubKey x)))), c)) as Hs
    by (unfold serializeDHCommit; step_done (theAke_Some c a Ha); by step_done (theVersion_Some c v Hv)).
  wp_run Hs. unfold tryA. wp_spec wrapMessageHeader_spec; [done|]. intros r c4 [Hc4 Ha4]. rewrite Ha in Ha4.
  destruct r; apply wp_ret; (eapply post_core; [done|done|exact Ha4| |constructor]); [by exists x|done].
Qed.

Lemma processDHKey_spec msg c a : c_ake c = Some a -> (forall gy, ake_theirPublicValue a = Some gy -> isGroupElement gy = true) ->
  wp (processDHKey msg) c (fun r c' => core c' = core c /\ exists gy, c_ake c' = Some (with_their gy a) /\
    (ake_theirPublicValue a = None \/ gy = ake_theirPublicValue a) /\
    match r with Ok _ => exists g, gy = Some g /\ isGroupElement g = true | Err _ => gy = ake_theirPublicValue a end).
Proof.
  intros Ha Hg. assert (c_ake c = Some (with_their (ake_theirPublicValue a) a)) as Hsame by (rewrite Ha; by destruct a).
  unfold processDHKey. destruct (dhKey_deserialize msg) as [m|e]; [|apply wp_ret; split; [done|]; eexists; by eauto].
  destruct (isGroupElement (dhk_gy m)) eqn:Eg; cbn [negb]; [|apply wp_ret; split; [done|]; eexists; by eauto].
  wp_run (theAke_Some c a Ha). destruct (ake_theirPublicValue a) as [gy|] eqn:Et.
  - apply wp_ret. split; [done|]. exists (Some gy). split; [done|]. split; [by right|]. eauto.
  - wp_run (modAke_Some (with_their (Some (dhk_gy m))) c a Ha). apply wp_ret. split; [done|]. eexists. split; [done|].
    split; [by left|]. eauto.
Qed.

(** A handler that changed the peer's key or the session id and did not finish. *)
Lemma post_partial c c' s t s' out err a' k ssid :
  fit c -> core c' = (c_version c, c_ourCurrentKey c, c_msgState c, k, ssid, c_resend c, c_keys c) -> c_ake c' = Some a' ->
  exchange_ok ssid s' a' -> ake_transition (tagOf s) t (tagOf s') false -> handler_post c s t (s', out, err) c'.
Proof.
  intros Hf Hc Ha He Ht. injection Hc as E1 E2 E3 E4 E5 E6 E7.
  split; [by apply (fit_pair c)|]. split; [done|]. exists a', false. by rewrite E5, E3, E7.
Qed.

Lemma receiveDHKeyAwaitingDHKey_spec c a msg :
  fit c -> c_ake c = Some a -> exchange_ok (c_ssid c) authStateAwaitingDHKey a ->
  wp (receiveDHKeyAwaitingDHKey msg) c (handler_post c authStateAwaitingDHKey msgTypeDHKey).
Proof.
  intros Hf Ha [(x & Hx & Ho) Hg]. unfold receiveDHKeyAwaitingDHKey, tryA.
  wp_spec processDHKey_spec; [done|done|]. intros r c1 [Hc1 (gy & Ha1 & _ & Hr)].
  destruct r as [same|e].
  2:{ apply wp_ret. eapply post_core; [done|done|exact Ha1| |constructor]. subst gy. split; [by exists x|done]. }
  destruct Hr as (g & -> & Hel). set (a1 := with_their (Some g) a) in Ha1.
  wp_spec (revealSigMessage_spec c1 a1 x g); [by eapply fit_core|done..|]. intros r c2 [Hc2 (k & Ha2)].
  assert (core c2 = core_with (fst (fst (derived g x))) c) as Hc by (rewrite Hc2; by apply core_with_core).
  clear Hc2. set (a2 := a1 <| ake_revealKey := _ |> <| ake_sigKey := _ |> <| ake_keys := k |>) in Ha2.
  assert (exchange_ok (fst (fst (derived g x))) authStateAwaitingDHKey a2) as Hok2
    by (split; [by exists x|by intros ? [= <-]]).
  destruct r as [body|e]; [|apply wp_ret; eapply post_partial; [done|exact Hc|exact Ha2|exact Hok2|constructor]].
  wp_spec wrapMessageHeader_spec; [by injection Hc as -> _; destruct Hf|]. intros r c3 [Hc3 Ha3]. rewrite Hc in Hc3. rewrite Ha2 in Ha3.
  destruct r as [m|e]; [|apply wp_ret; eapply post_partial; [done|exact Hc3|exact Ha3|exact Hok2|constructor]].
  wp_run (storeTheirKey_at c3 a2 g Ha3 eq_refl). set (a4 := a2 <| ake_keys := _ |>). set (c4 := c3 <| c_ake := Some a4 |>).
  wp_run (storeOurKeys_at c4 a4 x eq_refl Hx Ho). set (a5 := a4 <| ake_keys := _ |>). set (c5 := c4 <| c_ake := Some a5 |>).
  do 2 wp_step. apply wp_ret. eapply (post_partial _ _ _ _ _ _ _ a5); [done|exact Hc3|done| |constructor].
  by exists x, g.
Qed.

Lemma receiveDHKeyAwaitingSig_spec c a m msg :
  fit c -> c_ake c = Some a -> exchange_ok (c_ssid c) (authStateAwaitingSig m) a ->
  wp (receiveDHKeyAwaitingSig m msg) c (handler_post c (authStateAwaitingSig m) msgTypeDHKey).
Proof.
  intros Hf Ha Hok. pose proof Hok as (x & gy & Ho & Ht & Hel & _). unfold receiveDHKeyAwaitingSig, tryA.
  wp_spec processDHKey_spec; [done|rewrite Ht; by intros ? [= <-]|]. intros r c1 [Hc1 (g & Ha1 & Hg & _)].
  assert (with_their g a = a) as Ea by (destruct Hg as [Hg | ->]; [congruence|by destruct a]). rewrite Ea in Ha1.
  destruct r; apply wp_ret; (eapply post_core; [done|done|exact Ha1|exact Hok|constructor]).
Qed.

(** The exchange ends: the conversation takes over the keys of the exchange. *)
Lemma post_finished c c0 a s t out k gy x keys : ake_transition (tagOf s) t TagNone true ->
  fit c0 -> c_resend c0 = c_resend c -> c_ake c0 = Some a -> c_theirKey c0 = Some k -> isGroupElement gy = true ->
  c_ssid c0 = fst (fst (derived gy x)) -> keys = snd (fst (derived gy x)) \/ keys = snd (derived gy x) ->
  signedBy k keys gy (pubKey x) -> theirCurrentDHPubKey (ake_keys a) = Some gy -> ourCurrentDHKeys (ake_keys a) = keyPair x ->
  wp (err ← akeHasFinished; mret (authStateNone, out, err)) c0 (handler_post c s t).
Proof.
  intros Htr (Hv & sk & Hk & Hval) Hres Ha Hthem Hel Hssid Hkeys Hsig Ht Ho.
  wp_spec (akeHasFinished_spec c0 a sk); [done..|]. intros err c' ([= E1 E2 E3 E4 E5 E6 E7] & Et & Eo). apply wp_ret.
  rewrite Ht in Et. rewrite Ho in Eo. split; [split; [congruence|exists sk; split; congruence]|]. split; [congruence|].
  exists (ake_wipe a), true. split; [done|]. split; [done|]. split; [done|]. split; [done|].
  exists k, gy, x, keys. split_and!; congruence || done.
Qed.

Lemma receiveRevealSigAwaiting_spec c a msg :
  fit c -> c_ake c = Some a -> exchange_ok (c_ssid c) authStateAwaitingRevealSig a ->
  wp (receiveRevealSigAwaiting msg) c (handler_post c authStateAwaitingRevealSig msgTypeRevealSig).
Proof.
  intros Hf Ha (x & Hx & Ho). unfold receiveRevealSigAwaiting, tryA.
  wp_spec (processRevealSig_spec c a x); [done..|]. intros r c1 (k & ssid & a1 & Hc1 & Ha1 & Hx1 & Ho1 & Hr).
  destruct r as [[]|e]; [|apply wp_ret; eapply post_partial; [done|exact Hc1|exact Ha1|by exists x|constructor]].
  destruct Hr as (gx & Ht1 & Hel & -> & Hsk & key & Hkey & Hsig).
  assert (fit c1) as Hf1 by (injection Hc1 as E1 E2 _; by apply (fit_pair c)).
  wp_spec (sigMessage_spec c1 a1 (pubKey x) gx); [done..|]. intros r c2 [Hc2 (id & Ha2)]. rewrite Hc1 in Hc2.
  set (a2 := a1 <| ake_keys := _ |>) in Ha2.
  destruct r as [body|e]; [|apply wp_ret; eapply post_partial; [done|exact Hc2|exact Ha2|by exists x|constructor]].
  wp_spec wrapMessageHeader_spec; [by injection Hc2 as -> _; destruct Hf|]. intros r c3 [Hc3 Ha3]. rewrite Hc2 in Hc3. rewrite Ha2 in Ha3.
  destruct r as [m|e]; [|apply wp_ret; eapply post_partial; [done|exact Hc3|exact Ha3|by exists x|constructor]].
  wp_run (storeTheirKey_at c3 a2 gx Ha3 Ht1). set (a4 := a2 <| ake_keys := _ |>). set (c4 := c3 <| c_ake := Some a4 |>).
  wp_run (storeOurKeys_at c4 a4 x eq_refl Hx1 Ho1). set (a5 := a4 <| ake_keys := _ |>). set (c5 := c4 <| c_ake := Some a5 |>).
  do 2 wp_step. set (c6 := c5 <| c_sentRevealSig := false |>).
  assert (core c6 = core c3) as Hc6 by done. rewrite Hc3 in Hc6. injection Hc6 as E1 E2 E3 E4 E5 E6 E7.
  injection Hc1 as _ _ _ F4 _ _ _. rewrite F4 in Hkey.
  apply (post_finished _ c6 a5 authStateAwaitingRevealSig _ _ key gx x (snd (fst (derived gx x))) ake_reveal); try done; [|exact (eq_trans E4 Hkey)|by left].
  by apply (fit_pair c).
Qed.

Lemma receiveSigAwaiting_spec c a m msg :
  fit c -> c_ake c = Some a -> exchange_ok (c_ssid c) (authStateAwaitingSig m) a ->
  wp (receiveSigAwaiting m msg) c (handler_post c (authStateAwaitingSig m) msgTypeSig).
Proof.
  intros Hf Ha (x & gy & Ho & Ht & Hel & Hsk & Hssid & Hour). unfold receiveSigAwaiting, tryA.
  wp_spec (processSig_spec c a gy (pubKey x)); [done..|]. intros r c1 (k & id & Hc1 & Ha1 & Hr).
  set (a1 := a <| ake_keys := _ |>) in Ha1.
  destruct r as [[]|e]; [|apply wp_ret; eapply post_partial; [done|exact Hc1|exact Ha1|by exists x, gy|constructor]].
  destruct Hr as (key & Hkey & Hsig). rewrite Hsk in Hsig.
  wp_run (storeTheirKey_at c1 a1 gy Ha1 Ht). set (a2 := a1 <| ake_keys := _ |>). set (c2 := c1 <| c_ake := Some a2 |>).
  assert (core c2 = core c1) as Hc2 by done. rewrite Hc1 in Hc2. injection Hc2 as E1 E2 E3 E4 E5 E6 E7.
  apply (post_finished _ c2 a2 (authStateAwaitingSig m) _ _ key gy x (snd (derived gy x)) ake_sig); try done; [|exact (eq_trans E5 Hssid)|by right].
  by apply (fit_pair c).
Qed.

(** ** The dispatch *)

Lemma handlers_spec c a msg : fit c -> c_ake c = Some a -> exchange_ok (c_ssid c) (ake_state a) a ->
  wp (receiveDHCommitMessage (ake_state a) msg) c (handler_post c (ake_state a) msgTypeDHCommit) /\
  wp (receiveDHKeyMessage (ake_state a) msg) c (handler_post c (ake_state a) msgTypeDHKey) /\
  wp (receiveRevealSigMessage (ake_state a) msg) c (handler_post c (ake_state a) msgTypeRevealSig) /\
  wp (receiveSigMessage (ake_state a) msg) c (handler_post c (ake_state a) msgTypeSig).
Proof.
  intros Hf Ha Hok. assert (forall t, handler_post c (ake_state a) t (ake_state a, None, None) c) as Hstay
    by (intros t; eapply post_core; [done|done|exact Ha|done|constructor]).
  destruct (ake_state a); cbn [receiveDHCommitMessage receiveDHKeyMessage receiveRevealSigMessage receiveSigMessage];
    split_and!; try (by apply wp_ret);
    by first [apply receiveDHCommitNone_spec | eapply receiveDHCommitAwaitingRevealSig_spec | eapply receiveDHCommitAwaitingDHKey_spec
      | eapply receiveDHKeyAwaitingDHKey_spec | eapply receiveDHKeyAwaitingSig_spec | eapply receiveRevealSigAwaiting_spec
      | eapply receiveSigAwaiting_spec].
Qed.

(** ** The properties *)

Lemma dhCommit_parts egx h : len egx < 2 ^ 32 -> len h < 2 ^ 32 ->
  ExtractData (dhCommit_serialize (DhCommit egx h)) = Some (AppendData [] h, egx) /\ ExtractData (AppendData [] h) = Some ([], h).
Proof.
  intros He Hh. unfold dhCommit_serialize. cbn [dhc_encryptedGx dhc_yhashedGx]. rewrite (AppendData_app (AppendData [] egx)).
  split; [by rewrite ExtractData_Append|]. rewrite <- (app_nil_r (AppendData [] h)). by rewrite ExtractData_Append.
Qed.

Lemma key_ignored c1 keyMsg : akeTag c1 = TagAwaitingRevealSig ->
  exists c2, processAKE msgTypeDHKey keyMsg c1 = Done (([], None), c2) /\ akeTag c2 = TagAwaitingRevealSig.
Proof.
  unfold akeTag. intros Ht. destruct (c_ake c1) as [a|] eqn:Ea; [|done].
  assert (ake_state a = authStateAwaitingRevealSig) as Hs by (by destruct (ake_state a)).
  assert (ensureAKE c1 = Done (tt, c1)) as He by (unfold ensureAKE; step_state; by rewrite Ea).
  eexists. split; [apply (processAKE_run msgTypeDHKey (fun s => receiveDHKeyMessage s keyMsg) keyMsg c1 c1 a
    authStateAwaitingRevealSig None c1 a); [by right; left|done|done|by rewrite Hs|done|by intros []]|done].
Qed.

(** C36: both sides start an exchange at once and ours has the higher hash.  We
    send our commitment again, but we also move to the state that waits for a
    reveal-signature message: the key message the peer answers with is then
    dropped without a reply, whatever it holds, so neither side proceeds. *)
Theorem simultaneous_start_stalls c a gx egx h :
  c_version c = Some v -> (v = otrV3 -> c_ourInstanceTag c <> 0) ->
  c_ake c = Some a -> ake_state a = authStateAwaitingDHKey -> ake_ourPublicValue a = Some gx ->
  len egx < 2 ^ 32 -> len h < 2 ^ 32 -> Compare (hash2 v (AppendMPI [] gx)) h = 1 ->
  exists c1, processAKE msgTypeDHCommit (dhCommit_serialize (DhCommit egx h)) c =
      Done (([header v c msgTypeDHCommit ++ dhCommit_serialize (DhCommit (ake_encryptedGx a) (hash2 v (AppendMPI [] gx)))], None), c1) /\
    akeTag c1 = TagAwaitingRevealSig /\
    forall keyMsg, exists c2, processAKE msgTypeDHKey keyMsg c1 = Done (([], None), c2) /\ akeTag c2 = TagAwaitingRevealSig.
Proof.
  intros Hv Htag Ha Hs Ho He Hh Hcmp. set (msg := dhCommit_serialize (DhCommit egx h)).
  destruct (dhCommit_parts egx h He Hh) as [E1 E2].
  assert (ensureAKE c = Done (tt, c)) as Hen by (unfold ensureAKE; step_state; by rewrite Ha).
  set (own := dhCommit_serialize (DhCommit (ake_encryptedGx a) (hash2 v (AppendMPI [] gx)))).
  assert (receiveDHCommitMessage (ake_state a) msg c =
    Done ((authStateAwaitingRevealSig, Some (header v c msgTypeDHCommit ++ own), None), c)) as Hh'.
  { rewrite Hs. cbn [receiveDHCommitMessage]. unfold receiveDHCommitAwaitingDHKey, msg. rewrite E1, E2.
    step_done (theAke_Some c a Ha). step_done (theVersion_Some c v Hv). rewrite Ho. step_lift gx. rewrite Hcmp. cbn [Z.eqb Pos.eqb].
    assert (serializeDHCommit gx c = Done (own, c)) as Hser
      by (unfold serializeDHCommit; step_done (theAke_Some c a Ha); by step_done (theVersion_Some c v Hv)).
    step_done Hser. unfold tryA. by step_done (wrapMessageHeader_ready v c msgTypeDHCommit own Hv Htag). }
  eexists. split; [apply (processAKE_run msgTypeDHCommit (fun s => receiveDHCommitMessage s msg) msg c c a authStateAwaitingRevealSig (Some (header v c msgTypeDHCommit ++ own)) c a);
    [by left|done..|by intros []]|].
  split; [done|]. intros keyMsg. by apply key_ignored.
Qed.

(** A message the state of the exchange has no use for. *)
Definition stray (c : Conversation) (t : Z) : Prop :=
  (t = msgTypeRevealSig /\ akeTag c <> TagAwaitingRevealSig) \/ (t = msgTypeSig /\ akeTag c <> TagAwaitingSig).

Lemma retransmit_unencrypted c : IsEncrypted c = false -> shouldRetransmit c = true ->
  exists e r, maybeRetransmit c = Done (Err e, c <| c_resend := r |>) /\ resend_messages r = [].
Proof.
  intros Hp Hr. unfold maybeRetransmit. step_state. rewrite Hr. cbn [negb]. unfold retransmit, modResend. step_state.
  unfold shouldRetransmit, resend_shouldRetransmit in Hr. unfold pending. destruct (resend_messages (c_resend c)) as [|m ms]; [done|].
  match goal with |- exists e r, (_ ≫= _) ?s = _ /\ _ => set (c1 := s) end.
  assert (forall b, retransmitLoop (m :: ms) b c1 = Done (Err errCannotSendUnencrypted, c1)) as Hl.
  { intros b. cbn [retransmitLoop]. step_state. unfold genDataMsg, genDataMsgWithFlag.
    assert (IsEncrypted c1 = false) as Hp1 by exact Hp. unfold tryb. rewrite gom_bind_assoc, bind_gget. by rewrite Hp1. }
  step_done (Hl (bool_decide (mayRetransmit (c_resend c) = retransmitWithPrefix))). step_state. eexists _, _. split; [reflexivity|]. done.
Qed.

Lemma ensureAKE_any c : exists c0 a, ensureAKE c = Done (tt, c0) /\ c_ake c0 = Some a /\ tagOf (ake_state a) = akeTag c /\
  c_msgState c0 = c_msgState c /\ shouldRetransmit c0 = shouldRetransmit c.
Proof.
  unfold ensureAKE, akeTag. step_state. destruct (c_ake c) as [a|] eqn:Ea; [by exists c, a|]. by eexists _, initial_ake.
Qed.

(** C34: a stray signature drops what is waiting.  A text that may not be sent in
    the clear is queued until a session is established.  A reveal-signature or
    signature message that the exchange is not waiting for, which anyone can put
    on the network, makes the conversation try to retransmit: the queue is
    emptied before the encryption fails for want of a session, the error is
    dropped, and so are the texts. *)
Theorem stray_signature_drops_pending c t msg : stray c t -> IsEncrypted c = false -> shouldRetransmit c = true ->
  exists c', processAKE t msg c = Done (([], None), c') /\ resend_messages (c_resend c') = [] /\
    c_msgState c' = c_msgState c /\ akeTag c' = akeTag c.
Proof.
  intros Hst Hp Hr. destruct (ensureAKE_any c) as (c0 & a & He & Ha & Htag & Hm & Hr0). unfold processAKE. step_done He.
  set (c1 := c0 <| c_ake := Some (a <| ake_state := ake_state a |>) |>).
  assert (forall h, h (ake_state a) c0 = Done ((ake_state a, None, None), c0) -> runAuth h c0 = Done ((None, None), c1)) as Hrun
    by (intros h Hh; by apply (runAuth_run h c0 a (ake_state a) None None c0 a)).
  destruct (retransmit_unencrypted c1) as (e & r & Hrt & Hempty); [by unfold IsEncrypted in *; cbn; rewrite Hm|by rewrite <- Hr, <- Hr0|].
  set (c2 := c1 <| c_resend := r |>) in Hrt.
  match goal with |- exists c', (?m ≫= _) c0 = _ /\ _ => assert (m c0 = Done (((None, None), []), c2)) as Hmid end.
  { destruct Hst as [[-> Hs]|[-> Hs]]; rewrite <- Htag in Hs; cbn [Z.eqb msgTypeDHCommit msgTypeDHKey msgTypeRevealSig msgTypeSig Pos.eqb].
    - rewrite (bind_done _ _ _ _ _ (Hrun (fun s => receiveRevealSigMessage s msg) ltac:(by destruct (ake_state a)))). by step_done Hrt.
    - rewrite (bind_done _ _ _ _ _ (Hrun (fun s => receiveSigMessage s msg) ltac:(by destruct (ake_state a)))). by step_done Hrt. }
  step_done Hmid. rewrite bind_gget, (bind_done _ _ _ _ _ (modAke_Some _ c2 _ eq_refl)). eexists. split; [reflexivity|].
  split; [exact Hempty|]. split; [exact Hm|exact Htag].
Qed.

End Safety.

(** ** Witnesses *)

(** A conversation in version 3 with its key, about to run an exchange. *)
Definition example_side (addr y tag : Z) (draws : list byte) : Conversation :=
  let pub := DsaPublicKey (Some 23) (Some 11) (Some 2) (Some y) in
  let sk := PrivateKeyAt addr pub (DsaPrivateKey pub (Some 3)) in
  (new_conversation (Some otrV3) (allowV2 + allowV3) [sk] draws 0 10) <| c_ourInstanceTag := tag |> <| c_ourCurrentKey := Some sk |>.

Definition responder : Conversation := example_side 2 9 0x5678 (be_encode 40 101 ++ Byte.x07 :: be_encode 40 7).
Definition initiator : Conversation := example_side 1 8 0x1234 (be_encode 40 100 ++ zeroes 16 ++ Byte.x07 :: be_encode 40 7).

(** The initiator after its commitment. *)
Definition committed_initiator : Conversation :=
  match @sendDHCommit mersenne_group toy_crypto initiator with Done (_, c) => c | Panicked _ => initiator end.

Lemma simultaneous_start_stalls_witness : exists out c1 c2,
  @processAKE mersenne_group toy_crypto msgTypeDHCommit (dhCommit_serialize (DhCommit (bs "x") [])) committed_initiator = Done ((out, None), c1) /\
  akeTag c1 = TagAwaitingRevealSig /\
  @processAKE mersenne_group toy_crypto msgTypeDHKey (dhKey_serialize (DhKey 5)) c1 = Done (([], None), c2).
Proof.
  destruct (@simultaneous_start_stalls mersenne_group toy_crypto otrV3 committed_initiator
    (match c_ake committed_initiator with Some a => a | None => initial_ake end) (@pubKey mersenne_group 100) (bs "x") [])
    as (c1 & Hp & Ht & Hk).
  - vm_compute. reflexivity.
  - intros _. vm_compute. congruence.
  - vm_compute. reflexivity.
  - vm_compute. reflexivity.
  - vm_compute. reflexivity.
  - vm_compute. reflexivity.
  - vm_compute. reflexivity.
  - vm_compute. reflexivity.
  - destruct (Hk (dhKey_serialize (DhKey 5))) as (c2 & Hp2 & _). eexists _, c1, c2. split; [exact Hp|]. split; [exact Ht|exact Hp2].
Defined.

(** A conversation that requires encryption and has a text waiting. *)
Definition waiting : Conversation :=
  responder <| c_Policies := allowV3 + requireEncryption |> <| c_lastSent := env_now responder |>
    <| c_resend := ResendContext retransmitExact None false [MessageToResend (bs "hello") []] |>.

Lemma stray_signature_drops_pending_witness : exists c',
  @processAKE mersenne_group toy_crypto msgTypeSig (bs "anything") waiting = Done (([], None), c') /\
  resend_messages (c_resend waiting) <> [] /\ resend_messages (c_resend c') = [].
Proof.
  destruct (@stray_signature_drops_pending mersenne_group toy_crypto waiting msgTypeSig (bs "anything")) as (c' & Hp & He & _).
  - right. split; [reflexivity|discriminate].
  - vm_compute. reflexivity.
  - vm_compute. reflexivity.
  - exists c'. split; [exact Hp|]. split; [discriminate|exact He].
Defined.
