(* ===== verification/AkeKeys.v ===== *)
(** * The key exchange in a conversation that may hold a session

    The keys of a pending exchange as the handlers of [AkeSafety] leave them, so
    that the session an exchange ends in can be used: [exchange_keyed] is what
    each state has of key identifiers.  With it, what [processAKE] does to a
    conversation is followed through to the retransmission it triggers, for every
    message and every sequence of messages. *)

From S2P Require Import Prelude GoLib Gotrax Policy Crypto KeyManagement Messages Smp Keys Conversation Fragmentation SmpMachine DataMessage Ake Frames Receive Session AkeExchange EndToEnd AkeSafety.

(** A conversation in version 3 has an instance tag. *)
Definition tagged (v : otrVersion) (tag : Z) : Prop := v = otrV3 -> tag <> 0.

(** The key identifiers of an exchange in each state; a state that waits for the
    peer was reached by a message with our instance tag. *)
Definition exchange_keyed (v : otrVersion) (tag : Z) (s : authState) (k : keyManagementContext) : Prop :=
  0 <= theirKeyID k < 2 ^ 32 /\
  match s with
  | authStateNone => True
  | authStateAwaitingDHKey | authStateAwaitingRevealSig => tagged v tag /\ ourKeyID k = 0
  | authStateAwaitingSig _ => ourKeyID k = 1
  end.

(** ** The keys of an exchange *)

Section Keyed.
Context `{DHGroup} `{Crypto} (valid : dsa_PrivateKey -> Prop).
Variable v : otrVersion.

(** The error of a signature that could not be made. *)
Definition signing_error (e : error) : Prop := exists k hashed rnd e0 rnd', dsa_sign k hashed rnd = (Err e0, rnd') /\ e = signError e0.

Definition unsigned (err : option error) : Prop := exists e, err = Some e /\ signing_error e.

Definition made {A} (r : result A) : Prop := match r with Ok _ => True | Err e => signing_error e end.

(** The keys and the tag, which most of the exchange leaves alone. *)
Definition keys_view (c : Conversation) :=
  (c_version c, c_ourCurrentKey c, c_ourInstanceTag c, ake_keys <$> c_ake c, c_keys c, c_msgState c).

Lemma view_modAke f : (forall a, ake_keys (f a) = ake_keys a) -> leaves keys_view (modAke f).
Proof.
  intros Hf c. unfold modAke, theAke. do 3 wlp_step. apply wlp_glift. intros a Ea. apply wlp_gmod. unfold keys_view. cbn.
  destruct (c_ake c); [|done]. injection Ea as ->. cbn. by rewrite Hf.
Qed.
#[local] Hint Extern 1 (leaves keys_view (modAke _)) => apply view_modAke; reflexivity : leaves.

Lemma view_randomInto n : leaves keys_view (conv_randomInto n).
Proof. intros c. unfold wlp, conv_randomInto. by destruct (randomInto _ _). Qed.
Lemma view_randMPI n : leaves keys_view (conv_randMPI n).
Proof. intros c. unfold wlp, conv_randMPI. by destruct (randSizedMPI _ _). Qed.
Lemma view_withRand {A} (f : list byte -> go (result A * list byte)) : leaves keys_view (withRand f).
Proof. intros c. unfold wlp, withRand. by destruct (f _) as [[? ?]|]. Qed.
#[local] Hint Resolve view_randomInto view_randMPI view_withRand : leaves.

Lemma view_generateEncryptedSignature key : leaves keys_view (generateEncryptedSignature key).
Proof. unfold generateEncryptedSignature, calcXb, encrypted_or_zero. solve_leaves. Qed.
Lemma view_calcAKEKeys s : leaves keys_view (calcAKEKeys s).
Proof. unfold calcAKEKeys. solve_leaves. Qed.
Lemma view_processDHCommit msg : leaves keys_view (processDHCommit msg).
Proof. unfold processDHCommit. solve_leaves. Qed.
Lemma view_processDHKey msg : leaves keys_view (processDHKey msg).
Proof. unfold processDHKey. solve_leaves. Qed.
Lemma view_parseTheirKey key : leaves keys_view (parseTheirKey key).
Proof. unfold parseTheirKey. solve_leaves. Qed.
Lemma view_expectedMessageHMAC id keys : leaves keys_view (expectedMessageHMAC id keys).
Proof. unfold expectedMessageHMAC. solve_leaves. Qed.
Lemma view_checkedSignature mb sig : leaves keys_view (checkedSignatureVerification mb sig).
Proof. unfold checkedSignatureVerification. solve_leaves. Qed.
#[local] Hint Resolve view_generateEncryptedSignature view_calcAKEKeys view_processDHCommit view_processDHKey view_parseTheirKey
  view_expectedMessageHMAC view_checkedSignature : leaves.

(** A signature is made, or signing returned an error. *)
Lemma Sign_made sk rnd mb r rnd' : Sign sk rnd mb = Done (r, rnd') -> match r with Ok _ => True | Err e => signing_error (signError e) end.
Proof.
  unfold Sign. destruct (dsa_sign (sk_PrivateKey sk) mb rnd) as [[[x y]|e] rnd1] eqn:E; [|intros [= <- _]; by repeat eexists].
  unfold mbind, go_bind. destruct (copyAt _ _ _) as [out|]; [|done]. destruct (copyAt out _ _) as [out'|]; [|done]. by intros [= <- _].
Qed.

Lemma calcXb_made key mb c : wlp (calcXb key mb) c (fun r _ => made r).
Proof.
  unfold calcXb, theAke. do 2 wlp_step. apply wlp_bind, wlp_glift. intros sk _.
  do 3 wlp_step. apply wlp_glift. intros a _. cbn zeta. apply wlp_bind. unfold wlp at 1, withRand.
  destruct (Sign sk (c_Rand c) mb) as [[r rnd']|] eqn:Es; [|done]. apply Sign_made in Es. destruct r as [sig|e]; [|done].
  unfold encrypted_or_zero, theVersion. by repeat wlp_step.
Qed.

Lemma signature_made key c : wlp (generateEncryptedSignature key) c (fun r _ => made r).
Proof.
  unfold generateEncryptedSignature, theAke, theVersion. do 7 wlp_step.
  apply wlp_glift. intros our _. apply wlp_bind, wlp_glift. intros their _. apply wlp_bind, wlp_glift. intros k _.
  apply wlp_bind, wlp_bind, wlp_gget, wlp_glift. intros w _. cbn zeta. apply wlp_tryb.
  eapply wlp_mono; [by apply calcXb_made|]. intros [xb|e] c1; [intros _; by apply wlp_ret|done].
Qed.

(** Adding a header to a message. *)
Lemma header_keys t m c : c_version c = Some v ->
  wlp (wrapMessageHeader t m) c (fun r c' => (exists rnd tag, c' = c <| c_Rand := rnd |> <| c_ourInstanceTag := tag |> /\ (is_ok r = true -> tagged v tag)) /\
    (tagged v (c_ourInstanceTag c) -> c' = c /\ is_ok r = true)).
Proof.
  intros Hv. unfold wrapMessageHeader, messageHeader. apply wlp_tryb, wlp_bind. unfold wlp at 1. rewrite (theVersion_Some c _ Hv).
  assert (c = c <| c_Rand := c_Rand c |> <| c_ourInstanceTag := c_ourInstanceTag c |>) as Ec by (by destruct c). destruct v.
  { apply wlp_ret, wlp_ret. split; [|done]. exists (c_Rand c), (c_ourInstanceTag c). by split. }
  unfold otrV3_messageHeader. apply wlp_tryb. unfold wlp at 1, generateInstanceTag. destruct (Z.eqb_spec (c_ourInstanceTag c) 0) as [E|E]; cbn [negb].
  - destruct (instanceTagLoop _ _) as [[tag|e] r] eqn:El.
    + apply instanceTagLoop_range in El. do 2 wlp_step. apply wlp_ret. split; [|by intros Ht; destruct Ht].
      exists r, tag. split; [done|]. intros _ _. unfold minValidInstanceTag in El. lia.
    + split; [|by intros Ht; destruct Ht]. exists r, (c_ourInstanceTag c). split; [by destruct c|done].
  - do 2 wlp_step. apply wlp_ret. split; [|done]. exists (c_Rand c), (c_ourInstanceTag c). split; [done|]. by intros _ _.
Qed.

(** What a handler does to the key identifiers and the session. *)
Definition keyed_post (c : Conversation) (o : authOutcome) (c' : Conversation) : Prop :=
  let '(s', _, err) := o in
  ((exists k, ake_keys <$> c_ake c' = Some k /\ exchange_keyed v (c_ourInstanceTag c') s' k) \/ unsigned err) /\
  ((c_keys c' = c_keys c /\ c_msgState c' = c_msgState c) \/ keys_inv (c_keys c')).

(** The part of a handler before the end leaves the session alone. *)
Definition at_keys (c : Conversation) (tag : Z) (k : keyManagementContext) (c' : Conversation) : Prop :=
  keys_view c' = (c_version c, c_ourCurrentKey c, tag, Some k, c_keys c, c_msgState c).

Lemma at_keys_post c tag k c' s' out err : at_keys c tag k c' -> exchange_keyed v tag s' k -> keyed_post c (s', out, err) c'.
Proof. unfold at_keys, keys_view. intros [= E1 E2 E3 E4 E5 E6] Hx. split; [left; exists k; by rewrite E3|]. by left. Qed.

Lemma at_keys_unsigned c tag k c' s' out e : at_keys c tag k c' -> signing_error e -> keyed_post c (s', out, Some e) c'.
Proof. unfold at_keys, keys_view. intros [= E1 E2 E3 E4 E5 E6] Hx. split; [right; by exists e|]. by left. Qed.

Lemma at_keys_start c a : c_ake c = Some a -> at_keys c (c_ourInstanceTag c) (ake_keys a) c.
Proof. intros Ha. unfold at_keys, keys_view. by rewrite Ha. Qed.

Lemma at_keys_fit c tag k c' : at_keys c tag k c' -> fit valid v c -> fit valid v c'.
Proof. unfold at_keys, keys_view. intros [= E1 E2 _ _ _ _]. by apply fit_pair. Qed.

Lemma wlp_leaves {A} (m : M A) c tag k c1 (Q : A -> Conversation -> Prop) : leaves keys_view m -> at_keys c tag k c1 ->
  (forall a c', at_keys c tag k c' -> Q a c') -> wlp m c1 Q.
Proof. intros Hm Hc HQ. eapply wlp_mono; [apply Hm|]. intros a c' E. apply HQ. unfold at_keys. by rewrite E. Qed.

Lemma wlp_modAkeKeys f c tag k c1 (Q : unit -> Conversation -> Prop) : at_keys c tag k c1 ->
  (forall c', at_keys c tag (f k) c' -> Q tt c') -> wlp (modAkeKeys f) c1 Q.
Proof.
  unfold at_keys, keys_view. intros [= E1 E2 E3 E4 E5 E6] HQ. unfold modAkeKeys, modAke, theAke. do 3 wlp_step. apply wlp_glift.
  intros a Ea. apply wlp_gmod, HQ. cbn. destruct (c_ake c1) as [a1|]; [|done]. injection Ea as <-. injection E4 as <-. congruence.
Qed.

(** A header, when the tag is not known to be set. *)
Lemma wlp_header t m c tag k c1 (Q : result (list byte) -> Conversation -> Prop) : c_version c = Some v -> at_keys c tag k c1 ->
  (forall r tag' c', at_keys c tag' k c' -> (is_ok r = true -> tagged v tag') -> Q r c') -> wlp (wrapMessageHeader t m) c1 Q.
Proof.
  unfold at_keys, keys_view. intros Hv [= E1 E2 E3 E4 E5 E6] HQ. eapply wlp_mono; [apply header_keys; congruence|].
  intros r c' [(rnd & tag' & -> & Ht) _]. apply (HQ r tag'); [|done]. cbn. congruence.
Qed.

(** A header, when it is. *)
Lemma wlp_header_tagged t m c tag k c1 (Q : result (list byte) -> Conversation -> Prop) : c_version c = Some v -> at_keys c tag k c1 ->
  tagged v tag -> (forall h c', at_keys c tag k c' -> Q (Ok h) c') -> wlp (wrapMessageHeader t m) c1 Q.
Proof.
  intros Hv Hc Ht HQ. pose proof Hc as Hc1. unfold at_keys, keys_view in Hc. injection Hc as E1 E2 E3 E4 E5 E6.
  eapply wlp_mono; [apply header_keys; congruence|]. intros r c' [_ Hr]. destruct Hr as [-> Hok]; [by rewrite E3|].
  destruct r as [h|e]; [by apply HQ|done].
Qed.

Lemma keyed_fresh tag k s : theirKeyID k = 0 -> ourKeyID k = 0 -> (s = authStateNone \/ tagged v tag /\ (s = authStateAwaitingDHKey \/ s = authStateAwaitingRevealSig)) ->
  exchange_keyed v tag s k.
Proof. intros E1 E2 [->|[Ht [->| ->]]]; (split; [rewrite E1; lia|done]). Qed.

Lemma wlp_initAKE c tag k c1 (Q : unit -> Conversation -> Prop) : at_keys c tag k c1 ->
  (forall c', at_keys c tag empty_keys c' -> Q tt c') -> wlp initAKE c1 Q.
Proof. unfold at_keys, keys_view, initAKE. intros [= E1 E2 E3 E4 E5 E6] HQ. apply wlp_gmod, HQ. cbn. congruence. Qed.

Lemma wlp_wipeAke c tag k c1 (Q : unit -> Conversation -> Prop) : at_keys c tag k c1 ->
  (forall c', at_keys c tag empty_keys c' -> Q tt c') -> wlp wipeAke c1 Q.
Proof.
  unfold at_keys, keys_view, wipeAke. intros [= E1 E2 E3 E4 E5 E6] HQ. apply wlp_gmod, HQ. cbn.
  destruct (c_ake c1); [|done]. cbn. congruence.
Qed.

Lemma wlp_theAke c tag k c1 (Q : ake -> Conversation -> Prop) : at_keys c tag k c1 ->
  (forall a, c_ake c1 = Some a -> ake_keys a = k -> Q a c1) -> wlp theAke c1 Q.
Proof.
  unfold at_keys, keys_view, theAke. intros [= E1 E2 E3 E4 E5 E6] HQ. do 2 wlp_step. apply wlp_glift. intros a Ea.
  destruct (c_ake c1) as [a1|]; [|done]. injection Ea as <-. injection E4 as E4. by apply HQ.
Qed.

(** Step over an action that leaves the keys alone. *)
Ltac keys_leave :=
  first [apply wlp_bind | apply wlp_tryb]; eapply wlp_leaves; [solve [solve_leaves] | eassumption |];
  let r := fresh "r" in let c' := fresh "c" in let Hc := fresh "Hc" in intros r c' Hc.

Lemma wlp_signature key c tag k c1 (Q : result (list byte) -> Conversation -> Prop) : at_keys c tag k c1 ->
  (forall r c', at_keys c tag k c' -> made r -> Q r c') -> wlp (generateEncryptedSignature key) c1 Q.
Proof.
  intros Hc HQ. apply wlp_intro. intros r c' E.
  pose proof (wlp_use _ _ _ _ _ (signature_made key c1) E) as Hr. pose proof (wlp_use _ _ _ _ _ (view_generateEncryptedSignature key c1) E) as Hv.
  apply HQ; [|done]. unfold at_keys. by rewrite Hv.
Qed.

(** Our key identifier goes up with the message that carries it. *)
Definition next_id (k : keyManagementContext) : keyManagementContext := k <| ourKeyID := u32 (ourKeyID k + 1) |>.

Lemma wlp_revealSigMessage c tag k c1 (Q : result (list byte) -> Conversation -> Prop) : at_keys c tag k c1 ->
  (forall r c', at_keys c tag (next_id k) c' -> made r -> Q r c') -> wlp revealSigMessage c1 Q.
Proof.
  intros Hc HQ. unfold revealSigMessage, calcDHSharedSecret. do 2 keys_leave. apply wlp_bind. eapply (wlp_modAkeKeys _ c tag k); [done|].
  intros c4 H4. keys_leave. apply wlp_tryb. eapply wlp_signature; [done|]. intros [sig|e] c7 H7 Hm; [|by apply HQ].
  do 3 keys_leave. by apply wlp_ret, HQ.
Qed.

Lemma wlp_sigMessage c tag k c1 (Q : result (list byte) -> Conversation -> Prop) : at_keys c tag k c1 ->
  (forall r c', at_keys c tag (next_id k) c' -> made r -> Q r c') -> wlp sigMessage c1 Q.
Proof.
  intros Hc HQ. unfold sigMessage. apply wlp_bind, (wlp_modAkeKeys _ c tag k); [done|]. intros c4 H4. keys_leave.
  apply wlp_tryb. eapply wlp_signature; [done|]. intros [sig|e] c7 H7 Hm; [|by apply HQ]. do 3 keys_leave. by apply wlp_ret, HQ.
Qed.

(** The identifier of their key is replaced by the one of the message, or kept. *)
Definition named (k k' : keyManagementContext) : Prop := exists id, k' = k <| theirKeyID := id |> /\ 0 <= id < 2 ^ 32.

Lemma named_refl k : 0 <= theirKeyID k < 2 ^ 32 -> named k k.
Proof. intros Hk. exists (theirKeyID k). by destruct k. Qed.

Lemma parseTheirKey_range d c sk c' : parseTheirKey d c = Done (Ok sk, c') -> 0 <= snd sk < 2 ^ 32.
Proof.
  unfold parseTheirKey. rewrite bind_gget. destruct (ParsePublicKey _ d) as [[rest ok1] pub]. rewrite bind_gmod.
  intros [= E _]. destruct (ExtractWord rest) as [[sig id]|] eqn:Ew; [|done]. destruct ok1; [|done]. injection E as <-.
  by apply ExtractWord_inv in Ew as [_ Hw].
Qed.

Lemma wlp_processEncryptedSig esig mac keys c tag k c1 (Q : result unit -> Conversation -> Prop) :
  0 <= theirKeyID k < 2 ^ 32 -> at_keys c tag k c1 ->
  (forall r k' c', named k k' -> at_keys c tag k' c' -> Q r c') -> wlp (processEncryptedSig esig mac keys) c1 Q.
Proof.
  intros Hk Hc HQ. pose proof (named_refl k Hk) as Hn. unfold processEncryptedSig. do 2 keys_leave.
  match goal with |- context [match ?x with Some _ => _ | None => _ end] => destruct x end; [apply wlp_ret; by eapply HQ|].
  destruct (decrypt _ _) as [d|e]; [|apply wlp_ret; by eapply HQ]. apply wlp_tryb.
  apply (wlp_mono _ _ (fun r c' => at_keys c tag k c' /\ (forall sk, r = Ok sk -> 0 <= snd sk < 2 ^ 32))).
  { apply wlp_intro. intros res c' E. split.
    - unfold at_keys in *. rewrite <- Hc1. exact (wlp_use _ _ _ _ _ (view_parseTheirKey d _) E).
    - intros sk ->. exact (parseTheirKey_range _ _ _ _ E). }
  intros [sk|e] c' [H1' Hid]; [|by eapply HQ]. do 2 keys_leave. destruct r1 as [[]|e]; [|by eapply HQ].
  apply wlp_bind, (wlp_modAkeKeys _ c tag k); [done|]. intros c9 H9. apply wlp_ret. eapply HQ; [|exact H9]. exists (snd sk). auto.
Qed.

Lemma wlp_processRevealSig msg c tag k c1 (Q : result unit -> Conversation -> Prop) :
  0 <= theirKeyID k < 2 ^ 32 -> at_keys c tag k c1 ->
  (forall r k' c', named k k' -> at_keys c tag k' c' -> Q r c') -> wlp (processRevealSig msg) c1 Q.
Proof.
  intros Hk Hc HQ. pose proof (named_refl k Hk) as Hn. unfold processRevealSig. keys_leave.
  destruct (revealSig_deserialize _ _) as [m|e]; [|apply wlp_ret; by eapply HQ]. keys_leave.
  destruct (decrypt _ _) as [d|e]; [|apply wlp_ret; by eapply HQ]. destruct (checkDecryptedGx _ _ _); [apply wlp_ret; by eapply HQ|].
  destruct (extractGx d) as [gx err]. keys_leave. destruct err as [e|]; [apply wlp_ret; by eapply HQ|].
  unfold calcDHSharedSecret. do 3 keys_leave. apply wlp_bind, (wlp_processEncryptedSig _ _ _ c tag k); [done..|].
  intros res k' c' Hk' Hc'. apply wlp_ret. by eapply HQ.
Qed.

Lemma wlp_processSig msg c tag k c1 (Q : result unit -> Conversation -> Prop) :
  0 <= theirKeyID k < 2 ^ 32 -> at_keys c tag k c1 ->
  (forall r k' c', named k k' -> at_keys c tag k' c' -> Q r c') -> wlp (processSig msg) c1 Q.
Proof.
  intros Hk Hc HQ. pose proof (named_refl k Hk) as Hn. unfold processSig.
  destruct (sig_deserialize _) as [m|e]; [|apply wlp_ret; by eapply HQ]. keys_leave.
  apply wlp_bind, (wlp_processEncryptedSig _ _ _ c tag k); [done..|].
  intros res k' c' Hk' Hc'. apply wlp_ret. by eapply HQ.
Qed.

(** ** The keys of the session *)

Lemma setBigInt_Some x z : setBigInt x = Done z -> is_Some z.
Proof. unfold setBigInt. destruct x; [|done]. intros [= <-]. eauto. Qed.

Lemma wlp_storeTheirKey c tag k c1 (Q : unit -> Conversation -> Prop) : at_keys c tag k c1 ->
  (forall gy c', at_keys c tag (k <| theirCurrentDHPubKey := Some gy |>) c' -> Q tt c') -> wlp storeTheirKey c1 Q.
Proof.
  intros Hc HQ. unfold storeTheirKey. apply wlp_bind, (wlp_theAke _ _ _ _ _ Hc). intros a Ha Ek. apply wlp_bind, wlp_glift.
  unfold setTheirCurrentDHPubKey. intros k' E. destruct (setBigInt _) as [z|] eqn:Ez; [|done]. injection E as <-.
  apply setBigInt_Some in Ez as [gy ->]. apply (wlp_modAkeKeys _ c tag k); [done|]. intros c' Hc'. apply (HQ gy). by rewrite <- Ek.
Qed.

Lemma wlp_storeOurKeys c tag k c1 (Q : unit -> Conversation -> Prop) : at_keys c tag k c1 ->
  (forall x y c', at_keys c tag (k <| ourCurrentDHKeys := DhKeyPair (Some y) (Some x) |>) c' -> Q tt c') -> wlp storeOurKeys c1 Q.
Proof.
  intros Hc HQ. unfold storeOurKeys. apply wlp_bind, (wlp_theAke _ _ _ _ _ Hc). intros a Ha Ek. apply wlp_bind, wlp_glift.
  unfold setOurCurrentDHKeys. intros k' E. destruct (setBigInt (ake_secretExponent a)) as [x|] eqn:Ex; [|done].
  destruct (setBigInt (ake_ourPublicValue a)) as [y|] eqn:Ey; [|done]. injection E as <-.
  apply setBigInt_Some in Ex as [x' ->], Ey as [y' ->]. apply (wlp_modAkeKeys _ c tag k); [done|]. intros c' Hc'. apply (HQ x' y'). by rewrite <- Ek.
Qed.

Lemma keys_inv_first k gy : 0 <= theirKeyID k < 2 ^ 32 -> ourKeyID k = 1 -> is_full (ourCurrentDHKeys k) ->
  theirCurrentDHPubKey k = Some gy -> keys_inv k.
Proof. intros Ht Ho Hf Hy. unfold keys_inv. rewrite Ho, Hy. split_and!; try done; try lia. Qed.

Lemma akeHasFinished_keyed c tag k c1 : at_keys c tag k c1 -> keys_inv k ->
  wlp akeHasFinished c1 (fun err c' => forall out, keyed_post c (authStateNone, out, err) c').
Proof.
  intros Hc Hk. pose proof Hc as Hc1. unfold at_keys, keys_view in Hc. injection Hc as E1 E2 E3 E4 E5 E6.
  destruct (c_ake c1) as [av|] eqn:Ea; [|done]. injection E4 as E4. eapply wlp_mono; [exact (akeHasFinished_keys c1 av Ea)|].
  intros err c' (_ & Ea' & Ek' & _) out. split; [left; exists empty_keys; rewrite Ea'; split; [done|]; apply keyed_fresh; auto|].
  right. rewrite Ek', E4. destruct (generateNewDHKeyPair k (c_Rand c1)) as [[e k'] r'] eqn:E. by eapply keys_inv_generateNewDHKeyPair.
Qed.

(** ** The handlers *)

Lemma keyed_DHCommitNone msg c k : fit valid v c -> at_keys c (c_ourInstanceTag c) k c -> wlp (receiveDHCommitNone msg) c (keyed_post c).
Proof.
  intros [Hv _] Hc. unfold receiveDHCommitNone, tryA, dhKeyMessage. cbn zeta.
  apply wlp_bind, (wlp_wipeAke _ _ _ _ _ Hc). intros c1 H1. do 2 apply wlp_bind. apply (wlp_initAKE _ _ _ _ _ H1). intros c2 H2.
  assert (forall t s, s = authStateNone \/ tagged v t /\ (s = authStateAwaitingDHKey \/ s = authStateAwaitingRevealSig) ->
    exchange_keyed v t s empty_keys) as He by (intros; by apply keyed_fresh).
  keys_leave. destruct r as [y|e]; [|apply wlp_ret; eapply at_keys_post; eauto]. unfold setSecretExponent, serializeDHKey. do 2 keys_leave.
  do 2 apply wlp_ret. apply wlp_bind. eapply (wlp_header _ _ c); [done..|]. intros h tag c' Hc' Htag.
  destruct h as [h|e]; [|apply wlp_ret; eapply at_keys_post; eauto]. specialize (Htag eq_refl). keys_leave.
  destruct r1 as [[]|e]; apply wlp_ret; eapply at_keys_post; eauto.
Qed.

Lemma keyed_DHCommitAwaitingRevealSig msg c k : fit valid v c -> at_keys c (c_ourInstanceTag c) k c -> tagged v (c_ourInstanceTag c) ->
  wlp (receiveDHCommitAwaitingRevealSig msg) c (keyed_post c).
Proof.
  intros [Hv _] Hc Ht. unfold receiveDHCommitAwaitingRevealSig, tryA. cbn zeta.
  apply wlp_bind, (wlp_modAkeKeys _ _ _ _ _ _ Hc). intros c1 H1.
  assert (exchange_keyed v (c_ourInstanceTag c) authStateAwaitingRevealSig (wipeAndKeepRevealKeys k)) as He by (apply keyed_fresh; auto).
  do 2 keys_leave. destruct r0 as [[]|e]; [|apply wlp_ret; by eapply at_keys_post]. unfold serializeDHKey. keys_leave.
  apply wlp_bind. eapply (wlp_header_tagged _ _ c); [done..|]. intros h c' Hc'. apply wlp_ret. by eapply at_keys_post.
Qed.

Lemma keyed_DHCommitAwaitingDHKey msg c k : fit valid v c -> at_keys c (c_ourInstanceTag c) k c ->
  exchange_keyed v (c_ourInstanceTag c) authStateAwaitingDHKey k -> wlp (receiveDHCommitAwaitingDHKey msg) c (keyed_post c).
Proof.
  intros Hf Hc He. unfold receiveDHCommitAwaitingDHKey, tryA, theAke, theVersion. cbn zeta.
  destruct (ExtractData msg) as [[m2 d]|]; [|apply wlp_ret; by eapply at_keys_post].
  destruct (ExtractData m2) as [[m3 d3]|]; [|apply wlp_ret; by eapply at_keys_post].
  do 3 wlp_step. apply wlp_glift. intros a _. do 3 wlp_step. apply wlp_glift. intros w _. apply wlp_bind, wlp_glift. intros pub _.
  destruct (_ =? 1); [|by eapply keyed_DHCommitNone]. unfold serializeDHCommit. keys_leave.
  apply wlp_bind. eapply (wlp_header_tagged _ _ c); [apply Hf|done|apply He|]. intros h c' Hc'. apply wlp_ret. by eapply at_keys_post.
Qed.

Lemma keyed_DHKeyAwaitingDHKey msg c k : fit valid v c -> at_keys c (c_ourInstanceTag c) k c ->
  exchange_keyed v (c_ourInstanceTag c) authStateAwaitingDHKey k -> wlp (receiveDHKeyAwaitingDHKey msg) c (keyed_post c).
Proof.
  intros Hf Hc (Hr & Ht & Hk). unfold receiveDHKeyAwaitingDHKey, tryA. cbn zeta. keys_leave.
  destruct r as [b|e]; [|apply wlp_ret; by eapply at_keys_post].
  apply wlp_bind, (wlp_revealSigMessage _ _ _ _ _ Hc0). intros [m|e] c1 H1 Hm; [|apply wlp_ret; by eapply at_keys_unsigned].
  apply wlp_bind. eapply (wlp_header_tagged _ _ c); [apply Hf|done|done|]. intros h c2 H2.
  apply wlp_bind, (wlp_storeTheirKey _ _ _ _ _ H2). intros gy c3 H3. apply wlp_bind, (wlp_storeOurKeys _ _ _ _ _ H3). intros x y c4 H4.
  keys_leave. apply wlp_ret. eapply at_keys_post; [done|]. split; [done|]. cbn. by rewrite Hk.
Qed.

Lemma keyed_RevealSigAwaiting msg c k : fit valid v c -> at_keys c (c_ourInstanceTag c) k c ->
  exchange_keyed v (c_ourInstanceTag c) authStateAwaitingRevealSig k -> wlp (receiveRevealSigAwaiting msg) c (keyed_post c).
Proof.
  intros Hf Hc (Hr & Ht & Hk). unfold receiveRevealSigAwaiting, tryA. cbn zeta.
  apply wlp_bind, (wlp_processRevealSig _ _ _ _ _ _ Hr Hc). intros r k1 c1 (id & -> & Hid) H1.
  destruct r as [b|e]; [|apply wlp_ret; by eapply at_keys_post].
  apply wlp_bind, (wlp_sigMessage _ _ _ _ _ H1). intros [m|e] c2 H2 Hm; [|apply wlp_ret; by eapply at_keys_unsigned].
  apply wlp_bind. eapply (wlp_header_tagged _ _ c); [apply Hf|done|done|]. intros h c3 H3.
  apply wlp_bind, (wlp_storeTheirKey _ _ _ _ _ H3). intros gy c4 H4. apply wlp_bind, (wlp_storeOurKeys _ _ _ _ _ H4). intros x y c5 H5.
  keys_leave. apply wlp_bind. eapply wlp_mono; [eapply akeHasFinished_keyed; [done|]|intros err c' Hp; apply wlp_ret, Hp].
  eapply (keys_inv_first _ gy); cbn; [done|by rewrite Hk|split; eauto|done].
Qed.

Lemma keyed_SigAwaiting m msg c k : fit valid v c -> at_keys c (c_ourInstanceTag c) k c ->
  exchange_keyed v (c_ourInstanceTag c) (authStateAwaitingSig m) k -> is_full (ourCurrentDHKeys k) -> wlp (receiveSigAwaiting m msg) c (keyed_post c).
Proof.
  intros Hf Hc (Hr & Hk) Hfull. unfold receiveSigAwaiting, tryA. cbn zeta.
  apply wlp_bind, (wlp_processSig _ _ _ _ _ _ Hr Hc). intros r k1 c1 (id & -> & Hid) H1.
  destruct r as [b|e]; [|apply wlp_ret; by eapply at_keys_post].
  apply wlp_bind, (wlp_storeTheirKey _ _ _ _ _ H1). intros gy c2 H2.
  apply wlp_bind. eapply wlp_mono; [eapply akeHasFinished_keyed; [done|]|intros err c' Hp; apply wlp_ret, Hp].
  by eapply (keys_inv_first _ gy).
Qed.

Lemma handlers_keyed c a msg : fit valid v c -> c_ake c = Some a -> exchange_ok v (c_ssid c) (ake_state a) a ->
  exchange_keyed v (c_ourInstanceTag c) (ake_state a) (ake_keys a) ->
  wlp (receiveDHCommitMessage (ake_state a) msg) c (keyed_post c) /\ wlp (receiveDHKeyMessage (ake_state a) msg) c (keyed_post c) /\
  wlp (receiveRevealSigMessage (ake_state a) msg) c (keyed_post c) /\ wlp (receiveSigMessage (ake_state a) msg) c (keyed_post c).
Proof.
  intros Hf Ha Hok Hk. pose proof (at_keys_start c a Ha) as Hc.
  assert (wlp (mret (ake_state a, None, None)) c (keyed_post c)) as Hstay by (apply wlp_ret; by eapply at_keys_post).
  destruct (ake_state a) as [| | |m]; cbn [receiveDHCommitMessage receiveDHKeyMessage receiveRevealSigMessage receiveSigMessage];
    split_and!; try done; try (by eapply keyed_DHCommitNone).
  - by eapply keyed_DHCommitAwaitingDHKey.
  - by eapply keyed_DHKeyAwaitingDHKey.
  - eapply keyed_DHCommitAwaitingRevealSig; [done..|apply Hk].
  - by eapply keyed_RevealSigAwaiting.
  - unfold receiveDHKeyAwaitingSig, tryA. cbn zeta. keys_leave. destruct r; apply wlp_ret; by eapply at_keys_post.
  - eapply keyed_SigAwaiting; [done..|]. destruct Hok as (x & gy & _ & _ & _ & _ & _ & ->). split; eauto.
Qed.

End Keyed.

(** ** One message *)

Section Steps.
Context `{DHGroup} `{Crypto} (valid : dsa_PrivateKey -> Prop) `{!DsaLaws valid} `{!CryptoLaws}.
Variable v : otrVersion.

(** The version is chosen with a key that can sign, and the pending exchange has
    the values its state needs. *)
Definition coherent (c : Conversation) : Prop :=
  fit valid v c /\ forall a, c_ake c = Some a -> exchange_ok v (c_ssid c) (ake_state a) a.

(** The pending exchange has the key identifiers its state needs. *)
Definition keyed (c : Conversation) : Prop :=
  forall a, c_ake c = Some a -> exchange_keyed v (c_ourInstanceTag c) (ake_state a) (ake_keys a).

(** What a key-exchange message relies on, and keeps. *)
Definition ake_inv (c : Conversation) : Prop := coherent c /\ keyed c /\ sendable v c.

(** What a message of type [t] may do to the state of the exchange and to the
    session; what it retransmits is counted and accounted for in the session. *)
Definition moved (c : Conversation) (t : Z) (c' : Conversation) : Prop :=
  exists fin : bool, ake_transition (akeTag c) t (akeTag c') fin /\
    (if fin then c_msgState c' = encrypted /\ authenticated v c'
     else c_msgState c' = c_msgState c /\ dhKeys (c_keys c') = dhKeys (c_keys c)).

(** ** What retransmission leaves of it *)

Ltac sent_inv := unfold sent, sent_frame; intros [[= E1 E2 E3 E4 E5 E6 E7 E8 E9 E10 E11 E12 E13 E14 E15 E16 E17] Et].

Lemma coherent_sent c c' : sent c c' -> coherent c -> coherent c'.
Proof. sent_inv. intros [Hf Ha]. split; [by apply (fit_pair valid v c)|]. rewrite E6, E5. exact Ha. Qed.

Lemma keyed_sent c c' : sent c c' -> keyed c -> keyed c'.
Proof.
  sent_inv. unfold keyed. rewrite E6. intros Hk a Ha. destruct (Hk a Ha) as [Hr Hs]. split; [done|].
  destruct (ake_state a); try done; destruct Hs as [Ht Hs]; (split; [|done]); intros Ev; rewrite Et; auto.
Qed.

Lemma moved_sent c t c1 c2 : sent c1 c2 -> moved c t c1 -> moved c t c2.
Proof.
  sent_inv. intros (fin & Ht & Hf). exists fin. unfold akeTag in *. rewrite E6, E3. split; [done|]. destruct fin.
  - destruct Hf as [He (k & gy & x & keys & Hs)]. split; [done|]. exists k, gy, x, keys. by rewrite E4, E5, E9, E10, E11.
  - destruct Hf as [Hm Hk]. split; [done|]. rewrite <- Hk. unfold dhKeys. congruence.
Qed.

(** ** The parts of [processAKE] *)

(** [processAKE] around the handler: what holds after the handler, is kept by
    the retransmission and does not depend on the time holds at the end. *)
Lemma processAKE_parts E t msg c (P : option error -> Conversation -> Prop) c0 a :
  ensureAKE c = Done (tt, c0) -> c_ake c0 = Some a -> (forall err, P err c0) ->
  (forall h, handlerOf t msg h -> wpx E (runAuth h) c0 (fun r c' => is_Some (c_ake c') /\ P (snd r) c')) ->
  (forall err c1, P err c1 -> wpx E maybeRetransmit c1 (fun _ c' => sent c1 c')) ->
  (forall err c1 c2, sent c1 c2 -> P err c1 -> P err c2) ->
  (forall err c1 a1 now, c_ake c1 = Some a1 -> P err c1 -> P err (c1 <| c_ake := Some (a1 <| ake_lastStateChange := now |>) |>)) ->
  wpx E (processAKE t msg) c (fun r c' => P (snd r) c').
Proof.
  intros He Ha HP Hh Hret Hsent Htime. unfold processAKE. eapply wpx_done; [exact He|].
  apply wpx_bind, (wpx_mono _ _ _ (fun r c' => is_Some (c_ake c') /\ P (snd (fst r)) c')).
  - repeat match goal with |- wpx _ (if ?u =? ?w then _ else _) _ _ => destruct (Z.eqb_spec u w) as [->|] end.
    1,2: apply wpx_bind; (eapply wpx_mono; [apply Hh; unfold handlerOf; tauto|]); intros se c1 J1; by apply wpx_ret.
    1,2: apply wpx_bind; (eapply wpx_mono; [apply Hh; unfold handlerOf; tauto|]); intros se c1 [Ha1 J1]; apply wpx_bind;
      (eapply wpx_mono; [by eapply Hret|]); intros x c2 J2; apply wpx_ret; (split; [by rewrite (sent_ake _ _ J2)|exact (Hsent _ _ _ J2 J1)]).
    apply wpx_ret. split; [by rewrite Ha|done].
  - intros [[single err] extra] c1 [[a1 Ha1] J1]. eapply wpx_done; [done|].
    eapply wpx_done; [exact (modAke_Some (fun a => a <| ake_lastStateChange := env_now c1 |>) c1 a1 Ha1)|]. apply wpx_ret. by apply Htime.
Qed.

Lemma ensureAKE_inv c : coherent c -> exists c0 a, ensureAKE c = Done (tt, c0) /\ c_ake c0 = Some a /\ coherent c0 /\
  (keyed c -> keyed c0) /\ (sendable v c -> sendable v c0) /\ (forall t c', moved c0 t c' -> moved c t c') /\ forall t, moved c t c0.
Proof.
  intros [Hf Ha]. unfold ensureAKE, initAKE. step_state. destruct (c_ake c) as [a|] eqn:E.
  - exists c, a. split_and!; try done; [by split; [|rewrite E]|]. intros t. exists false. split; [constructor|done].
  - eexists _, initial_ake. split; [reflexivity|]. split; [done|]. split; [by split; [|intros a [= <-]]|].
    split; [intros _ a [= <-]; split; [cbn; lia|done]|]. split; [done|]. unfold moved, akeTag. rewrite E. split; [done|].
    intros t. exists false. split; [constructor|done].
Qed.

Lemma runAuth_moved h t c a : c_ake c = Some a -> wp (h (ake_state a)) c (handler_post valid v c (ake_state a) t) ->
  wp (runAuth h) c (fun _ c' => is_Some (c_ake c') /\ coherent c' /\ moved c t c').
Proof.
  intros Ha Hh. unfold runAuth. wp_run (theAke_Some c a Ha). wp_spec Hh.
  intros [[s' out] err] c' (Hf & Hr & a' & fin & Ha' & He & Ht & Hfin).
  wp_run (modAke_Some (fun a => a <| ake_state := s' |>) c' a' Ha'). apply wp_ret. split; [done|].
  split; [split; [done|]; intros ? [= <-]; by destruct s'|]. exists fin. unfold akeTag at 1. rewrite Ha. split; [done|].
  destruct fin; [done|]. destruct Hfin as [Hm Hk]. split; [done|]. cbn. by rewrite Hk.
Qed.

Lemma runAuth_keyed h c a : c_ake c = Some a -> sendable v c -> fit valid v c -> wp (h (ake_state a)) c (fun _ c' => fit valid v c') ->
  wlp (h (ake_state a)) c (keyed_post v c) ->
  wlp (runAuth h) c (fun r c' => (keyed c' \/ unsigned (snd r)) /\ sendable v c').
Proof.
  intros Ha Hs Hf Hw Hk. unfold runAuth. apply wlp_bind. unfold wlp at 1. rewrite (theAke_Some c a Ha). apply wlp_bind.
  apply wlp_intro. intros [[s' out] err] c' E. destruct (wlp_use _ _ _ _ _ Hk E) as [Hx Hses].
  assert (fit valid v c') as [Hv' _] by (unfold wp in Hw; by rewrite E in Hw).
  unfold modAke, theAke. do 4 wlp_step. apply wlp_glift. intros a' Ea'. wlp_step. apply wlp_ret.
  assert (c_ake c' = Some a') as Ha' by (destruct (c_ake c'); [by injection Ea' as ->|done]). split.
  - destruct Hx as [(k & Ek & Hx)|Hu]; [left|by right]. rewrite Ha' in Ek. injection Ek as <-. by intros ? [= <-].
  - intros He. cbn in He |- *. split; [done|]. destruct Hses as [[-> Em]|Hi]; [|done]. apply Hs. congruence.
Qed.

(** The handler of a message type, as [AkeSafety] and the keys have it. *)
Lemma handlers_all t msg h c a : handlerOf t msg h -> fit valid v c -> c_ake c = Some a -> exchange_ok v (c_ssid c) (ake_state a) a ->
  wp (h (ake_state a)) c (handler_post valid v c (ake_state a) t) /\
  (exchange_keyed v (c_ourInstanceTag c) (ake_state a) (ake_keys a) -> wlp (h (ake_state a)) c (keyed_post v c)).
Proof.
  intros Hh Hf Ha Hok. pose proof (handlers_spec valid v c a msg Hf Ha Hok) as (S1 & S2 & S3 & S4).
  split; [|intros Hk; pose proof (handlers_keyed valid v c a msg Hf Ha Hok Hk) as (K1 & K2 & K3 & K4)];
    destruct Hh as [[-> ->]|[[-> ->]|[[-> ->]|[-> ->]]]]; done.
Qed.

(** ** A step of the exchange *)

(** Whatever was signed or not, a message that is processed leaves the exchange
    coherent and moves it along the protocol. *)
Lemma processAKE_moved t msg c : coherent c -> wlp (processAKE t msg) c (fun _ c' => coherent c' /\ moved c t c').
Proof.
  intros Hc. destruct (ensureAKE_inv c Hc) as (c0 & a & He & Ha & Hc0 & _ & _ & Hm & Hm0).
  enough (wpx (fun _ => True) (processAKE t msg) c (fun _ c' => coherent c' /\ moved c t c')) as HW
    by (unfold wpx in HW; unfold wlp; by destruct (processAKE t msg c) as [[? ?]|]).
  eapply (processAKE_parts _ t msg c (fun _ c' => coherent c' /\ moved c t c') c0 a); [done|done|done| | | |].
  - intros h Hh. apply wpx_of_wp. destruct (handlers_all t msg h c0 a Hh) as [Hs _]; [apply Hc0|done|by apply Hc0|].
    eapply wp_mono; [by eapply runAuth_moved|]. intros r c' (Hs' & Hc' & Hm'). auto.
  - intros err c1 _. pose proof (sent_maybeRetransmit c1) as HS. unfold wlp in HS. unfold wpx. by destruct (maybeRetransmit c1) as [[? ?]|].
  - intros err c1 c2 Hs [J1 J2]. split; [by eapply coherent_sent|by eapply moved_sent].
  - intros err c1 a1 now Ha1 [[Hf1 Hx1] (fin & Ht & Hf)]. split.
    + split; [done|]. intros ? [= <-]. specialize (Hx1 a1 Ha1). cbn. by destruct (ake_state a1).
    + exists fin. unfold akeTag in *. rewrite Ha1 in Ht. by destruct fin.
Qed.

(** It returns, with everything the next message relies on unless a signature
    could not be made. *)
Lemma processAKE_total t msg c : ake_inv c -> wp (processAKE t msg) c (fun r c' => sendable v c' /\ (keyed c' \/ unsigned (snd r))).
Proof.
  intros (Hc & Hk & Hs). destruct (ensureAKE_inv c Hc) as (c0 & a & He & Ha & Hc0 & Hk0 & Hs0 & _ & _). specialize (Hk0 Hk). specialize (Hs0 Hs).
  enough (wpx (fun _ => False) (processAKE t msg) c (fun r c' => sendable v c' /\ (keyed c' \/ unsigned (snd r)))) as HW
    by (unfold wpx in HW; unfold wp; by destruct (processAKE t msg c) as [[? ?]|]).
  eapply (processAKE_parts _ t msg c (fun err c' => sendable v c' /\ (keyed c' \/ unsigned err)) c0 a); [done|done|by auto| | | |].
  - intros h Hh. apply wpx_of_wp. pose proof Hc0 as [Hf0 Hx0]. destruct (handlers_all t msg h c0 a Hh Hf0 Ha (Hx0 a Ha)) as [Hp Hkp].
    eapply wp_mono; [apply wp_and; [by eapply runAuth_moved|eapply (runAuth_keyed h c0 a Ha Hs0 Hf0); [|by apply Hkp, Hk0]]|].
    + eapply wp_mono; [exact Hp|]. by intros [[? ?] ?] c' (Hf' & _).
    + intros r c' [(Hs' & _ & _) [Hx Hsd]]. auto.
  - intros err c1 [J1 _]. apply wpx_of_wp. by apply (maybeRetransmit_total v).
  - intros err c1 c2 J12 [J1 J2]. split; [by eapply sendable_sent|]. destruct J2 as [J2|]; [left; by eapply keyed_sent|by right].
  - intros err c1 a1 now Ha1 [J1 J2]. split; [done|]. destruct J2 as [J2|]; [left|by right]. intros ? [= <-]. exact (J2 a1 Ha1).
Qed.

(** ** Sequences of messages *)

(** The messages [ms], in the order the network delivers them, and the errors
    they are answered with. *)
Fixpoint ake_feed (ms : list (Z * list byte)) : M (list (option error)) :=
  match ms with
  | [] => mret []
  | (t, msg) :: ms' => r ← processAKE t msg; errs ← ake_feed ms'; mret (snd r :: errs)
  end.

(** The session keys of [c'] are those of [c], or they were installed by a
    message after which the conversation was authenticated. *)
Definition session_origin (c : Conversation) (ms : list (Z * list byte)) (c' : Conversation) : Prop :=
  (c_msgState c' = c_msgState c /\ dhKeys (c_keys c') = dhKeys (c_keys c)) \/
  (c_msgState c' = encrypted /\ exists pre post errs c1, ms = pre ++ post /\ ake_feed pre c = Done (errs, c1) /\
     authenticated v c1 /\ dhKeys (c_keys c') = dhKeys (c_keys c1)).

Lemma session_origin_cons c t msg r c1 ms c' : processAKE t msg c = Done (r, c1) -> moved c t c1 ->
  session_origin c1 ms c' -> session_origin c ((t, msg) :: ms) c'.
Proof.
  intros Hp (fin & _ & Hfin) [[Hm Hk]|(Hm & pre & post & errs & c2 & -> & Hf & Hauth & Hk)].
  - destruct fin; destruct Hfin as [Hm1 Hk1]; [right|left; split; congruence].
    split; [congruence|]. eexists [(t, msg)], ms, _, c1. split; [done|]. split; [|done]. cbn [ake_feed]. by step_done Hp.
  - right. split; [done|]. eexists ((t, msg) :: pre), post, _, c2. split; [done|]. split; [|done]. cbn [ake_feed]. step_done Hp. by step_done Hf.
Qed.

Lemma ake_feed_origin ms : forall c, coherent c -> wlp (ake_feed ms) c (fun _ c' => session_origin c ms c').
Proof.
  induction ms as [|[t msg] ms IH]; intros c Hc; cbn [ake_feed]; [apply wlp_ret; by left|].
  apply wlp_bind, wlp_intro. intros r c1 Hp. destruct (wlp_use _ _ _ _ _ (processAKE_moved t msg c Hc) Hp) as [Hc1 Hm].
  apply wlp_bind. eapply wlp_mono; [by apply IH|]. intros errs c' Ho. apply wlp_ret. by eapply session_origin_cons.
Qed.

(** A signature was not made on the way. *)
Definition signing_failed (ms : list (Z * list byte)) (c : Conversation) : Prop :=
  exists pre post errs c1, ms = pre ++ post /\ ake_feed pre c = Done (errs, c1) /\ Exists unsigned errs.

Lemma signing_failed_cons c t msg r c1 ms : processAKE t msg c = Done (r, c1) -> unsigned (snd r) \/ signing_failed ms c1 ->
  signing_failed ((t, msg) :: ms) c.
Proof.
  intros Hp [Hu|(pre & post & errs & c2 & -> & Hf & Hu)].
  - eexists [(t, msg)], ms, _, c1. split; [done|]. cbn [ake_feed]. step_done Hp. split; [reflexivity|]. by left.
  - eexists ((t, msg) :: pre), post, _, c2. split; [done|]. cbn [ake_feed]. step_done Hp. step_done Hf. split; [reflexivity|]. by right.
Qed.

Lemma ake_feed_total ms : forall c, ake_inv c -> signing_failed ms c \/ wp (ake_feed ms) c (fun _ c' => ake_inv c').
Proof.
  induction ms as [|[t msg] ms IH]; intros c Hi; [right; by apply wp_ret|]. pose proof Hi as (Hc & _ & _).
  destruct (wp_inv _ _ _ (processAKE_total t msg c Hi)) as (r & c1 & Hp & Hs & Hk).
  destruct (wlp_use _ _ _ _ _ (processAKE_moved t msg c Hc) Hp) as [Hc1 _].
  destruct Hk as [Hk|Hu]; [|left; eapply signing_failed_cons; eauto].
  destruct (IH c1) as [Hf|Hw]; [by split|left; eapply signing_failed_cons; eauto|right]. cbn [ake_feed].
  eapply wp_bind_done; [exact Hp|]. apply wp_bind. eapply wp_mono; [exact Hw|]. intros errs c' Hi'. by apply wp_ret.
Qed.

(** ** The properties *)

(** C5: one key-exchange message, whatever its type and bytes, in a conversation
    with its version and a key that can sign, whose pending exchange has what its
    state needs and whose session, if it has one, has the keys its identifiers
    name.  [processAKE] returns, whatever it has to retransmit; everything this
    relies on holds again unless it returns the error of a signature that could
    not be made; the state moves along an edge of the protocol.  On the two edges
    that end the exchange the conversation becomes encrypted with an authenticated
    peer; on the others the state of the session and its Diffie-Hellman keys are
    left alone (retransmitting in it advances counters and MAC keys only). *)
Theorem processAKE_follows_protocol c t msg : ake_inv c ->
  exists out err c', processAKE t msg c = Done ((out, err), c') /\ (ake_inv c' \/ unsigned err) /\
    exists fin : bool, ake_transition (akeTag c) t (akeTag c') fin /\
      (if fin then c_msgState c' = encrypted /\ authenticated v c'
       else c_msgState c' = c_msgState c /\ dhKeys (c_keys c') = dhKeys (c_keys c)).
Proof.
  intros Hi. pose proof Hi as (Hc & _ & _). destruct (wp_inv _ _ _ (processAKE_total t msg c Hi)) as ([out err] & c' & Hp & Hs & Hk).
  destruct (wlp_use _ _ _ _ _ (processAKE_moved t msg c Hc) Hp) as [Hc' Hm]. exists out, err, c'. split; [done|]. split; [|done].
  destruct Hk as [Hk|Hu]; [left; by split|by right].
Qed.

(** C4: every sequence of key-exchange messages an attacker may deliver to a
    conversation with its version and a key that can sign, whose pending exchange
    has what its state needs and whose session, if it has one, has the keys its
    identifiers name: it is processed to its end, retransmissions included, unless
    one of the messages was answered with the error of a signature that could not
    be made.  If it is, the session the conversation ends up with has the
    state and the Diffie-Hellman keys it had before, or they were installed by a
    message at which the key in [c_theirKey] had signed the peer's value together
    with ours, that value is in the group, and the session id comes from the two. *)
Theorem session_keys_authenticated ms c : ake_inv c ->
  (signing_failed ms c \/ exists errs c', ake_feed ms c = Done (errs, c') /\ ake_inv c') /\
  forall errs c', ake_feed ms c = Done (errs, c') -> session_origin c ms c'.
Proof.
  intros Hi. split.
  - destruct (ake_feed_total ms c Hi) as [Hf|Hw]; [by left|right]. destruct (wp_inv _ _ _ Hw) as (errs & c' & Hr & Hi'). eauto.
  - intros errs c' E. pose proof Hi as (Hc & _ & _). exact (wlp_use _ _ _ _ _ (ake_feed_origin ms c Hc) E).
Qed.

End Steps.

(** ** Witnesses *)

(** The bodies of the messages the responder gets from the initiator; the
    header of a message has eleven bytes in version 3. *)
Definition delivered : list (Z * list byte) :=
  match @sendDHCommit mersenne_group toy_crypto initiator with
  | Done (Ok m1, i1) =>
      match @processAKE mersenne_group toy_crypto msgTypeDHCommit (drop 11 m1) responder with
      | Done (([m2], None), _) =>
          match @processAKE mersenne_group toy_crypto msgTypeDHKey (drop 11 m2) i1 with
          | Done (([m3], None), _) => [(msgTypeDHCommit, drop 11 m1); (msgTypeRevealSig, drop 11 m3)]
          | _ => []
          end
      | _ => []
      end
  | _ => []
  end.

(** The responder with a text that waits for the session. *)
Definition responder_waiting : Conversation :=
  responder <| c_lastSent := env_now responder |> <| c_resend := ResendContext retransmitExact None false [MessageToResend (bs "hello") []] |>.

Lemma responder_waiting_inv : @ake_inv mersenne_group toy_crypto (fun _ => True) otrV3 responder_waiting.
Proof.
  split; [|split; [|intros He; vm_compute in He; discriminate He]]; [|intros a Ha; vm_compute in Ha; discriminate Ha].
  split; [|intros a Ha; vm_compute in Ha; discriminate Ha]. split; [reflexivity|]. eexists. split; [reflexivity|exact I].
Qed.

Lemma processAKE_follows_protocol_witness : exists out err c',
  @processAKE mersenne_group toy_crypto msgTypeDHCommit (bs "not a commitment") responder_waiting = Done ((out, err), c') /\ c_msgState c' <> encrypted.
Proof.
  destruct (@processAKE_follows_protocol mersenne_group toy_crypto (fun _ => True) toy_dsa_laws toy_crypto_laws otrV3 responder_waiting
    msgTypeDHCommit (bs "not a commitment")) as (out & err & c' & Hp & _ & fin & Ht & Hf).
  - exact responder_waiting_inv.
  - exists out, err, c'. split; [exact Hp|]. destruct fin; [inversion Ht|]. destruct Hf as [-> _]. vm_compute. congruence.
Defined.

(** The exchange ends and the waiting text is sent in the new session. *)
Lemma session_keys_authenticated_witness : exists errs c',
  @ake_feed mersenne_group toy_crypto delivered responder_waiting = Done (errs, c') /\ c_msgState c' = encrypted /\
  resend_messages (c_resend c') = [] /\ exists c1, @authenticated mersenne_group toy_crypto otrV3 c1 /\ dhKeys (c_keys c') = dhKeys (c_keys c1).
Proof.
  destruct (@session_keys_authenticated mersenne_group toy_crypto (fun _ => True) toy_dsa_laws toy_crypto_laws otrV3 delivered responder_waiting)
    as [_ HO]; [exact responder_waiting_inv|].
  assert (match @ake_feed mersenne_group toy_crypto delivered responder_waiting with
          | Done (_, c) => Some (c_msgState c, resend_messages (c_resend c)) | Panicked _ => None end = Some (encrypted, [])) as E
    by (vm_compute; reflexivity).
  destruct (@ake_feed mersenne_group toy_crypto delivered responder_waiting) as [[errs c']|p]; [|discriminate E].
  specialize (HO errs c' eq_refl). exists errs, c'. injection E as Henc Hres.
  split; [reflexivity|]. split; [exact Henc|]. split; [exact Hres|]. destruct HO as [[Hm _]|(_ & pre & post & errs1 & c1 & _ & _ & Ha & Hk)].
  - rewrite Henc in Hm. vm_compute in Hm. discriminate Hm.
  - exists c1. split; [exact Ha|exact Hk].
Defined.
