(* ===== verification/Robust.v ===== *)
(** * Every call on a conversation: what always holds, and what can panic

    The other files show what the calls do when two honest peers talk, or what
    one component does against arbitrary input.  This file puts the components
    together: [conv_inv] is an invariant of the whole conversation, and every
    call of the interface, whatever the network delivers and whatever the user
    asks for or sets, returns with a conversation that satisfies it, reports that
    it could not sign, or panics for one of the causes [call_panic] names.  The
    conversation speaks version 3: what is excluded is allowing version 2, and
    setting keys that cannot sign.  Memory is unlimited.

    [wpx] is [wp] with named panics; what sending and the key exchange do comes
    from [Frames] and [AkeKeys]. *)

From S2P Require Import Prelude GoLib Gotrax Policy Crypto KeyManagement Messages Smp Keys Conversation Fragmentation SmpMachine DataMessage Ake Frames Receive Session AkeExchange AkeSafety AkeKeys.

(** ** The invariant *)

Section Invariant.
Context `{DHGroup} `{Crypto} {valid : dsa_PrivateKey -> Prop}.

(** What every call relies on: the user has keys that can sign; a version is
    chosen together with such a key, and before that there is neither an exchange
    nor a session; the pending exchange holds what its state needs; in an
    encrypted conversation every key an identifier names is there; the SMP state
    has the values its handler reads. *)
Record conv_inv (c : Conversation) : Prop := {
  ci_policies : has (c_Policies c) allowV2 = false;
  ci_keys : c_ourKeys c <> [] /\ Forall (fun k => valid (sk_PrivateKey k)) (c_ourKeys c);
  ci_version : (c_version c = None /\ c_ake c = None /\ c_msgState c <> encrypted) \/ fit valid otrV3 c;
  ci_ake : forall a, c_ake c = Some a ->
    exchange_ok otrV3 (c_ssid c) (ake_state a) a /\ exchange_keyed otrV3 (c_ourInstanceTag c) (ake_state a) (ake_keys a);
  ci_session : c_msgState c = encrypted -> keys_inv (c_keys c);
  ci_smp : smp_ok (c_smp c) }.

(** The fields the invariant reads. *)
Definition view (c : Conversation) :=
  (c_Policies c, c_ourKeys c, c_version c, c_ourCurrentKey c, c_ake c, c_msgState c, c_ssid c, c_ourInstanceTag c, c_keys c, c_smp c).

Lemma conv_inv_view c c' : view c' = view c -> conv_inv c -> conv_inv c'.
Proof.
  unfold view. intros [= E1 E2 E5 E6 E7 E8 E9 E10 E11 E12] [Hp Hk Hv Ha Hs Hm].
  constructor; rewrite ?E1, ?E2, ?E7, ?E8, ?E9, ?E10, ?E11, ?E12; try done.
  destruct Hv as [Hv|Hv]; [left; by rewrite E5|right]. eapply fit_pair; [..|exact Hv]; done.
Qed.

Lemma conv_inv_fit c : conv_inv c -> c_msgState c = encrypted -> fit valid otrV3 c.
Proof. intros Hi He. destruct (ci_version c Hi) as [(_ & _ & Hn)|Hf]; [by destruct Hn|done]. Qed.

Lemma conv_inv_committed c : conv_inv c -> is_Some (c_version c) -> fit valid otrV3 c.
Proof. intros Hi [v Hv]. destruct (ci_version c Hi) as [(Hn & _ & _)|Hf]; [congruence|done]. Qed.

(** ** Updates that preserve it *)

Lemma conv_inv_keys c k : conv_inv c -> (c_msgState c = encrypted -> keys_inv k) -> conv_inv (c <| c_keys := k |>).
Proof. intros [Hp Hk Hv Ha Hs Hm] Hi. by constructor. Qed.

Lemma conv_inv_smp c x : conv_inv c -> smp_ok x -> conv_inv (c <| c_smp := x |>).
Proof. intros [Hp Hk Hv Ha Hs Hm] Hi. by constructor. Qed.

Lemma conv_inv_tag c t r : conv_inv c -> (c_ourInstanceTag c <> 0 -> t <> 0) -> conv_inv (c <| c_Rand := r |> <| c_ourInstanceTag := t |>).
Proof.
  intros [Hp Hk Hv Ha Hs Hm] Ht. constructor; try done. intros a Ea. destruct (Ha a Ea) as [He [Hr Hx]]. split; [done|].
  split; [done|]. destruct (ake_state a); try done; destruct Hx as [Hg Hx]; (split; [|done]); intros Ev; auto.
Qed.

(** The conversation after its session has ended. *)
Lemma conv_inv_over c s k x : conv_inv c -> s <> encrypted -> smp_ok x ->
  conv_inv (c <| c_msgState := s |> <| c_ake := None |> <| c_keys := k |> <| c_smp := x |>).
Proof. intros [Hp Hk Hv Ha Hs Hm] Hn Hx. constructor; try done. destruct Hv as [(Hv & _ & _)|Hv]; [by left|by right]. Qed.

(** ** Versions and headers *)

Lemma keyForVersion_first ks : ks <> [] -> Forall (fun k => valid (sk_PrivateKey k)) ks ->
  exists k, keyForVersion ks 3 = Some k /\ valid (sk_PrivateKey k).
Proof. destruct ks as [|k ks]; [done|]. intros _ [Hk _]%Forall_cons. by exists k. Qed.

Lemma commitToVersionFrom_inv n c : conv_inv c ->
  wp (commitToVersionFrom n) c (fun r c' => conv_inv c' /\ (r = Ok tt -> fit valid otrV3 c')).
Proof.
  intros Hi. unfold commitToVersionFrom. do 2 wp_step. destruct (c_version c) as [v|] eqn:Ev.
  { apply wp_ret. split; [done|]. intros _. apply conv_inv_committed; [done|]. rewrite Ev. eauto. }
  rewrite (ci_policies c Hi). cbn [andb]. destruct (has _ _ && _); [|by apply wp_ret].
  do 2 wp_step. unfold setKeyMatchingVersion. do 2 wp_step. wp_step. apply (wp_theVersion _ otrV3); [done|]. cbn [protocolVersion otrV3_protocolVersion].
  rec_simpl. destruct (ci_keys c Hi) as [Hne Hall]. destruct (keyForVersion_first _ Hne Hall) as (k & -> & Hk).
  do 2 wp_step. apply wp_ret. destruct Hi as [Hp Hks Hv Ha Hs Hm]. destruct Hv as [(_ & Hna & Hnm)|[Hv _]]; [|congruence].
  assert (fit valid otrV3 (c <| c_version := Some otrV3 |> <| c_ourCurrentKey := Some k |>)) as Hf by (split; [done|by exists k]).
  split; [|done]. constructor; try done. by right.
Qed.

(** ** Actions that do not concern the invariant *)

Definition quiet {A} (m : M A) : Prop := forall c, wp m c (fun _ c' => view c' = view c).

Lemma quiet_ret {A} (a : A) : quiet (mret a).
Proof. by intros c. Qed.

Lemma quiet_bind {A B} (m : M A) (k : A -> M B) : quiet m -> (forall a, quiet (k a)) -> quiet (m ≫= k).
Proof.
  intros Hm Hk c. apply wp_bind. eapply wp_mono; [apply Hm|]. intros a c1 E. eapply wp_mono; [apply Hk|].
  intros b c2 E2. by rewrite E2.
Qed.

Lemma quiet_logEvent h e : quiet (logEvent h e).
Proof. intros c. unfold logEvent. apply wp_gmod. by destruct (h c). Qed.

Lemma quiet_signal b e : quiet (signalSecurityEventIf b e).
Proof. unfold signalSecurityEventIf. destruct b; [apply quiet_logEvent|apply quiet_ret]. Qed.

Lemma quiet_potentialError e : quiet (generatePotentialErrorMessage e).
Proof. intros c. unfold generatePotentialErrorMessage, injectMessage. do 2 wp_step. by destruct (c_errorMessageHandler c). Qed.

Lemma quiet_malformed : quiet malformedMessage.
Proof. apply quiet_bind; [apply quiet_logEvent|intros _; apply quiet_potentialError]. Qed.

Lemma quiet_modResend f : quiet (modResend f).
Proof. by intros c. Qed.

Lemma quiet_updateLastSent : quiet updateLastSent.
Proof. by intros c. Qed.

Lemma quiet_resentEvents ev msgs : quiet (resentEvents ev msgs).
Proof. induction msgs as [|m msgs IH]; [apply quiet_ret|]. apply quiet_bind; [apply quiet_logEvent|done]. Qed.

Lemma quiet_withInjects vms : quiet (withInjects vms).
Proof. by intros c. Qed.

(** ** Sending data messages *)

(** What sending leaves alone. *)
Definition session (c : Conversation) := (c_version c, c_ourCurrentKey c, c_msgState c, c_ake c, c_smp c, c_ssid c).

Definition steady (c c' : Conversation) : Prop := conv_inv c' /\ session c' = session c.

Lemma steady_trans c1 c2 c3 : steady c1 c2 -> steady c2 c3 -> steady c1 c3.
Proof. intros [_ E1] [Hi E2]. split; [done|]. by rewrite E2. Qed.

Lemma steady_view c c' : conv_inv c -> view c' = view c -> steady c c'.
Proof. intros Hi E. split; [by eapply conv_inv_view|]. injection E as E1 E2 E5 E6 E7 E8 E9 E10 E11 E12. unfold session. congruence. Qed.

Lemma steady_fit c c' : steady c c' -> fit valid otrV3 c -> fit valid otrV3 c'.
Proof. intros [_ [= E1 E2 _ _ _ _]]. by apply fit_pair. Qed.

Lemma steady_encrypted c c' : steady c c' -> c_msgState c' = c_msgState c.
Proof. by intros [_ [= _ _ E _ _ _]]. Qed.

Lemma conv_inv_sendable c : conv_inv c -> sendable otrV3 c.
Proof. intros Hi He. split; [by apply conv_inv_fit|by apply ci_session]. Qed.

Lemma steady_sent c c' : conv_inv c -> sent c c' -> steady c c'.
Proof.
  intros Hi Hs. pose proof (sendable_sent otrV3 _ _ Hs (conv_inv_sendable c Hi)) as Hk. destruct Hs as [E Et]. unfold sent_frame in E.
  injection E as E1 E2 E3 _ E5 E6 _ _ _ _ _ _ F1 F2 _ _ F5. split; [|unfold session; congruence].
  destruct Hi as [Hp Hks Hv Ha _ Hm]. constructor; rewrite ?F1, ?F2, ?F5, ?E6, ?E5, ?E3; try done.
  - destruct Hv as [Hv|Hv]; [left; by rewrite E1|right]. by apply (fit_pair valid otrV3 c).
  - intros a Hax. destruct (Ha a Hax) as [He [Hr Hx]]. split; [done|]. split; [done|].
    destruct (ake_state a); try done; destruct Hx as [Hg Hx]; (split; [|done]); intros Ev; rewrite Et; auto.
  - intros He. apply Hk. congruence.
Qed.

(** A quiet action after a steady one. *)
Lemma wp_quiet {A} (m : M A) c c1 P : quiet m -> steady c c1 -> (forall a c', steady c c' -> P a c') -> wp m c1 P.
Proof.
  intros Hq Hs HP. eapply wp_mono; [apply Hq|]. intros a c' E. apply HP. eapply steady_trans; [exact Hs|].
  apply steady_view; [apply Hs|done].
Qed.

Lemma wrapMessageHeader_inv t m c : conv_inv c -> fit valid otrV3 c ->
  wp (wrapMessageHeader t m) c (fun r c' => steady c c' /\ (is_ok r = true -> c_ourInstanceTag c' <> 0)).
Proof.
  intros Hi [Hv _]. eapply wp_mono; [apply wp_and; [by apply (wrapMessageHeader_total otrV3)|by apply (header_keys otrV3)]|].
  intros r c' [Hs [(rnd & tag & -> & Ht) _]]. split; [by apply steady_sent|]. intros Hr. by apply Ht.
Qed.

Lemma sessionKeys_inv our their v c : conv_inv c -> c_msgState c = encrypted -> wp (conv_sessionKeys our their v) c (fun _ c' => steady c c').
Proof.
  intros Hi He. eapply wp_mono; [by apply sessionKeys_total, ci_session|]. intros r c' [Hs _]. by apply steady_sent.
Qed.

(** Changing what the invariant of the keys does not read. *)
Lemma steady_keys c k : conv_inv c -> dhKeys k = dhKeys (c_keys c) -> steady c (c <| c_keys := k |>).
Proof. intros Hi Hk. split; [|done]. apply conv_inv_keys; [done|]. intros He. eapply keys_inv_dh; [exact Hk|]. by apply ci_session. Qed.

Lemma genDataMsg_inv msg flag tlvs c : conv_inv c ->
  wp (genDataMsgWithFlag msg flag tlvs) c (fun r c' => steady c c' /\ (is_ok r = true -> c_msgState c = encrypted)).
Proof.
  intros Hi. eapply wp_mono; [by apply (genDataMsg_total otrV3), conv_inv_sendable|]. intros r c' [Hs He]. split; [by apply steady_sent|done].
Qed.

Lemma maybeHeartbeat_inv o c : conv_inv c -> wp (maybeHeartbeat o) c (fun _ c' => steady c c').
Proof.
  intros Hi. eapply wp_mono; [by apply (maybeHeartbeat_total otrV3), conv_inv_sendable|]. intros r c' Hs. by apply steady_sent.
Qed.

(** ** Fragments of what is sent *)

(** A message is split into pieces of the size the user has set; the positions
    of the pieces wrap around. *)
Definition split_panic (c : Conversation) (p : panic) : Prop := p = SliceBounds /\ c_fragmentSize c <> 0.

Lemma slice_panic {A} (l : list A) i j p : slice l i j = Panicked p -> p = SliceBounds.
Proof. unfold slice. destruct (_ && _); [done|]. by intros [= <-]. Qed.

Lemma fragmentLoop_panic n v c data : forall i total real p, fragmentLoop n v c data i total real = Panicked p -> p = SliceBounds.
Proof.
  induction n as [|n IH]; intros i total real p; cbn [fragmentLoop]; [done|]. unfold mbind, go_bind, fragmentData.
  destruct (slice _ _ _) as [x|q] eqn:E; [|intros [= <-]; by eapply slice_panic].
  destruct (fragmentLoop n v c data (i + 1) total real) as [r|q] eqn:El; [done|]. intros [= <-]. by eapply IH.
Qed.

Lemma fragEncode_inv m c : is_Some (c_version c) -> wpx (split_panic c) (fragEncode m) c (fun _ c' => c' = c).
Proof.
  intros [v Hv]. unfold fragEncode, fragment. do 2 (eapply wpx_done; [done|]). destruct (Z.eqb_spec (c_fragmentSize c) 0) as [|Hn];
    [rewrite orb_true_r; by apply wpx_ret|]. destruct (_ || _); [by apply wpx_ret|].
  eapply wpx_done; [by apply theVersion_Some|]. cbn zeta. destruct (_ <=? _); [by apply wpx_ret|]. unfold wpx, glift.
  destruct (fragmentLoop _ _ _ _ _ _ _) as [r|p] eqn:E; [done|]. split; [by eapply fragmentLoop_panic|done].
Qed.

Lemma createSerialized_inv msg flag tlvs c : conv_inv c ->
  wpx (fun p => split_panic c p /\ c_msgState c = encrypted) (createSerializedDataMessage msg flag tlvs) c (fun _ c' => steady c c').
Proof.
  intros Hi. unfold createSerializedDataMessage, tryb at 1. apply wpx_bind, wpx_of_wp.
  eapply wp_mono; [by apply (genDataMsg_total otrV3), conv_inv_sendable|].
  intros [dx|e] c1 [S1 He]; [|apply wpx_ret; by apply steady_sent]. specialize (He eq_refl).
  assert (c_version c1 = Some otrV3) as Hv by (destruct (sent_state _ _ S1) as [_ ->]; by apply conv_inv_sendable).
  eapply wpx_done; [by apply theVersion_Some|]. unfold tryb. apply wpx_bind, wpx_of_wp.
  eapply wp_mono; [by apply (wrapMessageHeader_total otrV3)|]. intros res c2 S2. assert (sent c c2) as S12 by (by transitivity c1).
  destruct res as [w|e]; [|apply wpx_ret; by apply steady_sent].
  eapply wpx_done; [done|]. set (c3 := c2 <| c_lastSent := env_now c2 |>). assert (sent c c3) as S3 by (transitivity c2; done).
  apply wpx_bind. eapply wpx_weaken; [eapply wpx_mono; [apply fragEncode_inv|]|].
  - destruct (sent_state _ _ S3) as [_ ->]. destruct (conv_inv_sendable c Hi He) as [-> _]. eauto.
  - intros frags c4 ->. apply wpx_ret. by apply steady_sent.
  - intros p [-> Hf]. split; [|done]. split; [done|]. destruct S3 as [E3 _]. unfold sent_frame in E3. congruence.
Qed.

(** ** TLVs *)

Hypothesis p_prime : Z.prime dh_p.
Hypothesis g1_range : 2 <= dh_g1 < dh_p.

(** The value is as long as the TLV says. *)
Definition tlv_fits (t : tlv) : Prop := 0 <= tlvLength t <= len (tlvValue t).

Lemma tlv_deserialize_fits d t : tlv_deserialize d = Ok t -> tlv_fits t.
Proof.
  unfold tlv_deserialize, ExtractShort. destruct (len d <? 2); [done|]. destruct (len (drop 2 d) <? 2); [done|].
  set (b2 := drop 2 (drop 2 d)). set (l := DeserializeShort _). destruct (Z.ltb_spec (len b2) l) as [|Hl]; [done|]. intros [= <-].
  assert (0 <= l) as Hl0 by apply be_decode_nonneg. unfold tlv_fits. cbn. split; [done|]. unfold len in *. rewrite length_take. lia.
Qed.

Lemma parseTLVs_fit n d : Forall tlv_fits (fst (parseTLVs n d)).
Proof.
  revert d; induction n as [|n IH]; intros [|b d]; cbn [parseTLVs]; try by constructor.
  destruct (tlv_deserialize (b :: d)) as [t|e] eqn:E; [|by constructor]. apply tlv_deserialize_fits in E.
  specialize (IH (drop (Z.to_nat (4 + tlvLength t)) (b :: d))). destruct (parseTLVs n _) as [ts err]. by constructor.
Qed.

Lemma decrypt_tlvs_fit key ctr src p : plainDataMsg_decrypt key ctr src = Ok p -> Forall tlv_fits (pd_tlvs p).
Proof.
  unfold plainDataMsg_decrypt. destruct (counterEncipher _ _ _) as [m|e]; [|done]. intros [= <-]. unfold plainDataMsg_deserialize.
  destruct (_ <? _)%nat; [|by constructor]. pose proof (parseTLVs_fit (length m) (drop (nulPos m + 1) m)) as HF. by destruct (parseTLVs _ _).
Qed.

(** The conversation can go on, with its version. *)
Definition alive (c : Conversation) : Prop := conv_inv c /\ fit valid otrV3 c.

Lemma alive_steady c c' : alive c -> steady c c' -> alive c'.
Proof. intros [Hi Hf] Hs. split; [apply Hs|by eapply steady_fit]. Qed.

Lemma alive_view c c' : alive c -> view c' = view c -> alive c'.
Proof. intros [Hi Hf] E. eapply alive_steady; [by split|]. by apply steady_view. Qed.

Lemma alive_smp c c' : alive c -> smp_frame c' = smp_frame c -> smp_ok (c_smp c') -> alive c'.
Proof.
  intros [Hi Hf] E Hx. apply (alive_view (c <| c_smp := c_smp c' |>)); [split; [by apply conv_inv_smp|done]|].
  unfold smp_frame in E. injection E as E1 E2 E3 E4 E5 E6 E7 E8 E9 E10 E11. unfold view. cbn. congruence.
Qed.

Lemma processSMPTLV_inv t c : alive c -> wp (processSMPTLV t) c (fun _ c' => alive c').
Proof.
  intros Ha. unfold processSMPTLV, ensureSMP. wp_step. wp_step.
  set (c1 := match smp_state (c_smp c) with Some _ => c | None => _ end).
  assert (alive c1 /\ is_Some (smp_state (c_smp c1))) as [Ha1 Hs1].
  { unfold c1. destruct (smp_state (c_smp c)) eqn:E; [split; [done|by rewrite E]|]. split; [|done]. by eapply alive_smp. }
  destruct (tlv_smpMessage t) as [m|]; [|by apply wp_ret].
  pose proof Ha1 as [Hi1 [Hv1 _]]. pose proof (ci_smp c1 Hi1) as Hm1.
  assert (wp (receiveSMP m) c1 (fun _ c' => smp_ok (c_smp c'))) as HW.
  { unfold receiveSMP. wp_spec wp_receivedMessage; [done..|]. intros [[ret|] [e|]] c2 (_ & Hm2 & _); by apply wp_ret. }
  eapply wp_mono; [apply wp_and; [exact HW|apply smp_frame_receiveSMP]|]. intros r c2 [Hm2 E2]. by eapply alive_smp.
Qed.

Lemma processDisconnected_inv c : alive c -> wp processDisconnectedTLV c (fun _ c' => alive c').
Proof.
  intros [Hi Hf]. unfold processDisconnectedTLV, smp_wipe. do 8 wp_step.
  wp_spec quiet_signal. intros _ c' E. apply wp_ret. eapply alive_view; [|exact E].
  split; [|done]. eapply conv_inv_view; [|apply (conv_inv_over c finished empty_keys empty_smp Hi); done]. done.
Qed.

Lemma processTLVs_inv ts key : forall c, alive c -> Forall tlv_fits ts -> wp (processTLVs ts key) c (fun _ c' => alive c').
Proof.
  induction ts as [|t ts IH]; intros c Ha HF; cbn [processTLVs]; [by apply wp_ret|]. apply Forall_cons in HF as [Ht HF].
  destruct (handleTLV t key) as [mh|] eqn:Eh; [|by apply IH].
  assert (wp mh c (fun _ c' => alive c')) as HW.
  { unfold handleTLV in Eh. repeat case_match; simplify_eq; [by apply wp_ret|by apply processDisconnected_inv|by apply processSMPTLV_inv|].
    unfold processExtraSymmetricKeyTLV. destruct Ht as [Hl Hle]. apply wp_bind. eapply wp_glift; [by rewrite slice_ok|].
    apply wp_bind, (wp_mono _ _ (fun _ c' => alive c')); [|by intros; apply wp_ret].
    destruct (ExtractWord _) as [[rest usage]|]; [|by apply wp_ret]. eapply wp_mono; [apply quiet_logEvent|]. intros ? c' E. by eapply alive_view. }
  wp_spec HW. intros [toSend|e] c1 Ha1; [|by apply wp_ret]. wp_spec IH; [done..|]. intros [ret|e] c2 Ha2; by apply wp_ret.
Qed.

(** ** Receiving data messages *)

Lemma rotateKeys_inv m c : alive c -> c_msgState c = encrypted -> wp (conv_rotateKeys m) c (fun _ c' => alive c').
Proof.
  intros [Hi Hf] He. unfold wp, conv_rotateKeys, rotateKeys.
  destruct (keys_inv_rotateOurKeys (c_keys c) (dm_recipientKeyID m) (c_Rand c) (ci_session c Hi He)) as (err & k1 & r1 & -> & Hk1).
  cbn [mbind go_bind]. destruct err as [e|].
  - split; [|done]. by apply (conv_inv_view (c <| c_keys := k1 |>)); [|apply conv_inv_keys].
  - destruct (keys_inv_rotateTheirKey k1 (dm_senderKeyID m) (dm_y m) Hk1) as (k2 & -> & Hk2). cbn.
    split; [|done]. by apply (conv_inv_view (c <| c_keys := k2 |>)); [|apply conv_inv_keys].
Qed.

Lemma afterDecryption_inv m p ks c : alive c -> c_msgState c = encrypted -> Forall tlv_fits (pd_tlvs p) ->
  wp (afterDecryption m p ks otrV3) c (fun _ c' => alive c').
Proof.
  intros Ha He HF. unfold afterDecryption. cbn zeta. apply wp_bind, (wp_mono _ _ (fun _ c' => view c' = view c)).
  { destruct (bool_decide _); [apply quiet_logEvent|by apply wp_ret]. }
  intros _ c1 E1. pose proof (alive_view _ _ Ha E1) as Ha1.
  assert (c_msgState c1 = encrypted) as He1 by (unfold view in E1; congruence).
  wp_spec rotateKeys_inv; [done..|]. intros [e|] c2 Ha2; [by apply wp_ret|].
  wp_spec processTLVs_inv; [done..|]. intros [tlvs|e] c3 Ha3; [|by apply wp_ret]. destruct tlvs as [|t tlvs]; [by apply wp_ret|].
  wp_spec genDataMsg_inv; [apply Ha3|]. intros [dx|e] c4 [H4 _]; [|apply wp_ret; by eapply alive_steady].
  pose proof (alive_steady _ _ Ha3 H4) as [Hi4 Hf4]. wp_spec wrapMessageHeader_inv; [done..|].
  intros [res|e] c5 [H5 _]; apply wp_ret; (eapply alive_steady; [|exact H5]; by split).
Qed.

Lemma dataMsg_deserialize_panic msg v p : dataMsg_deserialize msg v = Panicked p -> p = SliceBounds.
Proof.
  unfold dataMsg_deserialize. destruct (deserializeUnsigned msg) as [d|e]; [|done]. cbn zeta. unfold mbind, go_bind, mret, go_ret.
  destruct (slice _ 0 _) as [a|q] eqn:E1; [|intros E; apply slice_panic in E1; congruence].
  match goal with |- context [slice ?l ?i ?j] => destruct (slice l i j) as [b|q] eqn:E2 end; [|intros E; apply slice_panic in E2; congruence].
  destruct (ExtractData b) as [[? ?]|]; [|done]. by destruct (splitMACKeys _ _ _).
Qed.

Lemma checkMessageCounter_inv m c : conv_inv c -> wp (conv_checkMessageCounter m) c (fun _ c' => steady c c').
Proof.
  intros Hi. unfold wp, conv_checkMessageCounter, checkMessageCounter. destruct (findCounterFor _ _ _) as [i cs].
  by destruct (_ <=? _); apply steady_keys.
Qed.

(** A data message that is cut off panics in an encrypted conversation. *)
Definition cut_off (c : Conversation) (msg : list byte) (p : panic) : Prop :=
  p = SliceBounds /\ c_msgState c = encrypted /\ dataMsg_deserialize msg otrV3 = Panicked SliceBounds.

Lemma processDataMessage_inv header msg c : alive c -> wpx (cut_off c msg) (processDataMessage header msg) c (fun _ c' => alive c').
Proof.
  intros Ha. unfold processDataMessage. cbn zeta. apply wpx_bind.
  apply (wpx_mono _ _ _ (fun _ c' => alive c')); [|intros [[plain toSend] err] c' Hc'; by apply wpx_ret].
  unfold processDataMessageWithRawErrors. apply wpx_bind. unfold wpx at 1. cbn beta iota. unfold gget. cbn iota. unfold IsEncrypted.
  destruct (bool_decide_reflect (c_msgState c = encrypted)) as [He|]; cbn [negb].
  2:{ apply wpx_of_wp. wp_spec quiet_logEvent. intros _ c' E. apply wp_ret. by eapply alive_view. }
  apply wpx_bind. unfold wpx at 1. rewrite (theVersion_Some c otrV3) by apply Ha. apply wpx_bind. unfold wpx at 1, glift.
  destruct (dataMsg_deserialize msg otrV3) as [[dm|e]|p] eqn:Ed; [|by apply wpx_ret|pose proof (dataMsg_deserialize_panic _ _ _ Ed) as ->; done].
  apply wpx_of_wp. wp_spec checkMessageCounter_inv; [apply Ha|]. intros [e|] c1 H1'; [apply wp_ret; by eapply alive_steady|].
  pose proof (alive_steady _ _ Ha H1') as Ha1. pose proof (steady_encrypted _ _ H1') as E1. rewrite He in E1.
  wp_spec sessionKeys_inv; [apply Ha1|done|]. intros [ks|e] c2 H2; [|apply wp_ret; by eapply alive_steady].
  pose proof (alive_steady _ _ Ha1 H2) as Ha2. pose proof (steady_encrypted _ _ H2) as E2. rewrite E1 in E2.
  destruct (checkSign _ _ _ _); [by apply wp_ret|]. apply afterDecryption_inv; [done..|].
  destruct (plainDataMsg_decrypt _ _ _) as [p|] eqn:Ep; [by eapply decrypt_tlvs_fit|by constructor].
Qed.

End Invariant.

(** ** The calls of the interface *)

(** The clock and the random source between two calls. *)
Definition elapse (now : Z) (rand : list byte) : M unit := gmod (fun c => c <| env_now := now |> <| c_Rand := rand |>).

(** The methods of [policies]. *)
Inductive policyCall :=
  | PolicyAllowV2 | PolicyAllowV3 | PolicyRequireEncryption | PolicySendWhitespaceTag | PolicyWhitespaceStartAKE | PolicyErrorStartAKE.

Definition policyMethod (x : policyCall) : policies -> policies :=
  match x with
  | PolicyAllowV2 => AllowV2 | PolicyAllowV3 => AllowV3 | PolicyRequireEncryption => RequireEncryption
  | PolicySendWhitespaceTag => SendWhitespaceTag | PolicyWhitespaceStartAKE => WhitespaceStartAKE | PolicyErrorStartAKE => ErrorStartAKE
  end.

(** What a program can do to a conversation: the calls, the settings, and what
    happens between two calls. *)
Inductive call :=
  | CallReceive (m : list byte)
  | CallSend (m : list byte) (t : trace)
  | CallEnd
  | CallStartAuthenticate (question mutualSecret : list byte)
  | CallProvideAuthenticationSecret (mutualSecret : list byte)
  | CallAbortAuthentication
  | CallUseExtraSymmetricKey (usage : Z) (usageData : list byte)
  | CallInitializeInstanceTag (tag : Z)
  | CallSetFragmentSize (size : Z)
  | CallSetDebug (d : bool)
  | CallSetFriendlyQueryMessage (msg : list byte)
  | CallSetOurKeys (ks : list PrivateKey)
  | CallPolicy (x : policyCall)
  | CallSetSMPEventHandler (handler : bool)
  | CallSetErrorMessageHandler (handler : option (ErrorCode -> list byte))
  | CallSetMessageEventHandler (handler : bool)
  | CallSetSecurityEventHandler (handler : bool)
  | Elapse (now : Z) (rand : list byte).

Definition errorOf {A} (r : result A) : option error := match r with Ok _ => None | Err e => Some e end.

(** The error a call returns; the stack of [Receive] holds [depth] calls. *)
Definition perform `{DHGroup} `{Crypto} (depth : nat) (x : call) : M (option error) :=
  match x with
  | CallReceive m => r ← Receive depth m; mret (snd r)
  | CallSend m t => r ← Send m t; mret (snd r)
  | CallEnd => r ← End; mret (snd r)
  | CallStartAuthenticate q secret => r ← StartAuthenticate q secret; mret (errorOf r)
  | CallProvideAuthenticationSecret secret => r ← ProvideAuthenticationSecret secret; mret (errorOf r)
  | CallAbortAuthentication => r ← AbortAuthentication; mret (errorOf r)
  | CallUseExtraSymmetricKey usage d => r ← UseExtraSymmetricKey usage d; mret (errorOf r)
  | CallInitializeInstanceTag tag => _ ← InitializeInstanceTag tag; mret None
  | CallSetFragmentSize size => _ ← SetFragmentSize size; mret None
  | CallSetDebug d => _ ← SetDebug d; mret None
  | CallSetFriendlyQueryMessage msg => _ ← SetFriendlyQueryMessage msg; mret None
  | CallSetOurKeys ks => _ ← SetOurKeys ks; mret None
  | CallPolicy x => _ ← gmod (fun c => c <| c_Policies := policyMethod x (c_Policies c) |>); mret None
  | CallSetSMPEventHandler h => _ ← SetSMPEventHandler h; mret None
  | CallSetErrorMessageHandler h => _ ← SetErrorMessageHandler h; mret None
  | CallSetMessageEventHandler h => _ ← SetMessageEventHandler h; mret None
  | CallSetSecurityEventHandler h => _ ← SetSecurityEventHandler h; mret None
  | Elapse now rand => _ ← elapse now rand; mret None
  end.

(** ** The exchange in a conversation *)

Section Calls.
Context `{DHGroup} `{Crypto} (valid : dsa_PrivateKey -> Prop).

#[local] Abbreviation inv := (conv_inv (valid := valid)).
#[local] Abbreviation live := (alive (valid := valid)).
#[local] Abbreviation still := (steady (valid := valid)).

Lemma wp_still {A} (m : M A) c c1 P : quiet m -> still c c1 -> (forall a c', still c c' -> P a c') -> wp m c1 P.
Proof. apply wp_quiet. Qed.

Context `{!DsaLaws valid} `{!CryptoLaws}.
Hypothesis p_prime : Z.prime dh_p.
Hypothesis g1_range : 2 <= dh_g1 < dh_p.

(** What the exchange may change, and what it must have left. *)
Lemma alive_exchange c c' a' : live c -> fit valid otrV3 c' -> exchange_frame c' = exchange_frame c ->
  (exchange_ok otrV3 (c_ssid c') (ake_state a') a' /\ exchange_keyed otrV3 (c_ourInstanceTag c') (ake_state a') (ake_keys a')) ->
  ((c_keys c' = c_keys c /\ c_msgState c' = c_msgState c) \/ keys_inv (c_keys c')) ->
  live (c' <| c_ake := Some a' |>).
Proof.
  unfold exchange_frame. intros [[Hp Hk Hv Ha Hs Hm] _] Hf [= E1 E2 E3 E4 E5] Hx Hses. split; [|done].
  constructor; cbn; rewrite ?E1, ?E2, ?E5; try done; [by right| |].
  - by intros a [= <-].
  - intros He. destruct Hses as [[-> Em]|]; [|done]. apply Hs. congruence.
Qed.

(** What the exchange relies on is part of the invariant, and all of it that the
    exchange may change. *)
Lemma alive_ake_inv c : live c -> ake_inv valid otrV3 c.
Proof.
  intros [Hi Hf]. split; [split; [done|]|split; [|by apply (conv_inv_sendable (valid := valid))]]; intros a Ha; by apply (ci_ake c Hi).
Qed.

Lemma ake_inv_alive c c' : live c -> ake_inv valid otrV3 c' -> exchange_frame c' = exchange_frame c -> live c'.
Proof.
  unfold exchange_frame. intros [[Hp Hk _ _ _ Hm] _] ((Hf & Hok) & Hkey & Hs) [= E1 E2 E3 E4 E5]. split; [|done].
  constructor; rewrite ?E1, ?E2, ?E5; try done; [by right| |].
  - intros a Ha. split; [by apply Hok|by apply Hkey].
  - intros He. by apply Hs.
Qed.

Lemma processAKE_inv t msg c : live c -> wp (processAKE t msg) c (fun r c' => live c' \/ unsigned (snd r)).
Proof.
  intros Hc. pose proof (alive_ake_inv c Hc) as Hi. pose proof Hi as (Hco & _ & _).
  eapply wp_mono; [apply wp_and; [apply wp_and; [by apply (processAKE_total valid otrV3)|by apply (processAKE_moved valid otrV3)]|apply frame_processAKE]|].
  intros r c' [[[Hs [Hk|Hu]] [Hc' _]] Hf]; [left|by right]. by eapply ake_inv_alive.
Qed.

(** ** Starting an exchange *)

(** The public value for the exponent read next is too short to encrypt: the
    cipher's buffer is sliced beyond its end. *)
Definition small_value (c : Conversation) : Prop :=
  exists x r, randSizedMPI (c_Rand c) 40 = (Ok x, r) /\ len (AppendMPI [] (pubKey x)) < 16.

(** An exchange that has begun and waits for nothing yet. *)
Definition begun (c c' : Conversation) (a' : ake) : Prop :=
  (exists rnd, c' = c <| c_Rand := rnd |> <| c_ake := Some a' |>) /\
  ake_keys a' = empty_keys /\ ake_state a' = authStateNone /\ ake_theirPublicValue a' = None.

Lemma readR_run c a : c_ake c = Some a -> readR c = let '(res, rnd) := randomInto (c_Rand c) 16 in
  Done (match res with Ok _ => Ok tt | Err e => Err e end, c <| c_Rand := rnd |> <| c_ake := Some (a <| ake_r :=
    match res with Ok b => b | Err _ => take 16 (c_Rand c ++ drop (length (c_Rand c)) (ake_r a)) end |>) |>).
Proof.
  intros Ha. unfold readR. rewrite bind_gget. unfold conv_randomInto. destruct (randomInto (c_Rand c) 16) as [res rnd] eqn:E.
  rewrite (bind_done _ _ c res (c <| c_Rand := rnd |>)) by (by rewrite E).
  destruct res; by erewrite bind_done by (by apply modAke_Some).
Qed.

Lemma encrypted_or_zero_inv key data c :
  wpx (fun p => p = SliceBounds /\ len data < 16) (encrypted_or_zero key data) c (fun _ c' => c' = c).
Proof.
  unfold encrypted_or_zero, encrypt. apply wpx_bind. unfold wpx at 1, glift. cbn [mbind go_bind].
  destruct (slice (zeroes (length data)) 0 16) as [z|q] eqn:Ez; [done|]. split; [by eapply slice_panic|].
  destruct (Z.lt_ge_cases (len data) 16) as [|Hl]; [done|]. rewrite slice_ok in Ez; [done|lia|]. unfold len, zeroes in *. by rewrite length_replicate.
Qed.

Lemma dhCommitMessage_inv c : c_version c = Some otrV3 ->
  wpx (fun p => p = SliceBounds /\ small_value c) dhCommitMessage c (fun r c' => exists a', begun c c' a' /\
    (is_ok r = true -> exists x, ake_secretExponent a' = Some x /\ ake_ourPublicValue a' = Some (pubKey x))).
Proof.
  intros Hv. unfold dhCommitMessage, initAKE. eapply wpx_done; [done|].
  eapply wpx_done; [by apply (modAkeKeys_Some _ (c <| c_ake := Some initial_ake |>) initial_ake)|].
  set (c1 := c <| c_ake := _ |> <| c_ake := _ |>). unfold tryb at 1.
  destruct (randSizedMPI (c_Rand c) 40) as [res rnd] eqn:Er.
  eapply (wpx_done _ _ _ _ res (c1 <| c_Rand := rnd |>)); [unfold conv_randMPI; change (c_Rand c1) with (c_Rand c); by rewrite Er|].
  destruct res as [x|e]; [|by apply wpx_ret; eexists; split; [split; [by exists rnd|]|]].
  set (a2 := initial_ake <| ake_secretExponent := Some x |> <| ake_ourPublicValue := Some (pubKey x) |>).
  set (c2 := c <| c_Rand := rnd |> <| c_ake := Some a2 |>). eapply (wpx_done _ _ _ _ tt c2); [done|].
  pose proof (readR_run c2 a2 eq_refl) as Hr. change (c_Rand c2) with rnd in Hr.
  unfold tryb at 1. destruct (randomInto rnd 16) as [res rnd'] eqn:Eb. eapply wpx_done; [exact Hr|].
  set (a3 := a2 <| ake_r := _ |>). set (c3 := c2 <| c_Rand := rnd' |> <| c_ake := Some a3 |>).
  destruct res as [b|e]; [|apply wpx_ret; exists a3; split; [split; [by exists rnd'|done]|done]].
  eapply (wpx_done _ _ _ _ a3 c3); [done|]. eapply (wpx_done _ _ _ _ (pubKey x) c3); [done|].
  apply wpx_bind. eapply wpx_weaken; [eapply wpx_mono; [apply encrypted_or_zero_inv|]|].
  - intros egx c' ->. set (a4 := a3 <| ake_encryptedGx := egx |>). eapply (wpx_done _ _ _ _ tt (c3 <| c_ake := Some a4 |>)); [done|].
    apply wpx_of_wp. unfold serializeDHCommit. do 2 wp_step. eapply wp_done; [done|]. wp_step. apply (wp_theVersion _ otrV3); [done|].
    do 2 apply wp_ret. exists a4. split; [split; [by exists rnd'|done]|]. intros _. by exists x.
  - intros q [-> Hl]. split; [done|]. by exists x, rnd.
Qed.

Lemma small_value_rand c c' : c_Rand c' = c_Rand c -> small_value c' -> small_value c.
Proof. unfold small_value. by intros ->. Qed.

Lemma begun_alive c a' c' : live c -> begun c c' a' -> live c'.
Proof.
  intros Hc [[rnd ->] (Ek & Es & _)]. apply (alive_exchange c (c <| c_Rand := rnd |>) a' Hc); [apply Hc|done| |by left].
  rewrite Es, Ek. split; [done|]. apply keyed_fresh; auto.
Qed.

Lemma sendDHCommit_inv c : live c -> wpx (fun p => p = SliceBounds /\ small_value c) sendDHCommit c (fun _ c' => live c').
Proof.
  intros Hc. pose proof Hc as [Hi Hf]. unfold sendDHCommit, wipeAke. do 2 (eapply wpx_done; [done|]).
  set (c0 := c <| c_ake := _ |> <| c_ake := None |>).
  assert (live c0) as Hc0.
  { split; [|done]. destruct Hi as [Hp Hk Hv Ha Hs Hm]. constructor; try done. by right. }
  unfold tryb at 1. apply wpx_bind. eapply wpx_mono; [apply (dhCommitMessage_inv c0), Hf|].
  intros r c1 (a1 & Hb & Hr). pose proof (begun_alive _ _ _ Hc0 Hb) as Hc1.
  destruct r as [m|e]; [|by apply wpx_ret]. destruct (Hr eq_refl) as (x & Ex & Ep). apply wpx_of_wp.
  destruct Hb as [[rnd E1] (Ek & Es & Et)]. wp_spec (wrapMessageHeader_inv (valid := valid)); [apply Hc1..|]. intros h c2 (Hs2 & Ht2).
  pose proof (alive_steady _ _ Hc1 Hs2) as Hc2. destruct h as [h|e]; [|by apply wp_ret].
  assert (c_ake c2 = Some a1) as Ha2 by (destruct Hs2 as [_ [= _ _ _ -> _ _]]; by rewrite E1).
  wp_run (modAke_Some (fun a => a <| ake_state := authStateAwaitingDHKey |>) c2 a1 Ha2). apply wp_ret.
  apply (alive_exchange c2 c2 _ Hc2); [apply Hc2|done| |by left]. cbn. rewrite Ek, Et. split; [|split; [cbn; lia|split; [intros _; by apply Ht2|done]]].
  split; [by exists x|done].
Qed.

Lemma startAKE_inv c : live c -> wpx (fun p => p = SliceBounds /\ small_value c) startAKE c (fun _ c' => live c').
Proof.
  intros Hc. unfold startAKE, potentialAuthError. apply wpx_bind. eapply wpx_mono; [by apply sendDHCommit_inv|].
  intros [t|e] c1 Hc1; apply wpx_of_wp; [by do 2 wp_step|]. wp_spec quiet_logEvent. intros _ c2 E. apply wp_ret. by eapply alive_view.
Qed.

Lemma rand_commit n : leaves c_Rand (commitToVersionFrom n).
Proof. unfold commitToVersionFrom, setKeyMatchingVersion. solve_leaves. Qed.

(** Choosing a version. *)
Lemma commit_inv n c : inv c ->
  wp (commitToVersionFrom n) c (fun r c' => (inv c' /\ (r = Ok tt -> live c')) /\ c_Rand c' = c_Rand c).
Proof.
  intros Hi. apply wp_and; [|apply rand_commit]. eapply wp_mono; [by apply (commitToVersionFrom_inv (valid := valid))|].
  intros r c' [Hi' Hr]. split; [done|]. intros E. split; auto.
Qed.

(** There is a version when there is something to send. *)
Definition armed (ms : list (list byte)) (c : Conversation) : Prop := inv c /\ (ms <> [] -> is_Some (c_version c)).

Lemma armed_alive ms c : live c -> armed ms c.
Proof. intros [Hi [Hv _]]. split; [done|]. rewrite Hv. eauto. Qed.

Lemma armed_view ms c c' : view c' = view c -> armed ms c -> armed ms c'.
Proof. intros E [Hi Hv]. split; [by eapply conv_inv_view|]. unfold view in E. injection E. intros. replace (c_version c') with (c_version c). auto. Qed.

Lemma startFromVersions_inv n (k : M (list (list byte) * option error)) c : inv c ->
  (forall c', live c' -> wpx (fun p => p = SliceBounds /\ small_value c') k c' (fun _ c'' => live c'')) ->
  wpx (fun p => p = SliceBounds /\ small_value c)
    (r ← commitToVersionFrom n; match r with Err e => mret ([], Some e) | Ok _ => k end) c (fun r c' => armed (fst r) c').
Proof.
  intros Hi Hk. apply wpx_bind, wpx_of_wp. eapply wp_mono; [by apply commit_inv|]. intros [[]|e] c1 [[Hi1 Ha1] Er]; [|by apply wpx_ret].
  eapply wpx_weaken; [eapply wpx_mono; [apply Hk; auto|]|].
  - intros r c2 Hc2. by apply armed_alive.
  - intros p [-> Hs]. split; [done|]. by eapply small_value_rand.
Qed.

Lemma receiveQueryMessage_inv msg c : inv c ->
  wpx (fun p => p = SliceBounds /\ small_value c) (receiveQueryMessage msg) c (fun r c' => armed (fst r) c').
Proof.
  intros Hi. unfold receiveQueryMessage. eapply wpx_done; [done|]. apply startFromVersions_inv; [done|].
  intros c' Ha. eapply wpx_done; [done|]. destruct (_ || _); [by apply wpx_ret|]. by apply startAKE_inv.
Qed.

Lemma startAKEFromWhitespaceTag_inv n c : inv c ->
  wpx (fun p => p = SliceBounds /\ small_value c) (startAKEFromWhitespaceTag n) c (fun r c' => armed (fst r) c').
Proof. intros Hi. unfold startAKEFromWhitespaceTag. apply startFromVersions_inv; [done|]. apply startAKE_inv. Qed.

(** ** Plaintext and errors *)

Lemma Index_fits s sep : Index s sep <> -1 -> 0 <= Index s sep /\ Index s sep + len sep <= len s.
Proof.
  induction s as [|b s IH]; cbn [Index]; [destruct (HasPrefix [] sep) eqn:E; [|done]|destruct (HasPrefix (b :: s) sep) eqn:E].
  1,2: intros _; apply HasPrefix_true in E as [r Er]; rewrite Er, len_app; pose proof (len_nonneg r); lia.
  cbn zeta. destruct (Z.eqb_spec (Index s sep) (-1)) as [|Hne]; [done|]. intros _. specialize (IH Hne). rewrite len_cons. lia.
Qed.

Lemma quiet_plaintextPolicies plain : quiet (checkPlaintextPolicies plain).
Proof.
  intros c. unfold checkPlaintextPolicies. do 2 wp_step. set (c1 := if bool_decide _ then _ else c).
  assert (view c1 = view c) as E1 by (unfold c1; by destruct (bool_decide _)). do 2 wp_step.
  destruct (_ || _); [|by apply wp_ret]. eapply wp_mono; [apply quiet_logEvent|]. intros ? c' E. by rewrite E.
Qed.

Lemma extractWhitespaceTag_total m : Index m whitespaceTagHeader <> -1 -> exists pv, extractWhitespaceTag m = Done pv.
Proof.
  intros [H0' Hl]%Index_fits. pose proof (len_nonneg whitespaceTagHeader) as Hn. unfold extractWhitespaceTag, mbind, go_bind.
  rewrite !slice_ok by lia. destruct (whitespaceLoop _ _ _). eauto.
Qed.

Lemma receiveTaggedPlaintext_inv m c : inv c -> Index m whitespaceTagHeader <> -1 ->
  wpx (fun p => p = SliceBounds /\ small_value c) (receiveTaggedPlaintext m) c (fun h c' => armed (snd (fst h)) c').
Proof.
  intros Hi Hx. unfold receiveTaggedPlaintext. apply wpx_bind. apply (wpx_mono _ _ _ (fun h c' => armed (snd (fst h)) c')).
  2:{ intros h c1 Hi1. apply wpx_of_wp. wp_spec quiet_plaintextPolicies. intros _ c2 E. apply wp_ret. by eapply armed_view. }
  unfold processWhitespaceTag. destruct (extractWhitespaceTag_total m Hx) as [[plain vs] E].
  eapply (wpx_done _ _ _ _ (plain, vs) c); [unfold glift; by rewrite E|].
  eapply wpx_done; [done|]. destruct (negb _); [by apply wpx_ret|].
  apply wpx_bind. eapply wpx_mono; [by apply startAKEFromWhitespaceTag_inv|]. intros r c1 Hi1. by apply wpx_ret.
Qed.

Lemma receiveErrorMessage_inv m c : inv c -> HasPrefix m errorMarker = true -> wp (receiveErrorMessage m) c (fun _ c' => inv c').
Proof.
  intros Hi [r Hr]%HasPrefix_true. unfold receiveErrorMessage. apply wp_bind. eapply wp_glift.
  { apply slice_ok; [|lia]. rewrite Hr, len_app. pose proof (len_nonneg errorMarker). pose proof (len_nonneg r). lia. }
  do 2 wp_step. cbn zeta. apply wp_bind, (wp_mono _ _ (fun _ c' => view c' = view c)).
  { destruct (IsEncrypted c); [apply quiet_modResend|by apply wp_ret]. }
  intros _ c1 E1. wp_spec quiet_logEvent. intros _ c2 E2. apply wp_ret. eapply conv_inv_view; [|exact Hi]. by rewrite E2.
Qed.

(** ** Encoded messages *)

Lemma quiet_verifyInstanceTags their our : quiet (verifyInstanceTags their our).
Proof.
  intros c. unfold verifyInstanceTags. do 2 wp_step. set (c1 := if _ =? 0 then _ else c).
  assert (view c1 = view c) as E1 by (unfold c1; by destruct (_ =? 0)).
  assert (forall A (m : M A), quiet m -> wp m c1 (fun _ c' => view c' = view c)) as Hq.
  { intros A m Hm. eapply wp_mono; [apply Hm|]. intros ? c' E. by rewrite E. }
  destruct (_ && _); [apply Hq, quiet_bind; [apply quiet_malformed|intros; apply quiet_ret]|].
  destruct (_ <? _); [apply Hq, quiet_bind; [apply quiet_malformed|intros; apply quiet_ret]|]. do 2 wp_step.
  destruct (_ || _); [apply Hq, quiet_bind; [apply quiet_logEvent|intros; apply quiet_ret]|by apply wp_ret].
Qed.

Lemma ExtractWord_long d : (4 <= length d)%nat -> ExtractWord d = Some (drop 4 d, DeserializeWord d).
Proof. intros Hl. unfold ExtractWord, len. destruct (Z.ltb_spec (Z.of_nat (length d)) 4); [lia|done]. Qed.

Lemma parseMessageHeader_inv msg c : live c ->
  wp (parseMessageHeader msg) c (fun r c' => view c' = view c /\ forall h b, r = Ok (h, b) -> is_Some (h !! 2%nat) /\ b = drop 11 msg).
Proof.
  intros Ha. unfold parseMessageHeader. apply wp_bind, (wp_theVersion _ otrV3); [apply Ha|]. unfold otrV3_parseMessageHeader.
  destruct (Z.ltb_spec (len msg) otrv3HeaderLen) as [|Hl]; [wp_spec quiet_malformed; intros _ c1 E; by apply wp_ret|].
  assert (11 <= length msg)%nat as Hn by (unfold len, otrv3HeaderLen in Hl; lia). 
  rewrite (ExtractWord_long (drop 3 msg)) by (rewrite length_drop; lia). cbn beta iota delta [from_option id].
  rewrite (ExtractWord_long (drop 4 (drop 3 msg))) by (rewrite !length_drop; lia). cbn beta iota delta [from_option id].
  wp_spec quiet_verifyInstanceTags. intros [[]|e] c1 E; [|by apply wp_ret]. apply wp_ret. split; [done|]. intros h b [= <- <-].
  split; [|by rewrite !drop_drop]. apply lookup_lt_is_Some. rewrite length_take. lia.
Qed.

(** What choosing a version leaves alone. *)
Definition drawn (c : Conversation) := (c_Rand c, c_msgState c, c_fragmentSize c, c_debug c).

Lemma drawn_commit n : leaves drawn (commitToVersionFrom n).
Proof. unfold commitToVersionFrom, setKeyMatchingVersion. solve_leaves. Qed.
Lemma drawn_verifyInstanceTags their our : leaves drawn (verifyInstanceTags their our).
Proof. unfold verifyInstanceTags, malformedMessage. solve_leaves. Qed.
#[local] Hint Resolve drawn_commit drawn_verifyInstanceTags : leaves.

Lemma checkVersion_inv msg c : inv c ->
  wp (checkVersion msg) c (fun r c' => (inv c' /\ (r = Ok tt -> live c')) /\ drawn c' = drawn c).
Proof.
  intros Hi. apply wp_and; [|assert (leaves drawn (checkVersion msg)) as Hd by (unfold checkVersion; solve_leaves); apply Hd]. unfold checkVersion.
  destruct (ExtractShort msg) as [[rest v]|]; [|by apply wp_ret]. wp_spec commit_inv; [done|].
  intros [[]|e] c1 [[Hi1 Ha1] _]; [|by apply wp_ret]. specialize (Ha1 eq_refl). apply wp_bind, (wp_theVersion _ otrV3); [apply Ha1|]. by apply wp_ret.
Qed.

Lemma receiveDataMessage_inv header body c : live c -> wpx (cut_off c body) (receiveDataMessage header body) c (fun _ c' => live c').
Proof.
  intros Ha. unfold receiveDataMessage. apply wpx_bind. eapply wpx_mono; [by apply (processDataMessage_inv (valid := valid) p_prime g1_range)|]. intros o c1 Ha1.
  apply wpx_of_wp. wp_spec (maybeHeartbeat_inv (valid := valid)); [apply Ha1|]. intros h c2 H2.
  apply wp_bind, (wp_mono _ _ (fun _ c' => still c1 c')); [|intros _ c3 H3; apply wp_ret; by apply (alive_steady (valid := valid) c1)].
  destruct (snd h) as [e|]; [|by apply wp_ret]. unfold notifyDataMessageError. destruct (bool_decide _); [by apply wp_ret|].
  assert (forall a b, quiet (_ ← messageEvent a []; generatePotentialErrorMessage b)) as Hq
    by (intros; apply quiet_bind; [apply quiet_logEvent|intros _; apply quiet_potentialError]).
  destruct (isConflict e); apply (wp_still _ c1 c2); [apply Hq|done|done|apply Hq|done|done].
Qed.

(** The invariant holds again, unless the call reports that it could not sign. *)
Definition fine (h : handled) (c : Conversation) : Prop := inv c \/ unsigned (snd h).

(** And what is to be sent can be encoded. *)
Definition outgoing (h : handled) (c : Conversation) : Prop := armed (snd (fst h)) c \/ unsigned (snd h).

Lemma outgoing_fine h c : outgoing h c -> fine h c.
Proof. intros [[Hi _]|Hu]; [by left|by right]. Qed.

Lemma receiveAKEMessage_inv t body c : live c -> wp (receiveAKEMessage t body) c outgoing.
Proof.
  intros Ha. unfold receiveAKEMessage, potentialAuthError. wp_spec processAKE_inv; [done|]. intros [ms [e|]] c1 Hc1; cbn [fst snd] in *.
  - apply wp_bind. wp_spec quiet_logEvent. intros _ c2 E. do 2 apply wp_ret. destruct Hc1 as [Hc1|Hu]; [left|by right].
    eapply armed_view; [exact E|]. by apply armed_alive.
  - apply wp_bind. wp_step. do 3 apply wp_ret. destruct Hc1 as [Hc1|Hu]; [left; by apply armed_alive|by right].
Qed.

Lemma receiveDecoded_inv msg c : inv c -> wpx (cut_off c (drop 11 msg)) (receiveDecoded msg) c outgoing.
Proof.
  intros Hi. unfold receiveDecoded. apply wpx_bind, wpx_of_wp. eapply wp_mono; [by apply checkVersion_inv|].
  intros r c1 [[Hi1 Ha1] [= Er Em Ef Ed]]. destruct r as [[]|e]; [|apply wpx_ret; by left]. specialize (Ha1 eq_refl).
  apply wpx_bind, wpx_of_wp. eapply wp_mono; [by apply parseMessageHeader_inv|]. intros p c2 [E2 Hp]. pose proof (alive_view _ _ Ha1 E2) as Ha2.
  destruct p as [[h b]|e]; [|apply wpx_ret; left; by apply armed_alive]. destruct (Hp h b eq_refl) as [[t ->] ->].
  destruct (_ =? _); [|apply wpx_of_wp; by apply receiveAKEMessage_inv].
  eapply wpx_mono; [eapply wpx_weaken; [by apply receiveDataMessage_inv|]|].
  - intros p (-> & He & Hd). split; [done|]. split; [unfold view in E2; congruence|done].
  - intros h' c3 H3. left. by apply armed_alive.
Qed.

(** The bytes a message encodes are too short for the authenticator of a data
    message. *)
Definition truncated (msg : list byte) : Prop :=
  exists data, decode msg = Done (Ok data) /\ dataMsg_deserialize (drop 11 data) otrV3 = Panicked SliceBounds.

Lemma receiveEncoded_inv msg c : inv c -> 6 <= len msg -> wpx (fun p => p = SliceBounds /\ c_msgState c = encrypted /\ truncated msg) (receiveEncoded msg) c outgoing.
Proof.
  intros Hi Hl. unfold receiveEncoded. destruct (decode msg) as [d|q] eqn:Ed.
  2:{ unfold decode, removeOTRMsgEnvelope, mbind, go_bind in Ed. change (len msgMarker) with 5 in Ed. rewrite slice_ok in Ed by lia. done. }
  eapply (wpx_done _ _ _ _ d c); [done|]. destruct d as [data|e]; [|apply wpx_ret; by left].
  eapply wpx_weaken; [by apply receiveDecoded_inv|]. intros p (-> & He & Hd). split_and!; [done..|by exists data].
Qed.

(** ** Fragments and the dispatch *)

Lemma drawn_receiveFragment before msg : leaves drawn (receiveFragment before msg).
Proof.
  unfold receiveFragment, parseFragmentPrefix, resolveVersionFromFragment, version_parseFragmentPrefix, otrV2_parseFragmentPrefix, otrV3_parseFragmentPrefix.
  solve_leaves.
Qed.

Lemma receiveFragment_inv before msg c : inv c ->
  wp (receiveFragment before msg) c (fun _ c' => inv c' /\ drawn c' = drawn c).
Proof.
  intros Hi. apply wp_and; [|apply drawn_receiveFragment].
  unfold receiveFragment. apply wp_bind, (wp_mono _ _ (fun _ c' => inv c')).
  - unfold parseFragmentPrefix, resolveVersionFromFragment. wp_spec commit_inv; [done|]. intros [[]|e] c1 [[Hi1 Ha1] _]; [|by apply wp_ret].
    specialize (Ha1 eq_refl). apply wp_bind, (wp_theVersion _ otrV3); [apply Ha1|]. cbn [version_parseFragmentPrefix]. unfold otrV3_parseFragmentPrefix.
    destruct (_ <? _); [by apply wp_ret|]. cbn zeta. repeat case_match; try (by apply wp_ret).
    wp_spec quiet_verifyInstanceTags. intros r c2 E2. apply wp_ret. by eapply conv_inv_view.
  - intros [[body ignore] ok1] c1 Hi1. cbn zeta. destruct ignore.
    + wp_spec quiet_logEvent. intros _ c2 E2. apply wp_ret. by eapply conv_inv_view.
    + destruct (negb ok1); [by apply wp_ret|]. destruct (parseFragment body) as [[[? ?] ?]|]; by apply wp_ret.
Qed.

Lemma encodeAndCombine_inv ms c : is_Some (c_version c) -> wpx (split_panic c) (encodeAndCombine ms) c (fun _ c' => c' = c).
Proof.
  intros Hv. induction ms as [|m ms IH]; cbn [encodeAndCombine]; [by apply wpx_ret|]. apply wpx_bind.
  eapply wpx_mono; [by apply fragEncode_inv|]. intros f c1 ->. apply wpx_bind. eapply wpx_mono; [exact IH|]. intros fs c2 ->. by apply wpx_ret.
Qed.

Lemma withInjectionsPlain_inv h c : fine h c -> wp (withInjectionsPlain h) c fine.
Proof.
  intros Hi. destruct h as [[plain vms] err]. unfold withInjectionsPlain. wp_spec quiet_withInjects. intros v c1 E. apply wp_ret.
  destruct Hi as [Hi|Hu]; [left; by eapply conv_inv_view|by right].
Qed.

Lemma finishUnit_inv b h c : outgoing h c -> wpx (fun p => split_panic c p /\ snd (fst h) <> []) (finishUnit b h) c fine.
Proof.
  intros Hi. unfold finishUnit. apply wpx_bind, (wpx_mono _ _ _ (fun _ c' => outgoing h c' /\ c_fragmentSize c' = c_fragmentSize c)).
  { apply wpx_of_wp. destruct b; [|by apply wp_ret]. apply wp_gmod. split; [|done].
    destruct Hi as [Hi|Hu]; [left; by apply (armed_view _ c)|by right]. }
  intros _ c1 [Hi1 Ef]. apply wpx_bind, (wpx_mono _ _ _ fine); [|intros; apply wpx_of_wp; by apply withInjectionsPlain_inv].
  destruct h as [[plain ms] err]. unfold toSendEncoded. destruct err as [e|]; [apply wpx_ret; by apply outgoing_fine in Hi1|].
  destruct Hi1 as [[Hi1 Hv]|(e & E & _)]; [|done]. destruct ms as [|[|x m] ms]; [apply wpx_ret; by left..|].
  apply wpx_bind. eapply wpx_weaken; [eapply wpx_mono; [by apply encodeAndCombine_inv, Hv|]|].
  - intros vms c2 ->. apply wpx_ret. by left.
  - intros p [-> Hf]. split; [|done]. split; [done|]. by rewrite <- Ef.
Qed.

(** What the prefix of a message says about it. *)
Lemma guess_shape m :
  match guessMessageType m with
  | msgGuessError => HasPrefix m errorMarker = true
  | msgGuessTaggedPlaintext => Index m whitespaceTagHeader <> -1
  | msgGuessDHCommit | msgGuessDHKey | msgGuessRevealSig | msgGuessSignature | msgGuessData => 6 <= len m
  | _ => True
  end.
Proof.
  assert (forall p, HasPrefix m p = true -> len p <= len m) as Hl.
  { intros p [r ->]%HasPrefix_true. rewrite len_app. pose proof (len_nonneg r). lia. }
  unfold guessMessageType. destruct (HasPrefix m (bs "?OTR")); [|destruct (Z.eqb_spec (Index m whitespaceTagHeader) (-1)); done].
  repeat match goal with |- context [HasPrefix m ?p] => lazymatch p with errorMarker => fail | _ => destruct (HasPrefix m p) eqn:?E end end;
    try done; match goal with E : HasPrefix m ?p = true |- 6 <= _ => apply Hl in E; change (len p) with 9 in E; lia end.
Qed.

(** ** The settings stay *)

(** The library reads them and does not set them. *)
Definition settings (c : Conversation) := (c_fragmentSize c, c_debug c).

Lemma size_exchange {A} (m : M A) : leaves exchange_frame m -> leaves settings m.
Proof. apply keeps_weaken. intros c c' E. unfold exchange_frame, settings in *. congruence. Qed.
Lemma size_smp {A} (m : M A) : leaves smp_frame m -> leaves settings m.
Proof. apply keeps_weaken. intros c c' E. unfold smp_frame, settings in *. congruence. Qed.
Lemma size_sent {A} (m : M A) : keeps sent m -> leaves settings m.
Proof. apply keeps_weaken. intros c c' [E _]. unfold sent_frame, settings in *. congruence. Qed.
Lemma size_drawn {A} (m : M A) : leaves drawn m -> leaves settings m.
Proof. apply keeps_weaken. intros c c' E. unfold drawn, settings in *. congruence. Qed.

Lemma size_commit n : leaves settings (commitToVersionFrom n).
Proof. apply size_drawn, drawn_commit. Qed.
Lemma size_startAKE : leaves settings startAKE.
Proof. pose proof (size_exchange _ frame_sendDHCommit). unfold startAKE, potentialAuthError. solve_leaves. Qed.
#[local] Hint Resolve size_commit size_startAKE : leaves.
Lemma size_receiveQueryMessage m : leaves settings (receiveQueryMessage m).
Proof. unfold receiveQueryMessage. solve_leaves. Qed.
Lemma size_receiveTaggedPlaintext m : leaves settings (receiveTaggedPlaintext m).
Proof. unfold receiveTaggedPlaintext, processWhitespaceTag, startAKEFromWhitespaceTag, checkPlaintextPolicies. solve_leaves. Qed.

Lemma size_processTLVs ts key : leaves settings (processTLVs ts key).
Proof.
  assert (forall m, leaves settings (receiveSMP m)) by (intros m; apply size_smp, smp_frame_receiveSMP).
  assert (forall t, leaves settings (processSMPTLV t)) by (intros t; unfold processSMPTLV; solve_leaves).
  assert (leaves settings processDisconnectedTLV) by (unfold processDisconnectedTLV; solve_leaves).
  assert (forall t, leaves settings (processExtraSymmetricKeyTLV t key)) by (intros t; unfold processExtraSymmetricKeyTLV; solve_leaves).
  assert (forall t h, handleTLV t key = Some h -> leaves settings h).
  { intros t h. unfold handleTLV. intros E. repeat case_match; simplify_eq; auto. unfold processPaddingTLV. solve_leaves. }
  induction ts as [|t ts IH]; cbn [processTLVs]; solve_leaves.
Qed.

Lemma size_receiveEncoded m : leaves settings (receiveEncoded m).
Proof.
  assert (forall m flag tlvs, leaves settings (genDataMsgWithFlag m flag tlvs)) by (intros; apply size_sent, sent_genDataMsg).
  assert (forall t m, leaves settings (wrapMessageHeader t m)) by (intros; apply size_sent, sent_wrapMessageHeader).
  assert (forall o, leaves settings (maybeHeartbeat o)) by (intros; apply size_sent, sent_maybeHeartbeat).
  assert (forall t m, leaves settings (processAKE t m)) by (intros; apply size_exchange, frame_processAKE).
  assert (forall our their v, leaves settings (conv_sessionKeys our their v)) by (intros; apply size_sent, sent_sessionKeys).
  assert (forall dm, leaves settings (conv_rotateKeys dm)) by (intros dm c; unfold wlp, conv_rotateKeys; by destruct (rotateKeys _ _ _ _ _) as [[[? ?] ?]|]).
  assert (forall dm, leaves settings (conv_checkMessageCounter dm)) by (intros dm c; unfold wlp, conv_checkMessageCounter; by destruct (checkMessageCounter _ _ _ _)).
  assert (forall dm p keys v, leaves settings (afterDecryption dm p keys v)) by (unfold afterDecryption; pose proof size_processTLVs; solve_leaves).
  assert (forall header body, leaves settings (receiveDataMessage header body))
    by (unfold receiveDataMessage, processDataMessage, processDataMessageWithRawErrors, notifyDataMessageError; solve_leaves).
  assert (forall msg, leaves settings (parseMessageHeader msg))
    by (unfold parseMessageHeader, otrV2_parseMessageHeader, otrV3_parseMessageHeader, verifyInstanceTags, malformedMessage; solve_leaves).
  unfold receiveEncoded, receiveDecoded, receiveAKEMessage, potentialAuthError, checkVersion. solve_leaves. by intros c.
Qed.

(** Why [Receive] panics.  An encoded message: it is a data message of the
    session that is cut off.  A query or a tag that starts an exchange: its
    public value is too short.  Any of these, when the reply is cut into
    fragments.  A fragment: the message it completes does that, or the stack for
    completed sequences is exhausted.  Nothing else does. *)
Definition receive_panic (c : Conversation) (m : list byte) (p : panic) : Prop :=
  match guessMessageType m with
  | msgGuessDHCommit | msgGuessDHKey | msgGuessRevealSig | msgGuessSignature | msgGuessData =>
      p = SliceBounds /\ ((c_msgState c = encrypted /\ truncated m) \/ c_fragmentSize c <> 0)
  | msgGuessQuery | msgGuessTaggedPlaintext => p = SliceBounds /\ (small_value c \/ c_fragmentSize c <> 0)
  | msgGuessFragment => p = StackOverflow \/ (p = SliceBounds /\ (c_msgState c = encrypted \/ small_value c \/ c_fragmentSize c <> 0))
  | msgGuessNotOTR | msgGuessV1KeyExch | msgGuessError | msgGuessUnknown => False
  end.

(** What completes a sequence panics for the causes of the fragment. *)
Lemma receive_panic_drawn c c' m m' p : drawn c' = drawn c -> receive_panic c' m' p -> guessMessageType m = msgGuessFragment -> receive_panic c m p.
Proof.
  intros [= Er Em Ef Ed] Hp Hg. unfold receive_panic in *. rewrite Hg. rewrite Em, Ef in Hp.
  assert (small_value c' -> small_value c) as Hs by (by apply small_value_rand). destruct (guessMessageType m'); intuition.
Qed.

Definition unit_panic (n : nat) (c : Conversation) (m : list byte) (p : panic) : Prop := (n = O /\ p = StackOverflow) \/ receive_panic c m p.

Lemma wpx_and {A} (E : panic -> Prop) (m : M A) c P Q : wpx E m c P -> wlp m c Q -> wpx E m c (fun a c' => P a c' /\ Q a c').
Proof. unfold wpx, wlp. by destruct (m c) as [[a c']|p]. Qed.

(** A part of [receiveUnit] followed by the rest. *)
Lemma unit_seq {A} n c m (k : M A) (f : A -> handled) (E : panic -> Prop) b : wpx E k c (fun a c' => outgoing (f a) c') -> leaves settings k ->
  (forall p, E p \/ split_panic c p -> receive_panic c m p) -> wpx (unit_panic n c m) (a ← k; finishUnit b (f a)) c fine.
Proof.
  intros Hk Hz HE. apply wpx_bind. eapply wpx_weaken; [eapply wpx_mono; [apply wpx_and; [exact Hk|apply Hz]|]|].
  - intros a c' [Ho [= Ef _]]. eapply wpx_weaken; [by apply finishUnit_inv|]. intros p [[-> Hs] _]. right. apply HE. right. split; [done|]. by rewrite <- Ef.
  - intros p Hp. right. apply HE. by left.
Qed.

(** Nothing to send, nothing to split. *)
Lemma finish_silent E b o e c : inv c -> wpx E (finishUnit b (o, [], e)) c fine.
Proof. intros Hi. eapply wpx_weaken; [apply finishUnit_inv; by left|]. by intros p [_ Hn]. Qed.

Lemma receiveUnit_inv n : forall m b c, inv c -> wpx (unit_panic n c m) (receiveUnit n m b) c fine.
Proof.
  induction n as [|n IH]; intros m b c Hi; [by left|]. cbn [receiveUnit]. eapply wpx_done; [done|].
  destruct (negb _); [apply wpx_ret; by left|]. pose proof (guess_shape m) as Hg.
  destruct (guessMessageType m) eqn:Eg; unfold receive_panic.
  1: { unfold receivePlaintext. apply wpx_bind, wpx_of_wp. wp_spec quiet_plaintextPolicies. intros _ c1 E. apply wp_ret, finish_silent. by eapply conv_inv_view. }
  all: try (eapply (unit_seq _ _ _ _ (fun h => h)); [by apply receiveEncoded_inv|apply size_receiveEncoded|
    intros p; unfold receive_panic, split_panic; rewrite Eg; tauto]; fail).
  - eapply (unit_seq _ _ _ _ (fun h => h)); [eapply wpx_mono; [by apply receiveTaggedPlaintext_inv|]|apply size_receiveTaggedPlaintext|].
    + intros h c1 Ha. by left.
    + intros p. unfold receive_panic, split_panic. rewrite Eg. tauto.
  - eapply (unit_seq _ _ _ _ (fun r => (None, fst r, snd r))); [eapply wpx_mono; [by apply receiveQueryMessage_inv|]|apply size_receiveQueryMessage|].
    + intros r c1 Ha. by left.
    + intros p. unfold receive_panic, split_panic. rewrite Eg. tauto.
  - apply wpx_ret. by left.
  - apply wpx_of_wp. wp_spec receiveErrorMessage_inv; [done..|]. intros h c1 Hi1. apply withInjectionsPlain_inv. by left.
  - apply wpx_bind, wpx_of_wp. eapply wp_mono; [by apply receiveFragment_inv|]. intros fe c1 [Hi1 Hd1].
    eapply wpx_done; [done|]. set (c2 := c1 <| c_fragmentationContext := _ |>).
    assert (inv c2) as Hi2 by (by apply (conv_inv_view c1)).
    destruct (fragmentsFinished (fst fe)); [|by apply finish_silent].
    apply wpx_bind. eapply wpx_weaken; [eapply wpx_mono; [by apply IH|]|].
    + intros h c3 Hi3. apply wpx_of_wp. by apply withInjectionsPlain_inv.
    + intros p [[_ ->]|Hp]; right; [unfold receive_panic; rewrite Eg; by left|by eapply (receive_panic_drawn c c2)].
  - apply wpx_bind, wpx_of_wp, (wp_mono _ _ (fun _ c' => view c' = view c)); [apply quiet_logEvent|]. intros _ c1 E. apply finish_silent. by eapply conv_inv_view.
Qed.

(** ** The user's calls *)

(** A data message of the session is cut into fragments. *)
Definition data_split (c : Conversation) (p : panic) : Prop := split_panic c p /\ c_msgState c = encrypted.

(** The text asks for a dump, and there is no version or no peer's key to print. *)
Definition dump_panic (c : Conversation) (m : list byte) (p : panic) : Prop :=
  p = NilDeref /\ c_debug c = true /\ Index m debugString <> -1 /\ (c_version c = None \/ (is_Some (c_ake c) /\ c_theirKey c = None)).

Lemma dump_cause c p : dump c = Panicked p -> p = NilDeref /\ (c_version c = None \/ (is_Some (c_ake c) /\ c_theirKey c = None)).
Proof.
  unfold dump, dumpAKE. destruct (c_version c) as [v|]; cbn; [|intros [= <-]; auto].
  destruct (c_ake c) as [a|]; cbn; [|done]. destruct (c_theirKey c) as [k|]; cbn; [done|]. intros [= <-]. eauto.
Qed.

Lemma withInjections_inv r c : inv c -> wp (withInjections r) c (fun _ c' => inv c').
Proof. intros Hi. unfold withInjections. wp_spec quiet_withInjects. intros v c1 E. apply wp_ret. by eapply conv_inv_view. Qed.

Lemma sendOnPlaintext_inv m t c : inv c -> wp (sendMessageOnPlaintext m t) c (fun _ c' => still c c').
Proof.
  intros Hi. unfold sendMessageOnPlaintext. do 2 wp_step. destruct (has _ requireEncryption).
  - apply wp_bind, (wp_still _ c c); [apply quiet_logEvent|done|]. intros _ c1 H1c.
    apply wp_bind, (wp_still _ c c1); [apply quiet_updateLastSent|done|]. intros _ c2 H2.
    apply wp_bind, (wp_still _ c c2); [apply quiet_modResend|done|]. intros _ c3 H3.
    apply wp_bind, (wp_still _ c c3); [apply quiet_modResend|done|]. intros _ c4 H4. by apply wp_ret.
  - unfold appendWhitespaceTag. apply wp_bind. do 2 wp_step. destruct (_ || _); [by do 2 apply wp_ret|]. do 2 wp_step.
    do 2 apply wp_ret. by apply steady_view.
Qed.

Lemma sendOnEncrypted_inv m c : inv c -> wpx (data_split c) (sendMessageOnEncrypted m) c (fun _ c' => inv c').
Proof.
  intros Hi. unfold sendMessageOnEncrypted. apply wpx_bind. eapply wpx_mono; [by apply (createSerialized_inv (valid := valid))|].
  intros [[res x]|e] c1 H1c; [apply wpx_ret, H1c|]. apply wpx_of_wp.
  apply wp_bind, (wp_still _ c c1); [apply quiet_logEvent|done|]. intros _ c2 H2.
  apply wp_bind, (wp_still _ c c2); [apply quiet_potentialError|done|]. intros _ c3 H3. apply wp_ret, H3.
Qed.

Lemma Send_inv m t c : inv c -> wpx (fun p => data_split c p \/ dump_panic c m p) (Send m t) c (fun _ c' => inv c').
Proof.
  intros Hi. unfold Send. eapply wpx_done; [done|]. destruct (negb _); [by apply wpx_ret|].
  destruct (c_debug c && _) eqn:Ed.
  - apply andb_true_iff in Ed as [Ed Ex]. apply wpx_bind. unfold wpx at 1, glift. destruct (dump c) as [text|p] eqn:E.
    + eapply wpx_done; [done|]. apply wpx_ret. by apply (conv_inv_view c).
    + right. destruct (dump_cause c p E) as [-> Hc]. split_and!; [done|done|by apply negb_true_iff, Z.eqb_neq in Ex|done].
  - destruct (c_msgState c) eqn:Es.
    + apply wpx_bind, wpx_of_wp. eapply wp_mono; [by apply sendOnPlaintext_inv|]. intros r c' [Hi' _]. apply wpx_of_wp. by apply withInjections_inv.
    + apply wpx_bind. eapply wpx_weaken; [eapply wpx_mono; [by apply sendOnEncrypted_inv|]|by left].
      intros r c' Hi'. apply wpx_of_wp. by apply withInjections_inv.
    + apply wpx_of_wp. wp_spec quiet_logEvent. intros _ c1 E. apply withInjections_inv. by eapply conv_inv_view.
Qed.

Lemma serialize_tail {A} flag tlvs (f : list (list byte) * list byte -> A) c : inv c ->
  wpx (data_split c) (r ←? createSerializedDataMessage [] flag tlvs; mret (Ok (f r))) c (fun _ c' => inv c').
Proof.
  intros Hi. unfold tryb. apply wpx_bind. eapply wpx_mono; [by apply (createSerialized_inv (valid := valid))|].
  intros [r|e] c1 [Hi1 _]; by apply wpx_ret.
Qed.

Lemma UseExtraSymmetricKey_inv usage d c : inv c -> wpx (data_split c) (UseExtraSymmetricKey usage d) c (fun _ c' => inv c').
Proof.
  intros Hi. unfold UseExtraSymmetricKey. eapply wpx_done; [done|]. destruct (_ || _); [by apply wpx_ret|]. cbn zeta.
  by apply (serialize_tail _ _ (fun r => (snd r, fst r))).
Qed.

Lemma AbortAuthentication_inv c : inv c -> wpx (data_split c) AbortAuthentication c (fun _ c' => inv c').
Proof.
  intros Hi. unfold AbortAuthentication, restartSMP, modSMP. eapply wpx_done; [done|].
  set (c1 := c <| c_smp := _ |>). change (data_split c) with (data_split c1). apply (serialize_tail _ _ fst). by apply conv_inv_smp.
Qed.

Lemma End_inv c : inv c -> wpx (data_split c) End c (fun _ c' => inv c').
Proof.
  intros Hi. unfold End. eapply wpx_done; [done|]. apply wpx_bind, (wpx_mono _ _ _ (fun _ c' => inv c')).
  { destruct (IsEncrypted c); [|by apply wpx_ret]. unfold smp_wipe. eapply wpx_done; [done|].
    set (c1 := c <| c_smp := _ |>). change (data_split c) with (data_split c1). apply wpx_bind.
    eapply wpx_mono; [apply (createSerialized_inv (valid := valid)); by apply conv_inv_smp|]. intros [[ts x]|e] c2 [Hi1 _]; by apply wpx_ret. }
  intros r c1 Hi1. apply wpx_of_wp. unfold wipeSessionKeys, modKeys. do 4 wp_step. wp_spec quiet_signal. intros _ c2 E2. apply wp_ret.
  eapply conv_inv_view; [exact E2|].
  set (k := (c_keys c1) <| ourCurrentDHKeys := no_keys |> <| ourPreviousDHKeys := no_keys |>
    <| theirCurrentDHPubKey := (fun _ => 0) <$> theirCurrentDHPubKey (c_keys c1) |>).
  apply (conv_inv_view (c1 <| c_msgState := plainText |> <| c_ake := None |> <| c_keys := k |> <| c_smp := c_smp c1 |>)); [done|].
  apply conv_inv_over; [done|done|apply Hi1].
Qed.

Lemma conv_inv_frame c c' : inv c -> smp_frame c' = smp_frame c -> smp_ok (c_smp c') -> inv c'.
Proof.
  intros Hi E Hx. apply (conv_inv_view (c <| c_smp := c_smp c' |>)); [|by apply conv_inv_smp].
  unfold smp_frame in E. injection E as E1 E2 E3 E4 E5 E6 E7 E8 E9 E10 E11. unfold view. cbn. congruence.
Qed.

(** SMP changes nothing that matters to splitting. *)
Lemma data_split_frame c c' p : smp_frame c' = smp_frame c -> data_split c' p -> data_split c p.
Proof.
  unfold smp_frame. intros E [[-> Hf] He]. injection E as E1 E2 E3 E4 E5 E6 E7 E8 E9 E10 E11. split; [|congruence]. split; [done|congruence].
Qed.

(** A live session without the peer's long-term key. *)
Definition unkeyed (c : Conversation) : Prop := c_msgState c = encrypted /\ c_theirKey c = None.

Lemma keyed_smp_inv c : inv c -> c_msgState c = encrypted -> is_Some (c_theirKey c) -> smp_inv c.
Proof.
  intros Hi He Hk. destruct (conv_inv_fit c Hi He) as [Hv (sk & Ho & _)]. split; [done|]. split; [|apply Hi]. rewrite Ho. eauto.
Qed.

Lemma startAuthenticate_inv s q secret c : inv c -> smp_state (c_smp c) = Some s ->
  wpx (fun p => p = NilDeref /\ unkeyed c) (startAuthenticate s q secret) c (fun _ c' => inv c').
Proof.
  intros Hi Hs. destruct (decide (c_msgState c = encrypted)) as [He|Hn].
  - destruct (c_theirKey c) as [k|] eqn:Ek.
    + apply wpx_of_wp. pose proof (keyed_smp_inv c Hi He) as Hm. rewrite Ek in Hm. specialize (Hm ltac:(eauto)).
      eapply wp_mono; [apply wp_and; [by apply wp_startAuthenticate|apply smp_frame_startAuthenticate]|].
      intros r c' [[(_ & _ & Hx) _] E]. by eapply conv_inv_frame.
    + assert (startAuthenticateExpect1 q secret c = Panicked NilDeref) as Hp.
      { destruct (conv_inv_fit c Hi He) as [_ (sk & Ho & _)]. unfold startAuthenticateExpect1, theOurKey, theTheirKey, IsEncrypted.
        go_simpl. rewrite bool_decide_true by done. cbn [negb]. go_simpl. rewrite Ho. cbn. by rewrite Ek. }
      assert (startAuthenticate s q secret c = Panicked NilDeref) as Hp'
        by (destruct s; cbn [startAuthenticate]; [exact Hp|unfold tryb, mbind, gom_bind; by rewrite Hp..]).
      unfold wpx. by rewrite Hp'.
  - apply wpx_of_wp. assert (startAuthenticateExpect1 q secret c = Done (Err errCantAuthenticateWithoutEncryption, c)) as Hp.
    { unfold startAuthenticateExpect1, IsEncrypted. rewrite bind_gget, bool_decide_false by done. done. }
    destruct s; cbn [startAuthenticate]; try (by eapply wp_done); apply wp_tryb; by eapply wp_done.
Qed.

Lemma StartAuthenticate_inv q secret c : inv c ->
  wpx (fun p => (p = NilDeref /\ unkeyed c) \/ data_split c p) (StartAuthenticate q secret) c (fun _ c' => inv c').
Proof.
  intros Hi. unfold StartAuthenticate, ensureSMP. eapply wpx_done; [done|].
  set (c1 := match smp_state (c_smp c) with Some _ => c | None => _ end).
  assert (inv c1 /\ is_Some (smp_state (c_smp c1)) /\ (unkeyed c1 -> unkeyed c) /\ smp_frame c1 = smp_frame c) as (Hi1 & [s Hs] & Hu & Ef).
  { unfold c1. destruct (smp_state (c_smp c)) eqn:E; [by rewrite E|]. split_and!; [by apply conv_inv_smp|done|done|done]. }
  eapply wpx_done; [done|]. eapply (wpx_done _ _ _ _ s c1); [unfold glift; by rewrite Hs|]. unfold tryb at 1. apply wpx_bind.
  eapply wpx_weaken; [eapply wpx_mono; [apply wpx_and; [by apply (startAuthenticate_inv s)|apply smp_frame_startAuthenticate]|]|].
  - intros [tlvs|e] c2 [Hi2 E2]; [|by apply wpx_ret]. eapply wpx_weaken; [by apply (serialize_tail _ _ fst)|].
    intros p Hp. right. eapply data_split_frame; [|exact Hp]. by rewrite E2.
  - intros p [-> Hp]. auto.
Qed.

(** The state to resume from is missing, or the peer's key is. *)
Definition no_secret_expected (c : Conversation) : Prop := smp_state (c_smp c) = None \/ unkeyed c.

(** Without a session, or without the peer's key, there is no answer to give. *)
Lemma continueMessage1_unkeyed s secret c : c_msgState c <> encrypted \/ c_theirKey c = None ->
  continueMessage1 s secret c = Panicked NilDeref \/ exists e, continueMessage1 s secret c = Done (abortState (Some e), c).
Proof.
  intros Hc. destruct s as [| | | |m]; cbn [continueMessage1]; try (right; by eexists). unfold IsEncrypted. rewrite bind_gget.
  destruct (bool_decide_reflect (c_msgState c = encrypted)) as [He|]; cbn [negb]; [|right; by eexists].
  left. destruct Hc as [|Hk]; [done|]. unfold theTheirKey. go_simpl. by rewrite Hk.
Qed.

Lemma continueSMP_refused s secret e c E : inv c -> smp_state (c_smp c) = Some s -> continueMessage1 s secret c = Done (abortState (Some e), c) ->
  wpx E (continueSMP secret) c (fun _ c' => inv c').
Proof.
  intros Hi Hs Hd. apply wpx_of_wp. unfold continueSMP, continueMessage, runHandler. apply wp_bind. do 2 wp_step.
  apply wp_bind. eapply wp_glift; [by rewrite Hs|]. wp_run Hd. unfold abortState, modSMP. cbn iota beta. do 2 wp_step. do 2 apply wp_ret. by apply conv_inv_smp.
Qed.

Lemma continueSMP_inv secret c : inv c -> wpx (fun p => p = NilDeref /\ no_secret_expected c) (continueSMP secret) c (fun _ c' => inv c').
Proof.
  intros Hi. unfold no_secret_expected. destruct (smp_state (c_smp c)) as [s|] eqn:Hs.
  2:{ unfold wpx, continueSMP, continueMessage, runHandler. go_simpl. rewrite Hs. cbn. auto. }
  destruct (decide (c_msgState c = encrypted)) as [He|Hn].
  - destruct (c_theirKey c) as [k|] eqn:Ek.
    + apply wpx_of_wp. pose proof (keyed_smp_inv c Hi He) as Hm. rewrite Ek in Hm. specialize (Hm ltac:(eauto)).
      eapply wp_mono; [apply wp_and; [apply wp_continueSMP; [done..|by rewrite Hs]|apply smp_frame_continueSMP]|].
      intros r c' [[(_ & _ & Hx) _] E]. by eapply conv_inv_frame.
    + destruct (continueMessage1_unkeyed s secret c) as [Hp|[e Hd]]; [by right|..]; [|by eapply continueSMP_refused].
      unfold wpx, continueSMP, continueMessage, runHandler, mbind, gom_bind, gget, glift. rewrite Hs. cbn. rewrite Hp. unfold unkeyed. auto.
  - destruct (continueMessage1_unkeyed s secret c) as [Hp|[e Hd]]; [by left|..]; [|by eapply continueSMP_refused].
    exfalso. destruct s; try done. unfold continueMessage1, IsEncrypted in Hp. rewrite bind_gget, bool_decide_false in Hp by done. done.
Qed.

Lemma ProvideAuthenticationSecret_inv secret c : inv c ->
  wpx (fun p => (p = NilDeref /\ no_secret_expected c) \/ data_split c p) (ProvideAuthenticationSecret secret) c (fun _ c' => inv c').
Proof.
  intros Hi. unfold ProvideAuthenticationSecret. unfold tryb at 1. apply wpx_bind.
  eapply wpx_weaken; [eapply wpx_mono; [apply wpx_and; [by apply continueSMP_inv|apply smp_frame_continueSMP]|]|].
  - intros [t|e] c1 [Hi1 E1]; [|by apply wpx_ret]. eapply wpx_weaken; [by apply (serialize_tail _ _ fst)|].
    intros p Hp. right. by eapply data_split_frame.
  - intros p Hp. by left.
Qed.

(** ** Settings *)

Lemma InitializeInstanceTag_inv tag c : inv c -> wp (InitializeInstanceTag tag) c (fun _ c' => inv c').
Proof.
  intros Hi. unfold InitializeInstanceTag. apply wp_bind, (wp_mono _ _ (fun _ c' => inv c')); [|intros _ c' Hi'; by do 2 wp_step].
  destruct (Z.eqb_spec tag 0) as [_|Hn].
  - apply wp_bind. unfold wp at 1, generateInstanceTag. destruct (Z.eqb_spec (c_ourInstanceTag c) 0) as [_|_]; cbn [negb]; [|by apply wp_ret].
    destruct (instanceTagLoop _ _) as [[t|e] r] eqn:E; apply wp_ret; [|by apply (conv_inv_view c)].
    apply instanceTagLoop_range in E. apply conv_inv_tag; [done|]. unfold minValidInstanceTag in E. lia.
  - apply wp_gmod. apply (conv_inv_view (c <| c_Rand := c_Rand c |> <| c_ourInstanceTag := tag |>)); [done|]. by apply conv_inv_tag.
Qed.

(** A setter or policy method that leaves what the invariant reads. *)
Lemma setting_inv (f : Conversation -> Conversation) c : inv c -> view (f c) = view c -> wp (gmod f) c (fun _ c' => inv c').
Proof. intros Hi E. apply wp_gmod. by apply (conv_inv_view c). Qed.

Lemma SetOurKeys_inv ks c : inv c -> ks <> [] -> Forall (fun k => valid (sk_PrivateKey k)) ks -> wp (SetOurKeys ks) c (fun _ c' => inv c').
Proof. intros [Hp Hk Hv Ha Hs Hm] Hn Hf. apply wp_gmod. by constructor. Qed.

(** ** The interface *)

(** What the caller owes: keys that can sign, and version 3 only. *)
Definition call_ok (x : call) : Prop :=
  match x with
  | CallSetOurKeys ks => ks <> [] /\ Forall (fun k => valid (sk_PrivateKey k)) ks
  | CallPolicy PolicyAllowV2 => False
  | _ => True
  end.

Lemma policy_inv y c : inv c -> call_ok (CallPolicy y) ->
  wp (gmod (fun c => c <| c_Policies := policyMethod y (c_Policies c) |>)) c (fun _ c' => inv c').
Proof.
  intros [Hp Hk Hv Ha Hs Hm] Hy. apply wp_gmod. constructor; try done. cbn.
  assert (forall p, p ∈ all_policies -> p <> allowV2 -> has (add (c_Policies c) p) allowV2 = false) as Hadd.
  { intros p Hin Hne. rewrite policy_add_has, Hp by (done || by left). by apply Z.eqb_neq. }
  destruct y; try done; apply Hadd; try done; unfold all_policies; set_solver.
Qed.

(** Why a call panics. *)
Definition call_panic (x : call) (c : Conversation) (p : panic) : Prop :=
  match x with
  | CallReceive m => receive_panic c m p
  | CallSend m _ => data_split c p \/ dump_panic c m p
  | CallEnd | CallAbortAuthentication | CallUseExtraSymmetricKey _ _ => data_split c p
  | CallStartAuthenticate _ _ => (p = NilDeref /\ unkeyed c) \/ data_split c p
  | CallProvideAuthenticationSecret _ => (p = NilDeref /\ no_secret_expected c) \/ data_split c p
  | _ => False
  end.

Lemma call_seq {A} (E : panic -> Prop) (m : M A) (f : A -> option error) c : wpx E m c (fun _ c' => inv c') ->
  wpx E (r ← m; mret (f r)) c (fun err c' => inv c' \/ unsigned err).
Proof. intros Hm. apply wpx_bind. eapply wpx_mono; [exact Hm|]. intros r c' Hi. apply wpx_ret. by left. Qed.

Lemma perform_inv n x c : inv c -> call_ok x -> wpx (call_panic x c) (perform (S n) x) c (fun err c' => inv c' \/ unsigned err).
Proof.
  intros Hi Hx. destruct x; cbn [perform call_panic].
  { apply wpx_bind. eapply wpx_weaken; [eapply wpx_mono; [by apply (receiveUnit_inv (S n))|]|].
    + intros h c1 Hf. by apply wpx_ret.
    + intros p [[E _]|Hp]; [done|exact Hp]. }
  all: apply call_seq.
  1: by apply Send_inv.
  1: by apply End_inv.
  1: by apply StartAuthenticate_inv.
  1: by apply ProvideAuthenticationSecret_inv.
  1: by apply AbortAuthentication_inv.
  1: by apply UseExtraSymmetricKey_inv.
  all: apply wpx_of_wp.
  1: by apply InitializeInstanceTag_inv.
  4: by apply SetOurKeys_inv; [done|apply Hx..].
  4: by apply policy_inv.
  all: by apply setting_inv.
Qed.

(** The settings after a call. *)
Definition settings_after (x : call) (s : Z * bool) : Z * bool :=
  match x with CallSetFragmentSize size => (size, snd s) | CallSetDebug d => (fst s, d) | _ => s end.

Lemma settings_serialize msg flag tlvs : leaves settings (createSerializedDataMessage msg flag tlvs).
Proof. apply size_sent, sent_createSerialized. Qed.
Lemma settings_withInjects ms : leaves settings (withInjects ms).
Proof. unfold withInjects. solve_leaves. Qed.
#[local] Hint Resolve settings_serialize settings_withInjects size_receiveQueryMessage size_receiveTaggedPlaintext size_receiveEncoded : leaves.

Lemma settings_finishUnit b h : leaves settings (finishUnit b h).
Proof.
  assert (forall ms, leaves settings (encodeAndCombine ms)).
  { induction ms; cbn [encodeAndCombine]; unfold fragEncode, fragment; solve_leaves. }
  unfold finishUnit, toSendEncoded, withInjectionsPlain. solve_leaves.
Qed.
#[local] Hint Resolve settings_finishUnit : leaves.

Lemma settings_receiveUnit n : forall m b, leaves settings (receiveUnit n m b).
Proof.
  assert (forall f m, leaves settings (receiveFragment f m)) by (intros; apply size_drawn, drawn_receiveFragment).
  induction n as [|n IH]; intros m b; [by intros c|]. cbn [receiveUnit].
  unfold receiveErrorMessage, receivePlaintext, checkPlaintextPolicies, withInjectionsPlain. solve_leaves.
Qed.

Lemma settings_Send m t : leaves settings (Send m t).
Proof. unfold Send, sendMessageOnPlaintext, appendWhitespaceTag, sendMessageOnEncrypted, withInjections. solve_leaves. Qed.
Lemma settings_End : leaves settings End.
Proof. unfold End, wipeSessionKeys. solve_leaves. Qed.
Lemma settings_StartAuthenticate q secret : leaves settings (StartAuthenticate q secret).
Proof.
  assert (forall s, leaves settings (startAuthenticate s q secret)) by (intros s; apply size_smp, smp_frame_startAuthenticate).
  unfold StartAuthenticate. solve_leaves.
Qed.
Lemma settings_ProvideAuthenticationSecret secret : leaves settings (ProvideAuthenticationSecret secret).
Proof. assert (leaves settings (continueSMP secret)) by (apply size_smp, smp_frame_continueSMP). unfold ProvideAuthenticationSecret. solve_leaves. Qed.
Lemma settings_AbortAuthentication : leaves settings AbortAuthentication.
Proof. unfold AbortAuthentication, restartSMP. solve_leaves. Qed.
Lemma settings_UseExtraSymmetricKey usage d : leaves settings (UseExtraSymmetricKey usage d).
Proof. unfold UseExtraSymmetricKey. solve_leaves. Qed.
Lemma settings_InitializeInstanceTag tag : leaves settings (InitializeInstanceTag tag).
Proof. assert (leaves settings generateInstanceTag) by (apply size_sent, sent_generateInstanceTag). unfold InitializeInstanceTag. solve_leaves. Qed.
#[local] Hint Resolve settings_Send settings_End settings_StartAuthenticate settings_ProvideAuthenticationSecret settings_AbortAuthentication
  settings_UseExtraSymmetricKey settings_InitializeInstanceTag settings_receiveUnit : leaves.

Lemma settings_call {A} (m : M A) (f : A -> option error) c : leaves settings m -> wlp (r ← m; mret (f r)) c (fun _ c' => settings c' = settings c).
Proof. intros Hm. apply wlp_bind. eapply wlp_mono; [apply Hm|]. by intros a c' E. Qed.

Lemma settings_perform n x c : wlp (perform n x) c (fun _ c' => settings c' = settings_after x (settings c)).
Proof. destruct x; cbn [perform settings_after]; unfold Receive; first [apply settings_call; solve [eauto with leaves] | reflexivity]. Qed.

(** The conversations a program gets to by such calls, none of which reports a
    failed signature. *)
Inductive reached (n : nat) (c0 : Conversation) : Conversation -> Prop :=
  | reached_start : reached n c0 c0
  | reached_call x c err c' : reached n c0 c -> call_ok x -> perform (S n) x c = Done (err, c') -> ~ unsigned err -> reached n c0 c'.

Lemma reached_inv n c0 c : inv c0 -> reached n c0 c -> inv c.
Proof.
  intros H0'. induction 1 as [|x c err c' _ IH Hx E Hu]; [done|]. pose proof (perform_inv n x c IH Hx) as Hw. unfold wpx in Hw. rewrite E in Hw.
  by destruct Hw.
Qed.

(** A conversation with the user's keys, before the first message. *)
Lemma fresh_inv p keys rand now fresh : has p allowV2 = false -> keys <> [] -> Forall (fun k => valid (sk_PrivateKey k)) keys ->
  inv (new_conversation None p keys rand now fresh).
Proof. intros Hp Hne Hk. constructor; try done. by left. Qed.

(** ** Theorems *)

(** C6: Every call keeps the conversation in order.  The group has a prime
    modulus, and the conversation satisfies the invariant: version 2 is not
    allowed and the keys can sign.  A call on it, with whatever bytes the network
    delivers and whatever the user asks for or sets (but for version 2 and keys
    that cannot sign), returns with a conversation that satisfies the invariant
    again, or returns the error of a signature it could not make, or panics for
    a cause named in [call_panic]: a cut-off data message in a session, a public
    value too short to encrypt, a fragment size, fragments nested beyond the
    stack, a debug dump with nothing to print, or an authentication without the
    SMP state or the peer's key it needs.  The fragment size and the debug flag
    are what the user has set. *)
Theorem calls_keep_conversation n x c : conv_inv (valid := valid) c -> call_ok x ->
  match perform (S n) x c with
  | Done (err, c') => (conv_inv (valid := valid) c' \/ unsigned err) /\ settings c' = settings_after x (settings c)
  | Panicked p => call_panic x c p
  end.
Proof. intros Hi Hx. apply (wpx_and (call_panic x c)); [by apply perform_inv|apply settings_perform]. Qed.

(** C7: A program creates a conversation with keys that can sign and a policy
    without version 2, and makes any calls, settings included, in any order and
    with any input, but never allows version 2 or sets keys that cannot sign;
    none of the calls reports a failed signature.  Then the invariant holds, and
    whatever such call comes next panics only for a cause of [call_panic].  While
    no fragment size is set, ending, aborting an authentication and the extra
    symmetric key never panic, and sending does only for a debug dump; choosing
    an instance tag, the settings, and [Receive] on plaintext, error messages and
    everything it does not know never do. *)
Theorem reached_calls_safe n p keys rand now fresh c x : has p allowV2 = false -> keys <> [] ->
  Forall (fun k => valid (sk_PrivateKey k)) keys -> reached n (new_conversation None p keys rand now fresh) c -> call_ok x ->
  conv_inv (valid := valid) c /\ forall q, perform (S n) x c = Panicked q -> call_panic x c q.
Proof.
  intros Hp Hne Hk Hr Hx. pose proof (reached_inv n _ c (fresh_inv p keys rand now fresh Hp Hne Hk) Hr) as Hi. split; [done|].
  intros q E. pose proof (perform_inv n x c Hi Hx) as Hw. unfold wpx in Hw. by rewrite E in Hw.
Qed.

End Calls.

(** ** Witnesses *)

Definition example_key : PrivateKey :=
  let pub := DsaPublicKey (Some 23) (Some 11) (Some 2) (Some 8) in PrivateKeyAt 1 pub (DsaPrivateKey pub (Some 3)).

(** A conversation before the first message, with a random source. *)
Definition fresh_side : Conversation :=
  new_conversation None (allowV3 + sendWhitespaceTag) [example_key] (be_encode 40 5 ++ be_encode 4 0x1234 ++ be_encode 40 6) 0 10.

(** The peer's commitment. *)
Definition example_commit : list byte :=
  encode (headerOf otrV3 0x5678 0 msgTypeDHCommit ++ dhCommit_serialize (DhCommit (bs "sixteen bytes at least") (bs "hash"))).

Lemma calls_keep_conversation_witness : exists c',
  @perform small_group toy_crypto 2 (CallReceive example_commit) fresh_side = Done (None, c') /\
  @conv_inv small_group toy_crypto (fun _ => True) c' /\ (ake_state <$> c_ake c') = Some authStateAwaitingRevealSig.
Proof.
  pose proof (@calls_keep_conversation small_group toy_crypto (fun _ => True) toy_dsa_laws toy_crypto_laws prime_23 ltac:(vm_compute; split; congruence)
    1 (CallReceive example_commit) fresh_side) as HT.
  destruct (@perform small_group toy_crypto 2 (CallReceive example_commit) fresh_side) as [[err c']|p] eqn:E; [|vm_compute in E; discriminate E].
  assert (err = None /\ (ake_state <$> c_ake c') = Some authStateAwaitingRevealSig) as [-> Ha].
  { vm_compute in E. injection E as <- <-. split; reflexivity. }
  exists c'. split; [reflexivity|]. split; [|exact Ha]. destruct HT as [[Hi|(e & He & _)] _]; [|exact I|exact Hi|discriminate He].
  apply fresh_inv; [reflexivity|discriminate|repeat constructor].
Defined.

Lemma reached_calls_safe_witness : exists c,
  @reached small_group toy_crypto (fun _ => True) 1 fresh_side c /\ @conv_inv small_group toy_crypto (fun _ => True) c /\
  exists q, @perform small_group toy_crypto 2 (CallReceive (bs "?OTRv3?")) c = Panicked q /\ @call_panic small_group (CallReceive (bs "?OTRv3?")) c q.
Proof.
  destruct (@perform small_group toy_crypto 2 (CallSend (bs "hello") []) fresh_side) as [[err c]|p] eqn:E; [|vm_compute in E; discriminate E].
  assert (@reached small_group toy_crypto (fun _ => True) 1 fresh_side c) as Hr.
  { eapply reached_call; [apply reached_start| |exact E|]; [exact I|]. vm_compute in E. injection E as <- _. intros (e & He & _). discriminate He. }
  exists c. split; [exact Hr|].
  destruct (@reached_calls_safe small_group toy_crypto (fun _ => True) toy_dsa_laws toy_crypto_laws prime_23 ltac:(vm_compute; split; congruence)
    1 (allowV3 + sendWhitespaceTag) [example_key] (be_encode 40 5 ++ be_encode 4 0x1234 ++ be_encode 40 6) 0 10 c (CallReceive (bs "?OTRv3?"))) as [Hi Hp].
  - reflexivity.
  - discriminate.
  - repeat constructor.
  - exact Hr.
  - exact I.
  - split; [exact Hi|]. destruct (@perform small_group toy_crypto 2 (CallReceive (bs "?OTRv3?")) c) as [[err' c']|q] eqn:E'.
    + vm_compute in E. injection E as <- <-. vm_compute in E'. discriminate E'.
    + exists q. split; [reflexivity|]. apply Hp. reflexivity.
Defined.
